(** * Dark Tamagotchi: the multiplayer session layer

    A shallow embedding of [tamagotchi/network/server.py] (the game server:
    lobby matchmaking, battle rooms, adventure parties) and of the framing
    loops of [src/network/network.py] (the client transport), with the
    properties of the session-layer specification stated over them.

    Conventions of the embedding.
    - A [ClientHandler] object is referred to by its [player_id]; the mutable
      attributes of every handler live in the [clients] table of the server,
      so that two references to one handler alias one record.
    - [str(uuid.uuid4())] is a supply of fresh identifiers: the server state
      carries a counter and the n-th identifier drawn is [uuid4 n].
    - [time.time()] is an input: every operation receives the clock value
      [now] it reads.
    - [ClientHandler.send] never raises (it catches every exception); the
      [outbox] of the server records every call of [send], in order, with its
      recipient.
    - Handler invocations, [match_players] and [clean_up] are interleaved as
      whole operations. *)

From Stdlib Require Import Ascii String.
From stdpp Require Import gmap strings list fin_maps pretty.
From Equations Require Import Equations.

Local Open Scope string_scope.
Local Open Scope nat_scope.
Local Open Scope list_scope.
Set Warnings "-register-all".

(** ** JSON values, as [json.loads] returns them *)

Inductive json : Type :=
| JNull
| JBool (b : bool)
| JNum (z : Z)
| JStr (s : string)
| JArr (items : list json)
| JObj (fields : list (string * json)).

(** [d.get(key, default)] on the fields of an object. *)
Fixpoint dict_get (key : string) (fields : list (string * json)) (default : json) : json :=
  match fields with
  | [] => default
  | (k, v) :: rest => if String.eqb k key then v else dict_get key rest default
  end.

(** [key in d]. *)
Fixpoint dict_has (key : string) (fields : list (string * json)) : bool :=
  match fields with
  | [] => false
  | (k, _) :: rest => if String.eqb k key then true else dict_has key rest
  end.

(** [message_type == "..."] for a decoded value. *)
Definition json_is_str (j : json) (s : string) : bool :=
  match j with
  | JStr t => String.eqb t s
  | _ => false
  end.

(** ** Data model *)

(** A reading of [time.time()]; only equality of readings matters. *)
Definition timestamp := nat.

Inductive role : Type := Player1 | Player2.

Inductive party_state : Type := waiting | active.

Inductive end_reason : Type := disconnect | completion.

Global Instance role_eq_dec : EqDecision role.
Proof. solve_decision. Defined.

Global Instance party_state_eq_dec : EqDecision party_state.
Proof. solve_decision. Defined.

(** The attributes of a [ClientHandler]. Python's [None] creature is [JNull]. *)
Record client : Type := Client {
  player_id : string;
  username : json;
  creature : json;
  in_lobby : bool;
  in_battle : bool;
  battle_id : option string;
  in_adventure : bool;
  adventure_id : option string;
  running : bool
}.

(** [battle_data] of [match_players]. *)
Record battle : Type := Battle {
  b_id : string;
  player1 : string;
  player2 : string;
  creature1 : json;
  creature2 : json;
  current_turn : role;
  start_time : timestamp;
  b_last_activity : timestamp
}.

(** [party_data] of [create_adventure_party]. *)
Record party : Type := Party {
  p_id : string;
  host : string;
  members : list string;
  creatures : list json;
  usernames : list json;
  state : party_state;
  creation_time : timestamp;
  p_last_activity : timestamp
}.

(** One entry of the [ADVENTURE_PARTIES] listing. *)
Record party_info : Type := PartyInfo {
  pi_id : string;
  pi_host : string;
  pi_host_username : json;
  pi_member_count : nat;
  pi_creation_time : timestamp
}.

(** The envelopes the server sends, one constructor per [type]. *)
Inductive envelope : Type :=
| LOBBY_JOINED (pid : string) (uname : json) (players_waiting : nat)
| LOBBY_LEFT (pid : string)
| LOBBY_STATUS (players_waiting : nat) (ts : timestamp)
| BATTLE_START (bid : string) (your_role : role)
    (player_creature opponent_creature : json) (turn : role)
| BATTLE_ACTION (bid : string) (ability_index : json) (turn : role)
| BATTLE_END (bid : string) (winner : option role) (reason : end_reason)
| ADVENTURE_CREATED (aid : string) (pid : string)
| ADVENTURE_JOINED (aid : json) (pid : string)
| ADVENTURE_JOIN_FAILED (aid : json) (message : string)
| ADVENTURE_UPDATE (aid : string) (from_player : string) (data : json) (ts : timestamp)
| ADVENTURE_PARTIES (parties : list party_info)
| ADVENTURE_PARTY_UPDATE (aid : string) (ms : list string) (cs : list json)
    (us : list json) (h : string) (st : party_state) (ts : timestamp)
| ADVENTURE_START (aid : string) (ms : list string) (cs : list json)
    (us : list json) (h : string) (ts : timestamp).

(** The state of a [GameServer], with the record of what it sent. *)
Record server : Type := Server {
  clients : gmap string client;
  lobby : list string;
  battles : gmap string battle;
  adventure_parties : gmap string party;
  outbox : list (string * envelope);
  uuid_ctr : nat
}.

(** [str(uuid.uuid4())]: the n-th fresh identifier. *)
Definition uuid4 (n : nat) : string := pretty n.

(** What a call did: it returned, or an exception left it part way. *)
Inductive outcome : Type :=
| Done (s : server)
| Raised (s : server).

Definition state_of (o : outcome) : server :=
  match o with
  | Done s => s
  | Raised s => s
  end.

(** *** Field updates *)

Definition with_clients (s : server) (cl : gmap string client) : server :=
  Server cl (lobby s) (battles s) (adventure_parties s) (outbox s) (uuid_ctr s).

Definition with_lobby (s : server) (l : list string) : server :=
  Server (clients s) l (battles s) (adventure_parties s) (outbox s) (uuid_ctr s).

Definition with_battles (s : server) (b : gmap string battle) : server :=
  Server (clients s) (lobby s) b (adventure_parties s) (outbox s) (uuid_ctr s).

Definition with_parties (s : server) (p : gmap string party) : server :=
  Server (clients s) (lobby s) (battles s) p (outbox s) (uuid_ctr s).

Definition with_outbox (s : server) (o : list (string * envelope)) : server :=
  Server (clients s) (lobby s) (battles s) (adventure_parties s) o (uuid_ctr s).

Definition with_ctr (s : server) (n : nat) : server :=
  Server (clients s) (lobby s) (battles s) (adventure_parties s) (outbox s) n.

Definition set_username (u : json) (c : client) : client :=
  Client (player_id c) u (creature c) (in_lobby c) (in_battle c) (battle_id c)
         (in_adventure c) (adventure_id c) (running c).

Definition set_creature (cr : json) (c : client) : client :=
  Client (player_id c) (username c) cr (in_lobby c) (in_battle c) (battle_id c)
         (in_adventure c) (adventure_id c) (running c).

Definition set_in_lobby (b : bool) (c : client) : client :=
  Client (player_id c) (username c) (creature c) b (in_battle c) (battle_id c)
         (in_adventure c) (adventure_id c) (running c).

Definition set_battle (b : bool) (bid : option string) (c : client) : client :=
  Client (player_id c) (username c) (creature c) (in_lobby c) b bid
         (in_adventure c) (adventure_id c) (running c).

Definition set_adventure (b : bool) (aid : option string) (c : client) : client :=
  Client (player_id c) (username c) (creature c) (in_lobby c) (in_battle c)
         (battle_id c) b aid (running c).

Definition set_running (b : bool) (c : client) : client :=
  Client (player_id c) (username c) (creature c) (in_lobby c) (in_battle c)
         (battle_id c) (in_adventure c) (adventure_id c) b.

Definition set_turn (r : role) (b : battle) : battle :=
  Battle (b_id b) (player1 b) (player2 b) (creature1 b) (creature2 b) r
         (start_time b) (b_last_activity b).

Definition set_battle_activity (t : timestamp) (b : battle) : battle :=
  Battle (b_id b) (player1 b) (player2 b) (creature1 b) (creature2 b)
         (current_turn b) (start_time b) t.

Definition set_roster (ms : list string) (cs us : list json) (p : party) : party :=
  Party (p_id p) (host p) ms cs us (state p) (creation_time p) (p_last_activity p).

Definition set_host (h : string) (p : party) : party :=
  Party (p_id p) h (members p) (creatures p) (usernames p) (state p)
        (creation_time p) (p_last_activity p).

Definition set_state (st : party_state) (p : party) : party :=
  Party (p_id p) (host p) (members p) (creatures p) (usernames p) st
        (creation_time p) (p_last_activity p).

Definition set_party_activity (t : timestamp) (p : party) : party :=
  Party (p_id p) (host p) (members p) (creatures p) (usernames p) (state p)
        (creation_time p) t.

(** An attribute assignment on the handler [cid]. *)
Definition upd_client (cid : string) (f : client → client) (s : server) : server :=
  with_clients s (alter f cid (clients s)).

(** [ClientHandler.send]: one more envelope for [cid]. *)
Definition send (cid : string) (m : envelope) (s : server) : server :=
  with_outbox s (outbox s ++ [(cid, m)]).

(** [for c in rcpts: c.send(m)]. *)
Definition send_all (rcpts : list string) (m : envelope) (s : server) : server :=
  foldl (λ acc c, send c m acc) s rcpts.

(** ** Lobby management *)

(** [list.remove(x)]: drops the first occurrence. *)
Fixpoint remove_first (x : string) (l : list string) : list string :=
  match l with
  | [] => []
  | y :: rest => if decide (x = y) then rest else y :: remove_first x rest
  end.

Definition get_lobby_count (s : server) : nat := length (lobby s).

Definition broadcast_lobby_status (now : timestamp) (s : server) : server :=
  send_all (lobby s) (LOBBY_STATUS (length (lobby s)) now) s.

Definition add_to_lobby (cid : string) (now : timestamp) (s : server) : server :=
  if decide (cid ∈ lobby s) then s
  else broadcast_lobby_status now (with_lobby s (lobby s ++ [cid])).

Definition remove_from_lobby (cid : string) (now : timestamp) (s : server) : server :=
  if decide (cid ∈ lobby s)
  then broadcast_lobby_status now (with_lobby s (remove_first cid (lobby s)))
  else s.

(** ** Matchmaking *)

(** One execution of [match_players]. The lobby holds handler objects; a
    reference that is not in [clients] cannot arise (handlers are registered
    on accept and never unregistered) and leaves the state alone. *)
Definition match_players (now : timestamp) (s : server) : server :=
  match lobby s with
  | p1 :: p2 :: _ =>
      match clients s !! p1, clients s !! p2 with
      | Some c1, Some c2 =>
          let s := remove_from_lobby p1 now s in
          let s := remove_from_lobby p2 now s in
          let bid := uuid4 (uuid_ctr s) in
          let s := with_ctr s (S (uuid_ctr s)) in
          let bd := Battle bid (player_id c1) (player_id c2)
                           (creature c1) (creature c2) Player1 now now in
          let s := with_battles s (<[bid := bd]> (battles s)) in
          let s := upd_client p1 (set_battle true (Some bid)) s in
          let s := upd_client p2 (set_battle true (Some bid)) s in
          let s := send p1 (BATTLE_START bid Player1 (creature c1) (creature c2) Player1) s in
          send p2 (BATTLE_START bid Player2 (creature c2) (creature c1) Player1) s
      | _, _ => s
      end
  | _ => s
  end.

(** ** Battle management *)

(** [if player_id:] — [None] and the empty string are false. *)
Definition truthy (pid : option string) : bool :=
  match pid with
  | Some p => negb (String.eqb p "")
  | None => false
  end.

(** ["player1" if player_id == battle["player1"] else "player2"]. *)
Definition player_role (bd : battle) (pid : string) : role :=
  if decide (pid = player1 bd) then Player1 else Player2.

Definition other_role (r : role) : role :=
  match r with
  | Player1 => Player2
  | Player2 => Player1
  end.

(** The body of the notification loop of [end_battle] for one participant. *)
Definition notify_battle_end (bid : string) (winner : option role)
    (reason : end_reason) (pid : string) (s : server) : server :=
  match clients s !! pid with
  | Some c =>
      if in_battle c && bool_decide (battle_id c = Some bid)
      then send pid (BATTLE_END bid winner reason)
             (upd_client pid (set_battle false None) s)
      else s
  | None => s
  end.

Definition end_battle (bid : string) (pid : option string) (s : server) : server :=
  match battles s !! bid with
  | None => s
  | Some bd =>
      let winner_role :=
        if truthy pid
        then Some (if decide (pid = Some (player1 bd)) then Player2 else Player1)
        else None in
      let reason := if truthy pid then disconnect else completion in
      let s := notify_battle_end bid winner_role reason (player1 bd) s in
      let s := notify_battle_end bid winner_role reason (player2 bd) s in
      with_battles s (delete bid (battles s))
  end.

Definition process_battle_action (bid pid : string) (ability_index : json)
    (now : timestamp) (s : server) : server :=
  match battles s !! bid with
  | None => s
  | Some bd0 =>
      let bd := set_battle_activity now bd0 in
      let s := with_battles s (<[bid := bd]> (battles s)) in
      let prole := player_role bd pid in
      let orole := other_role prole in
      let opponent_id := match prole with Player1 => player2 bd | Player2 => player1 bd end in
      if decide (current_turn bd = prole) then
        match clients s !! opponent_id with
        | None => end_battle bid (Some pid) s
        | Some _ =>
            let s := with_battles s (<[bid := set_turn orole bd]> (battles s)) in
            send opponent_id (BATTLE_ACTION bid ability_index orole) s
        end
      else s
  end.

(** ** Adventure management *)

(** [for member_id in rcpts: if member_id in self.clients: member.send(m)]. *)
Definition send_known (rcpts : list string) (m : envelope) (s : server) : server :=
  send_all (filter (λ c, is_Some (clients s !! c)) rcpts) m s.

Definition create_adventure_party (c : client) (now : timestamp) (s : server)
    : string * server :=
  let aid := uuid4 (uuid_ctr s) in
  let s := with_ctr s (S (uuid_ctr s)) in
  let pd := Party aid (player_id c) [player_id c] [creature c] [username c]
                  waiting now now in
  (aid, with_parties s (<[aid := pd]> (adventure_parties s))).

Definition broadcast_adventure_update (aid : string) (now : timestamp) (s : server)
    : server :=
  match adventure_parties s !! aid with
  | None => s
  | Some p =>
      send_known (members p)
        (ADVENTURE_PARTY_UPDATE aid (members p) (creatures p) (usernames p)
           (host p) (state p) now) s
  end.

Definition broadcast_adventure_start (aid : string) (now : timestamp) (s : server)
    : server :=
  match adventure_parties s !! aid with
  | None => s
  | Some p =>
      send_known (members p)
        (ADVENTURE_START aid (members p) (creatures p) (usernames p) (host p) now) s
  end.

(** The branch [join_adventure_party] takes, each with its own log line. *)
Inductive join_branch : Type :=
| JoinNotFound
| JoinFull
| JoinNotWaiting
| JoinAccepted.

Global Instance join_branch_eq_dec : EqDecision join_branch.
Proof. solve_decision. Defined.

Definition join_branch_of (party_id : string) (s : server) : join_branch :=
  match adventure_parties s !! party_id with
  | None => JoinNotFound
  | Some p =>
      if decide (4 ≤ length (members p)) then JoinFull
      else if decide (state p = waiting) then JoinAccepted
      else JoinNotWaiting
  end.

Definition join_adventure_party (party_id : string) (c : client) (now : timestamp)
    (s : server) : bool * server :=
  match adventure_parties s !! party_id with
  | None => (false, s)
  | Some p =>
      if decide (4 ≤ length (members p)) then (false, s)
      else if decide (state p = waiting) then
        let p := set_party_activity now
                   (set_roster (members p ++ [player_id c])
                               (creatures p ++ [creature c])
                               (usernames p ++ [username c]) p) in
        let s := with_parties s (<[party_id := p]> (adventure_parties s)) in
        let s := broadcast_adventure_update party_id now s in
        if decide (2 ≤ length (members p)) then
          let s := with_parties s (<[party_id := set_state active p]> (adventure_parties s)) in
          (true, broadcast_adventure_start party_id now s)
        else (true, s)
      else (false, s)
  end.

(** [l.index(x)]: the position of the first occurrence. *)
Fixpoint index_of (x : string) (l : list string) : option nat :=
  match l with
  | [] => None
  | y :: rest => if decide (x = y) then Some 0 else S <$> index_of x rest
  end.

(** [remove_from_adventure]. [list.pop(index)] raises [IndexError] when the
    index is past the end of the list; the lists popped before it stay
    popped. *)
Definition remove_from_adventure (aid pid : string) (now : timestamp) (s : server)
    : outcome :=
  match adventure_parties s !! aid with
  | None => Done s
  | Some p =>
      match index_of pid (members p) with
      | None => Done s
      | Some i =>
          let ms := delete i (members p) in
          if decide (i < length (creatures p)) then
            let cs := delete i (creatures p) in
            if decide (i < length (usernames p)) then
              let us := delete i (usernames p) in
              let p := set_party_activity now (set_roster ms cs us p) in
              match ms with
              | [] => Done (with_parties s (delete aid (adventure_parties s)))
              | m0 :: _ =>
                  let p := if decide (pid = host p) then set_host m0 p else p in
                  let s := with_parties s (<[aid := p]> (adventure_parties s)) in
                  Done (broadcast_adventure_update aid now s)
              end
            else
              Raised (with_parties s
                        (<[aid := set_roster ms cs (usernames p) p]> (adventure_parties s)))
          else
            Raised (with_parties s
                      (<[aid := set_roster ms (creatures p) (usernames p) p]>
                         (adventure_parties s)))
      end
  end.

Definition process_adventure_update (aid pid : string) (data : json)
    (now : timestamp) (s : server) : server :=
  match adventure_parties s !! aid with
  | None => s
  | Some p =>
      if decide (pid ∈ members p) then
        let s := with_parties s
                   (<[aid := set_party_activity now p]> (adventure_parties s)) in
        send_known (filter (λ m, m ≠ pid) (members p))
          (ADVENTURE_UPDATE aid pid data now) s
      else s
  end.

(** The loop of [get_adventure_parties] over the items of the table;
    [party["usernames"][0]] raises [IndexError] on an empty list. *)
Fixpoint listing (items : list (string * party)) : option (list party_info) :=
  match items with
  | [] => Some []
  | (k, p) :: rest =>
      if decide (state p = waiting) then
        match usernames p !! 0 with
        | None => None
        | Some u =>
            (λ l, PartyInfo k (host p) u (length (members p)) (creation_time p) :: l)
              <$> listing rest
        end
      else listing rest
  end.

(** [get_adventure_parties]; [None] stands for the [IndexError]. The entries
    come in the order of [map_to_list], not in insertion order. *)
Definition get_adventure_parties (s : server) : option (list party_info) :=
  listing (map_to_list (adventure_parties s)).

(** ** Message handlers of a [ClientHandler] *)

Definition handle_join_lobby (cid : string) (data : list (string * json))
    (now : timestamp) (s : server) : server :=
  let s := upd_client cid (set_creature (dict_get "creature" data (JObj []))) s in
  let s := if dict_has "username" data
           then upd_client cid (set_username (dict_get "username" data JNull)) s
           else s in
  let s := add_to_lobby cid now s in
  let s := upd_client cid (set_in_lobby true) s in
  match clients s !! cid with
  | Some c => send cid (LOBBY_JOINED (player_id c) (username c) (get_lobby_count s)) s
  | None => s
  end.

Definition handle_leave_lobby (cid : string) (now : timestamp) (s : server) : server :=
  match clients s !! cid with
  | Some c =>
      if in_lobby c then
        let s := remove_from_lobby cid now s in
        let s := upd_client cid (set_in_lobby false) s in
        send cid (LOBBY_LEFT (player_id c)) s
      else s
  | None => s
  end.

Definition handle_battle_action (cid : string) (data : list (string * json))
    (now : timestamp) (s : server) : server :=
  match clients s !! cid with
  | Some c =>
      if in_battle c then
        match battle_id c with
        | Some bid =>
            process_battle_action bid (player_id c)
              (dict_get "ability_index" data (JNum 0)) now s
        | None => s
        end
      else s
  | None => s
  end.

Definition handle_create_adventure (cid : string) (data : list (string * json))
    (now : timestamp) (s : server) : server :=
  let s := upd_client cid (set_creature (dict_get "creature" data (JObj []))) s in
  match clients s !! cid with
  | Some c =>
      let '(aid, s) := create_adventure_party c now s in
      let s := upd_client cid (set_adventure true (Some aid)) s in
      send cid (ADVENTURE_CREATED aid (player_id c)) s
  | None => s
  end.

Definition join_failed_message : string := "Failed to join adventure party".

(** [handle_join_adventure]. The [party_id] of the message is any JSON value:
    a list or an object is unhashable and the membership test raises
    [TypeError]; a number, a boolean or [null] is simply not a key. *)
Definition handle_join_adventure (cid : string) (data : list (string * json))
    (now : timestamp) (s : server) : outcome :=
  let s := upd_client cid (set_creature (dict_get "creature" data (JObj []))) s in
  let party_id := dict_get "party_id" data (JStr "") in
  match clients s !! cid with
  | Some c =>
      match party_id with
      | JArr _ | JObj _ => Raised s
      | JStr pid =>
          let '(success, s) := join_adventure_party pid c now s in
          if success then
            let s := upd_client cid (set_adventure true (Some pid)) s in
            Done (send cid (ADVENTURE_JOINED party_id (player_id c)) s)
          else
            Done (send cid (ADVENTURE_JOIN_FAILED party_id join_failed_message) s)
      | _ => Done (send cid (ADVENTURE_JOIN_FAILED party_id join_failed_message) s)
      end
  | None => Done s
  end.

Definition handle_adventure_update (cid : string) (data : list (string * json))
    (now : timestamp) (s : server) : server :=
  match clients s !! cid with
  | Some c =>
      if in_adventure c then
        match adventure_id c with
        | Some aid =>
            process_adventure_update aid (player_id c)
              (dict_get "data" data (JObj [])) now s
        | None => s
        end
      else s
  | None => s
  end.

Definition handle_get_adventure_parties (cid : string) (s : server) : outcome :=
  match get_adventure_parties s with
  | Some l => Done (send cid (ADVENTURE_PARTIES l) s)
  | None => Raised s
  end.

(** The body of [process_message] after [json.loads]: the dispatch on
    [data.get("type", "")]. A decoded value that is not an object has no
    [get] and raises [AttributeError]. *)
Definition dispatch (cid : string) (data : json) (now : timestamp) (s : server)
    : outcome :=
  match data with
  | JObj fields =>
      let message_type := dict_get "type" fields (JStr "") in
      if json_is_str message_type "JOIN_LOBBY" then
        Done (handle_join_lobby cid fields now s)
      else if json_is_str message_type "LEAVE_LOBBY" then
        Done (handle_leave_lobby cid now s)
      else if json_is_str message_type "BATTLE_ACTION" then
        Done (handle_battle_action cid fields now s)
      else if json_is_str message_type "CREATE_ADVENTURE" then
        Done (handle_create_adventure cid fields now s)
      else if json_is_str message_type "JOIN_ADVENTURE" then
        handle_join_adventure cid fields now s
      else if json_is_str message_type "ADVENTURE_UPDATE" then
        Done (handle_adventure_update cid fields now s)
      else if json_is_str message_type "GET_ADVENTURE_PARTIES" then
        handle_get_adventure_parties cid s
      else Done s
  | _ => Raised s
  end.

(** [clean_up]: an exception of [remove_from_adventure] is not caught here,
    and then the handler is left running. *)
Definition clean_up (cid : string) (now : timestamp) (s : server) : outcome :=
  match clients s !! cid with
  | Some c =>
      let s := if in_lobby c then remove_from_lobby cid now s else s in
      let s := if in_battle c then
                 match battle_id c with
                 | Some bid => end_battle bid (Some (player_id c)) s
                 | None => s
                 end
               else s in
      let o := if in_adventure c then
                 match adventure_id c with
                 | Some aid => remove_from_adventure aid (player_id c) now s
                 | None => Done s
                 end
               else Done s in
      match o with
      | Done s => Done (upd_client cid (set_running false) s)
      | Raised s => Raised s
      end
  | None => Done s
  end.

(** ** Runs of the server *)

(** [ClientHandler.__init__] for the identifier [pid]. *)
Definition new_client (pid : string) : client :=
  Client pid (JStr ("Player_" +:+ String.substring 0 8 pid)) JNull
         false false None false None true.

(** [accept_connections]: one accepted connection. *)
Definition accept (s : server) : server :=
  let pid := uuid4 (uuid_ctr s) in
  let s := with_ctr s (S (uuid_ctr s)) in
  with_clients s (<[pid := new_client pid]> (clients s)).

Inductive event : Type :=
| EConnect
| EMessage (cid : string) (data : json) (now : timestamp)
| ETick (now : timestamp)
| EDisconnect (cid : string) (now : timestamp).

(** Whether the thread of handler [cid] is in its receive loop. *)
Definition is_running (cid : string) (s : server) : bool :=
  match clients s !! cid with
  | Some c => running c
  | None => false
  end.

(** One event. A message or a disconnect of a handler that does not run is
    not an event of the server. Exceptions of [dispatch] are caught by
    [process_message]. *)
Definition step (s : server) (ev : event) : server :=
  match ev with
  | EConnect => accept s
  | EMessage cid data now =>
      if is_running cid s then state_of (dispatch cid data now s) else s
  | ETick now => match_players now s
  | EDisconnect cid now =>
      if is_running cid s then state_of (clean_up cid now s) else s
  end.

Definition init : server := Server ∅ [] ∅ ∅ [] 0.

Definition run (evs : list event) (s : server) : server := foldl step s evs.

Definition reachable (s : server) : Prop := ∃ evs, s = run evs init.

(** ** The message channel: newline-delimited JSON frames *)

Definition newline : ascii := "010"%char.

(** [buffer.split('\n', 1)], defined when ['\n' in buffer]. *)
Fixpoint split_newline (buffer : string) : option (string * string) :=
  match buffer with
  | EmptyString => None
  | String c rest =>
      if Ascii.eqb c newline then Some (EmptyString, rest)
      else match split_newline rest with
           | Some (message, remainder) => Some (String c message, remainder)
           | None => None
           end
  end.

(** A value together with the equation that it is that value. *)
Definition inspect {A : Type} (a : A) : {b : A | a = b} := exist _ a eq_refl.

(** The state of a [NetworkClient] that the receive loop touches. A call of
    a registered callback is recorded in [invoked]. *)
Record net_client : Type := NetClient {
  connected : bool;
  nc_running : bool;
  receive_queue : list json;
  callbacks : list string;
  invoked : list (string * json)
}.

Definition put_received (obj : json) (c : net_client) : net_client :=
  NetClient (connected c) (nc_running c) (receive_queue c ++ [obj])
            (callbacks c) (invoked c).

Definition call_back (ty : string) (obj : json) (c : net_client) : net_client :=
  NetClient (connected c) (nc_running c) (receive_queue c)
            (callbacks c) (invoked c ++ [(ty, obj)]).

Definition set_connected (b : bool) (c : net_client) : net_client :=
  NetClient b (nc_running c) (receive_queue c) (callbacks c) (invoked c).

(** What [recv] returns and [sendall] takes: a string of bytes. *)
Definition bytes := string.

(** Where the loop of [ClientHandler.run] stands after a chunk: still
    receiving, with its buffer, or left, with [clean_up] done. *)
Inductive handler_loop : Type :=
| Receiving (s : server) (buffer : string)
| LoopLeft (s : server).

Section Channel.

(** [json.dumps] and [json.loads]; [None] is [JSONDecodeError]. *)
Variable dumps : json → string.
Variable loads : string → option json.

(** [str.encode()] and [bytes.decode()]; [None] is [UnicodeDecodeError]. *)
Variable encode_utf8 : string → bytes.
Variable decode_utf8 : bytes → option string.

(** What [send] and [_send_loop] put on the wire for one envelope. *)
Definition encode (envelope : json) : string :=
  dumps envelope +:+ String newline EmptyString.

(** The head of both receive loops: split at the first newline, then
    [json.loads]. Without a newline the buffer is left for more bytes. *)
Definition decode (buffer : string) : option json * string :=
  match split_newline buffer with
  | None => (None, buffer)
  | Some (message, remainder) => (loads message, remainder)
  end.

(** [ClientHandler.process_message]: both [except] clauses only log. *)
Definition process_message (cid : string) (message : string) (now : timestamp)
    (s : server) : server :=
  match loads message with
  | None => s
  | Some data => state_of (dispatch cid data now s)
  end.

(** The inner loop of [ClientHandler.run] on the buffer. *)
Equations? drain_server (cid : string) (now : timestamp) (buffer : string)
    (s : server) : server * string by wf (String.length buffer) lt :=
  drain_server cid now buffer s with inspect (split_newline buffer) := {
    | exist _ None _ => (s, buffer)
    | exist _ (Some (message, remainder)) _ =>
        drain_server cid now remainder (process_message cid message now s) }.
Proof.
  all: match goal with H : split_newline _ = Some _ |- _ => revert H end.
  all: clear; revert message remainder.
  all: induction buffer as [|ch rest IH]; intros message remainder; simpl; [done|].
  all: destruct (Ascii.eqb ch newline); [intros [= <- <-]; lia|].
  all: destruct (split_newline rest) as [[m r]|] eqn:E; [|done].
  all: intros [= <- <-]; specialize (IH _ _ eq_refl); lia.
Qed.

(** The body of the inner loop of [NetworkClient._receive_loop] for one
    frame; [false] when an exception other than [JSONDecodeError] leaves
    the loop ([AttributeError] of [get] on a value that is not an object,
    [TypeError] of [in] on an unhashable type). *)
Definition client_frame (message : string) (c : net_client) : net_client * bool :=
  match loads message with
  | None => (c, true)
  | Some obj =>
      let c := put_received obj c in
      match obj with
      | JObj fields =>
          match dict_get "type" fields (JStr "") with
          | JStr ty =>
              if decide (ty ∈ callbacks c) then (call_back ty obj c, true)
              else (c, true)
          | JArr _ | JObj _ => (c, false)
          | _ => (c, true)
          end
      | _ => (c, false)
      end
  end.

(** The inner loop of [NetworkClient._receive_loop] on the buffer. *)
Equations? drain_client (buffer : string) (c : net_client)
    : net_client * string by wf (String.length buffer) lt :=
  drain_client buffer c with inspect (split_newline buffer) := {
    | exist _ None _ => (c, buffer)
    | exist _ (Some (message, remainder)) _ with client_frame message c := {
        | (c', true) => drain_client remainder c'
        | (c', false) => (c', remainder) } }.
Proof.
  all: match goal with H : split_newline _ = Some _ |- _ => revert H end.
  all: clear; revert message remainder.
  all: induction buffer as [|ch rest IH]; intros message remainder; simpl; [done|].
  all: destruct (Ascii.eqb ch newline); [intros [= <- <-]; lia|].
  all: destruct (split_newline rest) as [[m r]|] eqn:E; [|done].
  all: intros [= <- <-]; specialize (IH _ _ eq_refl); lia.
Qed.

(** One turn of the loop of [ClientHandler.run] on the chunk [data]. An empty
    chunk is the end of the stream. [data.decode()] stands inside the [try]
    whose [except Exception] leaves the loop, and [clean_up] follows the
    loop. *)
Definition run_iteration (cid : string) (now : timestamp) (data : bytes)
    (buffer : string) (s : server) : handler_loop :=
  if String.eqb data EmptyString then LoopLeft (state_of (clean_up cid now s))
  else match decode_utf8 data with
       | None => LoopLeft (state_of (clean_up cid now s))
       | Some text =>
           let '(s', buffer') := drain_server cid now (buffer +:+ text) s in
           Receiving s' buffer'
       end.

(** One turn of the loop of [NetworkClient._receive_loop] on the chunk
    [data], with whether the loop goes on. An exception of [data.decode()]
    is caught by the last [except] of the loop, which goes on without the
    chunk. *)
Definition receive_iteration (data : bytes) (buffer : string) (c : net_client)
    : net_client * string * bool :=
  if String.eqb data EmptyString then (set_connected false c, buffer, false)
  else match decode_utf8 data with
       | None => (c, buffer, true)
       | Some text =>
           let '(c', buffer') := drain_client (buffer +:+ text) c in
           (c', buffer', true)
       end.

(** The bytes that [sendall] is given for one envelope. *)
Definition encode_bytes (envelope : json) : bytes :=
  encode_utf8 (encode envelope).

End Channel.

(** ** Notions used in the statements *)

(** A [BATTLE_ACTION] that the server refuses: the room is gone, or the
    sender's side is not the side to move. *)
Definition action_rejected (s : server) (bid pid : string) : Prop :=
  match battles s !! bid with
  | None => True
  | Some bd => current_turn bd ≠ player_role bd pid
  end.

Definition join_lobby_msg : json := JObj [("type", JStr "JOIN_LOBBY")].
Definition create_adventure_msg : json := JObj [("type", JStr "CREATE_ADVENTURE")].
Definition join_adventure_msg (party_id : string) : json :=
  JObj [("type", JStr "JOIN_ADVENTURE"); ("party_id", JStr party_id)].

(** A battle in progress: two sessions joined the lobby and were paired in
    the room "2". *)
Definition battle_scene : server :=
  run [EConnect; EConnect;
       EMessage "0" join_lobby_msg 1;
       EMessage "1" join_lobby_msg 2;
       ETick 3] init.

(** A party that two members started: "0" created it, "1" joined; "2" is a
    third connected session. The party has the identifier "3". *)
Definition active_room : server :=
  run [EConnect; EConnect; EConnect;
       EMessage "0" create_adventure_msg 1;
       EMessage "1" (join_adventure_msg "3") 2] init.

(** The same server with a four-member party still waiting under "3". *)
Definition full_room : server :=
  with_parties active_room
    (<["3" := Party "3" "0" ["0"; "1"; "0"; "1"]
                    [JObj []; JObj []; JObj []; JObj []]
                    [JNull; JNull; JNull; JNull] waiting 1 2]>
       (adventure_parties active_room)).

(** What [s'] sent after [s]. *)
Definition sent_since (s s' : server) : list (string * envelope) :=
  drop (length (outbox s)) (outbox s').

(** The three ways a join is refused. *)
Definition join_refused (pid : string) (s : server) : Prop :=
  adventure_parties s !! pid = None ∨
  ∃ p, adventure_parties s !! pid = Some p ∧
       (4 ≤ length (members p) ∨ state p ≠ waiting).

(** ['\n' in s]. *)
Fixpoint has_newline (s : string) : bool :=
  match s with
  | EmptyString => false
  | String c rest => if Ascii.eqb c newline then true else has_newline rest
  end.

(** Frames on the wire, each with its delimiter, before [rest]. *)
Definition frames_then (frames : list string) (rest : string) : string :=
  foldr (λ f acc, f +:+ String newline acc) rest frames.

(** A codec for two values, enough to run the channel on. *)
Definition sample_dumps (j : json) : string :=
  match j with
  | JObj [] => "{}"
  | _ => "null"
  end.

Definition sample_loads (s : string) : option json :=
  if String.eqb s "{}" then Some (JObj [])
  else if String.eqb s "null" then Some JNull
  else None.

(** Strict ASCII as the byte codec: text of bytes below 128 is its own
    encoding, and a chunk with a byte from 128 up is rejected. *)
Definition sample_encode (text : string) : bytes := text.

Definition sample_decode (data : bytes) : option string :=
  if forallb (λ ch, Nat.ltb (nat_of_ascii ch) 128) (list_ascii_of_string data)
  then Some data else None.

(** The key of a handler is known to the server. *)
Definition known (s : server) (k : string) : Prop := is_Some (clients s !! k).

(** Two tables of handlers with the same keys and the same [player_id]s. *)
Definition same_ids (m m' : gmap string client) : Prop :=
  ∀ k, player_id <$> (m !! k) = player_id <$> (m' !! k).

(** A room of a reachable server: the three lists run in step, there is a
    member, a waiting room has one member, no room has more than two, and
    the members are handlers of the server. *)
Record party_ok (s : server) (p : party) : Prop := {
  ok_creatures : length (creatures p) = length (members p);
  ok_usernames : length (usernames p) = length (members p);
  ok_nonempty : members p ≠ [];
  ok_waiting : state p = waiting → length (members p) = 1;
  ok_size : length (members p) ≤ 2;
  ok_known : ∀ m, m ∈ members p → known s m
}.

Record server_inv (s : server) : Prop := {
  inv_client_key : ∀ k c, clients s !! k = Some c → player_id c = k;
  inv_client_alloc : ∀ k, known s k → ∃ n, n < uuid_ctr s ∧ k = uuid4 n;
  inv_lobby_nodup : NoDup (lobby s);
  inv_lobby_known : ∀ p, p ∈ lobby s → known s p;
  inv_battle_players : ∀ b bd, battles s !! b = Some bd →
      player1 bd ≠ player2 bd ∧ known s (player1 bd) ∧ known s (player2 bd);
  inv_party : ∀ a p, adventure_parties s !! a = Some p → party_ok s p
}.

(** Rooms of [m'] are rooms of [m], with the same two players. *)
Definition battles_within (m m' : gmap string battle) : Prop :=
  ∀ b bd', m' !! b = Some bd' →
    ∃ bd, m !! b = Some bd ∧ player1 bd' = player1 bd ∧ player2 bd' = player2 bd.

(** The ["type"] field of an envelope. *)
Definition env_type (e : envelope) : string :=
  match e with
  | LOBBY_JOINED _ _ _ => "LOBBY_JOINED"
  | LOBBY_LEFT _ => "LOBBY_LEFT"
  | LOBBY_STATUS _ _ => "LOBBY_STATUS"
  | BATTLE_START _ _ _ _ _ => "BATTLE_START"
  | BATTLE_ACTION _ _ _ => "BATTLE_ACTION"
  | BATTLE_END _ _ _ => "BATTLE_END"
  | ADVENTURE_CREATED _ _ => "ADVENTURE_CREATED"
  | ADVENTURE_JOINED _ _ => "ADVENTURE_JOINED"
  | ADVENTURE_JOIN_FAILED _ _ => "ADVENTURE_JOIN_FAILED"
  | ADVENTURE_UPDATE _ _ _ _ => "ADVENTURE_UPDATE"
  | ADVENTURE_PARTIES _ => "ADVENTURE_PARTIES"
  | ADVENTURE_PARTY_UPDATE _ _ _ _ _ _ _ => "ADVENTURE_PARTY_UPDATE"
  | ADVENTURE_START _ _ _ _ _ _ => "ADVENTURE_START"
  end.

(** From [s] to [s'] the server sent envelopes of the types [tys] only. *)
Definition emits (tys : list string) (s s' : server) : Prop :=
  ∃ sent, outbox s' = outbox s ++ sent ∧ Forall (λ x, env_type x.2 ∈ tys) sent.

(** The entry of the listing for the party [q] stored under [k]. *)
Definition info_of (k : string) (q : party) (u : json) : party_info :=
  PartyInfo k (host q) u (length (members q)) (creation_time q).

(** The [BATTLE_END] envelopes addressed to [q] in a trace. *)
Definition battle_ends_to (q : string) (l : list (string * envelope)) : list envelope :=
  omap (λ x, if decide (x.1 = q)
             then match x.2 with BATTLE_END _ _ _ => Some x.2 | _ => None end
             else None) l.

(** The session [p] is marked as fighting in room [b]. *)
Definition in_battle_room (s : server) (p b : string) : Prop :=
  ∃ c, clients s !! p = Some c ∧ in_battle c = true ∧ battle_id c = Some b.

(** The recipients of the [ADVENTURE_START] envelopes of party [aid]. *)
Definition starts_for (aid : string) (l : list (string * envelope)) : list string :=
  omap (λ x, match x.2 with
             | ADVENTURE_START a _ _ _ _ _ => if decide (a = aid) then Some x.1 else None
             | _ => None
             end) l.

(** Every type of envelope but [ADVENTURE_START]. *)
Definition quiet_types : list string :=
  ["LOBBY_JOINED"; "LOBBY_LEFT"; "LOBBY_STATUS"; "BATTLE_START"; "BATTLE_ACTION";
   "BATTLE_END"; "ADVENTURE_CREATED"; "ADVENTURE_JOINED"; "ADVENTURE_JOIN_FAILED";
   "ADVENTURE_UPDATE"; "ADVENTURE_PARTIES"; "ADVENTURE_PARTY_UPDATE"].

(** From [s] to [s'] no party went back to [waiting]: a party of [s'] was
    there in [s], waiting if it still is, or it was created on the way. *)
Definition settles (s s' : server) : Prop :=
  uuid_ctr s ≤ uuid_ctr s' ∧
  ∀ a p', adventure_parties s' !! a = Some p' →
    (∃ p, adventure_parties s !! a = Some p ∧ (state p' = waiting → state p = waiting)) ∨
    (∃ n, uuid_ctr s ≤ n < uuid_ctr s' ∧ a = uuid4 n).

(** A transition that starts no adventure. *)
Definition quiet_step (s s' : server) : Prop :=
  emits quiet_types s s' ∧ settles s s'.

(** Party ids come from the supply; a party that is waiting, or an id not
    yet drawn, has had no [ADVENTURE_START]; no party ever has more than
    the two of its activation. *)
Record start_inv (s : server) : Prop := {
  si_alloc : ∀ a p, adventure_parties s !! a = Some p →
                    ∃ n, n < uuid_ctr s ∧ a = uuid4 n;
  si_fresh : ∀ a, (∀ n, n < uuid_ctr s → a ≠ uuid4 n) →
                  starts_for a (outbox s) = [];
  si_waiting : ∀ a p, adventure_parties s !! a = Some p → state p = waiting →
                      starts_for a (outbox s) = [];
  si_once : ∀ a, starts_for a (outbox s) = [] ∨
                 length (starts_for a (outbox s)) = 2
}.

Definition in_a_battle (s : server) (p : string) : Prop :=
  ∃ b bd, battles s !! b = Some bd ∧ (player1 bd = p ∨ player2 bd = p).

Definition in_a_party (s : server) (p : string) : Prop :=
  ∃ a q, adventure_parties s !! a = Some q ∧ p ∈ members q.

(** No session is in two kinds of room at once. *)
Definition one_room (s : server) : Prop :=
  ∀ p, ¬ (p ∈ lobby s ∧ in_a_battle s p) ∧
       ¬ (p ∈ lobby s ∧ in_a_party s p) ∧
       ¬ (in_a_battle s p ∧ in_a_party s p).

Definition in_no_room (s : server) (p : string) : Prop :=
  (p ∉ lobby s) ∧ (¬ in_a_battle s p) ∧ (¬ in_a_party s p).

(** One session joins the lobby, then creates a party. *)
Definition two_rooms_scene : server :=
  run [EConnect; EMessage "0" join_lobby_msg 1; EMessage "0" create_adventure_msg 2] init.

(** A session that queued again while it was fighting: "0" and "1" were
    paired in the room "3"; "1" sent [JOIN_LOBBY] once more and was paired
    with "2" in the room "4". *)
Definition requeued_scene : server :=
  run [EConnect; EConnect; EConnect;
       EMessage "0" join_lobby_msg 1;
       EMessage "1" join_lobby_msg 2;
       ETick 3;
       EMessage "1" join_lobby_msg 4;
       EMessage "2" join_lobby_msg 5;
       ETick 6] init.

(** The requests that put a session in a room. *)
Definition is_join_request (data : json) : bool :=
  match data with
  | JObj fields =>
      let ty := dict_get "type" fields (JStr "") in
      json_is_str ty "JOIN_LOBBY" || json_is_str ty "CREATE_ADVENTURE"
      || json_is_str ty "JOIN_ADVENTURE"
  | _ => false
  end.

(** A client keeps to the protocol of the session state machine when it
    asks for a room only while it is in none. *)
Definition polite (s : server) (ev : event) : Prop :=
  match ev with
  | EMessage cid data _ => is_join_request data = true → in_no_room s cid
  | _ => True
  end.

Fixpoint polite_run (s : server) (evs : list event) : Prop :=
  match evs with
  | [] => True
  | ev :: rest => polite s ev ∧ polite_run (step s ev) rest
  end.

(** From [s] to [s'] sessions entered the lobby only if [L], a battle only
    if [B], a party only if [P]. *)
Definition moves (L B P : string → Prop) (s s' : server) : Prop :=
  (∀ p, p ∈ lobby s' → p ∈ lobby s ∨ L p) ∧
  (∀ p, in_a_battle s' p → in_a_battle s p ∨ B p) ∧
  (∀ p, in_a_party s' p → in_a_party s p ∨ P p).

Definition nobody : string → Prop := λ _, False.

(** Nobody entered any room. *)
Definition still (s s' : server) : Prop := moves nobody nobody nobody s s'.

(** The session whose [JOIN_LOBBY] the event is. *)
Definition joiner (ev : event) : option string :=
  match ev with
  | EMessage cid (JObj fields) _ =>
      if json_is_str (dict_get "type" fields (JStr "")) "JOIN_LOBBY"
      then Some cid else None
  | _ => None
  end.

Definition is_tick (ev : event) : bool :=
  match ev with
  | ETick _ => true
  | _ => false
  end.

(** A [JOIN_LOBBY] or an execution of the matchmaking loop. *)
Definition lobby_event (ev : event) : Prop :=
  is_Some (joiner ev) ∨ is_tick ev = true.

(** The sessions of the [JOIN_LOBBY]s of a run, in order. *)
Definition joiners (evs : list event) : list string := omap joiner evs.

(** Where a run of joins and ticks stands: [m] pairs made out of the
    sessions [joined] so far. *)
Record lobby_inv (s0 : server) (joined : list string) (m : nat) (s : server) : Prop := {
  li_inv : server_inv s;
  li_pairs : 2 * m ≤ length joined;
  li_lobby : lobby s = drop (2 * m) joined;
  li_ctr : uuid_ctr s = uuid_ctr s0 + m;
  li_size : size (battles s) = m;
  li_keys : ∀ k bd, battles s !! k = Some bd → ∃ i, i < m ∧ k = uuid4 (uuid_ctr s0 + i);
  li_rooms : ∀ i, i < m →
     ∃ bd, battles s !! uuid4 (uuid_ctr s0 + i) = Some bd ∧
           joined !! (2 * i) = Some (player1 bd) ∧
           joined !! (2 * i + 1) = Some (player2 bd) ∧
           player1 bd ≠ player2 bd ∧
           current_turn bd = Player1;
  li_running : ∀ c, is_running c s0 = true → is_running c s = true
}.

Definition three_sessions : server := run [EConnect; EConnect; EConnect] init.

(** The byte 0xFF, a newline, and then the frame of an empty object. *)
Definition undecodable_chunk : bytes :=
  String "255"%char (String newline ("{}" +:+ String newline EmptyString)).

(** Every room of the table has its two players marked as fighting in it. *)
Definition rooms_marked (s : server) : Prop :=
  ∀ b bd, battles s !! b = Some bd →
    in_battle_room s (player1 bd) b ∧ in_battle_room s (player2 bd) b.

(** The rooms of [s'] are rooms of [s] with the same players, and whoever
    was marked as fighting in one of them still is. *)
Definition keeps (s s' : server) : Prop :=
  ∀ b bd', battles s' !! b = Some bd' →
    ∃ bd, battles s !! b = Some bd ∧
          player1 bd' = player1 bd ∧ player2 bd' = player2 bd ∧
          ∀ p, in_battle_room s p b → in_battle_room s' p b.

(** ** The client transport: the requests and the queue of [NetworkClient] *)

(** A reading of [time.time()] as a JSON number. *)
Definition time_json (t : timestamp) : json := JNum (Z.of_nat t).

(** What [NetworkClient.send] is given: a dict, or text queued as it is. *)
Inductive client_message : Type :=
| MDict (fields : list (string * json))
| MText (text : string).

(** The [message] dict that each request function builds. *)
Definition join_lobby_message (creature : json) (now : timestamp) : list (string * json) :=
  [("type", JStr "JOIN_LOBBY"); ("creature", creature); ("timestamp", time_json now)].

Definition leave_lobby_message (now : timestamp) : list (string * json) :=
  [("type", JStr "LEAVE_LOBBY"); ("timestamp", time_json now)].

Definition battle_action_message (ability_index : Z) (now : timestamp)
    : list (string * json) :=
  [("type", JStr "BATTLE_ACTION"); ("ability_index", JNum ability_index);
   ("timestamp", time_json now)].

Definition create_adventure_message (creature : json) (now : timestamp)
    : list (string * json) :=
  [("type", JStr "CREATE_ADVENTURE"); ("creature", creature);
   ("timestamp", time_json now)].

Definition join_adventure_message (party_id : string) (creature : json)
    (now : timestamp) : list (string * json) :=
  [("type", JStr "JOIN_ADVENTURE"); ("party_id", JStr party_id);
   ("creature", creature); ("timestamp", time_json now)].

Definition adventure_update_message (adventure_data : json) (now : timestamp)
    : list (string * json) :=
  [("type", JStr "ADVENTURE_UPDATE"); ("data", adventure_data);
   ("timestamp", time_json now)].

Definition get_adventure_parties_message (now : timestamp) : list (string * json) :=
  [("type", JStr "GET_ADVENTURE_PARTIES"); ("timestamp", time_json now)].

Module NetworkClient.

(** [receive]: the oldest message of the queue, or [None] when it is empty. *)
Definition receive (c : net_client) : option json * net_client :=
  match receive_queue c with
  | [] => (None, c)
  | obj :: rest =>
      (Some obj, NetClient (connected c) (nc_running c) rest (callbacks c) (invoked c))
  end.

(** [register_callback]: the message type gets a callback. *)
Definition register_callback (message_type : string) (c : net_client) : net_client :=
  NetClient (connected c) (nc_running c) (receive_queue c)
            (message_type :: callbacks c) (invoked c).

(** [disconnect]. *)
Definition disconnect (c : net_client) : net_client :=
  NetClient false false (receive_queue c) (callbacks c) (invoked c).

Section Requests.

Variable dumps : json → string.
Variable encode_utf8 : string → bytes.

(** [send], with the send queue: the value returned and the queue after.
    Nothing is queued unless the client is connected. *)
Definition send (message : client_message) (c : net_client) (send_queue : list string)
    : bool * list string :=
  if connected c then
    (true, send_queue ++ [match message with
                          | MDict fields => dumps (JObj fields)
                          | MText text => text
                          end])
  else (false, send_queue).

(** One turn of [_send_loop]: the bytes given to [sendall] and the queue
    after; [None] is [queue.Empty]. *)
Definition send_loop_turn (send_queue : list string) : option (bytes * list string) :=
  match send_queue with
  | [] => None
  | message :: rest => Some (encode_utf8 (message +:+ String newline EmptyString), rest)
  end.

Definition join_lobby (creature : json) (now : timestamp) :=
  send (MDict (join_lobby_message creature now)).

Definition leave_lobby (now : timestamp) :=
  send (MDict (leave_lobby_message now)).

Definition send_battle_action (ability_index : Z) (now : timestamp) :=
  send (MDict (battle_action_message ability_index now)).

Definition create_adventure_party (creature : json) (now : timestamp) :=
  send (MDict (create_adventure_message creature now)).

Definition join_adventure_party (party_id : string) (creature : json) (now : timestamp) :=
  send (MDict (join_adventure_message party_id creature now)).

Definition send_adventure_update (adventure_data : json) (now : timestamp) :=
  send (MDict (adventure_update_message adventure_data now)).

Definition request_available_parties (now : timestamp) :=
  send (MDict (get_adventure_parties_message now)).

End Requests.

End NetworkClient.

(** [n] calls of [receive], one after the other, with what each returned. *)
Fixpoint poll (n : nat) (c : net_client) : list (option json) * net_client :=
  match n with
  | 0 => ([], c)
  | S n =>
      let '(r, c) := NetworkClient.receive c in
      let '(rs, c) := poll n c in
      (r :: rs, c)
  end.

(** ** The envelopes of the server as the dicts that [send] serialises *)

Definition role_json (r : role) : json :=
  JStr (match r with Player1 => "player1" | Player2 => "player2" end).

Definition party_state_json (st : party_state) : json :=
  JStr (match st with waiting => "waiting" | active => "active" end).

Definition count_json (n : nat) : json := JNum (Z.of_nat n).

Definition party_info_json (e : party_info) : json :=
  JObj [("id", JStr (pi_id e)); ("host", JStr (pi_host e));
        ("host_username", pi_host_username e);
        ("member_count", count_json (pi_member_count e));
        ("creation_time", time_json (pi_creation_time e))].

Definition envelope_json (m : envelope) : json :=
  match m with
  | LOBBY_JOINED pid uname n =>
      JObj [("type", JStr "LOBBY_JOINED"); ("player_id", JStr pid);
            ("username", uname); ("players_waiting", count_json n)]
  | LOBBY_LEFT pid =>
      JObj [("type", JStr "LOBBY_LEFT"); ("player_id", JStr pid)]
  | LOBBY_STATUS n ts =>
      JObj [("type", JStr "LOBBY_STATUS"); ("players_waiting", count_json n);
            ("timestamp", time_json ts)]
  | BATTLE_START bid r mine theirs turn =>
      JObj [("type", JStr "BATTLE_START"); ("battle_id", JStr bid);
            ("your_role", role_json r); ("player_creature", mine);
            ("opponent_creature", theirs); ("current_turn", role_json turn)]
  | BATTLE_ACTION bid idx turn =>
      JObj [("type", JStr "BATTLE_ACTION"); ("battle_id", JStr bid);
            ("ability_index", idx); ("current_turn", role_json turn)]
  | BATTLE_END bid winner reason =>
      JObj [("type", JStr "BATTLE_END"); ("battle_id", JStr bid);
            ("winner", match winner with Some r => role_json r | None => JNull end);
            ("reason", JStr (match reason with
                             | disconnect => "disconnect"
                             | completion => "completion"
                             end))]
  | ADVENTURE_CREATED aid pid =>
      JObj [("type", JStr "ADVENTURE_CREATED"); ("adventure_id", JStr aid);
            ("player_id", JStr pid)]
  | ADVENTURE_JOINED aid pid =>
      JObj [("type", JStr "ADVENTURE_JOINED"); ("adventure_id", aid);
            ("player_id", JStr pid)]
  | ADVENTURE_JOIN_FAILED aid message =>
      JObj [("type", JStr "ADVENTURE_JOIN_FAILED"); ("adventure_id", aid);
            ("message", JStr message)]
  | ADVENTURE_UPDATE aid from data ts =>
      JObj [("type", JStr "ADVENTURE_UPDATE"); ("adventure_id", JStr aid);
            ("from_player", JStr from); ("data", data); ("timestamp", time_json ts)]
  | ADVENTURE_PARTIES parties =>
      JObj [("type", JStr "ADVENTURE_PARTIES");
            ("parties", JArr (map party_info_json parties))]
  | ADVENTURE_PARTY_UPDATE aid ms cs us h st ts =>
      JObj [("type", JStr "ADVENTURE_PARTY_UPDATE"); ("adventure_id", JStr aid);
            ("members", JArr (map JStr ms)); ("creatures", JArr cs);
            ("usernames", JArr us); ("host", JStr h);
            ("state", party_state_json st); ("timestamp", time_json ts)]
  | ADVENTURE_START aid ms cs us h ts =>
      JObj [("type", JStr "ADVENTURE_START"); ("adventure_id", JStr aid);
            ("members", JArr (map JStr ms)); ("creatures", JArr cs);
            ("usernames", JArr us); ("host", JStr h); ("timestamp", time_json ts)]
  end.

(** The text that the server's [send] writes for the envelopes [ms], one
    after the other, before [rest]. *)
Definition wire_text (dumps : json → string) (ms : list envelope) (rest : string) : string :=
  frames_then (map (λ m, dumps (envelope_json m)) ms) rest.

(** The callbacks that the receive loop calls for the envelopes [ms]. *)
Definition callbacks_for (c : net_client) (ms : list envelope)
    : list (string * json) :=
  omap (λ m, if decide (env_type m ∈ callbacks c)
             then Some (env_type m, envelope_json m) else None) ms.

(** A codec for one envelope, enough to run the client on. *)
Definition left_envelope : envelope := LOBBY_LEFT "0".

Definition wire_dumps (j : json) : string :=
  match j with
  | JObj [("type", JStr "LOBBY_LEFT"); ("player_id", JStr "0")] => "left:0"
  | _ => "null"
  end.

Definition wire_loads (s : string) : option json :=
  if String.eqb s "left:0" then Some (envelope_json left_envelope)
  else if String.eqb s "null" then Some JNull
  else None.

(** A decoded frame on which the body of the client's receive loop raises
    something other than [JSONDecodeError]: a value without [get], or an
    object whose ["type"] is unhashable. *)
Definition client_raises_on (obj : json) : Prop :=
  match obj with
  | JObj fields =>
      match dict_get "type" fields (JStr "") with
      | JArr _ | JObj _ => True
      | _ => False
      end
  | _ => True
  end.

(** The codec carries the envelope: its serialisation has no raw newline
    and [json.loads] reads it back. *)
Definition carried (dumps : json → string) (loads : string → option json)
    (m : envelope) : Prop :=
  has_newline (dumps (envelope_json m)) = false ∧
  loads (dumps (envelope_json m)) = Some (envelope_json m).

(** ** The marks of the handlers and the tables of the server *)

(** The attributes of a handler that say where it is. *)
Definition marks (c : client)
    : bool * bool * (bool * option string) * (bool * option string) :=
  (in_lobby c, running c, (in_battle c, battle_id c), (in_adventure c, adventure_id c)).

(** The same handlers with the same marks. *)
Definition same_marks (m m' : gmap string client) : Prop :=
  ∀ k, marks <$> (m !! k) = marks <$> (m' !! k).

(** From [s] to [s'] no handler changed its marks, nobody entered the
    lobby, every room kept its players and every party its members. *)
Record undisturbed (s s' : server) : Prop := {
  un_marks : same_marks (clients s) (clients s');
  un_lobby : ∀ p, p ∈ lobby s' → p ∈ lobby s;
  un_ctr : uuid_ctr s ≤ uuid_ctr s';
  un_battles_old : ∀ b bd', battles s' !! b = Some bd' → is_Some (battles s !! b);
  un_battles : ∀ b bd, battles s !! b = Some bd →
      ∃ bd', battles s' !! b = Some bd' ∧ player1 bd' = player1 bd ∧ player2 bd' = player2 bd;
  un_parties : ∀ a p, adventure_parties s !! a = Some p →
      ∃ p', adventure_parties s' !! a = Some p' ∧ ∀ m, m ∈ members p → m ∈ members p'
}.

(** What the marks of the handlers say is so in the tables: a queued
    session is a running handler with [in_lobby] set; [in_battle] and
    [in_adventure] are set exactly when there is a room id; the room of a
    [battle_id] exists and has the handler as a player; the party of the
    [adventure_id] of a running handler exists and has it as a member; and
    the ids of the rooms come from the supply. *)
Record marks_inv (s : server) : Prop := {
  mi_lobby : ∀ p, p ∈ lobby s →
      ∃ c, clients s !! p = Some c ∧ in_lobby c = true ∧ running c = true;
  mi_battle_alloc : ∀ b bd, battles s !! b = Some bd →
      ∃ n, n < uuid_ctr s ∧ b = uuid4 n;
  mi_battle_flag : ∀ k c, clients s !! k = Some c →
      in_battle c = true ↔ is_Some (battle_id c);
  mi_battle_mark : ∀ k c b, clients s !! k = Some c → battle_id c = Some b →
      ∃ bd, battles s !! b = Some bd ∧ (player1 bd = k ∨ player2 bd = k);
  mi_adventure_flag : ∀ k c, clients s !! k = Some c →
      in_adventure c = true ↔ is_Some (adventure_id c);
  mi_adventure_mark : ∀ k c a, clients s !! k = Some c → running c = true →
      adventure_id c = Some a →
      ∃ p, adventure_parties s !! a = Some p ∧ k ∈ members p
}.

(** What the loop of [end_battle] does to the handler of a player: the
    mark of the room [bid] is cleared if it is there. *)
Definition unmark (bid : string) (c : client) : client :=
  if in_battle c && bool_decide (battle_id c = Some bid)
  then set_battle false None c else c.

(** The other player of the room, as [process_battle_action] takes it
    for the sender [pid]. *)
Definition opponent_of (bd : battle) (pid : string) : string :=
  match player_role bd pid with
  | Player1 => player2 bd
  | Player2 => player1 bd
  end.

(** The player whose side is the side to move. *)
Definition mover_of (bd : battle) : string :=
  match current_turn bd with
  | Player1 => player1 bd
  | Player2 => player2 bd
  end.

(** Every party is stored under its own id, and its host is the first of
    its members. *)
Definition hosted (m : gmap string party) : Prop :=
  ∀ a p, m !! a = Some p → p_id p = a ∧ members p !! 0 = Some (host p).

(** The message types that [process_message] knows. *)
Definition message_types : list string :=
  ["JOIN_LOBBY"; "LEAVE_LOBBY"; "BATTLE_ACTION"; "CREATE_ADVENTURE";
   "JOIN_ADVENTURE"; "ADVENTURE_UPDATE"; "GET_ADVENTURE_PARTIES"].

(** A value that cannot be the key of a dict. *)
Definition unhashable (j : json) : Prop :=
  match j with
  | JArr _ | JObj _ => True
  | _ => False
  end.

Definition is_connect (ev : event) : bool :=
  match ev with
  | EConnect => true
  | _ => false
  end.

(** What an envelope sent to the session [to] says about its addressee
    and about itself. *)
Definition well_addressed (to : string) (m : envelope) : Prop :=
  match m with
  | LOBBY_JOINED pid _ n => pid = to ∧ 1 ≤ n
  | LOBBY_LEFT pid => pid = to
  | LOBBY_STATUS n _ => 1 ≤ n
  | BATTLE_START _ _ _ _ turn => turn = Player1
  | BATTLE_ACTION _ _ _ => True
  | BATTLE_END _ winner reason => is_Some winner ∧ reason = disconnect
  | ADVENTURE_CREATED _ pid => pid = to
  | ADVENTURE_JOINED _ pid => pid = to
  | ADVENTURE_JOIN_FAILED _ text => text = join_failed_message
  | ADVENTURE_UPDATE _ from _ _ => from ≠ to
  | ADVENTURE_PARTIES parties => Forall (λ e, pi_member_count e = 1) parties
  | ADVENTURE_PARTY_UPDATE _ ms cs us h _ _ =>
      to ∈ ms ∧ ms !! 0 = Some h ∧ length cs = length ms ∧ length us = length ms
  | ADVENTURE_START _ ms cs us h _ =>
      to ∈ ms ∧ ms !! 0 = Some h ∧ length ms = 2 ∧ length cs = 2 ∧ length us = 2
  end.

(** From [s] to [s'] the server sent envelopes to its handlers only, each
    well addressed; and it dropped no handler. *)
Definition sends_well (s s' : server) : Prop :=
  (∀ k, known s k → known s' k) ∧
  ∃ sent, outbox s' = outbox s ++ sent ∧
          Forall (λ x, known s' x.1 ∧ well_addressed x.1 x.2) sent.

(** The attributes of a handler that say whether it is connected and which
    party it is in. *)
Definition stay (c : client) : bool * option string := (running c, adventure_id c).

Definition same_stay (m m' : gmap string client) : Prop :=
  ∀ k, stay <$> (m !! k) = stay <$> (m' !! k).

(** The rooms hold running handlers only: every member of a party is a
    running handler marked with that party, no party lists a session
    twice, and the two players of a battle are running handlers. *)
Record tidy (s : server) : Prop := {
  ty_members : ∀ a p m, adventure_parties s !! a = Some p → m ∈ members p →
      ∃ c, clients s !! m = Some c ∧ adventure_id c = Some a ∧ running c = true;
  ty_nodup : ∀ a p, adventure_parties s !! a = Some p → NoDup (members p);
  ty_players : ∀ b bd p, battles s !! b = Some bd →
      p = player1 bd ∨ p = player2 bd → is_running p s = true
}.

(** No room holds a session that has disconnected. *)
Definition no_ghosts (s : server) : Prop :=
  (∀ p, p ∈ lobby s → is_running p s = true) ∧
  (∀ b bd, battles s !! b = Some bd →
     is_running (player1 bd) s = true ∧ is_running (player2 bd) s = true) ∧
  (∀ a p, adventure_parties s !! a = Some p →
     NoDup (members p) ∧ ∀ m, m ∈ members p → is_running m s = true).

(** ** Requests on their way from the client to the handler *)

(** The send queue after [send] was called with each of [messages]. *)
Definition queue_all (dumps : json → string) (messages : list client_message)
    (c : net_client) (send_queue : list string) : list string :=
  foldl (λ q m, (NetworkClient.send dumps m c q).2) send_queue messages.

(** [n] turns of [_send_loop]: what [sendall] was given, in order, and the
    queue after. A turn that finds the queue empty sends nothing. *)
Fixpoint send_loop (encode_utf8 : string → bytes) (n : nat) (send_queue : list string)
    : list bytes * list string :=
  match n with
  | 0 => ([], send_queue)
  | S n =>
      match NetworkClient.send_loop_turn encode_utf8 send_queue with
      | None => send_loop encode_utf8 n send_queue
      | Some (data, rest) =>
          let '(sent, q) := send_loop encode_utf8 n rest in (data :: sent, q)
      end
  end.

(** The loop of [ClientHandler.run] over the chunks that [recv] returns,
    each with the clock value of its turn. *)
Fixpoint feed (loads : string → option json) (decode_utf8 : bytes → option string)
    (cid : string) (chunks : list (timestamp * bytes)) (buffer : string) (s : server)
    : handler_loop :=
  match chunks with
  | [] => Receiving s buffer
  | (now, data) :: rest =>
      match run_iteration loads decode_utf8 cid now data buffer s with
      | Receiving s' buffer' => feed loads decode_utf8 cid rest buffer' s'
      | LoopLeft s' => LoopLeft s'
      end
  end.

(** The codec carries the request: its text has no raw newline, is read
    back by [json.loads], and its frame survives [encode] and [decode] as
    bytes that are not the end of the stream. *)
Definition request_carried (dumps : json → string) (loads : string → option json)
    (encode_utf8 : string → bytes) (decode_utf8 : bytes → option string)
    (fields : list (string * json)) : Prop :=
  has_newline (dumps (JObj fields)) = false ∧
  loads (dumps (JObj fields)) = Some (JObj fields) ∧
  decode_utf8 (encode_bytes dumps encode_utf8 (JObj fields))
    = Some (encode dumps (JObj fields)) ∧
  encode_bytes dumps encode_utf8 (JObj fields) ≠ EmptyString.

(** * Properties *)

(** ** Sending leaves the tables alone *)

Lemma send_all_outbox rcpts m s :
  outbox (send_all rcpts m s) = outbox s ++ map (λ c, (c, m)) rcpts.
Proof.
  unfold send_all. revert s.
  induction rcpts as [|c rcpts IH]; intros s; cbn [foldl map].
  - by rewrite app_nil_r.
  - rewrite IH. simpl. by rewrite <- app_assoc.
Qed.

Lemma send_all_frame rcpts m s :
  clients (send_all rcpts m s) = clients s ∧
  lobby (send_all rcpts m s) = lobby s ∧
  battles (send_all rcpts m s) = battles s ∧
  adventure_parties (send_all rcpts m s) = adventure_parties s ∧
  uuid_ctr (send_all rcpts m s) = uuid_ctr s.
Proof.
  unfold send_all. revert s.
  induction rcpts as [|c rcpts IH]; intros s; cbn [foldl]; [done|].
  destruct (IH (send c m s)) as (-> & -> & -> & -> & ->).
  done.
Qed.

Lemma send_all_clients rcpts m s : clients (send_all rcpts m s) = clients s.
Proof. apply send_all_frame. Qed.

Lemma send_all_lobby rcpts m s : lobby (send_all rcpts m s) = lobby s.
Proof. apply send_all_frame. Qed.

Lemma send_all_battles rcpts m s : battles (send_all rcpts m s) = battles s.
Proof. apply send_all_frame. Qed.

Lemma send_all_parties rcpts m s :
  adventure_parties (send_all rcpts m s) = adventure_parties s.
Proof. apply send_all_frame. Qed.

Lemma send_all_ctr rcpts m s : uuid_ctr (send_all rcpts m s) = uuid_ctr s.
Proof. apply send_all_frame. Qed.

Create Rewrite HintDb srv.
#[export] Hint Rewrite send_all_outbox send_all_clients send_all_lobby
  send_all_battles send_all_parties send_all_ctr : srv.

(** Unfolds the broadcast helpers down to [send_all] and normalises. *)
Ltac srv_simpl :=
  repeat (progress (unfold broadcast_lobby_status, send_known, upd_client in *;
                    simpl in *; autorewrite with srv in *)).

(** ** Battle actions that are turned away (C3) *)

(** C3, as stated, fails: an action sent out of turn by player2 at time 9
    rewrites the [last_activity] field of the room, which was 3. *)
Lemma out_of_turn_action_touches_room :
  action_rejected battle_scene "2" "1" ∧
  b_last_activity <$> (battles battle_scene !! "2") = Some 3 ∧
  b_last_activity <$>
    (battles (process_battle_action "2" "1" (JNum 0) 9 battle_scene) !! "2") = Some 9 ∧
  battles (process_battle_action "2" "1" (JNum 0) 9 battle_scene) !! "2"
    ≠ battles battle_scene !! "2".
Proof. vm_compute. repeat split; congruence. Qed.

(** C3, amended: a refused action relays nothing and changes nothing but the
    [last_activity] of an existing room, which takes the time of the
    action; a vanished room changes nothing at all. *)
Theorem rejected_action_frame s bid pid ability_index now :
  action_rejected s bid pid →
  let s' := process_battle_action bid pid ability_index now s in
  outbox s' = outbox s ∧
  clients s' = clients s ∧
  lobby s' = lobby s ∧
  adventure_parties s' = adventure_parties s ∧
  uuid_ctr s' = uuid_ctr s ∧
  battles s' = alter (set_battle_activity now) bid (battles s) ∧
  (battles s !! bid = None → s' = s) ∧
  (∀ bd, battles s !! bid = Some bd →
     battles s' !! bid =
       Some (Battle (b_id bd) (player1 bd) (player2 bd) (creature1 bd)
                    (creature2 bd) (current_turn bd) (start_time bd) now)).
Proof.
  unfold action_rejected, process_battle_action.
  destruct (battles s !! bid) as [bd|] eqn:Hb; simpl.
  - intros Hturn.
    destruct (decide (current_turn bd = player_role (set_battle_activity now bd) pid))
      as [Heq|_]; [by destruct Hturn|].
    simpl. repeat split; try done.
    + apply map_eq. intros k. rewrite lookup_alter, lookup_insert.
      destruct (decide (bid = k)) as [->|]; [by rewrite Hb|done].
    + intros bd' [= <-]. by rewrite lookup_insert_eq.
  - intros _. repeat split; try done.
    apply map_eq. intros k. rewrite lookup_alter.
    destruct (decide (bid = k)) as [->|]; [by rewrite Hb|done].
Qed.

Lemma rejected_action_frame_witness :
  action_rejected battle_scene "2" "1" ∧
  outbox (process_battle_action "2" "1" (JNum 0) 9 battle_scene) = outbox battle_scene.
Proof.
  split; [by vm_compute|].
  apply (rejected_action_frame battle_scene "2" "1" (JNum 0) 9). by vm_compute.
Defined.

(** ** Joining a party: when it fails and what the joiner sees (C6) *)

Lemma join_branch_not_found pid s :
  join_branch_of pid s = JoinNotFound ↔ adventure_parties s !! pid = None.
Proof.
  unfold join_branch_of. destruct (adventure_parties s !! pid) as [p|]; [|done].
  repeat case_decide; split; done.
Qed.

Lemma join_branch_full pid s :
  join_branch_of pid s = JoinFull ↔
  ∃ p, adventure_parties s !! pid = Some p ∧ 4 ≤ length (members p).
Proof.
  unfold join_branch_of. destruct (adventure_parties s !! pid) as [p|].
  - repeat case_decide; split; try done; try (intros (? & [= <-] & ?); lia).
    intros _. by exists p.
  - split; [done|]. by intros (? & ? & ?).
Qed.

Lemma join_branch_not_waiting pid s :
  join_branch_of pid s = JoinNotWaiting ↔
  ∃ p, adventure_parties s !! pid = Some p ∧ length (members p) < 4
       ∧ state p ≠ waiting.
Proof.
  unfold join_branch_of. destruct (adventure_parties s !! pid) as [p|].
  - repeat case_decide; split; try done;
      try (intros (? & [= <-] & ? & ?); (lia || done)).
    intros _. exists p. repeat split; [lia|done].
  - split; [done|]. by intros (? & ? & ?).
Qed.

Lemma join_branch_accepted pid s :
  join_branch_of pid s = JoinAccepted ↔
  ∃ p, adventure_parties s !! pid = Some p ∧ length (members p) < 4
       ∧ state p = waiting.
Proof.
  unfold join_branch_of. destruct (adventure_parties s !! pid) as [p|].
  - repeat case_decide; split; try done;
      try (intros (? & [= <-] & ? & ?); (lia || done)).
    intros _. exists p. repeat split; [lia|done].
  - split; [done|]. by intros (? & ? & ?).
Qed.

Lemma broadcast_adventure_update_parties aid now s :
  adventure_parties (broadcast_adventure_update aid now s) = adventure_parties s.
Proof.
  unfold broadcast_adventure_update.
  destruct (adventure_parties s !! aid); [|done]. by srv_simpl.
Qed.

Lemma broadcast_adventure_start_parties aid now s :
  adventure_parties (broadcast_adventure_start aid now s) = adventure_parties s.
Proof.
  unfold broadcast_adventure_start.
  destruct (adventure_parties s !! aid); [|done]. by srv_simpl.
Qed.

(** What a join leaves in the table of parties. *)
Lemma join_adventure_party_parties pid c now s :
  adventure_parties (join_adventure_party pid c now s).2 =
  match join_branch_of pid s, adventure_parties s !! pid with
  | JoinAccepted, Some p =>
      <[pid := Party (p_id p) (host p) (members p ++ [player_id c])
                     (creatures p ++ [creature c]) (usernames p ++ [username c])
                     (if decide (1 ≤ length (members p)) then active else waiting)
                     (creation_time p) now]> (adventure_parties s)
  | _, _ => adventure_parties s
  end.
Proof.
  unfold join_adventure_party, join_branch_of.
  destruct (adventure_parties s !! pid) as [p|] eqn:Hp; [|done].
  destruct (decide (4 ≤ length (members p))); [done|].
  destruct (decide (state p = waiting)) as [Hw|]; [|done].
  cbn [members set_party_activity set_roster].
  destruct (decide (2 ≤ length (members p ++ [player_id c]))) as [Hlen|Hlen];
    rewrite length_app in Hlen; simpl in Hlen.
  - cbn [snd]. rewrite broadcast_adventure_start_parties. cbn [adventure_parties with_parties].
    rewrite broadcast_adventure_update_parties. cbn [adventure_parties with_parties].
    rewrite insert_insert_eq. rewrite decide_True by lia. done.
  - cbn [snd]. rewrite broadcast_adventure_update_parties.
    cbn [adventure_parties with_parties].
    rewrite decide_False by lia.
    unfold set_party_activity, set_roster. simpl. by rewrite Hw.
Qed.

(** C6, as stated, fails: a join refused because the room is full and a
    join refused because the room is not waiting return the same value and
    send the joiner the same envelope; only the server's log line (the
    branch taken) differs. *)
Lemma join_failure_kinds_look_alike :
  join_branch_of "3" full_room = JoinFull ∧
  join_branch_of "3" active_room = JoinNotWaiting ∧
  (join_adventure_party "3" (new_client "2") 9 full_room).1 = false ∧
  (join_adventure_party "3" (new_client "2") 9 active_room).1 = false ∧
  sent_since full_room
    (state_of (handle_join_adventure "2" [("party_id", JStr "3")] 9 full_room))
    = [("2", ADVENTURE_JOIN_FAILED (JStr "3") "Failed to join adventure party")] ∧
  sent_since active_room
    (state_of (handle_join_adventure "2" [("party_id", JStr "3")] 9 active_room))
    = [("2", ADVENTURE_JOIN_FAILED (JStr "3") "Failed to join adventure party")].
Proof. vm_compute. done. Qed.

Lemma join_refused_branch pid s :
  join_refused pid s ↔ join_branch_of pid s ≠ JoinAccepted.
Proof.
  unfold join_refused, join_branch_of.
  destruct (adventure_parties s !! pid) as [p|]; [|by split; [|left]].
  destruct (decide (4 ≤ length (members p))) as [Hfull|Hfull].
  { split; [done|]. intros _. right. exists p. auto. }
  destruct (decide (state p = waiting)) as [Hw|Hw].
  - split; [|done]. intros [|(p' & [= <-] & [|])]; done.
  - split; [done|]. intros _. right. exists p. auto.
Qed.

Lemma join_adventure_party_result pid c now s :
  (join_adventure_party pid c now s).1 =
  match join_branch_of pid s with JoinAccepted => true | _ => false end.
Proof.
  unfold join_adventure_party, join_branch_of.
  destruct (adventure_parties s !! pid) as [p|]; [|done].
  repeat case_decide; done.
Qed.

Lemma join_adventure_party_refused pid c now s :
  join_branch_of pid s ≠ JoinAccepted → join_adventure_party pid c now s = (false, s).
Proof.
  unfold join_adventure_party, join_branch_of.
  destruct (adventure_parties s !! pid) as [p|]; [|done].
  repeat case_decide; done.
Qed.

(** C6, amended: a join is refused exactly when the room is unknown, has
    four members or more, or is not waiting. Then it returns [False] and
    changes nothing, and the handler sends the joiner one
    [ADVENTURE_JOIN_FAILED] with a fixed text, the same for the three
    causes. Otherwise it returns [True] and appends the joiner's id,
    creature and username to the room. *)
Theorem join_party_contract cid data pid now s c :
  dict_get "party_id" data (JStr "") = JStr pid →
  clients (upd_client cid (set_creature (dict_get "creature" data (JObj []))) s) !! cid
    = Some c →
  let s0 := upd_client cid (set_creature (dict_get "creature" data (JObj []))) s in
  let r := join_adventure_party pid c now s0 in
  (r.1 = false ↔ join_refused pid s) ∧
  (join_refused pid s →
     r = (false, s0) ∧
     handle_join_adventure cid data now s
       = Done (send cid (ADVENTURE_JOIN_FAILED (JStr pid) join_failed_message) s0)) ∧
  (¬ join_refused pid s →
     r.1 = true ∧
     ∃ p p', adventure_parties s !! pid = Some p ∧
       adventure_parties (state_of (handle_join_adventure cid data now s)) !! pid
         = Some p' ∧
       members p' = members p ++ [player_id c] ∧
       creatures p' = creatures p ++ [creature c] ∧
       usernames p' = usernames p ++ [username c] ∧
       last (outbox (state_of (handle_join_adventure cid data now s)))
         = Some (cid, ADVENTURE_JOINED (JStr pid) (player_id c))).
Proof.
  intros Hpid Hc. cbv zeta.
  set (s0 := upd_client cid (set_creature (dict_get "creature" data (JObj []))) s) in *.
  assert (Hsame : join_branch_of pid s0 = join_branch_of pid s) by done.
  assert (Hres := join_adventure_party_result pid c now s0).
  assert (Hparties := join_adventure_party_parties pid c now s0).
  assert (Hhandle : handle_join_adventure cid data now s =
            let '(success, s1) := join_adventure_party pid c now s0 in
            if success
            then Done (send cid (ADVENTURE_JOINED (JStr pid) (player_id c))
                         (upd_client cid (set_adventure true (Some pid)) s1))
            else Done (send cid (ADVENTURE_JOIN_FAILED (JStr pid) join_failed_message) s1)).
  { unfold handle_join_adventure. fold s0. by rewrite Hpid, Hc. }
  rewrite Hsame in Hres, Hparties.
  change (adventure_parties s0) with (adventure_parties s) in Hparties.
  split; [|split].
  - rewrite join_refused_branch, Hres. destruct (join_branch_of pid s); split; done.
  - intros Href%join_refused_branch.
    assert (Hr : join_adventure_party pid c now s0 = (false, s0)).
    { apply join_adventure_party_refused. by rewrite Hsame. }
    split; [done|]. by rewrite Hhandle, Hr.
  - intros Hacc.
    assert (Hb : join_branch_of pid s = JoinAccepted).
    { destruct (decide (join_branch_of pid s = JoinAccepted)) as [|Hne]; [done|].
      by apply join_refused_branch in Hne. }
    rewrite Hb in Hres, Hparties. split; [done|].
    destruct (proj1 (join_branch_accepted pid s) Hb) as (p & Hp & _ & _).
    rewrite Hp in Hparties.
    rewrite Hhandle.
    destruct (join_adventure_party pid c now s0) as [ok s1].
    simpl in Hres, Hparties. subst ok.
    eexists p, _. split; [done|]. simpl.
    rewrite Hparties. rewrite lookup_insert_eq. repeat split; try reflexivity.
    by rewrite last_snoc.
Qed.

Lemma join_party_contract_witness :
  (join_adventure_party "3" (new_client "2") 9 active_room).1 = false ↔
  join_refused "3" active_room.
Proof.
  apply (join_party_contract "2" [("party_id", JStr "3")] "3" 9 active_room
           (set_creature (JObj []) (new_client "2"))).
  - reflexivity.
  - by vm_compute.
Defined.

(** ** Framing (C8, C9) *)

Lemma split_newline_none buffer :
  split_newline buffer = None ↔ has_newline buffer = false.
Proof.
  induction buffer as [|c rest IH]; simpl; [done|].
  destruct (Ascii.eqb c newline); [done|].
  destruct (split_newline rest) as [[m r]|]; [|tauto].
  split; [done|]. intros H. by apply IH in H.
Qed.

(** A frame followed by its delimiter splits off whole. *)
Lemma split_newline_frame message rest :
  has_newline message = false →
  split_newline (message +:+ String newline rest) = Some (message, rest).
Proof.
  induction message as [|c m IH]; simpl; [done|].
  destruct (Ascii.eqb c newline); [done|].
  intros H. by rewrite (IH H).
Qed.

Section ChannelFacts.

Variable dumps : json → string.
Variable loads : string → option json.
Variable encode_utf8 : string → bytes.
Variable decode_utf8 : bytes → option string.

Lemma drain_server_no_frame cid now buffer s :
  has_newline buffer = false → drain_server loads cid now buffer s = (s, buffer).
Proof.
  intros H%split_newline_none.
  funelim (drain_server loads cid now buffer s); first [congruence|done].
Qed.

Lemma drain_server_frame cid now message rest s :
  has_newline message = false →
  drain_server loads cid now (message +:+ String newline rest) s
    = drain_server loads cid now rest (process_message loads cid message now s).
Proof.
  intros H%(split_newline_frame message rest).
  remember (message +:+ String newline rest) as buffer eqn:Hbuf. clear Hbuf.
  funelim (drain_server loads cid now buffer s); [|congruence].
  match goal with
  | e : split_newline ?b = Some _, e' : split_newline ?b = Some _ |- _ =>
      rewrite e in e'; injection e' as -> ->
  end.
  done.
Qed.

Lemma drain_client_no_frame buffer c :
  has_newline buffer = false → drain_client loads buffer c = (c, buffer).
Proof.
  intros H%split_newline_none.
  funelim (drain_client loads buffer c); first [congruence|done].
Qed.

Lemma drain_client_frame message rest c :
  has_newline message = false →
  drain_client loads (message +:+ String newline rest) c
    = match client_frame loads message c with
      | (c', true) => drain_client loads rest c'
      | (c', false) => (c', rest)
      end.
Proof.
  intros H%(split_newline_frame message rest).
  remember (message +:+ String newline rest) as buffer eqn:Hbuf. clear Hbuf.
  funelim (drain_client loads buffer c); try congruence.
  all: match goal with
       | e : split_newline ?b = Some _, e' : split_newline ?b = Some _ |- _ =>
           rewrite e in e'; injection e' as -> ->
       end.
  all: match goal with Hf : client_frame _ _ _ = _ |- _ => by rewrite Hf end.
Qed.

Lemma drain_server_frames cid now frames rest s :
  Forall (λ f, has_newline f = false) frames →
  drain_server loads cid now (frames_then frames rest) s
    = drain_server loads cid now rest
        (foldl (λ acc f, process_message loads cid f now acc) s frames).
Proof.
  intros Hall. revert s.
  induction Hall as [|f frames Hf _ IH]; intros s; simpl; [done|].
  by rewrite drain_server_frame, IH.
Qed.

(** C8: take an envelope whose serialisation has no raw newline, that
    [json.loads] reads back, and whose encoded frame [bytes.decode] reads
    back. Encoding appends one newline to the serialisation; decoding the
    result yields the envelope and an empty remainder; and both receive
    loops, given the bytes, consume them whole: the client queues the
    envelope, the server dispatches it, and both buffers are empty. *)
Theorem frame_round_trip envelope :
  has_newline (dumps envelope) = false →
  loads (dumps envelope) = Some envelope →
  decode_utf8 (encode_bytes dumps encode_utf8 envelope) = Some (encode dumps envelope) →
  encode_bytes dumps encode_utf8 envelope ≠ EmptyString →
  encode dumps envelope = dumps envelope +:+ String newline EmptyString ∧
  decode loads (encode dumps envelope) = (Some envelope, EmptyString) ∧
  (∀ c, ∃ c', drain_client loads (encode dumps envelope) c = (c', EmptyString) ∧
              receive_queue c' = receive_queue c ++ [envelope]) ∧
  (∀ cid now s,
     drain_server loads cid now (encode dumps envelope) s
       = (state_of (dispatch cid envelope now s), EmptyString)) ∧
  (∀ c, ∃ c',
     receive_iteration loads decode_utf8 (encode_bytes dumps encode_utf8 envelope)
       EmptyString c = (c', EmptyString, true) ∧
     receive_queue c' = receive_queue c ++ [envelope]) ∧
  (∀ cid now s,
     run_iteration loads decode_utf8 cid now (encode_bytes dumps encode_utf8 envelope)
       EmptyString s
     = Receiving (state_of (dispatch cid envelope now s)) EmptyString).
Proof.
  intros Hnl Hload Hcodec Hne.
  assert (Hclient : ∀ c, ∃ c',
            drain_client loads (encode dumps envelope) c = (c', EmptyString) ∧
            receive_queue c' = receive_queue c ++ [envelope]).
  { intros c. unfold encode. rewrite drain_client_frame by done.
    unfold client_frame. rewrite Hload.
    destruct envelope as [| | | | |fields];
      try (eexists; split; [reflexivity|done]).
    destruct (dict_get "type" fields (JStr "")) as [| | |ty| |];
      try (rewrite drain_client_no_frame by done);
      try (eexists; split; [reflexivity|done]).
    destruct (decide (ty ∈ callbacks (put_received (JObj fields) c)));
      rewrite drain_client_no_frame by done;
      (eexists; split; [reflexivity|done]). }
  assert (Hserver : ∀ cid now s,
            drain_server loads cid now (encode dumps envelope) s
            = (state_of (dispatch cid envelope now s), EmptyString)).
  { intros cid now s. unfold encode. rewrite drain_server_frame by done.
    rewrite drain_server_no_frame by done.
    unfold process_message. by rewrite Hload. }
  assert (Hdata : String.eqb (encode_bytes dumps encode_utf8 envelope) EmptyString = false).
  { by apply String.eqb_neq. }
  split; [done|]. split; [|split; [done|split; [done|split]]].
  - unfold decode, encode. by rewrite split_newline_frame, Hload.
  - intros c. destruct (Hclient c) as (c' & Hd & Hq). exists c'. split; [|done].
    unfold receive_iteration. rewrite Hdata, Hcodec.
    change (EmptyString +:+ encode dumps envelope) with (encode dumps envelope).
    by rewrite Hd.
  - intros cid now s. unfold run_iteration. rewrite Hdata, Hcodec.
    change (EmptyString +:+ encode dumps envelope) with (encode dumps envelope).
    by rewrite Hserver.
Qed.

(** A delimited frame of text that [json.loads] rejects is passed over. The
    server's state and the client's state, with their [running] and
    [connected] flags, are what they were, and the loop goes on with the
    rest of the buffer as if the frame had not been there. *)
Lemma malformed_frame_is_skipped bad rest :
  has_newline bad = false →
  loads bad = None →
  (∀ cid now s,
     process_message loads cid bad now s = s ∧
     drain_server loads cid now (bad +:+ String newline rest) s
       = drain_server loads cid now rest s ∧
     ∀ before, Forall (λ f, has_newline f = false) before →
       drain_server loads cid now
         (frames_then before (bad +:+ String newline rest)) s
       = drain_server loads cid now (frames_then before rest) s) ∧
  (∀ c,
     client_frame loads bad c = (c, true) ∧
     drain_client loads (bad +:+ String newline rest) c
       = drain_client loads rest c).
Proof.
  intros Hnl Hbad.
  assert (Hpm : ∀ cid now s, process_message loads cid bad now s = s).
  { intros. unfold process_message. by rewrite Hbad. }
  assert (Hcf : ∀ c, client_frame loads bad c = (c, true)).
  { intros. unfold client_frame. by rewrite Hbad. }
  split.
  - intros cid now s. split; [done|]. split.
    + by rewrite drain_server_frame, Hpm.
    + intros before Hall. rewrite !drain_server_frames by done.
      by rewrite drain_server_frame, Hpm.
  - intros c. split; [done|]. by rewrite drain_client_frame, Hcf.
Qed.

End ChannelFacts.

Lemma frame_round_trip_witness :
  decode sample_loads (encode sample_dumps (JObj [])) = (Some (JObj []), EmptyString).
Proof.
  apply (frame_round_trip sample_dumps sample_loads sample_encode sample_decode (JObj []));
    (reflexivity || discriminate).
Defined.

Example malformed_frame_is_skipped_example :
  drain_client sample_loads ("{oops" +:+ String newline "{}") (NetClient true true [] [] [])
    = drain_client sample_loads "{}" (NetClient true true [] [] []).
Proof.
  apply (malformed_frame_is_skipped sample_loads "{oops" "{}"); reflexivity.
Qed.

(** ** Invariants of the server *)

Lemma remove_first_notin x l : x ∉ l → remove_first x l = l.
Proof.
  induction l as [|y l IH]; simpl; [done|].
  intros [Hne Hl]%not_elem_of_cons. rewrite decide_False by done. by rewrite IH.
Qed.

Lemma remove_first_subset x y l : y ∈ remove_first x l → y ∈ l.
Proof.
  induction l as [|z l IH]; simpl; [done|].
  destruct (decide (x = z)); [by right|].
  intros [->|H]%elem_of_cons; [by left|right; auto].
Qed.

Lemma remove_first_other x y l : y ≠ x → y ∈ l → y ∈ remove_first x l.
Proof.
  intros Hne. induction l as [|z l IH]; simpl; [done|].
  intros [->|H]%elem_of_cons.
  - rewrite decide_False by done. by left.
  - destruct (decide (x = z)); [done|]. right. auto.
Qed.

Lemma remove_first_NoDup x l : NoDup l → NoDup (remove_first x l) ∧ x ∉ remove_first x l.
Proof.
  induction 1 as [|y l Hy Hnd IH]; simpl.
  - split; [constructor|]. by intros ?%elem_of_nil.
  - destruct (decide (x = y)) as [->|Hne]; [done|].
    destruct IH as [IH1 IH2]. split.
    + constructor; [|done]. intros ?%remove_first_subset. done.
    + intros [?|?]%elem_of_cons; done.
Qed.

Lemma same_ids_refl m : same_ids m m.
Proof. done. Qed.

Lemma same_ids_trans m1 m2 m3 : same_ids m1 m2 → same_ids m2 m3 → same_ids m1 m3.
Proof. intros H1 H2 k. by rewrite H1. Qed.

Lemma same_ids_alter f k m :
  (∀ c, player_id (f c) = player_id c) → same_ids m (alter f k m).
Proof.
  intros Hf k'. rewrite lookup_alter. case_decide; [|done]. subst.
  destruct (m !! k') as [c|]; simpl; [|done]. by rewrite Hf.
Qed.

Lemma same_ids_known s s' k :
  same_ids (clients s) (clients s') → known s k ↔ known s' k.
Proof.
  intros H. unfold known. specialize (H k).
  destruct (clients s !! k), (clients s' !! k); simpl in H; done.
Qed.

Lemma party_ok_same_ids s s' p :
  same_ids (clients s) (clients s') → party_ok s p → party_ok s' p.
Proof.
  intros H [? ? ? ? ? Hk]. split; try done.
  intros m Hm. apply (same_ids_known s s' m H). auto.
Qed.

(** The invariant reads the handlers only through their keys and ids. *)
Lemma server_inv_transport s s' :
  same_ids (clients s) (clients s') →
  lobby s' = lobby s →
  battles s' = battles s →
  adventure_parties s' = adventure_parties s →
  uuid_ctr s ≤ uuid_ctr s' →
  server_inv s → server_inv s'.
Proof.
  intros Hids Hl Hb Hp Hctr [I1 I2 I3 I4 I5 I6].
  assert (Hk : ∀ k, known s k ↔ known s' k) by (intros; by apply same_ids_known).
  split.
  - intros k c Hc. specialize (Hids k). rewrite Hc in Hids.
    destruct (clients s !! k) as [c0|] eqn:Hc0; simpl in Hids; [|done].
    injection Hids as Hids. rewrite <- Hids. eauto.
  - intros k Hkn%Hk. destruct (I2 k Hkn) as (n & Hn & ->). exists n. split; [lia|done].
  - by rewrite Hl.
  - rewrite Hl. intros p Hpl. apply Hk. auto.
  - rewrite Hb. intros b bd Hbd. destruct (I5 b bd Hbd) as (? & ? & ?).
    repeat split; [done|by apply Hk..].
  - rewrite Hp. intros a p Hap. eapply party_ok_same_ids; eauto.
Qed.

Lemma server_inv_upd_client cid f s :
  (∀ c, player_id (f c) = player_id c) →
  server_inv s → server_inv (upd_client cid f s).
Proof.
  intros Hf. apply server_inv_transport; try done.
  by apply same_ids_alter.
Qed.

Lemma server_inv_send cid m s : server_inv s → server_inv (send cid m s).
Proof. by apply server_inv_transport. Qed.

Lemma server_inv_send_all rcpts m s : server_inv s → server_inv (send_all rcpts m s).
Proof. apply server_inv_transport; by srv_simpl. Qed.

Lemma known_upd_client cid f s k : known (upd_client cid f s) k ↔ known s k.
Proof.
  unfold known, upd_client. simpl. rewrite lookup_alter. case_decide; [|done].
  subst. by rewrite fmap_is_Some.
Qed.

(** *** What each lobby operation leaves in the tables *)

Lemma remove_from_lobby_tables cid now s :
  let s' := remove_from_lobby cid now s in
  clients s' = clients s ∧
  lobby s' = remove_first cid (lobby s) ∧
  battles s' = battles s ∧
  adventure_parties s' = adventure_parties s ∧
  uuid_ctr s' = uuid_ctr s.
Proof.
  unfold remove_from_lobby. case_decide; srv_simpl; [done|].
  by rewrite remove_first_notin.
Qed.

Lemma add_to_lobby_tables cid now s :
  let s' := add_to_lobby cid now s in
  clients s' = clients s ∧
  lobby s' = (if decide (cid ∈ lobby s) then lobby s else lobby s ++ [cid]) ∧
  battles s' = battles s ∧
  adventure_parties s' = adventure_parties s ∧
  uuid_ctr s' = uuid_ctr s.
Proof. unfold add_to_lobby. case_decide; by srv_simpl. Qed.

Lemma remove_from_lobby_outbox cid now s :
  outbox (remove_from_lobby cid now s) =
  outbox s ++
  (if decide (cid ∈ lobby s)
   then map (λ c, (c, LOBBY_STATUS (length (remove_first cid (lobby s))) now))
            (remove_first cid (lobby s))
   else []).
Proof.
  unfold remove_from_lobby. case_decide; srv_simpl; [done|]. by rewrite app_nil_r.
Qed.

Lemma server_inv_remove_from_lobby cid now s :
  server_inv s → server_inv (remove_from_lobby cid now s).
Proof.
  intros Hinv.
  destruct (remove_from_lobby_tables cid now s) as (Hc & Hl & Hb & Hp & Hn).
  destruct Hinv as [I1 I2 I3 I4 I5 I6].
  assert (Hk : ∀ k, known (remove_from_lobby cid now s) k ↔ known s k).
  { intros k. unfold known. by rewrite Hc. }
  split.
  - rewrite Hc. exact I1.
  - intros k Hkn%Hk. rewrite Hn. auto.
  - rewrite Hl. by apply remove_first_NoDup.
  - rewrite Hl. intros p Hpl%remove_first_subset. apply Hk. auto.
  - rewrite Hb. intros b bd Hbd. destruct (I5 b bd Hbd) as (? & ? & ?).
    repeat split; [done|by apply Hk..].
  - rewrite Hp. intros a p Hap. destruct (I6 a p Hap). split; try done.
    intros m Hm. apply Hk. auto.
Qed.

Lemma server_inv_add_to_lobby cid now s :
  known s cid → server_inv s → server_inv (add_to_lobby cid now s).
Proof.
  intros Hcid Hinv.
  destruct (add_to_lobby_tables cid now s) as (Hc & Hl & Hb & Hp & Hn).
  destruct Hinv as [I1 I2 I3 I4 I5 I6].
  assert (Hk : ∀ k, known (add_to_lobby cid now s) k ↔ known s k).
  { intros k. unfold known. by rewrite Hc. }
  split.
  - rewrite Hc. exact I1.
  - intros k Hkn%Hk. rewrite Hn. auto.
  - rewrite Hl. case_decide; [done|].
    apply NoDup_app. repeat split; [done| |apply NoDup_singleton].
    intros x Hx ->%list_elem_of_singleton. done.
  - rewrite Hl. intros p Hpl. apply Hk. case_decide; [auto|].
    apply elem_of_app in Hpl as [?| ->%list_elem_of_singleton]; auto.
  - rewrite Hb. intros b bd Hbd. destruct (I5 b bd Hbd) as (? & ? & ?).
    repeat split; [done|by apply Hk..].
  - rewrite Hp. intros a p Hap. destruct (I6 a p Hap). split; try done.
    intros m Hm. apply Hk. auto.
Qed.

(** *** Matchmaking *)

Lemma match_players_idle now s :
  length (lobby s) < 2 → match_players now s = s.
Proof.
  unfold match_players. destruct (lobby s) as [|p1 [|p2 rest]]; simpl; [done..|lia].
Qed.

(** A pairing, spelled out table by table. *)
Lemma match_players_tables now s p1 p2 rest c1 c2 :
  lobby s = p1 :: p2 :: rest →
  clients s !! p1 = Some c1 →
  clients s !! p2 = Some c2 →
  let bid := uuid4 (uuid_ctr s) in
  let s' := match_players now s in
  clients s' = alter (set_battle true (Some bid)) p2
                 (alter (set_battle true (Some bid)) p1 (clients s)) ∧
  lobby s' = rest ∧
  battles s' = <[bid := Battle bid (player_id c1) (player_id c2) (creature c1)
                           (creature c2) Player1 now now]> (battles s) ∧
  adventure_parties s' = adventure_parties s ∧
  uuid_ctr s' = S (uuid_ctr s) ∧
  outbox s' = outbox s
    ++ map (λ c, (c, LOBBY_STATUS (S (length rest)) now)) (p2 :: rest)
    ++ map (λ c, (c, LOBBY_STATUS (length rest) now)) rest
    ++ [(p1, BATTLE_START bid Player1 (creature c1) (creature c2) Player1);
        (p2, BATTLE_START bid Player2 (creature c2) (creature c1) Player1)].
Proof.
  intros Hl Hc1 Hc2. unfold match_players. rewrite Hl, Hc1, Hc2.
  destruct (remove_from_lobby_tables p1 now s) as (E1 & E2 & E3 & E4 & E5).
  assert (O1 := remove_from_lobby_outbox p1 now s).
  rewrite Hl in E2, O1. simpl in E2, O1.
  rewrite decide_True in E2, O1 by done.
  rewrite decide_True in O1 by (apply elem_of_cons; by left).
  set (s1 := remove_from_lobby p1 now s) in *.
  destruct (remove_from_lobby_tables p2 now s1) as (F1 & F2 & F3 & F4 & F5).
  assert (O2 := remove_from_lobby_outbox p2 now s1).
  rewrite E2 in F2, O2. simpl in F2, O2.
  rewrite decide_True in F2, O2 by done.
  rewrite decide_True in O2 by (apply elem_of_cons; by left).
  set (s2 := remove_from_lobby p2 now s1) in *.
  cbv zeta. simpl.
  rewrite F1, E1, F2, F3, E3, F4, E4, F5, E5, O2, O1.
  repeat split; try done.
  simpl. rewrite <- !app_assoc. simpl. done.
Qed.

(** Rebuilding the invariant after an operation that registers no handler. *)
Lemma server_inv_build s s' :
  server_inv s →
  same_ids (clients s) (clients s') →
  uuid_ctr s ≤ uuid_ctr s' →
  NoDup (lobby s') →
  (∀ p, p ∈ lobby s' → known s p) →
  (∀ b bd, battles s' !! b = Some bd →
     player1 bd ≠ player2 bd ∧ known s (player1 bd) ∧ known s (player2 bd)) →
  (∀ a p, adventure_parties s' !! a = Some p → party_ok s p) →
  server_inv s'.
Proof.
  intros [I1 I2 I3 I4 I5 I6] Hids Hctr Hnd Hl Hb Hp.
  assert (Hk : ∀ k, known s k ↔ known s' k) by (intros; by apply same_ids_known).
  split; try done.
  - intros k c Hc. specialize (Hids k). rewrite Hc in Hids.
    destruct (clients s !! k) as [c0|] eqn:Hc0; simpl in Hids; [|done].
    injection Hids as Hids. rewrite <- Hids. eauto.
  - intros k Hkn%Hk. destruct (I2 k Hkn) as (n & Hn & ->). exists n. split; [lia|done].
  - intros p Hpl. apply Hk. auto.
  - intros b bd Hbd. destruct (Hb b bd Hbd) as (? & ? & ?).
    repeat split; [done|by apply Hk..].
  - intros a p Hap. eapply party_ok_same_ids; eauto.
Qed.

Lemma battles_within_refl m : battles_within m m.
Proof. intros b bd H. eauto. Qed.

Lemma battles_within_trans m1 m2 m3 :
  battles_within m1 m2 → battles_within m2 m3 → battles_within m1 m3.
Proof.
  intros H12 H23 b bd3 H3.
  destruct (H23 b bd3 H3) as (bd2 & H2 & -> & ->).
  destruct (H12 b bd2 H2) as (bd1 & H1 & -> & ->). eauto.
Qed.

Lemma battles_within_delete m b : battles_within m (delete b m).
Proof.
  intros b' bd. rewrite lookup_delete. case_decide; [done|]. eauto.
Qed.

Lemma battles_within_update m b bd bd' :
  m !! b = Some bd → player1 bd' = player1 bd → player2 bd' = player2 bd →
  battles_within m (<[b := bd']> m).
Proof.
  intros Hb H1 H2 b' bd''. rewrite lookup_insert. case_decide.
  - subst. intros [= <-]. eauto.
  - eauto.
Qed.

Lemma notify_battle_end_tables bid winner reason pid s :
  let s' := notify_battle_end bid winner reason pid s in
  same_ids (clients s) (clients s') ∧
  lobby s' = lobby s ∧
  battles s' = battles s ∧
  adventure_parties s' = adventure_parties s ∧
  uuid_ctr s' = uuid_ctr s.
Proof.
  unfold notify_battle_end. destruct (clients s !! pid) as [c|]; [|done].
  destruct (in_battle c && bool_decide (battle_id c = Some bid)); [|done].
  simpl. repeat split; try done. by apply same_ids_alter.
Qed.

Lemma end_battle_tables bid pid s :
  let s' := end_battle bid pid s in
  same_ids (clients s) (clients s') ∧
  lobby s' = lobby s ∧
  battles s' = delete bid (battles s) ∧
  adventure_parties s' = adventure_parties s ∧
  uuid_ctr s' = uuid_ctr s.
Proof.
  unfold end_battle. destruct (battles s !! bid) as [bd|] eqn:Hb.
  - cbv zeta.
    set (w := if truthy pid then _ else None).
    set (r := if truthy pid then disconnect else completion).
    destruct (notify_battle_end_tables bid w r (player1 bd) s) as (A1 & A2 & A3 & A4 & A5).
    set (s1 := notify_battle_end bid w r (player1 bd) s) in *.
    destruct (notify_battle_end_tables bid w r (player2 bd) s1) as (B1 & B2 & B3 & B4 & B5).
    simpl. rewrite B2, A2, B3, A3, B4, A4, B5, A5. repeat split; try done.
    by eapply same_ids_trans.
  - simpl. repeat split; try done. by rewrite delete_id.
Qed.

(** [end_battle] on a room that is not in the table does nothing. *)
Lemma end_battle_absent bid pid s : battles s !! bid = None → end_battle bid pid s = s.
Proof. unfold end_battle. by intros ->. Qed.

Lemma process_battle_action_tables bid pid ability_index now s :
  let s' := process_battle_action bid pid ability_index now s in
  same_ids (clients s) (clients s') ∧
  lobby s' = lobby s ∧
  battles_within (battles s) (battles s') ∧
  adventure_parties s' = adventure_parties s ∧
  uuid_ctr s' = uuid_ctr s.
Proof.
  unfold process_battle_action.
  destruct (battles s !! bid) as [bd|] eqn:Hb;
    [|simpl; repeat split; try done; apply battles_within_refl].
  cbv zeta.
  set (s1 := with_battles s (<[bid := set_battle_activity now bd]> (battles s))).
  assert (H1 : battles_within (battles s) (battles s1)).
  { by apply (battles_within_update _ _ bd). }
  destruct (decide (current_turn (set_battle_activity now bd)
                    = player_role (set_battle_activity now bd) pid)); [|done].
  destruct (clients s1 !! _) as [c|].
  - simpl. repeat split; try done.
    rewrite insert_insert_eq. by apply (battles_within_update _ _ bd).
  - destruct (end_battle_tables bid (Some pid) s1) as (A1 & A2 & A3 & A4 & A5).
    rewrite A2, A3, A4, A5. repeat split; try done.
    eapply battles_within_trans; [exact H1|apply battles_within_delete].
Qed.

Lemma server_inv_battles_within s s' :
  server_inv s →
  same_ids (clients s) (clients s') →
  lobby s' = lobby s →
  battles_within (battles s) (battles s') →
  adventure_parties s' = adventure_parties s →
  uuid_ctr s' = uuid_ctr s →
  server_inv s'.
Proof.
  intros Hinv Hids Hl Hb Hp Hn.
  apply (server_inv_build s s' Hinv Hids); [lia|rewrite Hl; apply Hinv..| |].
  - intros b bd' Hbd'. destruct (Hb b bd' Hbd') as (bd & Hbd & -> & ->).
    by apply (inv_battle_players s Hinv b).
  - rewrite Hp. apply Hinv.
Qed.

Lemma server_inv_end_battle bid pid s : server_inv s → server_inv (end_battle bid pid s).
Proof.
  intros Hinv. destruct (end_battle_tables bid pid s) as (A1 & A2 & A3 & A4 & A5).
  apply (server_inv_battles_within s _ Hinv); try done.
  rewrite A3. apply battles_within_delete.
Qed.

Lemma server_inv_process_battle_action bid pid ability_index now s :
  server_inv s → server_inv (process_battle_action bid pid ability_index now s).
Proof.
  intros Hinv.
  destruct (process_battle_action_tables bid pid ability_index now s)
    as (A1 & A2 & A3 & A4 & A5).
  by apply (server_inv_battles_within s _ Hinv).
Qed.

Lemma server_inv_match_players now s : server_inv s → server_inv (match_players now s).
Proof.
  intros Hinv.
  destruct (lobby s) as [|p1 [|p2 rest]] eqn:Hl;
    try (rewrite match_players_idle by (rewrite Hl; simpl; lia); done).
  assert (Hk1 : known s p1) by (apply Hinv; rewrite Hl; set_solver).
  assert (Hk2 : known s p2) by (apply Hinv; rewrite Hl; set_solver).
  destruct Hk1 as [c1 Hc1]. destruct Hk2 as [c2 Hc2].
  destruct (match_players_tables now s p1 p2 rest c1 c2 Hl Hc1 Hc2)
    as (A1 & A2 & A3 & A4 & A5 & _).
  assert (Hnd := inv_lobby_nodup s Hinv). rewrite Hl in Hnd.
  apply NoDup_cons in Hnd as [Hp1 Hnd]. apply NoDup_cons in Hnd as [Hp2 Hnd].
  apply (server_inv_build s _ Hinv).
  - rewrite A1. eapply same_ids_trans; by apply same_ids_alter.
  - lia.
  - by rewrite A2.
  - rewrite A2. intros p Hp. apply Hinv. rewrite Hl. set_solver.
  - rewrite A3. intros b bd. rewrite lookup_insert. case_decide.
    + intros [= <-]. simpl.
      rewrite (inv_client_key s Hinv p1 c1 Hc1), (inv_client_key s Hinv p2 c2 Hc2).
      repeat split; [set_solver|by eexists..].
    + by apply Hinv.
  - rewrite A4. apply Hinv.
Qed.

(** *** Adventure parties *)

Lemma index_of_Some x l i : index_of x l = Some i → l !! i = Some x.
Proof.
  revert i. induction l as [|y l IH]; intros i; simpl; [done|].
  destruct (decide (x = y)) as [->|].
  - by intros [= <-].
  - destruct (index_of x l) as [j|]; simpl; [|done].
    intros [= <-]. simpl. auto.
Qed.

Lemma index_of_None x l : index_of x l = None ↔ x ∉ l.
Proof.
  induction l as [|y l IH]; simpl.
  - split; [|done]. intros _ ?%elem_of_nil. done.
  - rewrite not_elem_of_cons. destruct (decide (x = y)) as [->|Hne].
    + split; [done|]. by intros [? _].
    + destruct (index_of x l) as [j|]; simpl.
      * split; [done|]. intros [_ H]. by apply IH in H.
      * split; [|done]. intros _. split; [done|]. by apply IH.
Qed.

(** The first occurrence: no earlier position holds [x]. *)
Lemma index_of_first x l i j : index_of x l = Some i → j < i → l !! j ≠ Some x.
Proof.
  revert i j. induction l as [|y l IH]; intros i j; simpl; [done|].
  destruct (decide (x = y)) as [->|Hne].
  - intros [= <-]. lia.
  - destruct (index_of x l) as [k|] eqn:Hk; simpl; [|done].
    intros [= <-] Hj. destruct j as [|j]; simpl.
    + congruence.
    + apply (IH k); [done|lia].
Qed.

Lemma elem_of_delete_list {A} (x : A) i (l : list A) : x ∈ delete i l → x ∈ l.
Proof.
  revert i. induction l as [|y l IH]; intros i; [by destruct i|].
  destruct i as [|i]; simpl.
  - by right.
  - intros [->|H]%elem_of_cons; [by left|right; eauto].
Qed.

Lemma broadcast_adventure_update_tables aid now s :
  let s' := broadcast_adventure_update aid now s in
  clients s' = clients s ∧ lobby s' = lobby s ∧ battles s' = battles s ∧
  adventure_parties s' = adventure_parties s ∧ uuid_ctr s' = uuid_ctr s.
Proof.
  unfold broadcast_adventure_update.
  destruct (adventure_parties s !! aid); by srv_simpl.
Qed.

Lemma broadcast_adventure_start_tables aid now s :
  let s' := broadcast_adventure_start aid now s in
  clients s' = clients s ∧ lobby s' = lobby s ∧ battles s' = battles s ∧
  adventure_parties s' = adventure_parties s ∧ uuid_ctr s' = uuid_ctr s.
Proof.
  unfold broadcast_adventure_start.
  destruct (adventure_parties s !! aid); by srv_simpl.
Qed.

Lemma create_adventure_party_tables c now s :
  let r := create_adventure_party c now s in
  r.1 = uuid4 (uuid_ctr s) ∧
  clients r.2 = clients s ∧ lobby r.2 = lobby s ∧ battles r.2 = battles s ∧
  adventure_parties r.2 =
    <[uuid4 (uuid_ctr s) :=
        Party (uuid4 (uuid_ctr s)) (player_id c) [player_id c] [creature c]
              [username c] waiting now now]> (adventure_parties s) ∧
  uuid_ctr r.2 = S (uuid_ctr s) ∧ outbox r.2 = outbox s.
Proof. done. Qed.

Lemma join_adventure_party_frame pid c now s :
  let r := join_adventure_party pid c now s in
  clients r.2 = clients s ∧ lobby r.2 = lobby s ∧ battles r.2 = battles s ∧
  uuid_ctr r.2 = uuid_ctr s.
Proof.
  unfold join_adventure_party.
  destruct (adventure_parties s !! pid) as [p|]; [|done].
  destruct (decide (4 ≤ length (members p))); [done|].
  destruct (decide (state p = waiting)); [|done].
  cbv zeta.
  set (p1 := set_party_activity now _).
  set (s1 := with_parties s _).
  destruct (broadcast_adventure_update_tables pid now s1) as (A1 & A2 & A3 & A4 & A5).
  set (s2 := broadcast_adventure_update pid now s1) in *.
  destruct (decide (2 ≤ length (members p1))); simpl; [|by rewrite A1, A2, A3, A5].
  set (s3 := with_parties s2 _).
  destruct (broadcast_adventure_start_tables pid now s3) as (B1 & B2 & B3 & B4 & B5).
  by rewrite B1, B2, B3, B5; simpl; rewrite A1, A2, A3, A5.
Qed.

(** Rebuilding the invariant after an operation on the parties only. *)
Lemma server_inv_parties s s' :
  server_inv s →
  clients s' = clients s → lobby s' = lobby s → battles s' = battles s →
  uuid_ctr s ≤ uuid_ctr s' →
  (∀ a p, adventure_parties s' !! a = Some p → party_ok s p) →
  server_inv s'.
Proof.
  intros Hinv Hc Hl Hb Hn Hp.
  apply (server_inv_build s s' Hinv); try done.
  - by rewrite Hc.
  - rewrite Hl. apply Hinv.
  - rewrite Hl. apply Hinv.
  - rewrite Hb. apply Hinv.
Qed.

Lemma server_inv_create_adventure_party c now s :
  known s (player_id c) →
  server_inv s → server_inv (create_adventure_party c now s).2.
Proof.
  intros Hk Hinv.
  apply (server_inv_parties s _ Hinv); try done; [simpl; lia|].
  intros a p. simpl. rewrite lookup_insert. case_decide; [|by apply Hinv].
  intros [= <-]. split; simpl; try done; try lia.
  by intros m ->%list_elem_of_singleton.
Qed.

Lemma server_inv_join_adventure_party pid c now s :
  known s (player_id c) →
  server_inv s → server_inv (join_adventure_party pid c now s).2.
Proof.
  intros Hk Hinv.
  destruct (join_adventure_party_frame pid c now s) as (A1 & A2 & A3 & A4).
  apply (server_inv_parties s _ Hinv); try done; [lia|].
  rewrite join_adventure_party_parties.
  destruct (join_branch_of pid s) eqn:Hbr; try apply Hinv.
  destruct (adventure_parties s !! pid) as [p0|] eqn:Hp0; [|apply Hinv].
  intros a p. rewrite lookup_insert. case_decide; [|by apply Hinv].
  intros [= <-].
  apply join_branch_accepted in Hbr as (p0' & Hp0' & _ & Hw).
  assert (p0' = p0) as -> by congruence.
  destruct (inv_party s Hinv pid p0 Hp0) as [Hcs Hus Hne Hwait Hsz Hkn].
  specialize (Hwait Hw).
  split; simpl; rewrite ?length_app; simpl; try lia.
  - by destruct (members p0).
  - rewrite decide_True by lia. done.
  - intros m [?| ->%list_elem_of_singleton]%elem_of_app; auto.
Qed.

(** What [remove_from_adventure] does to a room whose lists run in step. *)
Lemma remove_from_adventure_done aid pid now s p i :
  adventure_parties s !! aid = Some p →
  index_of pid (members p) = Some i →
  i < length (creatures p) →
  i < length (usernames p) →
  remove_from_adventure aid pid now s =
  Done (match delete i (members p) with
        | [] => with_parties s (delete aid (adventure_parties s))
        | m0 :: _ =>
            broadcast_adventure_update aid now
              (with_parties s
                 (<[aid := Party (p_id p) (if decide (pid = host p) then m0 else host p)
                                 (delete i (members p)) (delete i (creatures p))
                                 (delete i (usernames p)) (state p)
                                 (creation_time p) now]> (adventure_parties s)))
        end).
Proof.
  intros Hp Hi Hc Hu. unfold remove_from_adventure. rewrite Hp, Hi.
  rewrite !decide_True by done.
  destruct (delete i (members p)) as [|m0 ms] eqn:Hd; [done|].
  f_equal. f_equal. f_equal. f_equal. simpl. by case_decide.
Qed.

Lemma remove_from_adventure_absent aid pid now s :
  adventure_parties s !! aid = None → remove_from_adventure aid pid now s = Done s.
Proof. unfold remove_from_adventure. by intros ->. Qed.

Lemma remove_from_adventure_not_member aid pid now s p :
  adventure_parties s !! aid = Some p → pid ∉ members p →
  remove_from_adventure aid pid now s = Done s.
Proof.
  unfold remove_from_adventure. intros -> H%index_of_None. by rewrite H.
Qed.

(** In a state that satisfies the invariant the removal never raises. *)
Lemma remove_from_adventure_cases aid pid now s :
  server_inv s →
  remove_from_adventure aid pid now s = Done s ∨
  ∃ p i, adventure_parties s !! aid = Some p ∧
         index_of pid (members p) = Some i ∧
         i < length (creatures p) ∧ i < length (usernames p).
Proof.
  intros Hinv.
  destruct (adventure_parties s !! aid) as [p|] eqn:Hp;
    [|left; by apply remove_from_adventure_absent].
  destruct (index_of pid (members p)) as [i|] eqn:Hi.
  - right. exists p, i.
    destruct (inv_party s Hinv aid p Hp) as [Hcs Hus _ _ _ _].
    assert (Hlt : i < length (members p)).
    { eapply lookup_lt_Some. by apply index_of_Some. }
    split; [done|]. split; [done|]. split; lia.
  - left. eapply remove_from_adventure_not_member; [done|]. by apply index_of_None.
Qed.

Lemma server_inv_remove_from_adventure aid pid now s :
  server_inv s → server_inv (state_of (remove_from_adventure aid pid now s)).
Proof.
  intros Hinv.
  destruct (remove_from_adventure_cases aid pid now s Hinv)
    as [->|(p & i & Hp & Hi & Hc & Hu)]; [done|].
  rewrite (remove_from_adventure_done aid pid now s p i) by done.
  destruct (inv_party s Hinv aid p Hp) as [Hcs Hus Hne Hwait Hsz Hkn].
  simpl. destruct (delete i (members p)) as [|m0 ms] eqn:Hd.
  - apply (server_inv_parties s _ Hinv); try done.
    intros a q. simpl. rewrite lookup_delete. case_decide; [done|]. by apply Hinv.
  - set (s1 := with_parties s _).
    destruct (broadcast_adventure_update_tables aid now s1) as (A1 & A2 & A3 & A4 & A5).
    apply (server_inv_parties s _ Hinv); try done; [by rewrite A5|].
    rewrite A4. intros a q. simpl. rewrite lookup_insert. case_decide; [|by apply Hinv].
    intros [= <-].
    assert (Hlt : i < length (members p)).
    { eapply lookup_lt_Some. by apply index_of_Some. }
    assert (Hlen : length (delete i (members p)) = S (length ms)) by by rewrite Hd.
    rewrite length_delete in Hlen by (by apply lookup_lt_is_Some).
    split; simpl.
    + rewrite length_delete by (apply lookup_lt_is_Some; lia). lia.
    + rewrite length_delete by (apply lookup_lt_is_Some; lia). lia.
    + done.
    + intros Hw. specialize (Hwait Hw). lia.
    + lia.
    + intros m Hm. rewrite <- Hd in Hm. apply elem_of_delete_list in Hm. auto.
Qed.

Lemma remove_from_adventure_frame aid pid now s :
  let s' := state_of (remove_from_adventure aid pid now s) in
  clients s' = clients s ∧ lobby s' = lobby s ∧ battles s' = battles s ∧
  uuid_ctr s' = uuid_ctr s.
Proof.
  unfold remove_from_adventure.
  destruct (adventure_parties s !! aid) as [p|]; [|done].
  destruct (index_of pid (members p)) as [i|]; [|done].
  cbv zeta. repeat case_decide; simpl; try done.
  all: destruct (delete i (members p)); simpl; try done.
  all: match goal with
       | |- context [broadcast_adventure_update ?a ?n ?s0] =>
           destruct (broadcast_adventure_update_tables a n s0) as (-> & -> & -> & _ & ->)
       end.
  all: done.
Qed.

Lemma process_adventure_update_tables aid pid data now s :
  let s' := process_adventure_update aid pid data now s in
  clients s' = clients s ∧ lobby s' = lobby s ∧ battles s' = battles s ∧
  uuid_ctr s' = uuid_ctr s ∧
  adventure_parties s' =
    match adventure_parties s !! aid with
    | Some p => if decide (pid ∈ members p)
                then <[aid := set_party_activity now p]> (adventure_parties s)
                else adventure_parties s
    | None => adventure_parties s
    end.
Proof.
  unfold process_adventure_update.
  destruct (adventure_parties s !! aid) as [p|]; [|done].
  case_decide; by srv_simpl.
Qed.

Lemma server_inv_process_adventure_update aid pid data now s :
  server_inv s → server_inv (process_adventure_update aid pid data now s).
Proof.
  intros Hinv.
  destruct (process_adventure_update_tables aid pid data now s) as (A1 & A2 & A3 & A4 & A5).
  apply (server_inv_parties s _ Hinv); try done; [lia|].
  rewrite A5. destruct (adventure_parties s !! aid) as [p|] eqn:Hp; [|apply Hinv].
  case_decide; [|apply Hinv].
  intros a q. rewrite lookup_insert. case_decide; [|by apply Hinv].
  intros [= <-]. by destruct (inv_party s Hinv aid p Hp).
Qed.

(** *** Handlers, cleanup, and whole runs *)

Lemma set_creature_id j c : player_id (set_creature j c) = player_id c.
Proof. done. Qed.

Lemma server_inv_handle_join_lobby cid data now s :
  known s cid → server_inv s → server_inv (handle_join_lobby cid data now s).
Proof.
  intros Hk Hinv. unfold handle_join_lobby.
  set (s1 := upd_client cid (set_creature _) s).
  assert (H1 : server_inv s1) by by apply server_inv_upd_client.
  assert (K1 : known s1 cid) by by apply known_upd_client.
  set (s2 := if dict_has "username" data then _ else s1).
  assert (H2 : server_inv s2 ∧ known s2 cid).
  { subst s2. destruct (dict_has "username" data); [|done].
    split; [by apply server_inv_upd_client|by apply known_upd_client]. }
  destruct H2 as [H2 K2].
  assert (H3 := server_inv_add_to_lobby cid now s2 K2 H2).
  assert (H4 : server_inv (upd_client cid (set_in_lobby true) (add_to_lobby cid now s2)))
    by by apply server_inv_upd_client.
  destruct (clients _ !! cid); [by apply server_inv_send|done].
Qed.

Lemma server_inv_handle_leave_lobby cid now s :
  server_inv s → server_inv (handle_leave_lobby cid now s).
Proof.
  intros Hinv. unfold handle_leave_lobby.
  destruct (clients s !! cid) as [c|]; [|done].
  destruct (in_lobby c); [|done].
  apply server_inv_send, server_inv_upd_client; [done|].
  by apply server_inv_remove_from_lobby.
Qed.

Lemma server_inv_handle_battle_action cid data now s :
  server_inv s → server_inv (handle_battle_action cid data now s).
Proof.
  intros Hinv. unfold handle_battle_action.
  destruct (clients s !! cid) as [c|]; [|done].
  destruct (in_battle c); [|done].
  destruct (battle_id c); [|done].
  by apply server_inv_process_battle_action.
Qed.

Lemma server_inv_handle_create_adventure cid data now s :
  server_inv s → server_inv (handle_create_adventure cid data now s).
Proof.
  intros Hinv. unfold handle_create_adventure.
  set (s1 := upd_client cid (set_creature _) s).
  assert (H1 : server_inv s1) by by apply server_inv_upd_client.
  destruct (clients s1 !! cid) as [c|] eqn:Hc; [|done].
  assert (Hk : known s1 (player_id c)).
  { rewrite (inv_client_key s1 H1 cid c Hc). by eexists. }
  assert (H2 := server_inv_create_adventure_party c now s1 Hk H1).
  destruct (create_adventure_party c now s1) as [aid s2]. simpl in H2.
  by apply server_inv_send, server_inv_upd_client.
Qed.

Lemma server_inv_handle_join_adventure cid data now s :
  server_inv s → server_inv (state_of (handle_join_adventure cid data now s)).
Proof.
  intros Hinv. unfold handle_join_adventure.
  set (s1 := upd_client cid (set_creature _) s).
  assert (H1 : server_inv s1) by by apply server_inv_upd_client.
  destruct (clients s1 !! cid) as [c|] eqn:Hc; [|done].
  assert (Hk : known s1 (player_id c)).
  { rewrite (inv_client_key s1 H1 cid c Hc). by eexists. }
  destruct (dict_get "party_id" data (JStr "")) as [| | |pid| |]; simpl;
    try (by apply server_inv_send); try done.
  assert (H2 := server_inv_join_adventure_party pid c now s1 Hk H1).
  destruct (join_adventure_party pid c now s1) as [[] s2]; simpl in *.
  - by apply server_inv_send, server_inv_upd_client.
  - by apply server_inv_send.
Qed.

Lemma server_inv_handle_adventure_update cid data now s :
  server_inv s → server_inv (handle_adventure_update cid data now s).
Proof.
  intros Hinv. unfold handle_adventure_update.
  destruct (clients s !! cid) as [c|]; [|done].
  destruct (in_adventure c); [|done].
  destruct (adventure_id c); [|done].
  by apply server_inv_process_adventure_update.
Qed.

Lemma server_inv_handle_get_adventure_parties cid s :
  server_inv s → server_inv (state_of (handle_get_adventure_parties cid s)).
Proof.
  intros Hinv. unfold handle_get_adventure_parties.
  destruct (get_adventure_parties s); simpl; [by apply server_inv_send|done].
Qed.

Lemma server_inv_dispatch cid data now s :
  known s cid → server_inv s → server_inv (state_of (dispatch cid data now s)).
Proof.
  intros Hk Hinv. unfold dispatch. destruct data; try done.
  repeat (case_match; simpl;
          eauto using server_inv_handle_join_lobby, server_inv_handle_leave_lobby,
            server_inv_handle_battle_action, server_inv_handle_create_adventure,
            server_inv_handle_join_adventure, server_inv_handle_adventure_update,
            server_inv_handle_get_adventure_parties).
Qed.

Lemma server_inv_clean_up cid now s :
  server_inv s → server_inv (state_of (clean_up cid now s)).
Proof.
  intros Hinv. unfold clean_up.
  destruct (clients s !! cid) as [c|]; [|done].
  set (s1 := if in_lobby c then _ else s).
  assert (H1 : server_inv s1).
  { subst s1. destruct (in_lobby c); [by apply server_inv_remove_from_lobby|done]. }
  set (s2 := if in_battle c then _ else s1).
  assert (H2 : server_inv s2).
  { subst s2. destruct (in_battle c); [|done].
    destruct (battle_id c); [by apply server_inv_end_battle|done]. }
  set (o := if in_adventure c then _ else Done s2).
  assert (H3 : server_inv (state_of o)).
  { subst o. destruct (in_adventure c); [|done].
    destruct (adventure_id c); [by apply server_inv_remove_from_adventure|done]. }
  destruct o; simpl in *; [by apply server_inv_upd_client|done].
Qed.

Lemma server_inv_accept s : server_inv s → server_inv (accept s).
Proof.
  intros [I1 I2 I3 I4 I5 I6]. unfold accept.
  assert (Hk : ∀ k, known s k → known (with_clients (with_ctr s (S (uuid_ctr s)))
              (<[uuid4 (uuid_ctr s) := new_client (uuid4 (uuid_ctr s))]> (clients s))) k).
  { intros k [c Hc]. unfold known. simpl. rewrite lookup_insert.
    case_decide; by eexists. }
  split; simpl.
  - intros k c. rewrite lookup_insert. case_decide; [|by apply I1].
    by intros [= <-].
  - intros k [c Hc]. simpl in Hc. rewrite lookup_insert in Hc. case_decide.
    + exists (uuid_ctr s). split; [lia|done].
    + destruct (I2 k) as (n & Hn & ->); [by eexists|]. exists n. split; [lia|done].
  - done.
  - intros p Hp. apply Hk. auto.
  - intros b bd Hbd. destruct (I5 b bd Hbd) as (? & ? & ?). auto.
  - intros a p Hap. destruct (I6 a p Hap). split; try done.
    intros m Hm. apply Hk. auto.
Qed.

Lemma is_running_known cid s : is_running cid s = true → known s cid.
Proof.
  unfold is_running, known. destruct (clients s !! cid); [by eexists|done].
Qed.

Lemma server_inv_step s ev : server_inv s → server_inv (step s ev).
Proof.
  intros Hinv. destruct ev as [|cid data now|now|cid now]; simpl.
  - by apply server_inv_accept.
  - destruct (is_running cid s) eqn:Hr; [|done].
    apply server_inv_dispatch; [by apply is_running_known|done].
  - by apply server_inv_match_players.
  - destruct (is_running cid s) eqn:Hr; [|done]. by apply server_inv_clean_up.
Qed.

Lemma server_inv_init : server_inv init.
Proof.
  split; simpl; try done.
  - by intros k [c Hc].
  - constructor.
  - by intros p ?%elem_of_nil.
Qed.

Lemma server_inv_run evs s : server_inv s → server_inv (run evs s).
Proof.
  revert s. induction evs as [|ev evs IH]; intros s Hinv; simpl; [done|].
  apply IH. by apply server_inv_step.
Qed.

(** Every reachable state of the server satisfies the invariant. *)
Lemma reachable_inv s : reachable s → server_inv s.
Proof. intros [evs ->]. apply server_inv_run, server_inv_init. Qed.

Lemma reachable_step s ev : reachable s → reachable (step s ev).
Proof.
  intros [evs ->]. exists (evs ++ [ev]). unfold run. by rewrite foldl_app.
Qed.

(** ** What the operations send *)

Lemma emits_same tys s s' : outbox s' = outbox s → emits tys s s'.
Proof. intros H. exists []. by rewrite app_nil_r. Qed.

Lemma emits_trans tys s1 s2 s3 : emits tys s1 s2 → emits tys s2 s3 → emits tys s1 s3.
Proof.
  intros (l1 & E1 & F1) (l2 & E2 & F2). exists (l1 ++ l2).
  rewrite E2, E1, app_assoc. split; [done|]. by apply Forall_app.
Qed.

Lemma emits_mono tys tys' s s' : tys ⊆ tys' → emits tys s s' → emits tys' s s'.
Proof.
  intros Hsub (l & E & F). exists l. split; [done|].
  eapply Forall_impl; [exact F|]. intros x Hx. by apply Hsub.
Qed.

Lemma emits_send tys cid m s : env_type m ∈ tys → emits tys s (send cid m s).
Proof. intros H. exists [(cid, m)]. split; [done|]. by constructor. Qed.

Lemma emits_send_all tys rcpts m s : env_type m ∈ tys → emits tys s (send_all rcpts m s).
Proof.
  intros H. exists (map (λ c, (c, m)) rcpts). rewrite send_all_outbox. split; [done|].
  apply Forall_forall. intros x (c & -> & _)%list_elem_of_fmap. done.
Qed.

Lemma emits_sent_since tys s s' :
  emits tys s s' →
  outbox s' = outbox s ++ sent_since s s' ∧
  Forall (λ x, env_type x.2 ∈ tys) (sent_since s s').
Proof.
  intros (l & E & F). unfold sent_since. rewrite E, drop_app_length. done.
Qed.

(** Closes goals [env_type m ∈ tys] and [tys ⊆ tys'] on literal lists. *)
Ltac types_solver :=
  solve [ simpl; repeat constructor
        | let x := fresh in let Hx := fresh in
          intros x Hx;
          repeat (apply elem_of_cons in Hx as [->|Hx]; [by repeat constructor|]);
          by apply elem_of_nil in Hx ].

(** Closes goals [ty ∉ tys] on literal lists. *)
Ltac types_solver_not :=
  let H := fresh in
  intros H; repeat (apply elem_of_cons in H as [H|H]; [discriminate H|]);
  by apply elem_of_nil in H.

(** Peels the outermost operation off the right-hand state of an [emits]
    goal. *)
Ltac emits_peel :=
  match goal with
  | |- emits _ ?s ?s => by apply emits_same
  | |- emits _ ?s (send _ _ ?s0) =>
      apply (emits_trans _ s s0); [|apply emits_send; types_solver]
  | |- emits _ ?s (send_all _ _ ?s0) =>
      apply (emits_trans _ s s0); [|apply emits_send_all; types_solver]
  | |- emits _ ?s (upd_client _ _ ?s0) =>
      apply (emits_trans _ s s0); [|by apply emits_same]
  | |- emits _ ?s (with_lobby ?s0 _) =>
      apply (emits_trans _ s s0); [|by apply emits_same]
  | |- emits _ ?s (with_battles ?s0 _) =>
      apply (emits_trans _ s s0); [|by apply emits_same]
  | |- emits _ ?s (with_parties ?s0 _) =>
      apply (emits_trans _ s s0); [|by apply emits_same]
  | |- emits _ ?s (with_clients ?s0 _) =>
      apply (emits_trans _ s s0); [|by apply emits_same]
  | |- emits _ ?s (with_ctr ?s0 _) =>
      apply (emits_trans _ s s0); [|by apply emits_same]
  end.

(** Peels an operation [op ... s0] for which [lem] gives what it emits. *)
Ltac emits_via lem :=
  match goal with
  | |- emits _ ?s ?s' =>
      match s' with
      | context [?s0] =>
          lazymatch type of s0 with server => idtac end;
          apply (emits_trans _ s s0);
          [|eapply emits_mono; [|apply lem]; types_solver]
      end
  end.

Lemma emits_remove_from_lobby cid now s :
  emits ["LOBBY_STATUS"] s (remove_from_lobby cid now s).
Proof.
  unfold remove_from_lobby, broadcast_lobby_status.
  case_decide; repeat emits_peel.
Qed.

Lemma emits_add_to_lobby cid now s :
  emits ["LOBBY_STATUS"] s (add_to_lobby cid now s).
Proof.
  unfold add_to_lobby, broadcast_lobby_status.
  case_decide; repeat emits_peel.
Qed.

Lemma emits_match_players now s :
  emits ["LOBBY_STATUS"; "BATTLE_START"] s (match_players now s).
Proof.
  unfold match_players.
  destruct (lobby s) as [|p1 [|p2 rest]]; try by apply emits_same.
  destruct (clients s !! p1), (clients s !! p2); try by apply emits_same.
  cbv zeta. repeat emits_peel.
  apply (emits_trans _ s (remove_from_lobby p1 now s));
    (eapply emits_mono; [|apply emits_remove_from_lobby]; types_solver).
Qed.

Lemma emits_notify_battle_end bid winner reason pid s :
  emits ["BATTLE_END"] s (notify_battle_end bid winner reason pid s).
Proof.
  unfold notify_battle_end. destruct (clients s !! pid) as [c|]; [|by apply emits_same].
  destruct (in_battle c && _); repeat emits_peel.
Qed.

Lemma emits_end_battle bid pid s : emits ["BATTLE_END"] s (end_battle bid pid s).
Proof.
  unfold end_battle. destruct (battles s !! bid) as [bd|]; [|by apply emits_same].
  cbv zeta. emits_peel.
  eapply emits_trans; apply emits_notify_battle_end.
Qed.

Lemma emits_process_battle_action bid pid ability_index now s :
  emits ["BATTLE_ACTION"; "BATTLE_END"] s
        (process_battle_action bid pid ability_index now s).
Proof.
  unfold process_battle_action.
  destruct (battles s !! bid) as [bd|]; [|by apply emits_same].
  cbv zeta. case_decide; [|repeat emits_peel].
  destruct (clients _ !! _); [repeat emits_peel|].
  eapply emits_trans; [|eapply emits_mono; [|apply emits_end_battle]; types_solver].
  repeat emits_peel.
Qed.

Lemma emits_broadcast_adventure_update aid now s :
  emits ["ADVENTURE_PARTY_UPDATE"] s (broadcast_adventure_update aid now s).
Proof.
  unfold broadcast_adventure_update, send_known.
  destruct (adventure_parties s !! aid); repeat emits_peel.
Qed.

Lemma emits_broadcast_adventure_start aid now s :
  emits ["ADVENTURE_START"] s (broadcast_adventure_start aid now s).
Proof.
  unfold broadcast_adventure_start, send_known.
  destruct (adventure_parties s !! aid); repeat emits_peel.
Qed.

Lemma emits_remove_from_adventure aid pid now s :
  emits ["ADVENTURE_PARTY_UPDATE"] s (state_of (remove_from_adventure aid pid now s)).
Proof.
  unfold remove_from_adventure.
  destruct (adventure_parties s !! aid) as [p|]; [|by apply emits_same].
  destruct (index_of pid (members p)) as [i|]; [|by apply emits_same].
  cbv zeta. repeat case_decide; simpl; try by apply emits_same.
  all: destruct (delete i (members p)); simpl; [by apply emits_same|].
  all: eapply emits_trans; [|apply emits_broadcast_adventure_update].
  all: by apply emits_same.
Qed.

Lemma emits_process_adventure_update aid pid data now s :
  emits ["ADVENTURE_UPDATE"] s (process_adventure_update aid pid data now s).
Proof.
  unfold process_adventure_update, send_known.
  destruct (adventure_parties s !! aid) as [p|]; [|by apply emits_same].
  case_decide; repeat emits_peel.
Qed.

(** ** Parties never grow past two members (C10) *)

(** C10: a party is created with one member and waiting; a join succeeds
    only on a waiting party, and a join that brings the membership to two or
    more leaves the party active. So in every reachable state every party
    has at most two members (a waiting one has exactly one), and no join,
    whatever the room id, is turned away as "party full". *)
Theorem party_never_full s :
  reachable s →
  (∀ c now s0 p,
     adventure_parties (create_adventure_party c now s0).2
       !! (create_adventure_party c now s0).1 = Some p →
     members p = [player_id c] ∧ state p = waiting) ∧
  (∀ pid c now s0,
     (join_adventure_party pid c now s0).1 = true →
     (∃ p, adventure_parties s0 !! pid = Some p ∧ state p = waiting) ∧
     ∀ p', adventure_parties (join_adventure_party pid c now s0).2 !! pid = Some p' →
           2 ≤ length (members p') → state p' = active) ∧
  (∀ a p, adventure_parties s !! a = Some p →
     length (members p) ≤ 2 ∧ (state p = waiting → length (members p) = 1)) ∧
  (∀ pid, join_branch_of pid s ≠ JoinFull).
Proof.
  intros Hinv%reachable_inv. split; [|split; [|split]].
  - intros c now s0 p. simpl. rewrite lookup_insert_eq. by intros [= <-].
  - intros pid c now s0 Hok.
    rewrite join_adventure_party_result in Hok.
    destruct (join_branch_of pid s0) eqn:Hbr; try done.
    apply join_branch_accepted in Hbr as Hbr'. destruct Hbr' as (p & Hp & Hlen & Hw).
    split; [by exists p|].
    intros p'. rewrite join_adventure_party_parties, Hbr, Hp, lookup_insert_eq.
    intros [= <-]. simpl. rewrite length_app. simpl. intros Hl.
    by rewrite decide_True by lia.
  - intros a p Hp. destruct (inv_party s Hinv a p Hp). done.
  - intros pid (p & Hp & Hlen)%join_branch_full.
    destruct (inv_party s Hinv pid p Hp). lia.
Qed.

Lemma active_room_reachable : reachable active_room.
Proof. by eexists. Qed.

Lemma party_never_full_witness :
  reachable active_room ∧ join_branch_of "3" active_room ≠ JoinFull.
Proof.
  split; [exact active_room_reachable|].
  apply (party_never_full active_room active_room_reachable).
Defined.

(** ** Leaving a party, host migration, and the listing (C7) *)

Lemma filter_is_Some (m : gmap string client) (l : list string) :
  (∀ c, c ∈ l → is_Some (m !! c)) → filter (λ c, is_Some (m !! c)) l = l.
Proof.
  induction l as [|c l IH]; intros H; [done|].
  rewrite filter_cons_True by (apply H; by left).
  rewrite IH; [done|]. intros c' Hc'. apply H. by right.
Qed.

Lemma filter_known_all s (l : list string) :
  (∀ c, c ∈ l → known s c) → filter (λ c, is_Some (clients s !! c)) l = l.
Proof. apply filter_is_Some. Qed.

Lemma send_known_outbox rcpts m s :
  (∀ c, c ∈ rcpts → known s c) →
  outbox (send_known rcpts m s) = outbox s ++ map (λ c, (c, m)) rcpts.
Proof.
  intros H. unfold send_known. rewrite send_all_outbox.
  by rewrite filter_known_all.
Qed.

Lemma listing_ok items :
  (∀ k q, (k, q) ∈ items → usernames q ≠ []) →
  ∃ l, listing items = Some l ∧
       ∀ e, e ∈ l ↔ ∃ k q u, (k, q) ∈ items ∧ state q = waiting ∧
                              usernames q !! 0 = Some u ∧ e = info_of k q u.
Proof.
  induction items as [|[k q] items IH]; intros Hne.
  - exists []. split; [done|]. intros e. split; [by intros ?%elem_of_nil|].
    by intros (? & ? & ? & ?%elem_of_nil & _).
  - destruct IH as (l & Hl & Hiff).
    { intros k' q' H. apply (Hne k'). by right. }
    simpl. destruct (decide (state q = waiting)) as [Hw|Hw].
    + destruct (usernames q) as [|u us] eqn:Hu; [by destruct (Hne k q); [left|]|].
      simpl. rewrite Hl. simpl. eexists. split; [done|].
      intros e. rewrite elem_of_cons, Hiff. split.
      * intros [->|(k' & q' & u' & Hin & ? & ? & ->)].
        -- exists k, q, u. rewrite Hu. repeat split; try done. by left.
        -- exists k', q', u'. repeat split; try done. by right.
      * intros (k' & q' & u' & [[= -> ->]|Hin]%elem_of_cons & Hw' & Hu' & ->).
        -- left. rewrite Hu in Hu'. by injection Hu' as <-.
        -- right. by exists k', q', u'.
    + exists l. split; [done|]. intros e. rewrite Hiff. split.
      * intros (k' & q' & u' & Hin & ? & ? & ->).
        exists k', q', u'. repeat split; try done. by right.
      * intros (k' & q' & u' & [[= -> ->]|Hin]%elem_of_cons & Hw' & Hu' & ->);
          [done|]. by exists k', q', u'.
Qed.

(** In a state that satisfies the invariant the listing never raises and
    holds one entry for each waiting party, and nothing else. *)
Lemma get_adventure_parties_ok s :
  server_inv s →
  ∃ l, get_adventure_parties s = Some l ∧
       ∀ e, e ∈ l ↔ ∃ q u, adventure_parties s !! pi_id e = Some q ∧
                            state q = waiting ∧ usernames q !! 0 = Some u ∧
                            e = info_of (pi_id e) q u.
Proof.
  intros Hinv. unfold get_adventure_parties.
  destruct (listing_ok (map_to_list (adventure_parties s))) as (l & Hl & Hiff).
  { intros k q Hkq%elem_of_map_to_list.
    destruct (inv_party s Hinv k q Hkq) as [_ Hus Hne _ _ _].
    intros Hu. rewrite Hu in Hus. simpl in Hus.
    destruct (members q); [done|simpl in Hus; lia]. }
  exists l. split; [done|]. intros e. rewrite Hiff. split.
  - intros (k & q & u & Hin%elem_of_map_to_list & Hw & Hu & ->).
    by exists q, u.
  - intros (q & u & Hq & Hw & Hu & He). exists (pi_id e), q, u.
    by rewrite elem_of_map_to_list.
Qed.



(** ** Disconnect during a battle (C2) *)

Lemma pretty_N_go_nonempty x s : s ≠ "" → pretty_N_go x s ≠ "".
Proof.
  revert s. induction (N.lt_wf_0 x) as [x _ IH]; intros s Hs.
  destruct (decide (x = 0%N)) as [->|Hx].
  - by rewrite pretty_N_go_0.
  - rewrite pretty_N_go_step by lia. apply IH; [|done].
    apply N.div_lt; lia.
Qed.

(** No identifier of the supply is the empty string. *)
Lemma uuid4_nonempty n : uuid4 n ≠ "".
Proof.
  unfold uuid4, pretty, pretty_nat, pretty, pretty_N.
  case_decide; [done|].
  rewrite pretty_N_go_step by lia. by apply pretty_N_go_nonempty.
Qed.

Lemma uuid4_inj n m : uuid4 n = uuid4 m → n = m.
Proof. apply (inj pretty). Qed.

Lemma truthy_nonempty p : p ≠ "" → truthy (Some p) = true.
Proof.
  intros H. simpl. destruct (String.eqb p "") eqn:E; [|done].
  by apply String.eqb_eq in E.
Qed.

Lemma battle_ends_to_app q l1 l2 :
  battle_ends_to q (l1 ++ l2) = battle_ends_to q l1 ++ battle_ends_to q l2.
Proof. apply omap_app. Qed.

Lemma battle_ends_to_other_types q (tys : list string) l :
  "BATTLE_END" ∉ tys →
  Forall (λ x, env_type x.2 ∈ tys) l → battle_ends_to q l = [].
Proof.
  intros Hty. induction 1 as [|[r e] l He _ IH]; [done|].
  change (battle_ends_to q ((r, e) :: l)) with
    (match (if decide (r = q)
            then match e with BATTLE_END _ _ _ => Some e | _ => None end
            else None) with
     | Some y => y :: battle_ends_to q l
     | None => battle_ends_to q l
     end).
  rewrite IH. case_decide; [|done]. destruct e; try done.
Qed.

Lemma notify_battle_end_in_room bid w r pid s :
  in_battle_room s pid bid →
  notify_battle_end bid w r pid s
    = send pid (BATTLE_END bid w r) (upd_client pid (set_battle false None) s).
Proof.
  intros (c & Hc & Hin & Hid). unfold notify_battle_end.
  rewrite Hc, Hin, Hid. by rewrite bool_decide_eq_true_2.
Qed.

Lemma in_battle_room_other bid w r p q s :
  q ≠ p → in_battle_room s q bid →
  in_battle_room (send p (BATTLE_END bid w r) (upd_client p (set_battle false None) s))
                 q bid.
Proof.
  intros Hne (c & Hc & Hin & Hid). exists c. simpl.
  by rewrite lookup_alter_ne.
Qed.

(** [end_battle] on behalf of [who] when both players are still in the room. *)
Lemma end_battle_forfeit s b bd who :
  battles s !! b = Some bd →
  player1 bd ≠ player2 bd →
  in_battle_room s (player1 bd) b →
  in_battle_room s (player2 bd) b →
  who ≠ "" →
  let w := Some (if decide (who = player1 bd) then Player2 else Player1) in
  outbox (end_battle b (Some who) s) =
    outbox s ++ [(player1 bd, BATTLE_END b w disconnect);
                 (player2 bd, BATTLE_END b w disconnect)] ∧
  battles (end_battle b (Some who) s) = delete b (battles s).
Proof.
  intros Hb Hne H1 H2 Hwho. cbv zeta.
  unfold end_battle. rewrite Hb, (truthy_nonempty who Hwho). cbv zeta.
  rewrite (notify_battle_end_in_room b _ _ (player1 bd) s H1).
  rewrite notify_battle_end_in_room by (by apply in_battle_room_other).
  simpl. split; [|done].
  rewrite <- app_assoc. simpl.
  destruct (decide (who = player1 bd)) as [->|Hw].
  - by rewrite decide_True.
  - rewrite decide_False; [done|]. by intros [= ?].
Qed.

Lemma battle_scene_reachable : reachable battle_scene.
Proof. by eexists. Qed.

(** ** Activation of a party (C4) *)

Lemma starts_for_app aid l1 l2 :
  starts_for aid (l1 ++ l2) = starts_for aid l1 ++ starts_for aid l2.
Proof. apply omap_app. Qed.

Lemma starts_for_quiet aid l :
  Forall (λ x, env_type x.2 ∈ quiet_types) l → starts_for aid l = [].
Proof.
  induction 1 as [|[r e] l He _ IH]; [done|].
  change (starts_for aid ((r, e) :: l)) with
    (match (match e with
            | ADVENTURE_START a _ _ _ _ _ => if decide (a = aid) then Some r else None
            | _ => None
            end) with
     | Some y => y :: starts_for aid l
     | None => starts_for aid l
     end).
  rewrite IH. destruct e; try done.
  simpl in He. unfold quiet_types in He.
  repeat (apply elem_of_cons in He as [He|He]; [discriminate He|]).
  by apply elem_of_nil in He.
Qed.

Lemma settles_refl s : settles s s.
Proof. split; [done|]. intros a p Hp. left. by exists p. Qed.

Lemma settles_trans s1 s2 s3 : settles s1 s2 → settles s2 s3 → settles s1 s3.
Proof.
  intros [Hn1 H1] [Hn2 H2]. split; [lia|]. intros a p3 Hp3.
  destruct (H2 a p3 Hp3) as [(p2 & Hp2 & Hw2)|(n & Hn & ->)].
  - destruct (H1 a p2 Hp2) as [(p1 & Hp1 & Hw1)|(n & Hn & ->)].
    + left. exists p1. split; [done|]. auto.
    + right. exists n. split; [lia|done].
  - right. exists n. split; [lia|done].
Qed.

Lemma settles_same s s' :
  adventure_parties s' = adventure_parties s → uuid_ctr s ≤ uuid_ctr s' → settles s s'.
Proof.
  intros Hp Hn. split; [done|]. intros a p. rewrite Hp. intros H. left. by exists p.
Qed.

Lemma quiet_refl s : quiet_step s s.
Proof. split; [by apply emits_same|apply settles_refl]. Qed.

Lemma quiet_trans s1 s2 s3 : quiet_step s1 s2 → quiet_step s2 s3 → quiet_step s1 s3.
Proof.
  intros [E1 S1] [E2 S2]. split; [by eapply emits_trans|by eapply settles_trans].
Qed.

(** An operation that leaves the parties alone and sends quiet types. *)
Lemma quiet_frame tys s s' :
  emits tys s s' → tys ⊆ quiet_types →
  adventure_parties s' = adventure_parties s → uuid_ctr s ≤ uuid_ctr s' →
  quiet_step s s'.
Proof.
  intros E Hsub Hp Hn. split; [by eapply emits_mono|by apply settles_same].
Qed.

Lemma quiet_send cid m s : env_type m ∈ quiet_types → quiet_step s (send cid m s).
Proof. intros H. split; [by apply emits_send|by apply settles_same]. Qed.

Lemma quiet_upd_client cid f s : quiet_step s (upd_client cid f s).
Proof. split; [by apply emits_same|by apply settles_same]. Qed.

Lemma quiet_add_to_lobby cid now s : quiet_step s (add_to_lobby cid now s).
Proof.
  destruct (add_to_lobby_tables cid now s) as (_ & _ & _ & Hp & Hn).
  eapply quiet_frame; [apply emits_add_to_lobby|types_solver|done|lia].
Qed.

Lemma quiet_remove_from_lobby cid now s : quiet_step s (remove_from_lobby cid now s).
Proof.
  destruct (remove_from_lobby_tables cid now s) as (_ & _ & _ & Hp & Hn).
  eapply quiet_frame; [apply emits_remove_from_lobby|types_solver|done|lia].
Qed.

Lemma match_players_frame now s :
  adventure_parties (match_players now s) = adventure_parties s ∧
  uuid_ctr s ≤ uuid_ctr (match_players now s).
Proof.
  destruct (lobby s) as [|p1 [|p2 rest]] eqn:Hl;
    try (rewrite match_players_idle by (rewrite Hl; simpl; lia); done).
  destruct (clients s !! p1) as [c1|] eqn:Hc1;
    [|unfold match_players; by rewrite Hl, Hc1].
  destruct (clients s !! p2) as [c2|] eqn:Hc2;
    [|unfold match_players; by rewrite Hl, Hc1, Hc2].
  destruct (match_players_tables now s p1 p2 rest c1 c2 Hl Hc1 Hc2)
    as (_ & _ & _ & -> & -> & _).
  split; [done|lia].
Qed.

Lemma quiet_match_players now s : quiet_step s (match_players now s).
Proof.
  destruct (match_players_frame now s) as [Hp Hn].
  eapply quiet_frame; [apply emits_match_players|types_solver|done|done].
Qed.

Lemma quiet_end_battle bid pid s : quiet_step s (end_battle bid pid s).
Proof.
  destruct (end_battle_tables bid pid s) as (_ & _ & _ & Hp & Hn).
  eapply quiet_frame; [apply emits_end_battle|types_solver|done|lia].
Qed.

Lemma quiet_process_battle_action bid pid ability_index now s :
  quiet_step s (process_battle_action bid pid ability_index now s).
Proof.
  destruct (process_battle_action_tables bid pid ability_index now s)
    as (_ & _ & _ & Hp & Hn).
  eapply quiet_frame; [apply emits_process_battle_action|types_solver|done|lia].
Qed.

Lemma quiet_create_adventure_party c now s :
  quiet_step s (create_adventure_party c now s).2.
Proof.
  split; [by apply emits_same|]. split; [simpl; lia|].
  intros a p'. simpl. rewrite lookup_insert. case_decide.
  - intros _. right. exists (uuid_ctr s). split; [lia|done].
  - intros H'. left. by exists p'.
Qed.

(** A removal never changes the state of a party. *)
Lemma remove_from_adventure_states aid pid now s a p' :
  adventure_parties (state_of (remove_from_adventure aid pid now s)) !! a = Some p' →
  ∃ p, adventure_parties s !! a = Some p ∧ state p' = state p.
Proof.
  unfold remove_from_adventure.
  destruct (adventure_parties s !! aid) as [p|] eqn:Hp; [|by exists p'].
  destruct (index_of pid (members p)) as [i|]; [|by exists p'].
  cbv zeta.
  assert (Hins : ∀ q, state q = state p →
            <[aid := q]> (adventure_parties s) !! a = Some p' →
            ∃ p0, adventure_parties s !! a = Some p0 ∧ state p' = state p0).
  { intros q Hq. rewrite lookup_insert. case_decide.
    - subst. intros [= <-]. by exists p.
    - intros H'. by exists p'. }
  repeat case_decide; simpl; try by apply Hins.
  all: destruct (delete i (members p)); simpl.
  all: try (rewrite lookup_delete; case_decide; [done|]; intros H'; by exists p').
  all: rewrite broadcast_adventure_update_parties; simpl; by apply Hins.
Qed.

Lemma quiet_remove_from_adventure aid pid now s :
  quiet_step s (state_of (remove_from_adventure aid pid now s)).
Proof.
  split.
  { eapply emits_mono; [|apply emits_remove_from_adventure]. types_solver. }
  destruct (remove_from_adventure_frame aid pid now s) as (_ & _ & _ & Hn).
  split; [lia|].
  intros a p' (p & Hp & Hst)%remove_from_adventure_states.
  left. exists p. split; [done|]. by rewrite Hst.
Qed.

Lemma quiet_process_adventure_update aid pid data now s :
  quiet_step s (process_adventure_update aid pid data now s).
Proof.
  split.
  { eapply emits_mono; [|apply emits_process_adventure_update]. types_solver. }
  destruct (process_adventure_update_tables aid pid data now s) as (_ & _ & _ & Hn & Hp).
  split; [lia|]. rewrite Hp.
  destruct (adventure_parties s !! aid) as [p|] eqn:Hpa;
    [|intros a p' H'; left; by exists p'].
  case_decide; [|intros a p' H'; left; by exists p'].
  intros a p'. rewrite lookup_insert. case_decide.
  - subst. intros [= <-]. left. by exists p.
  - intros H'. left. by exists p'.
Qed.

(** Peels the outermost operation off the right-hand state of a
    [quiet_step] goal. *)
Ltac quiet_peel :=
  match goal with
  | |- quiet_step ?s ?s => apply quiet_refl
  | |- quiet_step ?s (send _ _ ?s0) =>
      apply (quiet_trans s s0); [|apply quiet_send; types_solver]
  | |- quiet_step ?s (upd_client _ _ ?s0) =>
      apply (quiet_trans s s0); [|apply quiet_upd_client]
  | |- quiet_step ?s (add_to_lobby _ _ ?s0) =>
      apply (quiet_trans s s0); [|apply quiet_add_to_lobby]
  | |- quiet_step ?s (remove_from_lobby _ _ ?s0) =>
      apply (quiet_trans s s0); [|apply quiet_remove_from_lobby]
  | |- quiet_step ?s (end_battle _ _ ?s0) =>
      apply (quiet_trans s s0); [|apply quiet_end_battle]
  | |- quiet_step ?s (process_battle_action _ _ _ _ ?s0) =>
      apply (quiet_trans s s0); [|apply quiet_process_battle_action]
  | |- quiet_step ?s (process_adventure_update _ _ _ _ ?s0) =>
      apply (quiet_trans s s0); [|apply quiet_process_adventure_update]
  | |- quiet_step ?s (state_of (remove_from_adventure _ _ _ ?s0)) =>
      apply (quiet_trans s s0); [|apply quiet_remove_from_adventure]
  | |- quiet_step ?s (create_adventure_party _ _ ?s0).2 =>
      apply (quiet_trans s s0); [|apply quiet_create_adventure_party]
  end.

Lemma quiet_handle_join_lobby cid data now s :
  quiet_step s (handle_join_lobby cid data now s).
Proof.
  unfold handle_join_lobby.
  destruct (dict_has "username" data); cbv zeta;
    destruct (clients _ !! cid); repeat quiet_peel.
Qed.

Lemma quiet_handle_leave_lobby cid now s : quiet_step s (handle_leave_lobby cid now s).
Proof.
  unfold handle_leave_lobby. destruct (clients s !! cid) as [c|]; [|apply quiet_refl].
  destruct (in_lobby c); repeat quiet_peel.
Qed.

Lemma quiet_handle_battle_action cid data now s :
  quiet_step s (handle_battle_action cid data now s).
Proof.
  unfold handle_battle_action. destruct (clients s !! cid) as [c|]; [|apply quiet_refl].
  destruct (in_battle c); [|apply quiet_refl].
  destruct (battle_id c); repeat quiet_peel.
Qed.

Lemma quiet_handle_create_adventure cid data now s :
  quiet_step s (handle_create_adventure cid data now s).
Proof.
  unfold handle_create_adventure. cbv zeta.
  destruct (clients _ !! cid) as [c|]; [|repeat quiet_peel].
  change (quiet_step s
    (send cid (ADVENTURE_CREATED (uuid4 (uuid_ctr s)) (player_id c))
       (upd_client cid (set_adventure true (Some (uuid4 (uuid_ctr s))))
          (create_adventure_party c now
             (upd_client cid (set_creature (dict_get "creature" data (JObj []))) s)).2))).
  repeat quiet_peel.
Qed.

Lemma quiet_handle_adventure_update cid data now s :
  quiet_step s (handle_adventure_update cid data now s).
Proof.
  unfold handle_adventure_update. destruct (clients s !! cid) as [c|]; [|apply quiet_refl].
  destruct (in_adventure c); [|apply quiet_refl].
  destruct (adventure_id c); repeat quiet_peel.
Qed.

Lemma quiet_handle_get_adventure_parties cid s :
  quiet_step s (state_of (handle_get_adventure_parties cid s)).
Proof.
  unfold handle_get_adventure_parties.
  destruct (get_adventure_parties s); simpl; repeat quiet_peel.
Qed.

Lemma quiet_clean_up cid now s : quiet_step s (state_of (clean_up cid now s)).
Proof.
  unfold clean_up. destruct (clients s !! cid) as [c|]; [|apply quiet_refl].
  set (s1 := if in_lobby c then _ else s).
  assert (Q1 : quiet_step s s1).
  { subst s1. destruct (in_lobby c); repeat quiet_peel. }
  set (s2 := if in_battle c then _ else s1).
  assert (Q2 : quiet_step s1 s2).
  { subst s2. destruct (in_battle c); [|apply quiet_refl].
    destruct (battle_id c); repeat quiet_peel. }
  set (o := if in_adventure c then _ else Done s2).
  assert (Q3 : quiet_step s2 (state_of o)).
  { subst o. destruct (in_adventure c); [|apply quiet_refl].
    destruct (adventure_id c); [|apply quiet_refl]. repeat quiet_peel. }
  apply (quiet_trans s s1); [done|]. apply (quiet_trans s1 s2); [done|].
  apply (quiet_trans s2 (state_of o)); [done|].
  destruct o; simpl; repeat quiet_peel.
Qed.

Lemma quiet_accept s : quiet_step s (accept s).
Proof. split; [by apply emits_same|]. apply settles_same; simpl; [done|lia]. Qed.

(** *** The join, envelope by envelope *)

Lemma broadcast_adventure_update_outbox aid now s p :
  adventure_parties s !! aid = Some p →
  (∀ m, m ∈ members p → known s m) →
  outbox (broadcast_adventure_update aid now s) =
  outbox s ++ map (λ m, (m, ADVENTURE_PARTY_UPDATE aid (members p) (creatures p)
                              (usernames p) (host p) (state p) now)) (members p).
Proof.
  intros Hp Hk. unfold broadcast_adventure_update. rewrite Hp.
  by apply send_known_outbox.
Qed.

Lemma broadcast_adventure_start_outbox aid now s p :
  adventure_parties s !! aid = Some p →
  (∀ m, m ∈ members p → known s m) →
  outbox (broadcast_adventure_start aid now s) =
  outbox s ++ map (λ m, (m, ADVENTURE_START aid (members p) (creatures p)
                              (usernames p) (host p) now)) (members p).
Proof.
  intros Hp Hk. unfold broadcast_adventure_start. rewrite Hp.
  by apply send_known_outbox.
Qed.

(** The second member joins a waiting party of one: the roster goes out to
    both in an [ADVENTURE_PARTY_UPDATE] (the party still waiting), then an
    [ADVENTURE_START] goes to each of the two. *)
Lemma join_adventure_party_second pid c now s p h :
  adventure_parties s !! pid = Some p →
  state p = waiting →
  members p = [h] →
  known s h → known s (player_id c) →
  let ms := [h; player_id c] in
  let cs := creatures p ++ [creature c] in
  let us := usernames p ++ [username c] in
  join_adventure_party pid c now s =
  (true,
   with_outbox
     (with_parties s
        (<[pid := Party (p_id p) (host p) ms cs us active (creation_time p) now]>
           (adventure_parties s)))
     (outbox s
      ++ map (λ m, (m, ADVENTURE_PARTY_UPDATE pid ms cs us (host p) waiting now)) ms
      ++ map (λ m, (m, ADVENTURE_START pid ms cs us (host p) now)) ms)).
Proof.
  intros Hp Hw Hm Hkh Hkc. cbv zeta.
  unfold join_adventure_party. rewrite Hp, Hm. simpl.
  rewrite decide_True by done. cbv zeta.
  assert (Hk : ∀ m : string, m ∈ [h; player_id c] → known s m).
  { intros m [->|[->|?%elem_of_nil]%elem_of_cons]%elem_of_cons; done. }
  unfold broadcast_adventure_start, broadcast_adventure_update. simpl.
  rewrite !lookup_insert_eq. simpl.
  unfold send_known. simpl.
  rewrite !(filter_is_Some (clients s)) by done.
  unfold send_all, send. simpl.
  rewrite Hw, insert_insert_eq. f_equal. unfold with_outbox, with_parties. simpl.
  f_equal. by rewrite <- !app_assoc.
Qed.

(** *** At most one activation per party *)

Lemma start_inv_quiet s s' : quiet_step s s' → start_inv s → start_inv s'.
Proof.
  intros [(sent & Hout & Hq) [Hn Hset]] [J1 J2 J3 J4].
  assert (Hst : ∀ a, starts_for a (outbox s') = starts_for a (outbox s)).
  { intros a. rewrite Hout, starts_for_app, (starts_for_quiet a sent) by done.
    by rewrite app_nil_r. }
  split.
  - intros a p' Hp'. destruct (Hset a p' Hp') as [(p & Hp & _)|(n & Hn' & ->)].
    + destruct (J1 a p Hp) as (n & Hlt & ->). exists n. split; [lia|done].
    + exists n. split; [lia|done].
  - intros a Ha. rewrite Hst. apply J2. intros n Hlt. apply Ha. lia.
  - intros a p' Hp' Hw. rewrite Hst.
    destruct (Hset a p' Hp') as [(p & Hp & Hw')|(n & Hn' & ->)].
    + apply (J3 a p Hp). auto.
    + apply J2. intros m Hm Heq. apply uuid4_inj in Heq. lia.
  - intros a. rewrite Hst. apply J4.
Qed.

Lemma starts_for_updates a pid ms cs us h st now (l : list string) :
  starts_for a (map (λ m, (m, ADVENTURE_PARTY_UPDATE pid ms cs us h st now)) l) = [].
Proof. by induction l. Qed.

Lemma starts_for_starts a pid ms cs us h now (l : list string) :
  starts_for a (map (λ m, (m, ADVENTURE_START pid ms cs us h now)) l)
    = if decide (pid = a) then l else [].
Proof.
  induction l as [|m l IH]; simpl; [by case_decide|].
  change (starts_for a ((m, ADVENTURE_START pid ms cs us h now)
            :: map (λ m, (m, ADVENTURE_START pid ms cs us h now)) l))
    with (match (if decide (pid = a) then Some m else None) with
          | Some y => y :: starts_for a (map (λ m, (m, ADVENTURE_START pid ms cs us h now)) l)
          | None => starts_for a (map (λ m, (m, ADVENTURE_START pid ms cs us h now)) l)
          end).
  rewrite IH. by case_decide.
Qed.

(** The activation of a waiting party keeps the invariant. *)
Lemma start_inv_join_adventure_party pid c now s :
  server_inv s → known s (player_id c) →
  start_inv s → start_inv (join_adventure_party pid c now s).2.
Proof.
  intros Hinv Hkc Hst.
  destruct (decide (join_branch_of pid s = JoinAccepted)) as [Hacc|Href];
    [|by rewrite join_adventure_party_refused].
  apply join_branch_accepted in Hacc as (p & Hp & _ & Hw).
  destruct (inv_party s Hinv pid p Hp) as [_ _ _ Hone _ Hkn].
  specialize (Hone Hw).
  destruct (members p) as [|h [|? ?]] eqn:Hm; simpl in Hone; try lia.
  assert (Hkh : known s h) by (apply Hkn; by left).
  rewrite (join_adventure_party_second pid c now s p h) by done.
  destruct Hst as [J1 J2 J3 J4].
  assert (Hs : ∀ a, starts_for a (outbox s
      ++ map (λ m, (m, ADVENTURE_PARTY_UPDATE pid [h; player_id c]
                         (creatures p ++ [creature c]) (usernames p ++ [username c])
                         (host p) waiting now)) [h; player_id c]
      ++ map (λ m, (m, ADVENTURE_START pid [h; player_id c]
                         (creatures p ++ [creature c]) (usernames p ++ [username c])
                         (host p) now)) [h; player_id c])
    = starts_for a (outbox s) ++ (if decide (pid = a) then [h; player_id c] else [])).
  { intros a. by rewrite !starts_for_app, starts_for_updates, starts_for_starts. }
  split; cbn [snd outbox adventure_parties uuid_ctr with_outbox with_parties].
  - intros a q. rewrite lookup_insert. case_decide; [|by apply J1].
    subst. intros _. by apply (J1 a p).
  - intros a Ha. rewrite Hs, (J2 a Ha). rewrite decide_False; [done|].
    intros <-. destruct (J1 pid p Hp) as (n & Hn & ->). by apply (Ha n).
  - intros a q. rewrite lookup_insert. case_decide; [by intros [= <-]|].
    intros Hq Hwq. rewrite Hs, (J3 a q Hq Hwq). by rewrite decide_False.
  - intros a. rewrite Hs. case_decide.
    + subst. right. by rewrite (J3 a p Hp Hw).
    + rewrite app_nil_r. apply J4.
Qed.

Lemma settles_join_adventure_party pid c now s :
  settles s (join_adventure_party pid c now s).2.
Proof.
  destruct (join_adventure_party_frame pid c now s) as (_ & _ & _ & Hn).
  split; [lia|]. rewrite join_adventure_party_parties.
  destruct (join_branch_of pid s) eqn:Hbr; try (intros a p' H'; left; by exists p').
  destruct (adventure_parties s !! pid) as [p|] eqn:Hp;
    [|intros a p' H'; left; by exists p'].
  apply join_branch_accepted in Hbr as (p0 & Hp0 & _ & Hw).
  assert (p0 = p) as -> by congruence.
  intros a p'. rewrite lookup_insert. case_decide.
  - subst. intros _. left. by exists p.
  - intros H'. left. by exists p'.
Qed.

(** The client record of the handler and what the join handler does around
    the call of [join_adventure_party]. *)
Lemma handle_join_adventure_cases cid data now s :
  let s1 := upd_client cid (set_creature (dict_get "creature" data (JObj []))) s in
  quiet_step s (state_of (handle_join_adventure cid data now s)) ∨
  ∃ c pid, clients s1 !! cid = Some c ∧
           quiet_step (join_adventure_party pid c now s1).2
                      (state_of (handle_join_adventure cid data now s)).
Proof.
  cbv zeta. unfold handle_join_adventure.
  set (s1 := upd_client cid _ s).
  destruct (clients s1 !! cid) as [c|] eqn:Hc;
    [|left; subst s1; simpl; repeat quiet_peel].
  destruct (dict_get "party_id" data (JStr "")) as [| | |pid| |]; simpl;
    try (left; subst s1; by repeat quiet_peel).
  right. exists c, pid. split; [done|].
  destruct (join_adventure_party pid c now s1) as [[] s2]; simpl; repeat quiet_peel.
Qed.

Lemma start_inv_handle_join_adventure cid data now s :
  server_inv s → start_inv s →
  start_inv (state_of (handle_join_adventure cid data now s)).
Proof.
  intros Hinv Hst.
  destruct (handle_join_adventure_cases cid data now s) as [Hq|(c & pid & Hc & Hq)];
    [by eapply start_inv_quiet|].
  eapply start_inv_quiet; [exact Hq|].
  set (s1 := upd_client cid _ s) in *.
  assert (H1 : server_inv s1) by by apply server_inv_upd_client.
  apply start_inv_join_adventure_party; [done| |].
  - rewrite (inv_client_key s1 H1 cid c Hc). by eexists.
  - eapply start_inv_quiet; [|exact Hst]. apply quiet_upd_client.
Qed.

Lemma settles_handle_join_adventure cid data now s :
  settles s (state_of (handle_join_adventure cid data now s)).
Proof.
  destruct (handle_join_adventure_cases cid data now s) as [[_ Hq]|(c & pid & Hc & [_ Hq])];
    [done|].
  eapply settles_trans; [|exact Hq].
  eapply settles_trans; [|apply settles_join_adventure_party].
  by apply settles_same.
Qed.

(** Every message but [JOIN_ADVENTURE] is handled quietly. *)
Lemma dispatch_cases cid data now s :
  quiet_step s (state_of (dispatch cid data now s)) ∨
  ∃ fields, dispatch cid data now s = handle_join_adventure cid fields now s.
Proof.
  unfold dispatch. destruct data as [| | | | |fields]; try (left; apply quiet_refl).
  repeat (case_match; try (right; by eexists);
          try (left; simpl;
               first [ apply quiet_handle_join_lobby | apply quiet_handle_leave_lobby
                     | apply quiet_handle_battle_action
                     | apply quiet_handle_create_adventure
                     | apply quiet_handle_adventure_update
                     | apply quiet_handle_get_adventure_parties
                     | apply quiet_refl ])).
Qed.

Lemma step_cases s ev :
  quiet_step s (step s ev) ∨
  ∃ cid fields now, step s ev = state_of (handle_join_adventure cid fields now s).
Proof.
  destruct ev as [|cid data now|now|cid now]; simpl.
  - left. apply quiet_accept.
  - destruct (is_running cid s); [|left; apply quiet_refl].
    destruct (dispatch_cases cid data now s) as [?|(fields & ->)]; [by left|].
    right. by exists cid, fields, now.
  - left. apply quiet_match_players.
  - destruct (is_running cid s); [|left; apply quiet_refl].
    left. apply quiet_clean_up.
Qed.

Lemma settles_step s ev : settles s (step s ev).
Proof.
  destruct (step_cases s ev) as [[_ ?]|(cid & fields & now & ->)]; [done|].
  apply settles_handle_join_adventure.
Qed.

Lemma start_inv_step s ev : server_inv s → start_inv s → start_inv (step s ev).
Proof.
  intros Hinv Hst.
  destruct (step_cases s ev) as [?|(cid & fields & now & ->)];
    [by eapply start_inv_quiet|].
  by apply start_inv_handle_join_adventure.
Qed.

Lemma start_inv_init : start_inv init.
Proof. split; simpl; try done. intros a. by left. Qed.

Lemma reachable_start_inv s : reachable s → start_inv s.
Proof.
  intros [evs ->]. unfold run.
  induction evs as [|ev evs IH] using rev_ind; [apply start_inv_init|].
  rewrite foldl_app. simpl. apply start_inv_step; [|done].
  apply reachable_inv. by exists evs.
Qed.

(** C4, as stated, fails: the third session to ask for an active party is
    sent [ADVENTURE_JOIN_FAILED] and nothing else, and does not become a
    member. *)
Lemma third_joiner_is_refused :
  sent_since active_room (step active_room (EMessage "2" (join_adventure_msg "3") 5))
    = [("2", ADVENTURE_JOIN_FAILED (JStr "3") "Failed to join adventure party")] ∧
  members <$> (adventure_parties
                 (step active_room (EMessage "2" (join_adventure_msg "3") 5)) !! "3")
    = Some ["0"; "1"].
Proof. by vm_compute. Qed.

(** ** One room at a time (C5) *)

(** C5, as stated, fails: after [JOIN_LOBBY] and [CREATE_ADVENTURE] the
    session is in the lobby queue and a member of its party. *)
Lemma session_in_two_rooms :
  reachable two_rooms_scene ∧
  lobby two_rooms_scene = ["0"] ∧
  members <$> (adventure_parties two_rooms_scene !! "1") = Some ["0"] ∧
  ¬ one_room two_rooms_scene.
Proof.
  split; [by eexists|]. split; [by vm_compute|]. split; [by vm_compute|].
  intros H. destruct (H "0") as (_ & Hlp & _). apply Hlp. split.
  - vm_compute. apply elem_of_cons. by left.
  - exists "1". eexists. split; [by vm_compute|].
    simpl. apply elem_of_cons. by left.
Qed.

Lemma moves_trans L B P s1 s2 s3 :
  moves L B P s1 s2 → moves L B P s2 s3 → moves L B P s1 s3.
Proof.
  intros (L1 & B1 & P1) (L2 & B2 & P2). repeat split; intros p H.
  - destruct (L2 p H) as [H'|?]; [|by right]. by apply L1.
  - destruct (B2 p H) as [H'|?]; [|by right]. by apply B1.
  - destruct (P2 p H) as [H'|?]; [|by right]. by apply P1.
Qed.

Lemma moves_still L B P s s' : still s s' → moves L B P s s'.
Proof.
  intros (L1 & B1 & P1). repeat split; intros p H.
  - destruct (L1 p H) as [?|[]]. by left.
  - destruct (B1 p H) as [?|[]]. by left.
  - destruct (P1 p H) as [?|[]]. by left.
Qed.

Lemma still_refl s : still s s.
Proof. repeat split; intros p H; by left. Qed.

Lemma still_tables s s' :
  (∀ p, p ∈ lobby s' → p ∈ lobby s) →
  battles_within (battles s) (battles s') →
  (∀ a q', adventure_parties s' !! a = Some q' →
     ∃ q, adventure_parties s !! a = Some q ∧ ∀ m, m ∈ members q' → m ∈ members q) →
  still s s'.
Proof.
  intros Hl Hb Hp. repeat split; intros p H; left.
  - auto.
  - destruct H as (b & bd' & Hbd' & Hpl).
    destruct (Hb b bd' Hbd') as (bd & Hbd & E1 & E2).
    exists b, bd. rewrite <- E1, <- E2. done.
  - destruct H as (a & q' & Hq' & Hm).
    destruct (Hp a q' Hq') as (q & Hq & Hsub). exists a, q. auto.
Qed.

Lemma still_same s s' :
  lobby s' = lobby s → battles s' = battles s →
  adventure_parties s' = adventure_parties s → still s s'.
Proof.
  intros Hl Hb Hp. apply still_tables.
  - by rewrite Hl.
  - rewrite Hb. apply battles_within_refl.
  - rewrite Hp. intros a q Hq. by exists q.
Qed.

Lemma still_send cid m s : still s (send cid m s).
Proof. by apply still_same. Qed.

Lemma still_upd_client cid f s : still s (upd_client cid f s).
Proof. by apply still_same. Qed.

Lemma still_remove_from_lobby cid now s : still s (remove_from_lobby cid now s).
Proof.
  destruct (remove_from_lobby_tables cid now s) as (_ & Hl & Hb & Hp & _).
  apply still_tables.
  - rewrite Hl. intros p. apply remove_first_subset.
  - rewrite Hb. apply battles_within_refl.
  - rewrite Hp. intros a q Hq. by exists q.
Qed.

Lemma moves_add_to_lobby cid now s :
  moves (λ p, p = cid) nobody nobody s (add_to_lobby cid now s).
Proof.
  destruct (add_to_lobby_tables cid now s) as (_ & Hl & Hb & Hp & _).
  repeat split; intros p H.
  - rewrite Hl in H. case_decide; [by left|].
    apply elem_of_app in H as [?| ->%list_elem_of_singleton]; [by left|by right].
  - left. destruct H as (b & bd & Hbd & ?). rewrite Hb in Hbd. by exists b, bd.
  - left. destruct H as (a & q & Hq & ?). rewrite Hp in Hq. by exists a, q.
Qed.

Lemma still_end_battle bid pid s : still s (end_battle bid pid s).
Proof.
  destruct (end_battle_tables bid pid s) as (_ & Hl & Hb & Hp & _).
  apply still_tables.
  - by rewrite Hl.
  - rewrite Hb. apply battles_within_delete.
  - rewrite Hp. intros a q Hq. by exists q.
Qed.

Lemma still_process_battle_action bid pid ability_index now s :
  still s (process_battle_action bid pid ability_index now s).
Proof.
  destruct (process_battle_action_tables bid pid ability_index now s)
    as (_ & Hl & Hb & Hp & _).
  apply still_tables; [by rewrite Hl|done|].
  rewrite Hp. intros a q Hq. by exists q.
Qed.

Lemma moves_create_adventure_party c now s :
  moves nobody nobody (λ p, p = player_id c) s (create_adventure_party c now s).2.
Proof.
  repeat split; intros p H; simpl in *; [by left|by left|].
  destruct H as (a & q & Hq & Hm). simpl in Hq. rewrite lookup_insert in Hq.
  case_decide.
  - injection Hq as <-. simpl in Hm. apply list_elem_of_singleton in Hm. by right.
  - left. by exists a, q.
Qed.

Lemma moves_join_adventure_party pid c now s :
  moves nobody nobody (λ p, p = player_id c) s (join_adventure_party pid c now s).2.
Proof.
  destruct (join_adventure_party_frame pid c now s) as (_ & Hl & Hb & _).
  repeat split; intros p H.
  - rewrite Hl in H. by left.
  - left. destruct H as (b & bd & Hbd & ?). rewrite Hb in Hbd. by exists b, bd.
  - destruct H as (a & q & Hq & Hm). rewrite join_adventure_party_parties in Hq.
    destruct (join_branch_of pid s); try (left; by exists a, q).
    destruct (adventure_parties s !! pid) as [p0|] eqn:Hp0; [|left; by exists a, q].
    rewrite lookup_insert in Hq. case_decide; [|left; by exists a, q].
    subst. injection Hq as <-. simpl in Hm.
    apply elem_of_app in Hm as [?| ->%list_elem_of_singleton]; [|by right].
    left. by exists a, p0.
Qed.

Lemma remove_from_adventure_members aid pid now s a q' :
  adventure_parties (state_of (remove_from_adventure aid pid now s)) !! a = Some q' →
  ∃ q, adventure_parties s !! a = Some q ∧ ∀ m, m ∈ members q' → m ∈ members q.
Proof.
  unfold remove_from_adventure.
  destruct (adventure_parties s !! aid) as [p|] eqn:Hp; [|by exists q'].
  destruct (index_of pid (members p)) as [i|]; [|by exists q'].
  cbv zeta.
  assert (Hins : ∀ q, (∀ m, m ∈ members q → m ∈ members p) →
            <[aid := q]> (adventure_parties s) !! a = Some q' →
            ∃ q0, adventure_parties s !! a = Some q0 ∧
                  ∀ m, m ∈ members q' → m ∈ members q0).
  { intros q Hq. rewrite lookup_insert. case_decide.
    - subst. intros [= <-]. by exists p.
    - intros H'. by exists q'. }
  assert (Hdel : ∀ m, m ∈ delete i (members p) → m ∈ members p).
  { intros m. apply elem_of_delete_list. }
  repeat case_decide; simpl; try by apply Hins.
  all: destruct (delete i (members p)) eqn:Hd; simpl.
  all: try (rewrite lookup_delete; case_decide; [done|]; intros H'; by exists q').
  all: rewrite broadcast_adventure_update_parties; simpl; by apply Hins.
Qed.

Lemma still_remove_from_adventure aid pid now s :
  still s (state_of (remove_from_adventure aid pid now s)).
Proof.
  destruct (remove_from_adventure_frame aid pid now s) as (_ & Hl & Hb & _).
  apply still_tables.
  - by rewrite Hl.
  - rewrite Hb. apply battles_within_refl.
  - intros a q'. apply remove_from_adventure_members.
Qed.

Lemma still_process_adventure_update aid pid data now s :
  still s (process_adventure_update aid pid data now s).
Proof.
  destruct (process_adventure_update_tables aid pid data now s) as (_ & Hl & Hb & _ & Hp).
  apply still_tables.
  - by rewrite Hl.
  - rewrite Hb. apply battles_within_refl.
  - rewrite Hp. destruct (adventure_parties s !! aid) as [p|] eqn:Hpa;
      [|intros a q Hq; by exists q].
    case_decide; [|intros a q Hq; by exists q].
    intros a q. rewrite lookup_insert. case_decide.
    + subst. intros [= <-]. by exists p.
    + intros Hq. by exists q.
Qed.

(** Peels the outermost operation off the right-hand state of a [moves]
    goal, when that operation lets nobody in. *)
Ltac moves_peel :=
  match goal with
  | |- moves _ _ _ ?s ?s => apply moves_still, still_refl
  | |- moves ?L ?B ?P ?s (send _ _ ?s0) =>
      apply (moves_trans L B P s s0); [|apply moves_still, still_send]
  | |- moves ?L ?B ?P ?s (upd_client _ _ ?s0) =>
      apply (moves_trans L B P s s0); [|apply moves_still, still_upd_client]
  | |- moves ?L ?B ?P ?s (remove_from_lobby _ _ ?s0) =>
      apply (moves_trans L B P s s0); [|apply moves_still, still_remove_from_lobby]
  | |- moves ?L ?B ?P ?s (end_battle _ _ ?s0) =>
      apply (moves_trans L B P s s0); [|apply moves_still, still_end_battle]
  | |- moves ?L ?B ?P ?s (process_battle_action _ _ _ _ ?s0) =>
      apply (moves_trans L B P s s0); [|apply moves_still, still_process_battle_action]
  | |- moves ?L ?B ?P ?s (process_adventure_update _ _ _ _ ?s0) =>
      apply (moves_trans L B P s s0); [|apply moves_still, still_process_adventure_update]
  | |- moves ?L ?B ?P ?s (state_of (remove_from_adventure _ _ _ ?s0)) =>
      apply (moves_trans L B P s s0); [|apply moves_still, still_remove_from_adventure]
  end.

Lemma moves_handle_join_lobby cid data now s :
  moves (λ p, p = cid) nobody nobody s (handle_join_lobby cid data now s).
Proof.
  unfold handle_join_lobby. cbv zeta.
  set (s2 := if dict_has "username" data then _ else _).
  assert (H2 : moves (λ p, p = cid) nobody nobody s s2).
  { subst s2. destruct (dict_has "username" data); repeat moves_peel. }
  assert (H3 : moves (λ p, p = cid) nobody nobody s
                 (upd_client cid (set_in_lobby true) (add_to_lobby cid now s2))).
  { moves_peel. eapply moves_trans; [exact H2|apply moves_add_to_lobby]. }
  destruct (clients _ !! cid); [|done].
  eapply moves_trans; [exact H3|apply moves_still, still_send].
Qed.

Lemma still_handle_leave_lobby cid now s : still s (handle_leave_lobby cid now s).
Proof.
  unfold handle_leave_lobby, still. destruct (clients s !! cid) as [c|]; [|moves_peel].
  destruct (in_lobby c); repeat moves_peel.
Qed.

Lemma still_handle_battle_action cid data now s :
  still s (handle_battle_action cid data now s).
Proof.
  unfold handle_battle_action, still. destruct (clients s !! cid) as [c|]; [|moves_peel].
  destruct (in_battle c); [|moves_peel].
  destruct (battle_id c); repeat moves_peel.
Qed.

Lemma moves_handle_create_adventure cid data now s :
  server_inv s →
  moves nobody nobody (λ p, p = cid) s (handle_create_adventure cid data now s).
Proof.
  intros Hinv. unfold handle_create_adventure. cbv zeta.
  set (s1 := upd_client cid _ s).
  assert (H1 : server_inv s1) by by apply server_inv_upd_client.
  destruct (clients s1 !! cid) as [c|] eqn:Hc; [|subst s1; repeat moves_peel].
  assert (Hid := inv_client_key s1 H1 cid c Hc).
  assert (Hm := moves_create_adventure_party c now s1). rewrite Hid in Hm.
  destruct (create_adventure_party c now s1) as [aid s2]. simpl in Hm.
  repeat moves_peel. eapply moves_trans; [|exact Hm]. subst s1. repeat moves_peel.
Qed.

Lemma moves_handle_join_adventure cid data now s :
  server_inv s →
  moves nobody nobody (λ p, p = cid) s (state_of (handle_join_adventure cid data now s)).
Proof.
  intros Hinv. unfold handle_join_adventure.
  set (s1 := upd_client cid _ s).
  assert (H1 : server_inv s1) by by apply server_inv_upd_client.
  assert (M1 : moves nobody nobody (λ p, p = cid) s s1) by (subst s1; repeat moves_peel).
  destruct (clients s1 !! cid) as [c|] eqn:Hc; [|done].
  assert (Hid := inv_client_key s1 H1 cid c Hc).
  destruct (dict_get "party_id" data (JStr "")) as [| | |pid| |]; simpl;
    try done; try (by repeat moves_peel).
  assert (Hm := moves_join_adventure_party pid c now s1). rewrite Hid in Hm.
  destruct (join_adventure_party pid c now s1) as [[] s2]; simpl in *;
    repeat moves_peel; (eapply moves_trans; [exact M1|exact Hm]).
Qed.

Lemma still_handle_adventure_update cid data now s :
  still s (handle_adventure_update cid data now s).
Proof.
  unfold handle_adventure_update, still. destruct (clients s !! cid) as [c|]; [|moves_peel].
  destruct (in_adventure c); [|moves_peel].
  destruct (adventure_id c); repeat moves_peel.
Qed.

Lemma still_handle_get_adventure_parties cid s :
  still s (state_of (handle_get_adventure_parties cid s)).
Proof.
  unfold handle_get_adventure_parties, still.
  destruct (get_adventure_parties s); simpl; repeat moves_peel.
Qed.

Lemma still_clean_up cid now s : still s (state_of (clean_up cid now s)).
Proof.
  unfold clean_up, still. destruct (clients s !! cid) as [c|]; [|simpl; moves_peel].
  set (s1 := if in_lobby c then _ else s).
  assert (Q1 : still s s1).
  { subst s1. unfold still. destruct (in_lobby c); repeat moves_peel. }
  set (s2 := if in_battle c then _ else s1).
  assert (Q2 : still s1 s2).
  { subst s2. unfold still. destruct (in_battle c); [|moves_peel].
    destruct (battle_id c); repeat moves_peel. }
  set (o := if in_adventure c then _ else Done s2).
  assert (Q3 : still s2 (state_of o)).
  { subst o. unfold still. destruct (in_adventure c); [|simpl; moves_peel].
    destruct (adventure_id c); [|simpl; moves_peel]. repeat moves_peel. }
  apply (moves_trans _ _ _ s s1); [done|]. apply (moves_trans _ _ _ s1 s2); [done|].
  apply (moves_trans _ _ _ s2 (state_of o)); [done|].
  destruct o; simpl; repeat moves_peel.
Qed.

Lemma still_accept s : still s (accept s).
Proof. by apply still_same. Qed.

(** A pairing takes its two sessions out of the lobby. *)
Lemma moves_match_players now s :
  server_inv s →
  moves nobody (λ p, p ∈ lobby s ∧ p ∉ lobby (match_players now s)) nobody
        s (match_players now s).
Proof.
  intros Hinv.
  destruct (lobby s) as [|p1 [|p2 rest]] eqn:Hl;
    try (rewrite match_players_idle by (rewrite Hl; simpl; lia);
         apply moves_still, still_refl).
  assert (Hk1 : known s p1) by (apply Hinv; rewrite Hl; set_solver).
  assert (Hk2 : known s p2) by (apply Hinv; rewrite Hl; set_solver).
  destruct Hk1 as [c1 Hc1]. destruct Hk2 as [c2 Hc2].
  destruct (match_players_tables now s p1 p2 rest c1 c2 Hl Hc1 Hc2)
    as (_ & A2 & A3 & A4 & _).
  assert (Hnd := inv_lobby_nodup s Hinv). rewrite Hl in Hnd.
  apply NoDup_cons in Hnd as [Hp1 Hnd]. apply NoDup_cons in Hnd as [Hp2 Hnd].
  repeat split; intros p H.
  - left. rewrite A2 in H. rewrite Hl. by do 2 right.
  - destruct H as (b & bd & Hbd & Hpl). rewrite A3, lookup_insert in Hbd.
    case_decide; [|left; by exists b, bd].
    injection Hbd as <-. simpl in Hpl.
    rewrite (inv_client_key s Hinv p1 c1 Hc1), (inv_client_key s Hinv p2 c2 Hc2) in Hpl.
    right. destruct Hpl as [<-|<-]; (split; [|rewrite A2]); set_solver.
  - left. destruct H as (a & q & Hq & ?). rewrite A4 in Hq. by exists a, q.
Qed.

(** Entering a room from no room keeps the sessions in one room. *)
Lemma one_room_moves L B P s s' :
  one_room s → moves L B P s s' →
  (∀ p, L p → in_no_room s p) →
  (∀ p, P p → in_no_room s p) →
  (∀ p, B p → p ∈ lobby s ∧ p ∉ lobby s') →
  (∀ p, L p → P p → False) →
  one_room s'.
Proof.
  intros H1 (HL & HB & HP) HLn HPn HBl Hdisj p.
  destruct (H1 p) as (N1 & N2 & N3).
  repeat split.
  - intros [Hl Hb]. destruct (HB p Hb) as [Hb'|Hb']; [|by destruct (HBl p Hb')].
    destruct (HL p Hl) as [Hl'|Hl']; [by apply N1|].
    by destruct (HLn p Hl') as (_ & ? & _).
  - intros [Hl Hp]. destruct (HL p Hl) as [Hl'|Hl'].
    + destruct (HP p Hp) as [Hp'|Hp']; [by apply N2|].
      by destruct (HPn p Hp') as (? & _ & _).
    + destruct (HP p Hp) as [Hp'|Hp']; [|by destruct (Hdisj p)].
      by destruct (HLn p Hl') as (_ & _ & ?).
  - intros [Hb Hp]. destruct (HB p Hb) as [Hb'|Hb'].
    + destruct (HP p Hp) as [Hp'|Hp']; [by apply N3|].
      by destruct (HPn p Hp') as (_ & ? & _).
    + destruct (HBl p Hb') as [Hin _].
      destruct (HP p Hp) as [Hp'|Hp']; [by apply N2|].
      by destruct (HPn p Hp') as (? & _ & _).
Qed.

Lemma one_room_still s s' : one_room s → still s s' → one_room s'.
Proof.
  intros H1 Hs. by apply (one_room_moves nobody nobody nobody s s').
Qed.

Lemma one_room_dispatch cid data now s :
  server_inv s → one_room s →
  (is_join_request data = true → in_no_room s cid) →
  one_room (state_of (dispatch cid data now s)).
Proof.
  intros Hinv H1 Hpol. unfold dispatch.
  destruct data as [| | | | |fields]; try done.
  unfold is_join_request in Hpol. cbv zeta in Hpol.
  destruct (json_is_str _ "JOIN_LOBBY") eqn:E1.
  { apply (one_room_moves (λ p, p = cid) nobody nobody s _ H1
             (moves_handle_join_lobby cid fields now s)); try done.
    intros p ->. by apply Hpol. }
  destruct (json_is_str _ "LEAVE_LOBBY") eqn:E2.
  { eapply one_room_still; [done|apply still_handle_leave_lobby]. }
  destruct (json_is_str _ "BATTLE_ACTION") eqn:E3.
  { eapply one_room_still; [done|apply still_handle_battle_action]. }
  destruct (json_is_str _ "CREATE_ADVENTURE") eqn:E4.
  { apply (one_room_moves nobody nobody (λ p, p = cid) s _ H1
             (moves_handle_create_adventure cid fields now s Hinv)); try done.
    intros p ->. by apply Hpol. }
  destruct (json_is_str _ "JOIN_ADVENTURE") eqn:E5.
  { apply (one_room_moves nobody nobody (λ p, p = cid) s _ H1
             (moves_handle_join_adventure cid fields now s Hinv)); try done.
    intros p ->. by apply Hpol. }
  destruct (json_is_str _ "ADVENTURE_UPDATE") eqn:E6.
  { eapply one_room_still; [done|apply still_handle_adventure_update]. }
  destruct (json_is_str _ "GET_ADVENTURE_PARTIES") eqn:E7.
  { eapply one_room_still; [done|apply still_handle_get_adventure_parties]. }
  done.
Qed.

Lemma one_room_step s ev :
  server_inv s → one_room s → polite s ev → one_room (step s ev).
Proof.
  intros Hinv H1 Hpol. destruct ev as [|cid data now|now|cid now]; simpl.
  - eapply one_room_still; [done|apply still_accept].
  - destruct (is_running cid s); [|done]. by apply one_room_dispatch.
  - by apply (one_room_moves nobody _ nobody s _ H1 (moves_match_players now s Hinv)).
  - destruct (is_running cid s); [|done].
    eapply one_room_still; [done|apply still_clean_up].
Qed.

Lemma one_room_init : one_room init.
Proof.
  intros p. repeat split; intros [H _]; simpl in H.
  - by apply elem_of_nil in H.
  - by apply elem_of_nil in H.
  - by destruct H as (b & bd & H & _).
Qed.

(** C5, amended: the server lets a session that is already in a room ask for
    another one; what holds is that, as long as every session sends
    [JOIN_LOBBY], [CREATE_ADVENTURE] and [JOIN_ADVENTURE] only while it is
    in no room, no session is ever in two kinds of room at once, whatever
    else is sent and whoever disconnects. *)
Theorem one_room_at_a_time evs :
  polite_run init evs → one_room (run evs init).
Proof.
  assert (Hgen : ∀ s, server_inv s → one_room s → polite_run s evs →
                      one_room (run evs s)).
  { induction evs as [|ev evs IH]; intros s Hinv H1 Hpol; simpl; [done|].
    destruct Hpol as [Hev Hrest].
    apply IH; [by apply server_inv_step|by apply one_room_step|done]. }
  apply Hgen; [apply server_inv_init|apply one_room_init].
Qed.

Lemma one_room_at_a_time_witness :
  polite_run init [EConnect; EMessage "0" join_lobby_msg 1] ∧
  one_room (run [EConnect; EMessage "0" join_lobby_msg 1] init).
Proof.
  assert (Hpol : polite_run init [EConnect; EMessage "0" join_lobby_msg 1]).
  { simpl. split; [done|]. split; [|done]. intros _. repeat split.
    - simpl. by intros ?%elem_of_nil.
    - by intros (b & bd & Hb & _).
    - by intros (a & q & Hq & _). }
  split; [exact Hpol|].
  exact (one_room_at_a_time [EConnect; EMessage "0" join_lobby_msg 1] Hpol).
Defined.

(** ** Matchmaking pairs the lobby in arrival order (C1) *)

Lemma is_running_upd_client c cid f s :
  (∀ x, running (f x) = running x) →
  is_running c (upd_client cid f s) = is_running c s.
Proof.
  intros Hf. unfold is_running, upd_client. simpl. rewrite lookup_alter.
  case_decide; [|done]. subst. destruct (clients s !! c); simpl; [by rewrite Hf|done].
Qed.

Lemma handle_join_lobby_tables cid data now s :
  let s' := handle_join_lobby cid data now s in
  lobby s' = (if decide (cid ∈ lobby s) then lobby s else lobby s ++ [cid]) ∧
  battles s' = battles s ∧
  uuid_ctr s' = uuid_ctr s ∧
  ∀ c, is_running c s' = is_running c s.
Proof.
  unfold handle_join_lobby. cbv zeta.
  set (s1 := upd_client cid (set_creature _) s).
  set (s2 := if dict_has "username" data then _ else s1).
  assert (H2 : lobby s2 = lobby s ∧ battles s2 = battles s ∧ uuid_ctr s2 = uuid_ctr s ∧
               ∀ c, is_running c s2 = is_running c s).
  { subst s2 s1. destruct (dict_has "username" data); repeat split; try done.
    - intros c. by rewrite !is_running_upd_client.
    - intros c. by rewrite is_running_upd_client. }
  destruct H2 as (L2 & B2 & N2 & R2).
  destruct (add_to_lobby_tables cid now s2) as (C3 & L3 & B3 & _ & N3).
  set (s3 := add_to_lobby cid now s2) in *.
  assert (R3 : ∀ c, is_running c s3 = is_running c s2).
  { intros c. unfold is_running. by rewrite C3. }
  assert (H4 : ∀ s4, s4 = upd_client cid (set_in_lobby true) s3 →
     lobby s4 = (if decide (cid ∈ lobby s) then lobby s else lobby s ++ [cid]) ∧
     battles s4 = battles s ∧ uuid_ctr s4 = uuid_ctr s ∧
     ∀ c, is_running c s4 = is_running c s).
  { intros s4 ->. simpl. rewrite L3, L2, B3, B2, N3, N2. repeat split; try done.
    intros c. by rewrite is_running_upd_client, R3, R2. }
  destruct (H4 _ eq_refl) as (L4 & B4 & N4 & R4).
  destruct (clients _ !! cid); [|done].
  simpl. repeat split; try done.
Qed.

Lemma match_players_running now s c :
  is_running c (match_players now s) = is_running c s.
Proof.
  destruct (lobby s) as [|p1 [|p2 rest]] eqn:Hl;
    try (rewrite match_players_idle by (rewrite Hl; simpl; lia); done).
  destruct (clients s !! p1) as [c1|] eqn:Hc1;
    [|unfold match_players; by rewrite Hl, Hc1].
  destruct (clients s !! p2) as [c2|] eqn:Hc2;
    [|unfold match_players; by rewrite Hl, Hc1, Hc2].
  destruct (match_players_tables now s p1 p2 rest c1 c2 Hl Hc1 Hc2) as (A1 & _).
  unfold is_running. rewrite A1, !lookup_alter.
  repeat case_decide; subst; destruct (clients s !! c); done.
Qed.

Lemma elem_of_drop_list {A} (x : A) n (l : list A) : x ∈ drop n l → x ∈ l.
Proof.
  intros (i & Hi)%list_elem_of_lookup. rewrite lookup_drop in Hi.
  apply list_elem_of_lookup. by eexists.
Qed.

Lemma half_unique n m : 2 * m ≤ n → n < 2 * m + 2 → n / 2 = m.
Proof.
  intros H1 H2. symmetry. apply (Nat.div_unique n 2 m (n - 2 * m)); lia.
Qed.

Lemma half_bound n : 2 * (n / 2) ≤ n.
Proof. apply Nat.Div0.mul_div_le. Qed.

(** A [JOIN_LOBBY] of a new session puts it at the end of the queue. *)
Lemma lobby_inv_join s0 joined m s cid fields now :
  json_is_str (dict_get "type" fields (JStr "")) "JOIN_LOBBY" = true →
  cid ∉ joined →
  is_running cid s0 = true →
  lobby_inv s0 joined m s →
  lobby_inv s0 (joined ++ [cid]) m (step s (EMessage cid (JObj fields) now)).
Proof.
  intros Hty Hnew Hrun [I1 I2 I3 I4 I5 I6 I7 I8].
  simpl. rewrite (I8 cid Hrun). unfold dispatch. rewrite Hty. simpl.
  destruct (handle_join_lobby_tables cid fields now s) as (L & B & N & R).
  assert (Hnl : cid ∉ lobby s).
  { rewrite I3. intros Hin. apply Hnew. by eapply elem_of_drop_list. }
  rewrite decide_False in L by done.
  split.
  - apply server_inv_handle_join_lobby; [|done]. apply is_running_known. auto.
  - rewrite length_app. simpl. lia.
  - rewrite L, I3. by rewrite drop_app_le.
  - by rewrite N.
  - by rewrite B.
  - rewrite B. exact I6.
  - rewrite B. intros i Hi. destruct (I7 i Hi) as (bd & Hbd & H1 & H2 & H3).
    exists bd. split; [done|]. split; [by apply lookup_app_l_Some|].
    split; [by apply lookup_app_l_Some|done].
  - intros c Hc. rewrite R. auto.
Qed.

(** A tick with two sessions waiting pairs the two oldest; otherwise it does
    nothing. *)
Lemma lobby_inv_tick s0 joined m s now :
  lobby_inv s0 joined m s →
  ∃ m', lobby_inv s0 joined m' (step s (ETick now)) ∧
        (m' = m ∧ length (lobby s) < 2 ∨ m' = S m).
Proof.
  intros [I1 I2 I3 I4 I5 I6 I7 I8]. simpl.
  destruct (lobby s) as [|p1 [|p2 rest]] eqn:Hl.
  1,2: exists m; rewrite match_players_idle by (rewrite Hl; simpl; lia);
       (split; [by split; rewrite ?Hl|left; split; [done|simpl; lia]]).
  exists (S m).
  assert (Hk1 : known s p1) by (apply I1; rewrite Hl; set_solver).
  assert (Hk2 : known s p2) by (apply I1; rewrite Hl; set_solver).
  destruct Hk1 as [c1 Hc1]. destruct Hk2 as [c2 Hc2].
  destruct (match_players_tables now s p1 p2 rest c1 c2 Hl Hc1 Hc2)
    as (A1 & A2 & A3 & A4 & A5 & _).
  assert (Hid1 := inv_client_key s I1 p1 c1 Hc1).
  assert (Hid2 := inv_client_key s I1 p2 c2 Hc2).
  assert (Hnd := inv_lobby_nodup s I1). rewrite Hl in Hnd.
  apply NoDup_cons in Hnd as [Hp1 Hnd].
  assert (Hne : p1 ≠ p2) by set_solver.
  assert (Hj1 : joined !! (2 * m + 0) = Some p1)
    by (by rewrite <- lookup_drop, <- I3).
  rewrite Nat.add_0_r in Hj1.
  assert (Hj2 : joined !! (2 * m + 1) = Some p2)
    by (by rewrite <- lookup_drop, <- I3).
  assert (Hrest : rest = drop (2 * S m) joined).
  { replace (2 * S m) with (2 * m + 2) by lia.
    by rewrite <- drop_drop, <- I3. }
  assert (Hfresh : battles s !! uuid4 (uuid_ctr s) = None).
  { destruct (battles s !! uuid4 (uuid_ctr s)) as [bd|] eqn:Hb; [|done].
    destruct (I6 _ bd Hb) as (i & Hi & Heq). apply uuid4_inj in Heq. lia. }
  split; [|by right].
  split.
  - by apply server_inv_match_players.
  - apply lookup_lt_Some in Hj2. lia.
  - by rewrite A2.
  - rewrite A5, I4. lia.
  - rewrite A3, map_size_insert_None by done. by rewrite I5.
  - rewrite A3. intros k bd.
    destruct (decide (k = uuid4 (uuid_ctr s))) as [->|Hk].
    + intros _. exists m. split; [lia|]. by rewrite I4.
    + rewrite lookup_insert_ne by done.
      intros Hbd. destruct (I6 k bd Hbd) as (i & Hi & ->). exists i. split; [lia|done].
  - rewrite A3. intros i Hi. destruct (decide (i = m)) as [->|Him].
    + rewrite <- I4, lookup_insert_eq. eexists. split; [done|]. simpl.
      rewrite Hid1, Hid2. done.
    + destruct (I7 i) as (bd & Hbd & Hrooms); [lia|].
      exists bd. split; [|done]. rewrite lookup_insert_ne; [done|].
      rewrite I4. intros Heq%uuid4_inj. lia.
  - intros c Hc. rewrite match_players_running. auto.
Qed.

(** A run of joins by distinct running sessions and of ticks. *)
Lemma lobby_inv_run s0 evs joined m s :
  Forall lobby_event evs →
  NoDup (joined ++ joiners evs) →
  (∀ c, c ∈ joiners evs → is_running c s0 = true) →
  lobby_inv s0 joined m s →
  ∃ m', lobby_inv s0 (joined ++ joiners evs) m' (run evs s).
Proof.
  intros Hall. revert joined m s.
  induction Hall as [|ev evs Hev _ IH]; intros joined m s Hnd Hrun Hinv.
  - exists m. simpl. by rewrite app_nil_r.
  - destruct Hev as [[c Hc]|Ht].
    + destruct ev as [|cid data now| |]; try done.
      destruct data as [| | | | |fields]; try done. simpl in Hc.
      destruct (json_is_str _ "JOIN_LOBBY") eqn:Hty; [|done].
      injection Hc as <-.
      assert (Hjs : joiners (EMessage cid (JObj fields) now :: evs) = cid :: joiners evs).
      { unfold joiners. simpl. by rewrite Hty. }
      rewrite Hjs in *. rewrite cons_middle, app_assoc in Hnd |- *.
      apply (IH _ m).
      * done.
      * intros c Hcin. apply Hrun. by right.
      * apply lobby_inv_join; try done.
        -- apply NoDup_app in Hnd as (Hnd & _ & _).
           apply NoDup_app in Hnd as (_ & Hdisj & _).
           intros Hin. apply (Hdisj cid Hin). by left.
        -- apply Hrun. by left.
    + destruct ev as [| |now|]; try done.
      destruct (lobby_inv_tick s0 joined m s now Hinv) as (m' & Hinv' & _).
      simpl. apply (IH _ m'); done.
Qed.

(** Ticks alone: each one makes a pair until fewer than two wait. *)
Lemma lobby_inv_ticks s0 joined ticks m s :
  lobby_inv s0 joined m s →
  ∃ m', lobby_inv s0 joined m' (run (map ETick ticks) s) ∧
        (length (lobby (run (map ETick ticks) s)) < 2 ∨ m + length ticks ≤ m').
Proof.
  revert m s. induction ticks as [|now ticks IH]; intros m s Hinv.
  - exists m. split; [done|]. right. simpl. lia.
  - destruct (lobby_inv_tick s0 joined m s now Hinv) as (m1 & Hinv1 & Hm1).
    destruct (IH m1 _ Hinv1) as (m' & Hinv' & Hm').
    exists m'. split; [done|]. simpl.
    destruct Hm' as [?|Hm']; [by left|].
    destruct Hm1 as [[-> Hshort] | ->]; [|right; lia].
    (* the lobby was short: it stays short, ticks change nothing *)
    left. clear IH Hm' Hinv'. destruct Hinv1 as [_ _ _ _ _ _ _ _].
    assert (Hidle : match_players now s = s) by by apply match_players_idle.
    simpl. rewrite Hidle. clear Hidle Hinv.
    induction ticks as [|t ticks IHt]; simpl; [done|].
    by rewrite match_players_idle.
Qed.

(** C1: let sessions that are connected send [JOIN_LOBBY], each once, in any
    interleaving with executions of the matchmaking loop, starting with an
    empty lobby and no battle, and let the loop then run at least ⌊N/2⌋
    more times. Then there are exactly ⌊N/2⌋ battle rooms; the i-th room
    created pairs the sessions that joined in positions 2i and 2i+1, two
    different sessions, with player1 to move; no session is in two rooms;
    and the lobby is left with the sessions not yet paired (none, or the
    last one). *)
Theorem matchmaking_pairs_fifo s0 evs ticks :
  reachable s0 →
  lobby s0 = [] →
  battles s0 = ∅ →
  Forall lobby_event evs →
  NoDup (joiners evs) →
  (∀ c, c ∈ joiners evs → is_running c s0 = true) →
  length (joiners evs) / 2 ≤ length ticks →
  let cs := joiners evs in
  let s := run (evs ++ map ETick ticks) s0 in
  size (battles s) = length cs / 2 ∧
  (∀ i, i < length cs / 2 →
     ∃ bd, battles s !! uuid4 (uuid_ctr s0 + i) = Some bd ∧
           cs !! (2 * i) = Some (player1 bd) ∧
           cs !! (2 * i + 1) = Some (player2 bd) ∧
           player1 bd ≠ player2 bd ∧
           current_turn bd = Player1) ∧
  (∀ i j bd bd', i < j < length cs / 2 →
     battles s !! uuid4 (uuid_ctr s0 + i) = Some bd →
     battles s !! uuid4 (uuid_ctr s0 + j) = Some bd' →
     player1 bd ≠ player1 bd' ∧ player1 bd ≠ player2 bd' ∧
     player2 bd ≠ player1 bd' ∧ player2 bd ≠ player2 bd') ∧
  lobby s = drop (2 * (length cs / 2)) cs.
Proof.
  intros Hreach Hl0 Hb0 Hall Hnd Hrun Hticks. cbv zeta.
  assert (H0 : lobby_inv s0 [] 0 s0).
  { split; try done.
    - by apply reachable_inv.
    - by rewrite Hb0, map_size_empty.
    - intros k bd. by rewrite Hb0, lookup_empty.
    - intros i Hi. lia. }
  destruct (lobby_inv_run s0 evs [] 0 s0 Hall Hnd Hrun H0) as (m1 & H1).
  simpl in H1.
  destruct (lobby_inv_ticks s0 (joiners evs) ticks m1 _ H1) as (m & H2 & Hm).
  unfold run in *. rewrite foldl_app.
  set (s := foldl step (foldl step s0 evs) (map ETick ticks)) in *.
  assert (Hhalf : length (joiners evs) / 2 = m).
  { destruct H2 as [_ I2 I3 _ _ _ _ _].
    destruct Hm as [Hshort|Hmany].
    - rewrite I3, length_drop in Hshort. apply half_unique; lia.
    - apply Nat.le_antisymm; [lia|].
      apply Nat.div_le_lower_bound; lia. }
  rewrite Hhalf. destruct H2 as [_ _ I3 _ I5 _ I7 _].
  split; [done|]. split; [exact I7|]. split; [|done].
  intros i j bd bd' Hij Hbd Hbd'.
  destruct (I7 i) as (bi & Hbi & Hi1 & Hi2 & _); [lia|].
  destruct (I7 j) as (bj & Hbj & Hj1 & Hj2 & _); [lia|].
  assert (bi = bd) as -> by congruence. assert (bj = bd') as -> by congruence.
  repeat split; intros Heq.
  - rewrite Heq in Hi1. assert (H := NoDup_lookup _ _ _ _ Hnd Hi1 Hj1). lia.
  - rewrite Heq in Hi1. assert (H := NoDup_lookup _ _ _ _ Hnd Hi1 Hj2). lia.
  - rewrite Heq in Hi2. assert (H := NoDup_lookup _ _ _ _ Hnd Hi2 Hj1). lia.
  - rewrite Heq in Hi2. assert (H := NoDup_lookup _ _ _ _ Hnd Hi2 Hj2). lia.
Qed.

Lemma matchmaking_pairs_fifo_witness :
  reachable three_sessions ∧
  size (battles (run ([EMessage "0" join_lobby_msg 1; EMessage "1" join_lobby_msg 2;
                       ETick 3; EMessage "2" join_lobby_msg 4] ++ map ETick [5])
                     three_sessions)) = 3 / 2.
Proof.
  assert (Hreach : reachable three_sessions) by by eexists.
  split; [exact Hreach|].
  apply (matchmaking_pairs_fifo three_sessions
           [EMessage "0" join_lobby_msg 1; EMessage "1" join_lobby_msg 2;
            ETick 3; EMessage "2" join_lobby_msg 4] [5] Hreach).
  - reflexivity.
  - reflexivity.
  - repeat (apply Forall_cons; split;
            [first [by (left; eexists) | by right]|]).
    by apply Forall_nil.
  - apply (bool_decide_unpack _). by vm_compute.
  - intros c Hc. simpl in Hc.
    repeat (apply elem_of_cons in Hc as [->|Hc]; [by vm_compute|]).
    by apply elem_of_nil in Hc.
  - simpl. lia.
Defined.

(** ** A chunk that does not decode (C9) *)

(** After [clean_up] in a state that satisfies the invariant the handler
    does not run any more. *)
Lemma clean_up_stops cid now s :
  server_inv s → is_running cid (state_of (clean_up cid now s)) = false.
Proof.
  intros Hinv. unfold clean_up.
  destruct (clients s !! cid) as [c|] eqn:Hc;
    [|simpl; unfold is_running; by rewrite Hc].
  set (s1 := if in_lobby c then _ else s).
  assert (H1 : server_inv s1).
  { subst s1. destruct (in_lobby c); [by apply server_inv_remove_from_lobby|done]. }
  set (s2 := if in_battle c then _ else s1).
  assert (H2 : server_inv s2).
  { subst s2. destruct (in_battle c); [|done].
    destruct (battle_id c); [by apply server_inv_end_battle|done]. }
  set (o := if in_adventure c then _ else Done s2).
  assert (H3 : ∃ s3, o = Done s3).
  { subst o. destruct (in_adventure c); [|by eexists].
    destruct (adventure_id c) as [aid|]; [|by eexists].
    destruct (remove_from_adventure_cases aid (player_id c) now s2 H2)
      as [->|(p & i & Hp & Hi & Hcs & Hus)]; [by eexists|].
    rewrite (remove_from_adventure_done aid (player_id c) now s2 p i) by done.
    by eexists. }
  destruct H3 as (s3 & ->). simpl.
  unfold is_running, upd_client. simpl. rewrite lookup_alter, decide_True by done.
  by destruct (clients s3 !! cid).
Qed.

Section ChannelBytes.

Variable loads : string → option json.
Variable decode_utf8 : bytes → option string.

(** C9 fails on the code for a chunk that [bytes.decode] rejects, which a
    frame that is not JSON can bring about: the server leaves its receive
    loop and runs [clean_up], after which the handler does not run; the
    client goes on, but without any frame of the chunk. Nothing of the
    chunk is parsed on either side. *)
Theorem undecodable_chunk_ends_session data buffer :
  data ≠ EmptyString →
  decode_utf8 data = None →
  (∀ cid now s,
     run_iteration loads decode_utf8 cid now data buffer s
       = LoopLeft (state_of (clean_up cid now s))) ∧
  (∀ cid now s, reachable s →
     is_running cid (state_of (clean_up cid now s)) = false) ∧
  (∀ c, receive_iteration loads decode_utf8 data buffer c = (c, buffer, true)).
Proof.
  intros Hne%String.eqb_neq Hbad. repeat split.
  - intros cid now s. unfold run_iteration. by rewrite Hne, Hbad.
  - intros cid now s Hreach%reachable_inv. by apply clean_up_stops.
  - intros c. unfold receive_iteration. by rewrite Hne, Hbad.
Qed.

End ChannelBytes.

Lemma undecodable_chunk_ends_session_witness :
  undecodable_chunk ≠ EmptyString ∧
  sample_decode undecodable_chunk = None ∧
  run_iteration sample_loads sample_decode "0" 5 undecodable_chunk EmptyString
                (accept init)
    = LoopLeft (state_of (clean_up "0" 5 (accept init))).
Proof.
  split; [discriminate|]. split; [reflexivity|].
  apply (undecodable_chunk_ends_session sample_loads sample_decode
           undecodable_chunk EmptyString); [discriminate|reflexivity].
Defined.

(** ** Rooms and the marks of their players *)

Lemma keeps_refl s : keeps s s.
Proof. intros b bd H. exists bd. auto. Qed.

Lemma keeps_trans s1 s2 s3 : keeps s1 s2 → keeps s2 s3 → keeps s1 s3.
Proof.
  intros H12 H23 b bd3 H3.
  destruct (H23 b bd3 H3) as (bd2 & H2 & -> & -> & K2).
  destruct (H12 b bd2 H2) as (bd1 & H1 & -> & -> & K1).
  exists bd1. repeat split; auto.
Qed.

Lemma keeps_tables s s' :
  clients s' = clients s → battles_within (battles s) (battles s') → keeps s s'.
Proof.
  intros Hc Hb b bd' Hbd'. destruct (Hb b bd' Hbd') as (bd & Hbd & E1 & E2).
  exists bd. repeat split; try done.
  intros p (c & Hp & ?). exists c. by rewrite Hc.
Qed.

Lemma keeps_same s s' : clients s' = clients s → battles s' = battles s → keeps s s'.
Proof. intros Hc Hb. apply keeps_tables; [done|]. rewrite Hb. apply battles_within_refl. Qed.

Lemma keeps_send cid m s : keeps s (send cid m s).
Proof. by apply keeps_same. Qed.

Lemma keeps_upd_client cid f s :
  (∀ c, in_battle (f c) = in_battle c ∧ battle_id (f c) = battle_id c) →
  keeps s (upd_client cid f s).
Proof.
  intros Hf b bd Hbd. exists bd. repeat split; try done.
  intros p (c & Hp & Hin & Hid). unfold in_battle_room, upd_client. simpl.
  rewrite lookup_alter. case_decide.
  - subst. rewrite Hp. simpl. exists (f c). destruct (Hf c) as [-> ->]. done.
  - by exists c.
Qed.

Lemma keeps_add_to_lobby cid now s : keeps s (add_to_lobby cid now s).
Proof.
  destruct (add_to_lobby_tables cid now s) as (Hc & _ & Hb & _). by apply keeps_same.
Qed.

Lemma keeps_remove_from_lobby cid now s : keeps s (remove_from_lobby cid now s).
Proof.
  destruct (remove_from_lobby_tables cid now s) as (Hc & _ & Hb & _). by apply keeps_same.
Qed.

Lemma keeps_create_adventure_party c now s : keeps s (create_adventure_party c now s).2.
Proof. by apply keeps_same. Qed.

Lemma keeps_join_adventure_party pid c now s : keeps s (join_adventure_party pid c now s).2.
Proof.
  destruct (join_adventure_party_frame pid c now s) as (Hc & _ & Hb & _).
  by apply keeps_same.
Qed.

Lemma keeps_remove_from_adventure aid pid now s :
  keeps s (state_of (remove_from_adventure aid pid now s)).
Proof.
  destruct (remove_from_adventure_frame aid pid now s) as (Hc & _ & Hb & _).
  by apply keeps_same.
Qed.

Lemma keeps_process_adventure_update aid pid data now s :
  keeps s (process_adventure_update aid pid data now s).
Proof.
  destruct (process_adventure_update_tables aid pid data now s) as (Hc & _ & Hb & _).
  by apply keeps_same.
Qed.

(** Ending a room leaves the marks for the other rooms alone. *)
Lemma notify_battle_end_other bid w r q s p b :
  b ≠ bid → in_battle_room s p b →
  in_battle_room (notify_battle_end bid w r q s) p b.
Proof.
  intros Hne (c & Hp & Hin & Hid). unfold notify_battle_end.
  destruct (clients s !! q) as [cq|] eqn:Hq; [|by exists c].
  destruct (in_battle cq && bool_decide (battle_id cq = Some bid)) eqn:Hcond;
    [|by exists c].
  apply andb_true_iff in Hcond as [_ Hcond%bool_decide_eq_true].
  exists c. simpl. rewrite lookup_alter_ne; [done|].
  intros <-. rewrite Hp in Hq. injection Hq as <-. congruence.
Qed.

Lemma notify_battle_end_battles bid w r q s :
  battles (notify_battle_end bid w r q s) = battles s.
Proof. by destruct (notify_battle_end_tables bid w r q s) as (_ & _ & -> & _). Qed.

Lemma keeps_end_battle bid pid s : keeps s (end_battle bid pid s).
Proof.
  unfold end_battle. destruct (battles s !! bid) as [bd0|] eqn:Hb0; [|apply keeps_refl].
  cbv zeta. intros b bd'. simpl. rewrite !notify_battle_end_battles, lookup_delete.
  case_decide; [done|]. intros Hbd'. exists bd'. repeat split; try done.
  intros p Hp. unfold in_battle_room. simpl.
  apply notify_battle_end_other; [done|]. by apply notify_battle_end_other.
Qed.

Lemma keeps_process_battle_action bid pid ability_index now s :
  keeps s (process_battle_action bid pid ability_index now s).
Proof.
  unfold process_battle_action.
  destruct (battles s !! bid) as [bd|] eqn:Hb; [|apply keeps_refl].
  cbv zeta.
  set (s1 := with_battles s (<[bid := set_battle_activity now bd]> (battles s))).
  assert (K1 : keeps s s1).
  { apply keeps_tables; [done|]. by apply (battles_within_update _ _ bd). }
  destruct (decide (current_turn (set_battle_activity now bd)
                    = player_role (set_battle_activity now bd) pid)); [|done].
  destruct (clients s1 !! _) as [c|].
  - apply keeps_tables; [done|]. simpl. rewrite insert_insert_eq.
    by apply (battles_within_update _ _ bd).
  - apply (keeps_trans s s1); [done|]. apply keeps_end_battle.
Qed.

(** Peels the outermost operation off the right-hand state of a [keeps]
    goal. *)
Ltac keeps_peel :=
  match goal with
  | |- keeps ?s ?s => apply keeps_refl
  | |- keeps ?s (send _ _ ?s0) => apply (keeps_trans s s0); [|apply keeps_send]
  | |- keeps ?s (upd_client _ _ ?s0) =>
      apply (keeps_trans s s0); [|by apply keeps_upd_client]
  | |- keeps ?s (add_to_lobby _ _ ?s0) =>
      apply (keeps_trans s s0); [|apply keeps_add_to_lobby]
  | |- keeps ?s (remove_from_lobby _ _ ?s0) =>
      apply (keeps_trans s s0); [|apply keeps_remove_from_lobby]
  | |- keeps ?s (end_battle _ _ ?s0) =>
      apply (keeps_trans s s0); [|apply keeps_end_battle]
  | |- keeps ?s (process_battle_action _ _ _ _ ?s0) =>
      apply (keeps_trans s s0); [|apply keeps_process_battle_action]
  | |- keeps ?s (process_adventure_update _ _ _ _ ?s0) =>
      apply (keeps_trans s s0); [|apply keeps_process_adventure_update]
  | |- keeps ?s (state_of (remove_from_adventure _ _ _ ?s0)) =>
      apply (keeps_trans s s0); [|apply keeps_remove_from_adventure]
  | |- keeps ?s (create_adventure_party _ _ ?s0).2 =>
      apply (keeps_trans s s0); [|apply keeps_create_adventure_party]
  | |- keeps ?s (join_adventure_party _ _ _ ?s0).2 =>
      apply (keeps_trans s s0); [|apply keeps_join_adventure_party]
  end.

Lemma keeps_dispatch cid data now s : keeps s (state_of (dispatch cid data now s)).
Proof.
  unfold dispatch. destruct data as [| | | | |fields]; try apply keeps_refl.
  repeat case_match; simpl; try apply keeps_refl.
  - unfold handle_join_lobby. cbv zeta.
    destruct (dict_has "username" fields); destruct (clients _ !! cid);
      repeat keeps_peel.
  - unfold handle_leave_lobby. destruct (clients s !! cid) as [c|]; [|apply keeps_refl].
    destruct (in_lobby c); repeat keeps_peel.
  - unfold handle_battle_action. destruct (clients s !! cid) as [c|]; [|apply keeps_refl].
    destruct (in_battle c); [|apply keeps_refl].
    destruct (battle_id c); repeat keeps_peel.
  - unfold handle_create_adventure. cbv zeta.
    destruct (clients _ !! cid) as [c|]; [|repeat keeps_peel].
    change (keeps s
      (send cid (ADVENTURE_CREATED (uuid4 (uuid_ctr s)) (player_id c))
         (upd_client cid (set_adventure true (Some (uuid4 (uuid_ctr s))))
            (create_adventure_party c now
               (upd_client cid (set_creature (dict_get "creature" fields (JObj []))) s)).2))).
    repeat keeps_peel.
  - unfold handle_join_adventure.
    destruct (clients _ !! cid) as [c|]; [|simpl; repeat keeps_peel].
    destruct (dict_get "party_id" fields (JStr "")) as [| | |pid| |]; simpl;
      try (by repeat keeps_peel).
    set (s1 := upd_client cid _ s).
    assert (K := keeps_join_adventure_party pid c now s1).
    destruct (join_adventure_party pid c now s1) as [[] s2]; simpl in *;
      repeat keeps_peel; (apply (keeps_trans s s1); [subst s1; repeat keeps_peel|done]).
  - unfold handle_adventure_update. destruct (clients s !! cid) as [c|]; [|apply keeps_refl].
    destruct (in_adventure c); [|apply keeps_refl].
    destruct (adventure_id c); repeat keeps_peel.
  - unfold handle_get_adventure_parties.
    destruct (get_adventure_parties s); simpl; repeat keeps_peel.
Qed.

Lemma keeps_clean_up cid now s : keeps s (state_of (clean_up cid now s)).
Proof.
  unfold clean_up. destruct (clients s !! cid) as [c|]; [|apply keeps_refl].
  set (s1 := if in_lobby c then _ else s).
  assert (Q1 : keeps s s1) by (subst s1; destruct (in_lobby c); repeat keeps_peel).
  set (s2 := if in_battle c then _ else s1).
  assert (Q2 : keeps s1 s2).
  { subst s2. destruct (in_battle c); [|apply keeps_refl].
    destruct (battle_id c); repeat keeps_peel. }
  set (o := if in_adventure c then _ else Done s2).
  assert (Q3 : keeps s2 (state_of o)).
  { subst o. destruct (in_adventure c); [|apply keeps_refl].
    destruct (adventure_id c); [|apply keeps_refl]. repeat keeps_peel. }
  apply (keeps_trans s s1); [done|]. apply (keeps_trans s1 s2); [done|].
  apply (keeps_trans s2 (state_of o)); [done|].
  destruct o; simpl; repeat keeps_peel.
Qed.

Lemma keeps_accept s : server_inv s → keeps s (accept s).
Proof.
  intros Hinv b bd Hbd. exists bd. repeat split; try done.
  intros p (c & Hp & Hin & Hid). exists c. simpl.
  rewrite lookup_insert_ne; [done|]. intros <-.
  destruct (inv_client_alloc s Hinv (uuid4 (uuid_ctr s))) as (n & Hn & Heq);
    [by eexists|].
  apply uuid4_inj in Heq. lia.
Qed.

Lemma rooms_marked_keeps s s' : rooms_marked s → keeps s s' → rooms_marked s'.
Proof.
  intros Hm Hk b bd' Hbd'. destruct (Hk b bd' Hbd') as (bd & Hbd & -> & -> & Hp).
  destruct (Hm b bd Hbd). split; by apply Hp.
Qed.

Lemma rooms_marked_match_players now s :
  server_inv s → one_room s → rooms_marked s → rooms_marked (match_players now s).
Proof.
  intros Hinv H1 Hm.
  destruct (lobby s) as [|p1 [|p2 rest]] eqn:Hl;
    try (rewrite match_players_idle by (rewrite Hl; simpl; lia); done).
  assert (Hk1 : known s p1) by (apply Hinv; rewrite Hl; set_solver).
  assert (Hk2 : known s p2) by (apply Hinv; rewrite Hl; set_solver).
  destruct Hk1 as [c1 Hc1]. destruct Hk2 as [c2 Hc2].
  destruct (match_players_tables now s p1 p2 rest c1 c2 Hl Hc1 Hc2)
    as (A1 & _ & A3 & _).
  assert (Hid1 := inv_client_key s Hinv p1 c1 Hc1).
  assert (Hid2 := inv_client_key s Hinv p2 c2 Hc2).
  assert (Hnd := inv_lobby_nodup s Hinv). rewrite Hl in Hnd.
  apply NoDup_cons in Hnd as [Hp1 Hnd].
  assert (Hne : p1 ≠ p2) by set_solver.
  intros b bd. rewrite A3.
  destruct (decide (b = uuid4 (uuid_ctr s))) as [->|Hb].
  - rewrite lookup_insert_eq. intros [= <-]. simpl. rewrite Hid1, Hid2.
    unfold in_battle_room. rewrite A1. split.
    + rewrite lookup_alter_ne, lookup_alter_eq, Hc1 by done. simpl. by eexists.
    + rewrite lookup_alter_eq, lookup_alter_ne, Hc2 by done. simpl. by eexists.
  - rewrite lookup_insert_ne by done. intros Hbd.
    assert (Hout : ∀ q, (player1 bd = q ∨ player2 bd = q) → q ≠ p1 ∧ q ≠ p2).
    { intros q Hq. destruct (H1 q) as (N1 & _ & _).
      split; intros ->; apply N1; (split; [rewrite Hl; repeat constructor|by exists b, bd]). }
    destruct (Hm b bd Hbd) as [M1 M2].
    unfold in_battle_room. rewrite A1.
    destruct (Hout (player1 bd)) as [? ?]; [by left|].
    destruct (Hout (player2 bd)) as [? ?]; [by right|].
    by rewrite !lookup_alter_ne by done.
Qed.

Lemma rooms_marked_step s ev :
  server_inv s → one_room s → rooms_marked s → rooms_marked (step s ev).
Proof.
  intros Hinv H1 Hm. destruct ev as [|cid data now|now|cid now]; simpl.
  - eapply rooms_marked_keeps; [done|by apply keeps_accept].
  - destruct (is_running cid s); [|done].
    eapply rooms_marked_keeps; [done|apply keeps_dispatch].
  - by apply rooms_marked_match_players.
  - destruct (is_running cid s); [|done].
    eapply rooms_marked_keeps; [done|apply keeps_clean_up].
Qed.

(** As long as sessions ask for a room only while they are in none, the two
    players of every room of the table are marked as fighting in it. *)
Lemma polite_rooms_marked evs :
  polite_run init evs → rooms_marked (run evs init).
Proof.
  assert (Hgen : ∀ s, server_inv s → one_room s → rooms_marked s → polite_run s evs →
                      rooms_marked (run evs s)).
  { induction evs as [|ev evs IH]; intros s Hinv H1 Hm Hpol; simpl; [done|].
    destruct Hpol as [Hev Hrest].
    apply IH; [by apply server_inv_step|by apply one_room_step
              |by apply rooms_marked_step|done]. }
  apply Hgen; [apply server_inv_init|apply one_room_init|].
  intros b bd Hb. simpl in Hb. by rewrite lookup_empty in Hb.
Qed.

(** ** The forfeit of a fighter that disconnects (C2) *)

(** C2, as stated, fails: in the room "3" of the scene "0" fights "1", who
    has queued again and is by now marked for the room "4". When "0"
    disconnects, "1" is sent no [BATTLE_END]; and when "1" disconnects, the
    room "3" stays in the table. *)
Lemma requeued_fighter_is_not_told :
  reachable requeued_scene ∧
  (∃ bd, battles requeued_scene !! "3" = Some bd ∧
         player1 bd = "0" ∧ player2 bd = "1") ∧
  battle_ends_to "1"
    (sent_since requeued_scene (state_of (clean_up "0" 7 requeued_scene))) = [] ∧
  battles (state_of (clean_up "0" 7 requeued_scene)) !! "3" = None ∧
  is_Some (battles (state_of (clean_up "1" 7 requeued_scene)) !! "3").
Proof.
  split; [by eexists|]. split; [eexists; by vm_compute|].
  split; [by vm_compute|]. split; [by vm_compute|].
  eexists. by vm_compute.
Qed.

(** C2, amended: take a battle room whose two participants are both marked
    as fighting in it; every room is such a room as long as each session
    asks for a room only while it is in none. When one participant
    disconnects, the other is sent exactly one [BATTLE_END], naming its own
    side as the winner and [disconnect] as the reason; the room leaves the
    table; ending the same room again, on anybody's behalf, changes
    nothing. *)
Theorem disconnect_forfeits s b bd P Q now :
  reachable s →
  battles s !! b = Some bd →
  (player1 bd = P ∧ player2 bd = Q) ∨ (player1 bd = Q ∧ player2 bd = P) →
  (in_battle_room s P b ∧ in_battle_room s Q b) ∨
  (∃ evs, polite_run init evs ∧ s = run evs init) →
  let s' := state_of (clean_up P now s) in
  battle_ends_to Q (sent_since s s')
    = [BATTLE_END b (Some (player_role bd Q)) disconnect] ∧
  battles s' = delete b (battles s) ∧
  battles s' !! b = None ∧
  ∀ who, end_battle b who s' = s'.
Proof.
  intros Hinv%reachable_inv Hb Hpq Hmarked. cbv zeta.
  assert (Hmarks : in_battle_room s P b ∧ in_battle_room s Q b).
  { destruct Hmarked as [H|(evs & Hpol & ->)]; [done|].
    destruct (polite_rooms_marked evs Hpol b bd Hb) as [M1 M2].
    destruct Hpq as [[<- <-]|[<- <-]]; by split. }
  destruct Hmarks as [HP HQ].
  destruct (inv_battle_players s Hinv b bd Hb) as (Hne & _ & _).
  destruct HP as (cp & Hcp & Hinp & Hidp).
  assert (Hpid := inv_client_key s Hinv P cp Hcp).
  assert (Hnonempty : P ≠ "").
  { destruct (inv_client_alloc s Hinv P) as (n & _ & ->); [by eexists|].
    apply uuid4_nonempty. }
  assert (HP : in_battle_room s P b) by by exists cp.
  unfold clean_up. rewrite Hcp, Hinp, Hidp, Hpid.
  (* leaving the lobby *)
  set (s1 := if in_lobby cp then remove_from_lobby P now s else s).
  assert (E1 : emits ["LOBBY_STATUS"] s s1).
  { subst s1. destruct (in_lobby cp); [apply emits_remove_from_lobby|by apply emits_same]. }
  assert (T1 : clients s1 = clients s ∧ battles s1 = battles s).
  { subst s1. destruct (in_lobby cp); [|done].
    by destruct (remove_from_lobby_tables P now s) as (-> & _ & -> & _). }
  destruct T1 as [C1 B1].
  (* ending the battle *)
  assert (H1 : in_battle_room s1 (player1 bd) b ∧ in_battle_room s1 (player2 bd) b).
  { unfold in_battle_room. rewrite C1. destruct Hpq as [[-> ->]|[-> ->]]; done. }
  destruct H1 as [H1 H2].
  destruct (end_battle_forfeit s1 b bd P) as [O2 B2]; try done; [by rewrite B1|].
  set (s2 := end_battle b (Some P) s1) in *.
  (* leaving the party *)
  set (o := if in_adventure cp then _ else Done s2).
  assert (E3 : emits ["ADVENTURE_PARTY_UPDATE"] s2 (state_of o) ∧
               battles (state_of o) = battles s2).
  { subst o. destruct (in_adventure cp); [|split; [by apply emits_same|done]].
    destruct (adventure_id cp) as [aid|]; [|split; [by apply emits_same|done]].
    split; [apply emits_remove_from_adventure|].
    apply remove_from_adventure_frame. }
  destruct E3 as [E3 B3].
  assert (Hfinal : outbox (state_of match o with
                                    | Done s3 => Done (upd_client P (set_running false) s3)
                                    | Raised s3 => Raised s3
                                    end) = outbox (state_of o) ∧
                   battles (state_of match o with
                                     | Done s3 => Done (upd_client P (set_running false) s3)
                                     | Raised s3 => Raised s3
                                     end) = battles (state_of o)).
  { by destruct o. }
  destruct Hfinal as [Of Bf].
  assert (Hbattles : battles (state_of match o with
                                     | Done s3 => Done (upd_client P (set_running false) s3)
                                     | Raised s3 => Raised s3
                                     end) = delete b (battles s)).
  { by rewrite Bf, B3, B2, B1. }
  split; [|split; [done|split]].
  - destruct E1 as (l1 & O1 & F1). destruct E3 as (l3 & O3 & F3).
    unfold sent_since. rewrite Of, O3, O2, O1, <- !app_assoc, drop_app_length.
    rewrite !battle_ends_to_app.
    rewrite (battle_ends_to_other_types Q ["LOBBY_STATUS"] l1); [|types_solver_not|done].
    rewrite (battle_ends_to_other_types Q ["ADVENTURE_PARTY_UPDATE"] l3);
      [|types_solver_not|done].
    rewrite app_nil_r. unfold battle_ends_to, player_role. simpl.
    destruct Hpq as [[<- <-]|[<- <-]]; repeat case_decide; congruence || done.
  - rewrite Hbattles. apply lookup_delete_eq.
  - intros who. apply end_battle_absent. rewrite Hbattles. apply lookup_delete_eq.
Qed.

Lemma disconnect_forfeits_witness :
  reachable battle_scene ∧
  battle_ends_to "1" (sent_since battle_scene (state_of (clean_up "0" 8 battle_scene)))
    = [BATTLE_END "2" (Some Player2) disconnect].
Proof.
  split; [exact battle_scene_reachable|].
  apply (disconnect_forfeits battle_scene "2"
           (Battle "2" "0" "1" (JObj []) (JObj []) Player1 3 3) "0" "1" 8
           battle_scene_reachable).
  - by vm_compute.
  - by left.
  - left. split; eexists; by vm_compute.
Defined.

(** ** The lobby handlers *)

Lemma add_to_lobby_outbox cid now s :
  outbox (add_to_lobby cid now s) =
  outbox s ++
  (if decide (cid ∈ lobby s) then []
   else map (λ c, (c, LOBBY_STATUS (S (length (lobby s))) now)) (lobby s ++ [cid])).
Proof.
  unfold add_to_lobby. case_decide; srv_simpl; [by rewrite app_nil_r|].
  rewrite length_app. simpl. by rewrite Nat.add_1_r.
Qed.

Lemma sent_since_app s s' l : outbox s' = outbox s ++ l → sent_since s s' = l.
Proof. intros H. unfold sent_since. by rewrite H, drop_app_length. Qed.

Lemma remove_first_snoc x l : x ∉ l → remove_first x (l ++ [x]) = l.
Proof.
  induction l as [|y l IH]; simpl; intros Hx.
  - by rewrite decide_True.
  - rewrite decide_False by (intros ->; apply Hx; by left).
    rewrite IH; [done|]. intros ?. apply Hx. by right.
Qed.

(** What [handle_join_lobby] leaves behind, whichever way its tests go. *)
Lemma handle_join_lobby_state cid c data now s :
  clients s !! cid = Some c →
  let name := if dict_has "username" data then dict_get "username" data JNull
              else username c in
  let c' := set_in_lobby true
              (set_username name (set_creature (dict_get "creature" data (JObj [])) c)) in
  let queue := if decide (cid ∈ lobby s) then lobby s else lobby s ++ [cid] in
  handle_join_lobby cid data now s =
  Server (<[cid := c']> (clients s)) queue (battles s) (adventure_parties s)
         (outbox s
          ++ (if decide (cid ∈ lobby s) then []
              else map (λ p, (p, LOBBY_STATUS (length queue) now)) queue)
          ++ [(cid, LOBBY_JOINED (player_id c) name (length queue))])
         (uuid_ctr s).
Proof.
  intros Hc. cbv zeta. unfold handle_join_lobby. cbv zeta.
  set (cr := dict_get "creature" data (JObj [])).
  set (s1 := upd_client cid (set_creature cr) s).
  set (s2 := if dict_has "username" data then _ else s1).
  set (name := if dict_has "username" data then _ else username c).
  assert (H2 : s2 = with_clients s (<[cid := set_username name (set_creature cr c)]> (clients s))).
  { subst s2 s1 name. destruct (dict_has "username" data); unfold upd_client, with_clients; simpl.
    - f_equal. apply map_eq. intros k. rewrite !lookup_alter, lookup_insert.
      repeat case_decide; subst; rewrite ?Hc; done.
    - f_equal. apply map_eq. intros k. rewrite !lookup_alter, lookup_insert.
      repeat case_decide; subst; rewrite ?Hc; try done. }
  rewrite H2. clear H2 s2 s1.
  set (s2 := with_clients s _).
  destruct (add_to_lobby_tables cid now s2) as (C3 & L3 & B3 & P3 & N3).
  assert (O3 := add_to_lobby_outbox cid now s2).
  set (s3 := add_to_lobby cid now s2) in *.
  simpl in C3, L3, B3, P3, N3, O3.
  unfold upd_client at 1. simpl. rewrite C3, lookup_alter, decide_True, lookup_insert_eq by done.
  simpl. unfold send, upd_client, with_outbox, with_clients, get_lobby_count. simpl.
  rewrite C3, L3, B3, P3, N3, O3.
  f_equal.
  - apply map_eq. intros k. rewrite lookup_alter, !lookup_insert.
    repeat case_decide; subst; rewrite ?lookup_insert_eq; done.
  - rewrite <- app_assoc. f_equal.
    case_decide; simpl; [done|].
    rewrite length_app. simpl. rewrite Nat.add_1_r. done.
Qed.

Lemma handle_leave_lobby_state cid c now s :
  clients s !! cid = Some c →
  in_lobby c = true →
  handle_leave_lobby cid now s =
  Server (<[cid := set_in_lobby false c]> (clients s)) (remove_first cid (lobby s))
         (battles s) (adventure_parties s)
         (outbox s
          ++ (if decide (cid ∈ lobby s)
              then map (λ p, (p, LOBBY_STATUS (length (remove_first cid (lobby s))) now))
                       (remove_first cid (lobby s))
              else [])
          ++ [(cid, LOBBY_LEFT (player_id c))])
         (uuid_ctr s).
Proof.
  intros Hc Hflag. unfold handle_leave_lobby. rewrite Hc, Hflag.
  destruct (remove_from_lobby_tables cid now s) as (C1 & L1 & B1 & P1 & N1).
  assert (O1 := remove_from_lobby_outbox cid now s).
  set (s1 := remove_from_lobby cid now s) in *.
  unfold send, upd_client, with_outbox, with_clients. simpl.
  rewrite C1, L1, B1, P1, N1, O1, <- app_assoc. f_equal.
  apply map_eq. intros k. rewrite lookup_alter, lookup_insert.
  repeat case_decide; subst; rewrite ?Hc; done.
Qed.

(** X1: a [JOIN_LOBBY] from a session that is not queued appends it to the
    queue, sends every queued session (the joiner included) one
    [LOBBY_STATUS] with the new length, and then answers the joiner with
    [LOBBY_JOINED]; from a session that is queued already it leaves the queue
    alone and broadcasts nothing, but still answers with [LOBBY_JOINED]. In
    both cases the handler takes the creature of the message (an empty
    object if there is none), takes the username only if the message has
    one, and sets [in_lobby]; no other handler and no room changes. *)
Theorem join_lobby_broadcast s cid c data now :
  clients s !! cid = Some c →
  let s' := handle_join_lobby cid data now s in
  let name := if dict_has "username" data then dict_get "username" data JNull
              else username c in
  (cid ∉ lobby s →
     lobby s' = lobby s ++ [cid] ∧
     sent_since s s' =
       map (λ p, (p, LOBBY_STATUS (S (length (lobby s))) now)) (lobby s ++ [cid])
       ++ [(cid, LOBBY_JOINED (player_id c) name (S (length (lobby s))))]) ∧
  (cid ∈ lobby s →
     lobby s' = lobby s ∧
     sent_since s s' = [(cid, LOBBY_JOINED (player_id c) name (length (lobby s)))]) ∧
  (∃ c', clients s' !! cid = Some c' ∧ in_lobby c' = true ∧ username c' = name ∧
         creature c' = dict_get "creature" data (JObj []) ∧
         in_battle c' = in_battle c ∧ in_adventure c' = in_adventure c) ∧
  (∀ k, k ≠ cid → clients s' !! k = clients s !! k) ∧
  battles s' = battles s ∧ adventure_parties s' = adventure_parties s.
Proof.
  intros Hc. cbv zeta. rewrite (handle_join_lobby_state cid c data now s Hc).
  cbv zeta. unfold sent_since. cbn [lobby outbox clients battles adventure_parties].
  rewrite drop_app_length.
  split; [|split; [|split; [|split]]].
  - intros Hout. rewrite !decide_False by done.
    rewrite length_app. simpl. rewrite Nat.add_1_r. done.
  - intros Hin. by rewrite !decide_True by done.
  - eexists. rewrite lookup_insert_eq. split; [done|]. done.
  - intros k Hk. by rewrite lookup_insert_ne.
  - done.
Qed.

Lemma join_lobby_broadcast_witness :
  sent_since (accept init) (handle_join_lobby "0" [] 4 (accept init))
  = [("0", LOBBY_STATUS 1 4); ("0", LOBBY_JOINED "0" (JStr "Player_0") 1)].
Proof.
  destruct (join_lobby_broadcast (accept init) "0" (new_client "0") [] 4) as (H & _).
  - by vm_compute.
  - destruct H as [_ H]; [|exact H].
    vm_compute. by intros ?%elem_of_nil.
Defined.

(** X2: joining the lobby and leaving it again is a round trip on the queue:
    for a session that was not queued, [JOIN_LOBBY] followed by [LEAVE_LOBBY]
    gives back the queue as it was, clears [in_lobby], tells every session
    still queued the old length in a [LOBBY_STATUS] and answers the leaver
    with [LOBBY_LEFT] (which gets no [LOBBY_STATUS] itself). A [LEAVE_LOBBY]
    from a session whose [in_lobby] is not set changes nothing and is not
    answered. *)
Theorem lobby_join_leave_round_trip s cid c data now now' :
  clients s !! cid = Some c →
  (cid ∉ lobby s →
     let s1 := handle_join_lobby cid data now s in
     let s2 := handle_leave_lobby cid now' s1 in
     lobby s2 = lobby s ∧
     (∃ c2, clients s2 !! cid = Some c2 ∧ in_lobby c2 = false) ∧
     sent_since s1 s2 =
       map (λ p, (p, LOBBY_STATUS (length (lobby s)) now')) (lobby s)
       ++ [(cid, LOBBY_LEFT (player_id c))]) ∧
  (in_lobby c = false → handle_leave_lobby cid now' s = s).
Proof.
  intros Hc. split.
  - intros Hout. cbv zeta.
    rewrite (handle_join_lobby_state cid c data now s Hc). cbv zeta.
    rewrite !decide_False by done.
    erewrite handle_leave_lobby_state; [|simpl; by rewrite lookup_insert_eq|done].
    unfold sent_since. cbn [lobby outbox clients].
    rewrite drop_app_length, remove_first_snoc by done.
    rewrite decide_True by (apply elem_of_app; right; by left).
    split; [done|]. split; [|done].
    eexists. by rewrite lookup_insert_eq.
  - intros Hflag. unfold handle_leave_lobby. by rewrite Hc, Hflag.
Qed.

Lemma lobby_join_leave_round_trip_witness :
  lobby (handle_leave_lobby "0" 5 (handle_join_lobby "0" [] 4 (accept init))) = [].
Proof.
  destruct (lobby_join_leave_round_trip (accept init) "0" (new_client "0") [] 4 5)
    as ((H & _) & _).
  - by vm_compute.
  - vm_compute. by intros ?%elem_of_nil.
  - exact H.
Defined.

(** ** Chunks and frames *)

Lemma string_app_cons ch (a b : string) : String ch a +:+ b = String ch (a +:+ b).
Proof. done. Qed.

Lemma string_app_assoc (a b c : string) : (a +:+ b) +:+ c = a +:+ (b +:+ c).
Proof.
  induction a as [|ch a IH]; [done|]. by rewrite !string_app_cons, IH.
Qed.

Lemma string_app_nil_r (a : string) : a +:+ EmptyString = a.
Proof. induction a as [|ch a IH]; [done|]. by rewrite string_app_cons, IH. Qed.

Lemma has_newline_app a b : has_newline (a +:+ b) = has_newline a || has_newline b.
Proof.
  induction a as [|ch a IH]; [done|]. rewrite string_app_cons. simpl.
  by destruct (Ascii.eqb ch newline).
Qed.

Lemma string_length_frame message rest :
  String.length rest < String.length (message +:+ String newline rest).
Proof.
  induction message as [|ch m IH]; [simpl; lia|]. rewrite string_app_cons. simpl. lia.
Qed.

(** What [split] cuts off is a frame: no newline in it, and the buffer is
    the frame, the delimiter and the remainder. *)
Lemma split_newline_Some buffer message remainder :
  split_newline buffer = Some (message, remainder) →
  has_newline message = false ∧ buffer = message +:+ String newline remainder.
Proof.
  revert message remainder.
  induction buffer as [|ch rest IH]; intros message remainder; simpl; [done|].
  destruct (Ascii.eqb ch newline) eqn:E.
  - intros [= <- <-]. apply Ascii.eqb_eq in E. by subst.
  - destruct (split_newline rest) as [[m r]|]; [|done].
    intros [= <- <-]. destruct (IH m r eq_refl) as [H1 ->]. simpl. by rewrite E.
Qed.

Section ChunkFacts.

Variable loads : string → option json.

(** The inner loop of [run], unfolded at a buffer that has a frame. *)
Lemma drain_server_app_frame cid now message rest more s :
  has_newline message = false →
  drain_server loads cid now ((message +:+ String newline rest) +:+ more) s
  = drain_server loads cid now (rest +:+ more) (process_message loads cid message now s).
Proof.
  intros H. rewrite string_app_assoc, string_app_cons. by apply drain_server_frame.
Qed.

Lemma drain_server_app cid now buffer more s :
  drain_server loads cid now (buffer +:+ more) s
  = drain_server loads cid now ((drain_server loads cid now buffer s).2 +:+ more)
                 (drain_server loads cid now buffer s).1.
Proof.
  remember (String.length buffer) as n eqn:Hn.
  revert buffer s Hn. induction n as [n IH] using lt_wf_ind. intros buffer s ->.
  destruct (split_newline buffer) as [[message rest]|] eqn:Hs.
  - apply split_newline_Some in Hs as [Hm ->].
    rewrite drain_server_app_frame, drain_server_frame by done.
    eapply IH; [|done]. apply string_length_frame.
  - apply split_newline_none in Hs. by rewrite (drain_server_no_frame loads cid now buffer s).
Qed.

End ChunkFacts.

Section ChunkTheorems.

Variable dumps : json → string.
Variable loads : string → option json.
Variable decode_utf8 : bytes → option string.

Lemma drain_server_leftover cid now buffer s :
  has_newline (drain_server loads cid now buffer s).2 = false.
Proof.
  remember (String.length buffer) as n eqn:Hn.
  revert buffer s Hn. induction n as [n IH] using lt_wf_ind. intros buffer s ->.
  destruct (split_newline buffer) as [[message rest]|] eqn:Hs.
  - apply split_newline_Some in Hs as [Hm ->].
    rewrite drain_server_frame by done.
    eapply IH; [|done]. apply string_length_frame.
  - apply split_newline_none in Hs.
    by rewrite (drain_server_no_frame loads cid now buffer s).
Qed.

(** X3: the server reassembles frames that arrive in pieces. Two chunks
    that decode, read one after the other, leave the state and the buffer
    that the text of both would have left had it arrived at once; what
    stays in the buffer between two reads never holds a delimiter; and a
    chunk that completes no frame changes nothing but the buffer. *)
Theorem split_frames_are_reassembled cid now data1 data2 text1 text2 buffer s :
  data1 ≠ EmptyString → data2 ≠ EmptyString →
  decode_utf8 data1 = Some text1 → decode_utf8 data2 = Some text2 →
  ∃ s1 buffer1,
    run_iteration loads decode_utf8 cid now data1 buffer s = Receiving s1 buffer1 ∧
    has_newline buffer1 = false ∧
    (has_newline (buffer +:+ text1) = false → s1 = s ∧ buffer1 = buffer +:+ text1) ∧
    run_iteration loads decode_utf8 cid now data2 buffer1 s1
    = Receiving (drain_server loads cid now (buffer +:+ text1 +:+ text2) s).1
                (drain_server loads cid now (buffer +:+ text1 +:+ text2) s).2.
Proof.
  intros H1%String.eqb_neq H2%String.eqb_neq D1 D2.
  exists (drain_server loads cid now (buffer +:+ text1) s).1,
         (drain_server loads cid now (buffer +:+ text1) s).2.
  unfold run_iteration. rewrite H1, H2, D1, D2.
  split; [by destruct (drain_server loads cid now (buffer +:+ text1) s)|].
  split; [apply drain_server_leftover|]. split.
  - intros Hno. by rewrite (drain_server_no_frame loads cid now _ s Hno).
  - rewrite <- string_app_assoc, (drain_server_app loads cid now (buffer +:+ text1) text2 s).
    by destruct (drain_server loads cid now _ _).
Qed.

End ChunkTheorems.

Lemma split_frames_are_reassembled_witness :
  run_iteration sample_loads sample_decode "0" 5 ("}" +:+ String newline EmptyString)
                "{" (accept init)
  = Receiving (drain_server sample_loads "0" 5
                 ("" +:+ "{" +:+ "}" +:+ String newline EmptyString) (accept init)).1
              (drain_server sample_loads "0" 5
                 ("" +:+ "{" +:+ "}" +:+ String newline EmptyString) (accept init)).2.
Proof.
  destruct (split_frames_are_reassembled sample_loads sample_decode "0" 5
              "{" ("}" +:+ String newline EmptyString)
              "{" ("}" +:+ String newline EmptyString) EmptyString (accept init))
    as (s1 & b1 & E1 & _ & Hkeep & E2);
    [discriminate|discriminate|reflexivity|reflexivity|].
  destruct Hkeep as [-> ->]; [reflexivity|]. exact E2.
Defined.

(** ** What the server sends, as the client receives it *)

Lemma envelope_json_type m :
  ∃ fields, envelope_json m = JObj fields ∧
            dict_get "type" fields (JStr "") = JStr (env_type m).
Proof. destruct m; eexists; (split; [reflexivity|reflexivity]). Qed.

Lemma poll_queue c :
  (poll (S (length (receive_queue c))) c).1 = map Some (receive_queue c) ++ [None].
Proof.
  destruct c as [cn rn q cb inv]. simpl receive_queue.
  induction q as [|obj q IH].
  - done.
  - change (poll (S (length (obj :: q))) (NetClient cn rn (obj :: q) cb inv))
      with (let '(rs, c) := poll (S (length q)) (NetClient cn rn q cb inv) in
            (Some obj :: rs, c)).
    destruct (poll (S (length q)) (NetClient cn rn q cb inv)) as [rs c'] eqn:E.
    simpl in *. by rewrite IH.
Qed.

Section Delivery.

Variable dumps : json → string.
Variable loads : string → option json.
Variable decode_utf8 : bytes → option string.

Lemma client_frame_envelope m c :
  loads (dumps (envelope_json m)) = Some (envelope_json m) →
  ∃ c', client_frame loads (dumps (envelope_json m)) c = (c', true) ∧
        receive_queue c' = receive_queue c ++ [envelope_json m] ∧
        invoked c' = invoked c ++ callbacks_for c [m] ∧
        callbacks c' = callbacks c ∧ connected c' = connected c ∧
        nc_running c' = nc_running c.
Proof.
  intros Hl. unfold client_frame, callbacks_for. rewrite Hl. simpl.
  destruct (envelope_json_type m) as (fields & Hj & Ht). rewrite Hj, Ht. simpl.
  destruct (decide (env_type m ∈ callbacks c)) as [Hin|Hout];
    eexists; (split; [reflexivity|]); simpl; [done|].
  by rewrite app_nil_r.
Qed.

Lemma drain_client_wire ms rest c :
  Forall (carried dumps loads) ms →
  has_newline rest = false →
  ∃ c', drain_client loads (wire_text dumps ms rest) c = (c', rest) ∧
        receive_queue c' = receive_queue c ++ map envelope_json ms ∧
        invoked c' = invoked c ++ callbacks_for c ms ∧
        callbacks c' = callbacks c ∧ connected c' = connected c ∧
        nc_running c' = nc_running c.
Proof.
  intros Hall Hrest. revert c.
  induction Hall as [|m ms [Hnl Hl] _ IH]; intros c.
  - exists c. unfold wire_text, callbacks_for. simpl.
    rewrite drain_client_no_frame by done. by rewrite !app_nil_r.
  - unfold wire_text. simpl. rewrite drain_client_frame by done.
    destruct (client_frame_envelope m c Hl) as (c1 & -> & Q1 & I1 & C1 & N1 & R1).
    destruct (IH c1) as (c2 & E2 & Q2 & I2 & C2 & N2 & R2).
    exists c2. unfold wire_text in E2. rewrite E2, Q2, I2, C2, N2, R2, Q1, I1, C1, N1, R1.
    repeat split; try done.
    + by rewrite <- app_assoc.
    + rewrite <- app_assoc. f_equal. unfold callbacks_for. rewrite C1. simpl.
      by destruct (decide (env_type m ∈ callbacks c)).
Qed.

End Delivery.

Section DeliveryTheorems.

Variable dumps : json → string.
Variable loads : string → option json.
Variable decode_utf8 : bytes → option string.

(** X4: what the server sends to a session arrives in the client's queue
    in the order sent, also when a frame is cut in two by the transport.
    Take envelopes whose dicts the codec carries; let the first chunk end
    inside the frame of [m] and the second bring the rest. After the first
    chunk the envelopes before [m] are queued and the piece of [m] waits in
    the buffer; after the second all are queued in order, each callback
    registered for a type has been called once for each envelope of that
    type, the buffer is empty and the loop goes on; and [receive], called
    again and again, returns the dicts in that order and then [None]. *)
Theorem server_envelopes_arrive_in_order ms1 m ms2 part1 part2 data1 data2 c :
  Forall (carried dumps loads) (ms1 ++ m :: ms2) →
  dumps (envelope_json m) = part1 +:+ part2 →
  data1 ≠ EmptyString → data2 ≠ EmptyString →
  decode_utf8 data1 = Some (wire_text dumps ms1 part1) →
  decode_utf8 data2 = Some (part2 +:+ String newline (wire_text dumps ms2 EmptyString)) →
  ∃ c1 c2,
    receive_iteration loads decode_utf8 data1 EmptyString c = (c1, part1, true) ∧
    receive_iteration loads decode_utf8 data2 part1 c1 = (c2, EmptyString, true) ∧
    receive_queue c1 = receive_queue c ++ map envelope_json ms1 ∧
    receive_queue c2 = receive_queue c ++ map envelope_json (ms1 ++ m :: ms2) ∧
    invoked c2 = invoked c ++ callbacks_for c (ms1 ++ m :: ms2) ∧
    connected c2 = connected c ∧
    (receive_queue c = [] →
     (poll (S (length (ms1 ++ m :: ms2))) c2).1
     = map (λ e, Some (envelope_json e)) (ms1 ++ m :: ms2) ++ [None]).
Proof.
  intros Hall Hcut H1%String.eqb_neq H2%String.eqb_neq D1 D2.
  apply Forall_app in Hall as [Hall1 Hall2].
  assert (Hm : has_newline (dumps (envelope_json m)) = false).
  { apply Forall_cons in Hall2 as [[? _] _]. done. }
  rewrite Hcut, has_newline_app in Hm. apply orb_false_iff in Hm as [Hp1 Hp2].
  destruct (drain_client_wire dumps loads ms1 part1 c Hall1 Hp1)
    as (c1 & E1 & Q1 & I1 & C1 & N1 & R1).
  destruct (drain_client_wire dumps loads (m :: ms2) EmptyString c1 Hall2 eq_refl)
    as (c2 & E2 & Q2 & I2 & C2 & N2 & R2).
  exists c1, c2. unfold receive_iteration. rewrite H1, H2, D1, D2.
  change (EmptyString +:+ wire_text dumps ms1 part1) with (wire_text dumps ms1 part1).
  rewrite E1.
  assert (Hbuf : part1 +:+ part2 +:+ String newline (wire_text dumps ms2 EmptyString)
                 = wire_text dumps (m :: ms2) EmptyString).
  { unfold wire_text. simpl. by rewrite Hcut, string_app_assoc. }
  rewrite Hbuf, E2.
  assert (Hq : receive_queue c2 = receive_queue c ++ map envelope_json (ms1 ++ m :: ms2)).
  { by rewrite Q2, Q1, map_app, <- app_assoc. }
  repeat split; try done.
  - rewrite I2, I1, <- app_assoc. f_equal. unfold callbacks_for.
    by rewrite C1, omap_app.
  - by rewrite N2.
  - intros Hempty. rewrite Hempty in Hq. simpl in Hq.
    assert (Hlen : length (ms1 ++ m :: ms2) = length (receive_queue c2)).
    { by rewrite Hq, length_map. }
    rewrite Hlen, poll_queue, Hq, <- list_fmap_compose. done.
Qed.

End DeliveryTheorems.

Lemma server_envelopes_arrive_in_order_witness :
  ∃ c1 c2,
    receive_iteration wire_loads sample_decode "left" EmptyString
                      (NetworkClient.register_callback "LOBBY_LEFT" (NetClient true true [] [] [])) = (c1, "left", true) ∧
    receive_iteration wire_loads sample_decode (":0" +:+ String newline EmptyString)
                      "left" c1 = (c2, EmptyString, true) ∧
    receive_queue c2 = [envelope_json left_envelope] ∧
    invoked c2 = [("LOBBY_LEFT", envelope_json left_envelope)].
Proof.
  destruct (server_envelopes_arrive_in_order wire_dumps wire_loads sample_decode
              [] left_envelope [] "left" ":0"
              "left" (":0" +:+ String newline EmptyString)
              (NetworkClient.register_callback "LOBBY_LEFT" (NetClient true true [] [] [])))
    as (c1 & c2 & E1 & E2 & _ & Q2 & I2 & _);
    [by repeat constructor|reflexivity|discriminate|discriminate|reflexivity|reflexivity|].
  exists c1, c2. rewrite E1, E2, Q2, I2. repeat split; reflexivity.
Defined.

(** ** The requests of the client and the handlers of the server *)

(** X5: the dict that each request function of [NetworkClient] builds is
    dispatched by the server to the handler of that request, and the handler
    reads from it exactly the argument the client passed: the spelling of the
    seven message types and of the keys [creature], [ability_index],
    [party_id] and [data] agrees on both sides, and the [timestamp] the
    client adds is ignored. No request carries a [username], so a session
    driven by this client keeps the name the server gave it. A request made
    while the client is not connected, or after [disconnect], returns
    [False] and queues nothing. *)
Theorem client_requests_reach_their_handlers (dumps : json → string)
    cid now s creature ability_index party_id adventure_data t :
  dispatch cid (JObj (join_lobby_message creature t)) now s
    = Done (handle_join_lobby cid [("creature", creature)] now s) ∧
  dispatch cid (JObj (leave_lobby_message t)) now s
    = Done (handle_leave_lobby cid now s) ∧
  dispatch cid (JObj (battle_action_message ability_index t)) now s
    = Done (handle_battle_action cid [("ability_index", JNum ability_index)] now s) ∧
  dispatch cid (JObj (create_adventure_message creature t)) now s
    = Done (handle_create_adventure cid [("creature", creature)] now s) ∧
  dispatch cid (JObj (join_adventure_message party_id creature t)) now s
    = handle_join_adventure cid [("party_id", JStr party_id); ("creature", creature)] now s ∧
  dispatch cid (JObj (adventure_update_message adventure_data t)) now s
    = Done (handle_adventure_update cid [("data", adventure_data)] now s) ∧
  dispatch cid (JObj (get_adventure_parties_message t)) now s
    = handle_get_adventure_parties cid s ∧
  (∀ c0 c1, clients s !! cid = Some c0 →
     clients (handle_join_lobby cid (join_lobby_message creature t) now s) !! cid = Some c1 →
     username c1 = username c0) ∧
  (∀ c q,
     NetworkClient.join_lobby dumps creature t c q
       = (if connected c
          then (true, q ++ [dumps (JObj (join_lobby_message creature t))])
          else (false, q)) ∧
     NetworkClient.request_available_parties dumps t (NetworkClient.disconnect c) q
       = (false, q)).
Proof.
  repeat split; try reflexivity.
  intros c0 c1 Hc0. rewrite (handle_join_lobby_state cid c0 _ now s Hc0).
  simpl. rewrite lookup_insert_eq. by intros [= <-].
Qed.

Lemma dispatch_client_raises_on cid obj now s :
  client_raises_on obj → state_of (dispatch cid obj now s) = s.
Proof.
  destruct obj as [| | | | |fields]; try done. simpl.
  destruct (dict_get "type" fields (JStr "")); done.
Qed.

Section Stall.

Variable loads : string → option json.
Variable decode_utf8 : bytes → option string.

(** X6: a frame that is JSON but not a message stalls the client and not
    the server. When the decoded value has no [get] (it is not an object),
    or its ["type"] is a list or an object, the client queues the value,
    leaves the rest of the chunk in its buffer unread, complete frames
    included, and reads them only when the next chunk arrives; it stays
    connected. The server, given the same chunk, leaves its state as it is
    for that frame and goes on with the frames behind it at once. *)
Theorem non_message_frame_stalls_the_client bad obj rest data cid now s c :
  has_newline bad = false →
  loads bad = Some obj →
  client_raises_on obj →
  data ≠ EmptyString →
  decode_utf8 data = Some (bad +:+ String newline rest) →
  receive_iteration loads decode_utf8 data EmptyString c = (put_received obj c, rest, true) ∧
  (∀ data2 text2, data2 ≠ EmptyString → decode_utf8 data2 = Some text2 →
     receive_iteration loads decode_utf8 data2 rest (put_received obj c)
     = (drain_client loads (rest +:+ text2) (put_received obj c), true)) ∧
  run_iteration loads decode_utf8 cid now data EmptyString s
  = Receiving (drain_server loads cid now rest s).1 (drain_server loads cid now rest s).2.
Proof.
  intros Hnl Hl Hraise Hne%String.eqb_neq Hd.
  split; [|split].
  - unfold receive_iteration. rewrite Hne, Hd.
    change (EmptyString +:+ ?x) with x.
    rewrite drain_client_frame by done. unfold client_frame. rewrite Hl.
    destruct obj as [| | | | |fields]; try done. simpl in Hraise.
    destruct (dict_get "type" fields (JStr "")); done.
  - intros data2 text2 Hne2%String.eqb_neq Hd2. unfold receive_iteration.
    rewrite Hne2, Hd2. by destruct (drain_client loads _ _).
  - unfold run_iteration. rewrite Hne, Hd.
    change (EmptyString +:+ ?x) with x.
    rewrite drain_server_frame by done. unfold process_message. rewrite Hl.
    rewrite dispatch_client_raises_on by done.
    by destruct (drain_server loads cid now rest s).
Qed.

End Stall.

Lemma non_message_frame_stalls_the_client_witness :
  receive_iteration sample_loads sample_decode
    ("null" +:+ String newline ("{}" +:+ String newline EmptyString)) EmptyString
    (NetClient true true [] [] [])
  = (NetClient true true [JNull] [] [], "{}" +:+ String newline EmptyString, true).
Proof.
  apply (non_message_frame_stalls_the_client sample_loads sample_decode
           "null" JNull ("{}" +:+ String newline EmptyString)
           ("null" +:+ String newline ("{}" +:+ String newline EmptyString))
           "0" 5 init (NetClient true true [] [] []));
    [reflexivity|reflexivity|exact I|discriminate|reflexivity].
Defined.

(** ** The marks of the handlers agree with the tables *)

Lemma same_marks_refl m : same_marks m m.
Proof. done. Qed.

Lemma same_marks_trans m1 m2 m3 :
  same_marks m1 m2 → same_marks m2 m3 → same_marks m1 m3.
Proof. intros H1 H2 k. by rewrite H1. Qed.

Lemma same_marks_alter f k m :
  (∀ c, marks (f c) = marks c) → same_marks m (alter f k m).
Proof.
  intros Hf k'. rewrite lookup_alter. case_decide; [|done]. subst.
  destruct (m !! k') as [c|]; simpl; [|done]. by rewrite Hf.
Qed.

Lemma same_marks_lookup m m' k c' :
  same_marks m m' → m' !! k = Some c' →
  ∃ c, m !! k = Some c ∧ marks c = marks c'.
Proof.
  intros H Hc'. specialize (H k). rewrite Hc' in H.
  destruct (m !! k) as [c|]; simpl in H; [|done]. exists c. split; [done|congruence].
Qed.

Lemma same_marks_lookup_r m m' k c :
  same_marks m m' → m !! k = Some c →
  ∃ c', m' !! k = Some c' ∧ marks c = marks c'.
Proof.
  intros H Hc. specialize (H k). rewrite Hc in H.
  destruct (m' !! k) as [c'|]; simpl in H; [|done]. exists c'. split; [done|congruence].
Qed.

Lemma undisturbed_refl s : undisturbed s s.
Proof. split; try done; eauto. Qed.

Lemma undisturbed_trans s1 s2 s3 :
  undisturbed s1 s2 → undisturbed s2 s3 → undisturbed s1 s3.
Proof.
  intros [A1 A2 A3 A4 A5 A6] [B1 B2 B3 B4 B5 B6]. split.
  - by eapply same_marks_trans.
  - auto.
  - lia.
  - intros b bd3 H3. destruct (B4 b bd3 H3) as [bd2 H2]. eauto.
  - intros b bd1 H1. destruct (A5 b bd1 H1) as (bd2 & H2 & E1 & E2).
    destruct (B5 b bd2 H2) as (bd3 & H3 & F1 & F2). exists bd3. rewrite F1, F2. eauto.
  - intros a p1 H1. destruct (A6 a p1 H1) as (p2 & H2 & Hm2).
    destruct (B6 a p2 H2) as (p3 & H3 & Hm3). eauto.
Qed.

(** An operation that leaves the room tables alone and keeps the marks. *)
Lemma undisturbed_tables s s' :
  same_marks (clients s) (clients s') →
  lobby s' = lobby s → battles s' = battles s →
  adventure_parties s' = adventure_parties s → uuid_ctr s' = uuid_ctr s →
  undisturbed s s'.
Proof.
  intros Hm Hl Hb Hp Hn. split; rewrite ?Hl, ?Hb, ?Hp, ?Hn; eauto.
Qed.

Lemma undisturbed_send cid m s : undisturbed s (send cid m s).
Proof. by apply undisturbed_tables. Qed.

Lemma undisturbed_send_all rcpts m s : undisturbed s (send_all rcpts m s).
Proof. apply undisturbed_tables; by srv_simpl. Qed.

Lemma undisturbed_upd_client cid f s :
  (∀ c, marks (f c) = marks c) → undisturbed s (upd_client cid f s).
Proof. intros Hf. apply undisturbed_tables; try done. by apply same_marks_alter. Qed.

Lemma marks_inv_undisturbed s s' : undisturbed s s' → marks_inv s → marks_inv s'.
Proof.
  intros [U1 U2 U3 U4 U5 U6] [I1 I2 I3 I4 I5 I6]. split.
  - intros p Hp%U2. destruct (I1 p Hp) as (c & Hc & Hf & Hr).
    destruct (same_marks_lookup_r _ _ p c U1 Hc) as (c' & Hc' & Hm).
    exists c'. unfold marks in Hm. split; [done|]. split; congruence.
  - intros b bd' Hb'. destruct (U4 b bd' Hb') as [bd Hb].
    destruct (I2 b bd Hb) as (n & Hn & ->). exists n. split; [lia|done].
  - intros k c' Hc'. destruct (same_marks_lookup _ _ k c' U1 Hc') as (c & Hc & Hm).
    unfold marks in Hm. assert (in_battle c' = in_battle c) as -> by congruence.
    assert (battle_id c' = battle_id c) as -> by congruence. eauto.
  - intros k c' b Hc' Hb. destruct (same_marks_lookup _ _ k c' U1 Hc') as (c & Hc & Hm).
    unfold marks in Hm. assert (battle_id c = Some b) as Hb0 by congruence.
    destruct (I4 k c b Hc Hb0) as (bd & Hbd & Hpl).
    destruct (U5 b bd Hbd) as (bd' & Hbd' & E1 & E2). exists bd'. rewrite E1, E2. eauto.
  - intros k c' Hc'. destruct (same_marks_lookup _ _ k c' U1 Hc') as (c & Hc & Hm).
    unfold marks in Hm. assert (in_adventure c' = in_adventure c) as -> by congruence.
    assert (adventure_id c' = adventure_id c) as -> by congruence. eauto.
  - intros k c' a Hc' Hr Ha.
    destruct (same_marks_lookup _ _ k c' U1 Hc') as (c & Hc & Hm).
    unfold marks in Hm. assert (adventure_id c = Some a) as Ha0 by congruence.
    assert (running c = true) as Hr0 by congruence.
    destruct (I6 k c a Hc Hr0 Ha0) as (p & Hp & Hin).
    destruct (U6 a p Hp) as (p' & Hp' & Hsub). eauto.
Qed.

Lemma undisturbed_remove_from_lobby cid now s : undisturbed s (remove_from_lobby cid now s).
Proof.
  destruct (remove_from_lobby_tables cid now s) as (C & L & B & P & N).
  split; rewrite ?C, ?L, ?B, ?P, ?N; try done; eauto.
  intros p. apply remove_first_subset.
Qed.

(** The opponent of [pid] in the room [bd], as [process_battle_action]
    computes it. *)
Lemma process_battle_action_state bid bd pid idx now s :
  battles s !! bid = Some bd →
  known s (player1 bd) → known s (player2 bd) →
  process_battle_action bid pid idx now s =
  if decide (current_turn bd = player_role bd pid)
  then Server (clients s) (lobby s)
         (<[bid := set_turn (other_role (player_role bd pid)) (set_battle_activity now bd)]>
            (battles s))
         (adventure_parties s)
         (outbox s ++ [(opponent_of bd pid,
                        BATTLE_ACTION bid idx (other_role (player_role bd pid)))])
         (uuid_ctr s)
  else with_battles s (<[bid := set_battle_activity now bd]> (battles s)).
Proof.
  intros Hb [c1 H1] [c2 H2]. unfold process_battle_action. rewrite Hb. cbv zeta.
  change (current_turn (set_battle_activity now bd)) with (current_turn bd).
  change (player_role (set_battle_activity now bd) pid) with (player_role bd pid).
  destruct (decide (current_turn bd = player_role bd pid)); [|done].
  change (player1 (set_battle_activity now bd)) with (player1 bd).
  change (player2 (set_battle_activity now bd)) with (player2 bd).
  simpl clients.
  change (match player_role bd pid with
          | Player1 => player2 bd
          | Player2 => player1 bd
          end) with (opponent_of bd pid).
  assert (Hopp : is_Some (clients s !! opponent_of bd pid)).
  { unfold opponent_of. destruct (player_role bd pid); by eexists. }
  destruct Hopp as [c Hc]. rewrite Hc.
  unfold send, with_outbox, with_battles. simpl. by rewrite insert_insert_eq.
Qed.

Lemma undisturbed_update_battle s s' bid bd bd' :
  battles s !! bid = Some bd →
  player1 bd' = player1 bd → player2 bd' = player2 bd →
  clients s' = clients s → lobby s' = lobby s →
  battles s' = <[bid := bd']> (battles s) →
  adventure_parties s' = adventure_parties s → uuid_ctr s' = uuid_ctr s →
  undisturbed s s'.
Proof.
  intros Hb E1 E2 C L B P N. split; rewrite ?C, ?L, ?B, ?P, ?N; try done; eauto.
  - intros b bd0. rewrite lookup_insert. case_decide; subst; eauto.
  - intros b bd0 Hbd0. rewrite lookup_insert. case_decide; [|eauto]. subst.
    assert (bd0 = bd) as -> by congruence. eauto.
Qed.

Lemma undisturbed_process_battle_action bid pid idx now s :
  server_inv s → undisturbed s (process_battle_action bid pid idx now s).
Proof.
  intros Hinv.
  destruct (battles s !! bid) as [bd|] eqn:Hb.
  - destruct (inv_battle_players s Hinv bid bd Hb) as (_ & K1 & K2).
    rewrite (process_battle_action_state bid bd pid idx now s Hb K1 K2).
    case_decide.
    + by apply (undisturbed_update_battle _ _ bid bd
                  (set_turn (other_role (player_role bd pid)) (set_battle_activity now bd))).
    + by apply (undisturbed_update_battle _ _ bid bd (set_battle_activity now bd)).
  - unfold process_battle_action. rewrite Hb. apply undisturbed_refl.
Qed.

Lemma undisturbed_process_adventure_update aid pid data now s :
  undisturbed s (process_adventure_update aid pid data now s).
Proof.
  destruct (process_adventure_update_tables aid pid data now s) as (C & L & B & N & P).
  split; rewrite ?C, ?L, ?B, ?N; try done; eauto.
  intros a p Hp. rewrite P.
  destruct (adventure_parties s !! aid) as [q|] eqn:Hq; [|eauto].
  case_decide; [|eauto]. rewrite lookup_insert. case_decide; [|eauto].
  subst. assert (q = p) as -> by congruence. eauto.
Qed.

Lemma undisturbed_join_adventure_party pid c now s :
  undisturbed s (join_adventure_party pid c now s).2.
Proof.
  destruct (join_adventure_party_frame pid c now s) as (C & L & B & N).
  assert (P := join_adventure_party_parties pid c now s).
  split; rewrite ?C, ?L, ?B, ?N; try done; eauto.
  intros a p Hp. rewrite P.
  destruct (join_branch_of pid s); eauto.
  destruct (adventure_parties s !! pid) as [q|] eqn:Hq; [|eauto].
  rewrite lookup_insert. destruct (decide (pid = a)) as [->|]; [|eauto].
  assert (q = p) as -> by congruence.
  eexists. split; [done|]. simpl. intros m Hm. apply elem_of_app. by left.
Qed.

Lemma undisturbed_create_adventure_party c now s :
  start_inv s → undisturbed s (create_adventure_party c now s).2.
Proof.
  intros Hst. split; simpl; try done; eauto.
  intros a p Hp. rewrite lookup_insert. case_decide; [|eauto]. subst.
  destruct (si_alloc s Hst _ p Hp) as (n & Hn & Heq). apply uuid4_inj in Heq. lia.
Qed.

Lemma alter_Some {A} (f : A → A) (m : gmap string A) k x :
  m !! k = Some x → alter f k m = <[k := f x]> m.
Proof.
  intros Hx. apply map_eq. intros k'. rewrite lookup_alter, lookup_insert.
  case_decide; [subst; by rewrite Hx|done].
Qed.

(** The invariant after one handler was replaced, possibly a new one, and
    the parties changed. *)
Lemma marks_inv_replace s s' cid c' :
  marks_inv s →
  clients s' = <[cid := c']> (clients s) →
  battles s' = battles s →
  uuid_ctr s ≤ uuid_ctr s' →
  (∀ p, p ∈ lobby s' →
     (p = cid ∧ in_lobby c' = true ∧ running c' = true) ∨ (p ≠ cid ∧ p ∈ lobby s)) →
  (in_battle c' = true ↔ is_Some (battle_id c')) →
  (∀ b, battle_id c' = Some b →
     ∃ bd, battles s !! b = Some bd ∧ (player1 bd = cid ∨ player2 bd = cid)) →
  (in_adventure c' = true ↔ is_Some (adventure_id c')) →
  (running c' = true → ∀ a, adventure_id c' = Some a →
     ∃ p', adventure_parties s' !! a = Some p' ∧ cid ∈ members p') →
  (∀ a p k, adventure_parties s !! a = Some p → k ∈ members p → k ≠ cid →
     ∃ p', adventure_parties s' !! a = Some p' ∧ k ∈ members p') →
  marks_inv s'.
Proof.
  intros [I1 I2 I3 I4 I5 I6] C B N HL HBf HBm HAf HAm HP. split.
  - intros p Hp. rewrite C. destruct (HL p Hp) as [(-> & Hf & Hr)|[Hne Hin]].
    + exists c'. by rewrite lookup_insert_eq.
    + rewrite lookup_insert_ne by done. auto.
  - rewrite B. intros b bd Hb. destruct (I2 b bd Hb) as (n & Hn & ->).
    exists n. split; [lia|done].
  - intros k c. rewrite C, lookup_insert. case_decide; [by intros [= <-]|]. apply I3.
  - intros k c b. rewrite C, B, lookup_insert. case_decide.
    + intros [= <-] Hb. subst. by apply HBm.
    + apply I4.
  - intros k c. rewrite C, lookup_insert. case_decide; [by intros [= <-]|]. apply I5.
  - intros k c a. rewrite C, lookup_insert. case_decide.
    + intros [= <-] Hr Ha. subst. by apply HAm.
    + intros Hc Hr Ha. destruct (I6 k c a Hc Hr Ha) as (p & Hp & Hin).
      apply (HP a p k); done.
Qed.

Lemma marks_inv_handle_join_lobby cid c data now s :
  clients s !! cid = Some c → running c = true →
  marks_inv s → marks_inv (handle_join_lobby cid data now s).
Proof.
  intros Hc Hr Hinv. rewrite (handle_join_lobby_state cid c data now s Hc). cbv zeta.
  eapply (marks_inv_replace s _ cid); [done|reflexivity|done|done|..]; simpl.
  - intros p Hp. destruct (decide (p = cid)) as [->|Hne]; [by left|right].
    split; [done|]. case_decide; [done|].
    apply elem_of_app in Hp as [?|?%list_elem_of_singleton]; done.
  - eapply mi_battle_flag; eauto.
  - intros b Hb. eapply mi_battle_mark; eauto.
  - eapply mi_adventure_flag; eauto.
  - intros _ a Ha. eapply mi_adventure_mark; eauto.
  - eauto.
Qed.

Lemma marks_inv_handle_leave_lobby cid now s :
  server_inv s → marks_inv s → marks_inv (handle_leave_lobby cid now s).
Proof.
  intros Hsrv Hinv.
  destruct (clients s !! cid) as [c|] eqn:Hc;
    [|unfold handle_leave_lobby; by rewrite Hc].
  destruct (in_lobby c) eqn:Hf;
    [|unfold handle_leave_lobby; by rewrite Hc, Hf].
  rewrite (handle_leave_lobby_state cid c now s Hc Hf).
  eapply (marks_inv_replace s _ cid); [done|reflexivity|done|done|..]; simpl.
  - intros p Hp. right.
    destruct (remove_first_NoDup cid (lobby s) (inv_lobby_nodup s Hsrv)) as [_ Hout].
    split; [by intros ->|]. by eapply remove_first_subset.
  - eapply mi_battle_flag; eauto.
  - intros b Hb. eapply mi_battle_mark; eauto.
  - eapply mi_adventure_flag; eauto.
  - intros Hr a Ha. eapply mi_adventure_mark; eauto.
  - eauto.
Qed.

(** What [handle_create_adventure] leaves behind. *)
Lemma handle_create_adventure_state cid c data now s :
  clients s !! cid = Some c →
  let cr := dict_get "creature" data (JObj []) in
  let aid := uuid4 (uuid_ctr s) in
  handle_create_adventure cid data now s =
  Server (<[cid := set_adventure true (Some aid) (set_creature cr c)]> (clients s))
         (lobby s) (battles s)
         (<[aid := Party aid (player_id c) [player_id c] [cr] [username c]
                         waiting now now]> (adventure_parties s))
         (outbox s ++ [(cid, ADVENTURE_CREATED aid (player_id c))])
         (S (uuid_ctr s)).
Proof.
  intros Hc. cbv zeta. unfold handle_create_adventure.
  unfold upd_client at 2. simpl.
  rewrite lookup_alter, decide_True, Hc by done. simpl.
  unfold send, upd_client, with_outbox, with_clients. simpl. f_equal.
  rewrite (alter_Some _ _ _ _ Hc).
  apply map_eq. intros k. rewrite lookup_alter, !lookup_insert.
  repeat case_decide; subst; rewrite ?lookup_insert_eq; done.
Qed.

Lemma marks_inv_handle_create_adventure cid data now s :
  server_inv s → start_inv s → marks_inv s →
  marks_inv (handle_create_adventure cid data now s).
Proof.
  intros Hsrv Hst Hinv.
  destruct (clients s !! cid) as [c|] eqn:Hc.
  - rewrite (handle_create_adventure_state cid c data now s Hc). cbv zeta.
    assert (Hfresh : ∀ a p, adventure_parties s !! a = Some p → a ≠ uuid4 (uuid_ctr s)).
    { intros a p Hp ->. destruct (si_alloc s Hst _ p Hp) as (n & Hn & Heq).
      apply uuid4_inj in Heq. lia. }
    eapply (marks_inv_replace s _ cid); [done|reflexivity|done|simpl; lia|..]; simpl.
    + intros p Hp. destruct (decide (p = cid)) as [->|Hne]; [left|by right].
      destruct (mi_lobby s Hinv cid Hp) as (c0 & Hc0 & ? & ?).
      assert (c0 = c) as -> by congruence. done.
    + eapply mi_battle_flag; eauto.
    + intros b Hb. eapply mi_battle_mark; eauto.
    + split; [by eexists|done].
    + intros _ a [= <-]. rewrite lookup_insert_eq. eexists. split; [done|]. simpl.
      rewrite (inv_client_key s Hsrv cid c Hc). by left.
    + intros a p k Hp Hk _. rewrite lookup_insert_ne by (symmetry; by eapply Hfresh).
      eauto.
  - unfold handle_create_adventure.
    replace (clients (upd_client cid _ s) !! cid) with (@None client).
    + eapply marks_inv_undisturbed; [by apply undisturbed_upd_client|done].
    + unfold upd_client. simpl. by rewrite lookup_alter, decide_True, Hc.
Qed.

Lemma marks_inv_handle_join_adventure cid data now s :
  server_inv s → marks_inv s →
  marks_inv (state_of (handle_join_adventure cid data now s)).
Proof.
  intros Hsrv Hinv. unfold handle_join_adventure.
  set (s1 := upd_client cid (set_creature _) s).
  assert (U1 : undisturbed s s1) by by apply undisturbed_upd_client.
  assert (H1 : marks_inv s1) by by eapply marks_inv_undisturbed.
  assert (S1 : server_inv s1) by by apply server_inv_upd_client.
  destruct (clients s1 !! cid) as [c|] eqn:Hc; [|done].
  assert (Hid : player_id c = cid) by by apply (inv_client_key s1 S1).
  destruct (dict_get "party_id" data (JStr "")) as [| | |pid| |]; simpl;
    try (eapply marks_inv_undisturbed; [apply undisturbed_send|done]); try done.
  assert (U2 := undisturbed_join_adventure_party pid c now s1).
  assert (R2 := join_adventure_party_result pid c now s1).
  assert (P2 := join_adventure_party_parties pid c now s1).
  destruct (join_adventure_party_frame pid c now s1) as (C2 & L2 & B2 & N2).
  destruct (join_adventure_party pid c now s1) as [ok s2]. simpl in *.
  assert (H2 : marks_inv s2) by by eapply marks_inv_undisturbed.
  destruct ok; simpl;
    [|eapply marks_inv_undisturbed; [apply undisturbed_send|done]].
  eapply marks_inv_undisturbed; [apply undisturbed_send|].
  destruct (join_branch_of pid s1) eqn:Hbr; try done.
  apply join_branch_accepted in Hbr as (p0 & Hp0 & _ & Hw).
  simpl in Hp0. rewrite Hp0 in P2.
  assert (Hc2 : clients s2 !! cid = Some c) by by rewrite C2.
  eapply (marks_inv_replace s2 _ cid); [done| |done|done|..]; simpl.
  - by apply alter_Some.
  - intros p Hp. destruct (decide (p = cid)) as [->|Hne]; [left|by right].
    destruct (mi_lobby s2 H2 cid Hp) as (c0 & Hc0 & ? & ?).
    assert (c0 = c) as -> by congruence. by repeat split.
  - exact (mi_battle_flag s2 H2 cid c Hc2).
  - intros b Hb. exact (mi_battle_mark s2 H2 cid c b Hc2 Hb).
  - split; [by eexists|done].
  - intros _ a [= <-]. rewrite P2, lookup_insert_eq. eexists. split; [done|]. simpl.
    apply elem_of_app. right. rewrite Hid. by left.
  - eauto.
Qed.

Lemma marks_inv_match_players now s :
  server_inv s → marks_inv s → marks_inv (match_players now s).
Proof.
  intros Hsrv Hinv.
  destruct (lobby s) as [|p1 [|p2 rest]] eqn:Hl;
    try (rewrite match_players_idle by (rewrite Hl; simpl; lia); done).
  assert (Hk1 : known s p1) by (apply Hsrv; rewrite Hl; set_solver).
  assert (Hk2 : known s p2) by (apply Hsrv; rewrite Hl; set_solver).
  destruct Hk1 as [c1 Hc1]. destruct Hk2 as [c2 Hc2].
  destruct (match_players_tables now s p1 p2 rest c1 c2 Hl Hc1 Hc2)
    as (A1 & A2 & A3 & A4 & A5 & _).
  set (bid := uuid4 (uuid_ctr s)) in *.
  set (s' := match_players now s) in *.
  assert (Hnd := inv_lobby_nodup s Hsrv). rewrite Hl in Hnd.
  apply NoDup_cons in Hnd as [Hp1 Hnd]. apply NoDup_cons in Hnd as [Hp2 Hnd].
  assert (Hne : p1 ≠ p2) by set_solver.
  assert (Hk : ∀ k, clients s' !! k =
            if decide (k = p1 ∨ k = p2)
            then set_battle true (Some bid) <$> clients s !! k
            else clients s !! k).
  { intros k. rewrite A1. destruct (decide (k = p2)) as [->|N2].
    - rewrite lookup_alter_eq, lookup_alter_ne by done.
      rewrite decide_True by (by right). done.
    - rewrite lookup_alter_ne by done. destruct (decide (k = p1)) as [->|N1].
      + rewrite lookup_alter_eq, decide_True by (by left). done.
      + rewrite lookup_alter_ne by done. rewrite decide_False; [done|].
        intros [?|?]; done. }
  assert (Hck : ∀ k c', clients s' !! k = Some c' →
            ((k = p1 ∨ k = p2) ∧ ∃ c, clients s !! k = Some c ∧
                                     c' = set_battle true (Some bid) c) ∨
            ((¬ (k = p1 ∨ k = p2)) ∧ clients s !! k = Some c')).
  { intros k c'. rewrite Hk. case_decide; [|by right].
    destruct (clients s !! k) as [c|]; [|done]. intros [= <-]. left. eauto. }
  destruct Hinv as [I1 I2 I3 I4 I5 I6]. split.
  - rewrite A2. intros p Hp.
    destruct (I1 p) as (c & Hc & Hf & Hr).
    { rewrite Hl. apply elem_of_cons. right. apply elem_of_cons. by right. }
    rewrite Hk, Hc. case_decide; eexists; (split; [done|]); done.
  - rewrite A3, A5. intros b bd. rewrite lookup_insert. case_decide.
    + intros _. exists (uuid_ctr s). split; [lia|done].
    + intros Hb. destruct (I2 b bd Hb) as (n & Hn & ->). exists n. split; [lia|done].
  - intros k c' [(_ & c & Hc & ->)|(_ & Hc)]%Hck; [|eauto].
    simpl. split; [by eexists|done].
  - intros k c' b [(Hkp & c & Hc & ->)|(Hkp & Hc)]%Hck.
    + simpl. intros [= <-]. rewrite A3, lookup_insert_eq. eexists. split; [done|]. simpl.
      rewrite (inv_client_key s Hsrv p1 c1 Hc1), (inv_client_key s Hsrv p2 c2 Hc2).
      destruct Hkp; auto.
    + intros Hb. destruct (I4 k c' b Hc Hb) as (bd & Hbd & Hpl).
      exists bd. split; [|done]. rewrite A3, lookup_insert_ne; [done|].
      intros <-. destruct (I2 _ bd Hbd) as (n & Hn & Heq).
      apply uuid4_inj in Heq. lia.
  - intros k c' [(_ & c & Hc & ->)|(_ & Hc)]%Hck; [|eauto].
    simpl. eauto.
  - rewrite A4. intros k c' a [(_ & c & Hc & ->)|(_ & Hc)]%Hck; [|eauto].
    simpl. eauto.
Qed.

Lemma unmark_marked bid c :
  in_battle c = true → battle_id c = Some bid → unmark bid c = set_battle false None c.
Proof. intros Hin Hid. unfold unmark. by rewrite Hin, bool_decide_true. Qed.

Lemma unmark_other bid c :
  in_battle c = false ∨ battle_id c ≠ Some bid → unmark bid c = c.
Proof.
  intros H. unfold unmark. destruct (in_battle c); [|done].
  destruct H as [?|?]; [done|]. by rewrite bool_decide_false.
Qed.

Lemma notify_battle_end_lookup bid w r pid s k :
  clients (notify_battle_end bid w r pid s) !! k =
  if decide (k = pid) then unmark bid <$> clients s !! k else clients s !! k.
Proof.
  unfold notify_battle_end.
  destruct (clients s !! pid) as [c|] eqn:Hc;
    [|case_decide; [subst; by rewrite Hc|done]].
  destruct (in_battle c) eqn:Hin; simpl.
  - destruct (decide (battle_id c = Some bid)) as [Hid|Hid].
    + rewrite bool_decide_true by done. simpl. rewrite lookup_alter.
      destruct (decide (k = pid)) as [->|].
      * rewrite decide_True, Hc by done. simpl. by rewrite unmark_marked.
      * by rewrite decide_False by done.
    + rewrite bool_decide_false by done.
      case_decide; [|done]. subst. rewrite Hc. simpl. rewrite unmark_other; auto.
  - case_decide; [|done]. subst. rewrite Hc. simpl. rewrite unmark_other; auto.
Qed.

Lemma unmark_idemp bid c : unmark bid (unmark bid c) = unmark bid c.
Proof.
  destruct (in_battle c) eqn:Hin.
  - destruct (decide (battle_id c = Some bid)) as [Hid|Hid].
    + rewrite (unmark_marked bid c) by done. apply unmark_other. by left.
    + rewrite (unmark_other bid c) by auto. apply unmark_other. auto.
  - rewrite (unmark_other bid c) by auto. apply unmark_other. auto.
Qed.

Lemma end_battle_lookup bid bd who s k :
  battles s !! bid = Some bd →
  clients (end_battle bid who s) !! k =
  if decide (k = player1 bd ∨ k = player2 bd)
  then unmark bid <$> clients s !! k else clients s !! k.
Proof.
  intros Hb. unfold end_battle. rewrite Hb. cbv zeta. simpl.
  rewrite !notify_battle_end_lookup.
  destruct (decide (k = player2 bd)) as [E2|N2];
    destruct (decide (k = player1 bd)) as [E1|N1].
  - rewrite decide_True by (by left).
    destruct (clients s !! k); simpl; [|done]. by rewrite unmark_idemp.
  - by rewrite decide_True by (by right).
  - by rewrite decide_True by (by left).
  - rewrite decide_False; [done|]. intros [?|?]; done.
Qed.

Lemma marks_unmark bid c :
  in_lobby (unmark bid c) = in_lobby c ∧ running (unmark bid c) = running c ∧
  in_adventure (unmark bid c) = in_adventure c ∧
  adventure_id (unmark bid c) = adventure_id c ∧
  player_id (unmark bid c) = player_id c.
Proof. unfold unmark. by destruct (in_battle c && _). Qed.

Lemma unmark_battle bid c :
  (in_battle c = true ↔ is_Some (battle_id c)) →
  (in_battle (unmark bid c) = true ↔ is_Some (battle_id (unmark bid c))) ∧
  battle_id (unmark bid c) ≠ Some bid ∧
  ∀ b, battle_id (unmark bid c) = Some b → battle_id c = Some b.
Proof.
  intros Hflag.
  destruct (in_battle c) eqn:Hin.
  - destruct (decide (battle_id c = Some bid)) as [Hid|Hid].
    + rewrite unmark_marked by done. simpl. repeat split; try done.
    + rewrite unmark_other by auto. rewrite Hin. done.
  - rewrite unmark_other by auto. rewrite Hin. repeat split; try tauto.
    intros Hid. assert (is_Some (battle_id c)) as H%Hflag by by eexists. done.
Qed.

Lemma marks_inv_end_battle bid who s : marks_inv s → marks_inv (end_battle bid who s).
Proof.
  intros Hinv.
  destruct (battles s !! bid) as [bd|] eqn:Hb; [|by rewrite end_battle_absent].
  destruct (end_battle_tables bid who s) as (_ & L & B & P & N).
  assert (Hck : ∀ k c', clients (end_battle bid who s) !! k = Some c' →
            ∃ c, clients s !! k = Some c ∧
                 (((k = player1 bd ∨ k = player2 bd) ∧ c' = unmark bid c) ∨
                  ((¬ (k = player1 bd ∨ k = player2 bd)) ∧ c' = c))).
  { intros k c'. rewrite (end_battle_lookup bid bd who s k Hb). case_decide.
    - destruct (clients s !! k) as [c|]; [|done]. intros [= <-]. eauto.
    - intros Hc. eauto. }
  destruct Hinv as [I1 I2 I3 I4 I5 I6]. split.
  - rewrite L. intros p Hp. destruct (I1 p Hp) as (c & Hc & Hf & Hr).
    rewrite (end_battle_lookup bid bd who s p Hb), Hc.
    destruct (marks_unmark bid c) as (E1 & E2 & _).
    case_decide; eexists; (split; [done|]); [by rewrite E1, E2|done].
  - rewrite B, N. intros b bd0. rewrite lookup_delete. case_decide; [done|]. apply I2.
  - intros k c' (c & Hc & [[_ ->]|[_ ->]])%Hck; [|eauto].
    apply unmark_battle. eauto.
  - intros k c' b (c & Hc & Hcase)%Hck Hb'.
    destruct (unmark_battle bid c (I3 k c Hc)) as (_ & Hnot & Hsame).
    assert (Hb0 : battle_id c = Some b).
    { destruct Hcase as [[_ ->]|[_ ->]]; auto. }
    destruct (I4 k c b Hc Hb0) as (bd0 & Hbd0 & Hpl).
    exists bd0. split; [|done]. rewrite B, lookup_delete_ne; [done|].
    intros <-. assert (bd0 = bd) as -> by congruence.
    destruct Hcase as [[_ ->]|[Hout _]]; [done|].
    apply Hout. destruct Hpl; auto.
  - intros k c' (c & Hc & [[_ ->]|[_ ->]])%Hck; [|eauto].
    destruct (marks_unmark bid c) as (_ & _ & -> & -> & _). eauto.
  - rewrite P. intros k c' a (c & Hc & [[_ ->]|[_ ->]])%Hck; [|eauto].
    destruct (marks_unmark bid c) as (_ & -> & _ & -> & _). eauto.
Qed.

Lemma elem_of_delete_other {A} (x y : A) i (l : list A) :
  l !! i = Some x → y ∈ l → y ≠ x → y ∈ delete i l.
Proof.
  revert i. induction l as [|z l IH]; intros i Hi Hy Hne; [by destruct i|].
  destruct i as [|i]; simpl in *.
  - injection Hi as ->. apply elem_of_cons in Hy as [?|?]; done.
  - apply elem_of_cons in Hy as [->|Hy]; [by left|]. right. eauto.
Qed.

(** Whoever is not the one removed stays a member of its party. *)
Lemma remove_from_adventure_keeps_others aid pid now s a p k :
  server_inv s →
  adventure_parties s !! a = Some p → k ∈ members p → k ≠ pid →
  ∃ p', adventure_parties (state_of (remove_from_adventure aid pid now s)) !! a = Some p'
        ∧ k ∈ members p'.
Proof.
  intros Hsrv Hp Hk Hne.
  destruct (remove_from_adventure_cases aid pid now s Hsrv)
    as [->|(p0 & i & Hp0 & Hi & Hcs & Hus)]; [eauto|].
  rewrite (remove_from_adventure_done aid pid now s p0 i) by done. simpl.
  destruct (decide (a = aid)) as [->|Hna].
  - assert (p0 = p) as -> by congruence.
    assert (Hin : k ∈ delete i (members p)).
    { eapply elem_of_delete_other; [by apply index_of_Some|done|done]. }
    destruct (delete i (members p)) as [|m0 ms] eqn:Hd; [by apply elem_of_nil in Hin|].
    rewrite broadcast_adventure_update_parties. simpl. rewrite lookup_insert_eq.
    eexists. split; [done|]. exact Hin.
  - destruct (delete i (members p0)) as [|m0 ms]; simpl.
    + rewrite lookup_delete_ne by done. eauto.
    + rewrite broadcast_adventure_update_parties. simpl.
      rewrite lookup_insert_ne by done. eauto.
Qed.

(** [clean_up] in a state that satisfies the invariant: it returns, and the
    handler stops. *)
Lemma clean_up_done cid c now s :
  server_inv s → clients s !! cid = Some c →
  let s1 := if in_lobby c then remove_from_lobby cid now s else s in
  let s2 := if in_battle c
            then match battle_id c with
                 | Some bid => end_battle bid (Some (player_id c)) s1
                 | None => s1
                 end
            else s1 in
  let s3 := if in_adventure c
            then match adventure_id c with
                 | Some aid => state_of (remove_from_adventure aid (player_id c) now s2)
                 | None => s2
                 end
            else s2 in
  server_inv s1 ∧ server_inv s2 ∧
  clean_up cid now s = Done (upd_client cid (set_running false) s3).
Proof.
  intros Hinv Hc. cbv zeta. unfold clean_up. rewrite Hc.
  set (s1 := if in_lobby c then _ else s).
  assert (H1 : server_inv s1).
  { subst s1. destruct (in_lobby c); [by apply server_inv_remove_from_lobby|done]. }
  set (s2 := if in_battle c then _ else s1).
  assert (H2 : server_inv s2).
  { subst s2. destruct (in_battle c); [|done].
    destruct (battle_id c); [by apply server_inv_end_battle|done]. }
  split; [done|]. split; [done|].
  destruct (in_adventure c); [|done].
  destruct (adventure_id c) as [aid|]; [|done].
  destruct (remove_from_adventure_cases aid (player_id c) now s2 H2)
    as [->|(p & i & Hp & Hi & Hcs & Hus)]; [done|].
  by rewrite (remove_from_adventure_done aid (player_id c) now s2 p i) by done.
Qed.

Lemma marks_inv_clean_up cid now s :
  server_inv s → marks_inv s → marks_inv (state_of (clean_up cid now s)).
Proof.
  intros Hsrv Hinv.
  destruct (clients s !! cid) as [c|] eqn:Hc; [|unfold clean_up; by rewrite Hc].
  destruct (clean_up_done cid c now s Hsrv Hc) as (S1 & S2 & ->).
  set (s1 := if in_lobby c then _ else s) in *.
  set (s2 := if in_battle c then _ else s1) in *.
  set (s3 := if in_adventure c then _ else s2). simpl.
  assert (Hid : player_id c = cid) by by apply (inv_client_key s Hsrv).
  assert (M1 : marks_inv s1 ∧ (cid ∉ lobby s1) ∧ clients s1 = clients s).
  { subst s1. destruct (in_lobby c) eqn:Hf.
    - split; [eapply marks_inv_undisturbed; [apply undisturbed_remove_from_lobby|done]|].
      destruct (remove_from_lobby_tables cid now s) as (-> & -> & _).
      split; [|done]. by apply remove_first_NoDup, Hsrv.
    - split; [done|]. split; [|done]. intros Hin.
      destruct (mi_lobby s Hinv cid Hin) as (c0 & Hc0 & Hf0 & _). congruence. }
  destruct M1 as (M1 & Hout1 & C1).
  assert (M2 : marks_inv s2 ∧ lobby s2 = lobby s1).
  { subst s2. destruct (in_battle c); [|done]. destruct (battle_id c) as [bid|]; [|done].
    split; [by apply marks_inv_end_battle|]. apply end_battle_tables. }
  destruct M2 as (M2 & L2).
  assert (F3 : clients s3 = clients s2 ∧ lobby s3 = lobby s2 ∧ battles s3 = battles s2
               ∧ uuid_ctr s3 = uuid_ctr s2).
  { subst s3. destruct (in_adventure c); [|done]. destruct (adventure_id c); [|done].
    apply remove_from_adventure_frame. }
  destruct F3 as (C3 & L3 & B3 & N3).
  assert (Hc2 : ∃ c2, clients s2 !! cid = Some c2).
  { assert (Hk : known s1 cid) by (unfold known; rewrite C1, Hc; by eexists).
    subst s2. destruct (in_battle c); [|done]. destruct (battle_id c) as [bid|]; [|done].
    destruct (end_battle_tables bid (Some (player_id c)) s1) as (Hids & _).
    by apply (same_ids_known s1 _ cid Hids). }
  destruct Hc2 as [c2 Hc2].
  eapply (marks_inv_replace s2 _ cid (set_running false c2)); [done|..]; simpl.
  - rewrite C3. by apply alter_Some.
  - done.
  - lia.
  - intros p Hp. right. rewrite L3, L2 in Hp. split; [by intros ->|]. by rewrite L2.
  - exact (mi_battle_flag s2 M2 cid c2 Hc2).
  - intros b Hb. exact (mi_battle_mark s2 M2 cid c2 b Hc2 Hb).
  - exact (mi_adventure_flag s2 M2 cid c2 Hc2).
  - done.
  - intros a p k Hp Hk Hne. subst s3.
    destruct (in_adventure c); [|eauto]. destruct (adventure_id c) as [aid|]; [|eauto].
    eapply remove_from_adventure_keeps_others; eauto. by rewrite Hid.
Qed.

Lemma marks_inv_accept s : server_inv s → marks_inv s → marks_inv (accept s).
Proof.
  intros Hsrv Hinv. unfold accept.
  eapply (marks_inv_replace s _ (uuid4 (uuid_ctr s))); [done|reflexivity|done|..]; simpl.
  - lia.
  - intros p Hp. right. split; [|done]. intros ->.
    destruct (inv_client_alloc s Hsrv (uuid4 (uuid_ctr s))) as (n & Hn & Heq).
    { by apply (inv_lobby_known s Hsrv). }
    apply uuid4_inj in Heq. lia.
  - split; [done|]. by intros [? ?].
  - done.
  - split; [done|]. by intros [? ?].
  - done.
  - eauto.
Qed.

Lemma marks_inv_dispatch cid c data now s :
  clients s !! cid = Some c → running c = true →
  server_inv s → start_inv s → marks_inv s →
  marks_inv (state_of (dispatch cid data now s)).
Proof.
  intros Hc Hr Hsrv Hst Hinv. unfold dispatch.
  destruct data as [| | | | |fields]; try done.
  repeat case_match; simpl; try done.
  - by eapply marks_inv_handle_join_lobby.
  - by apply marks_inv_handle_leave_lobby.
  - unfold handle_battle_action. rewrite Hc.
    destruct (in_battle c); [|done]. destruct (battle_id c); [|done].
    eapply marks_inv_undisturbed; [by apply undisturbed_process_battle_action|done].
  - by apply marks_inv_handle_create_adventure.
  - by apply marks_inv_handle_join_adventure.
  - unfold handle_adventure_update. rewrite Hc.
    destruct (in_adventure c); [|done]. destruct (adventure_id c); [|done].
    eapply marks_inv_undisturbed; [apply undisturbed_process_adventure_update|done].
  - unfold handle_get_adventure_parties.
    destruct (get_adventure_parties s); simpl; [|done].
    eapply marks_inv_undisturbed; [apply undisturbed_send|done].
Qed.

Lemma marks_inv_step s ev :
  server_inv s → start_inv s → marks_inv s → marks_inv (step s ev).
Proof.
  intros Hsrv Hst Hinv. destruct ev as [|cid data now|now|cid now]; simpl.
  - by apply marks_inv_accept.
  - destruct (is_running cid s) eqn:Hr; [|done].
    unfold is_running in Hr. destruct (clients s !! cid) as [c|] eqn:Hc; [|done].
    by eapply marks_inv_dispatch.
  - by apply marks_inv_match_players.
  - destruct (is_running cid s); [|done]. by apply marks_inv_clean_up.
Qed.

Lemma marks_inv_init : marks_inv init.
Proof.
  split; simpl; try done.
  by intros p ?%elem_of_nil.
Qed.

Lemma reachable_marks s : reachable s → marks_inv s.
Proof.
  intros [evs ->].
  assert (H : ∀ s0, server_inv s0 → start_inv s0 → marks_inv s0 →
              server_inv (run evs s0) ∧ start_inv (run evs s0) ∧ marks_inv (run evs s0)).
  { induction evs as [|ev evs IH]; intros s0 H1 H2 H3; simpl; [done|].
    apply IH; [by apply server_inv_step|by apply start_inv_step|by apply marks_inv_step]. }
  apply H; [apply server_inv_init|apply start_inv_init|apply marks_inv_init].
Qed.

(** ** What the marks give: the lobby *)

(** X7: in every reachable state the queue has no session twice, and
    every queued session is a handler of the server that is still running
    and has [in_lobby] set; so a pairing takes two different running
    sessions, and the room it opens has an id that no room had. *)
Theorem queued_sessions_are_connected s :
  reachable s →
  NoDup (lobby s) ∧
  (∀ p, p ∈ lobby s →
     ∃ c, clients s !! p = Some c ∧ player_id c = p ∧
          in_lobby c = true ∧ running c = true) ∧
  (∀ now p1 p2 rest, lobby s = p1 :: p2 :: rest →
     let s' := match_players now s in
     p1 ≠ p2 ∧ battles s !! uuid4 (uuid_ctr s) = None ∧
     is_running p1 s' = true ∧ is_running p2 s' = true ∧
     ∃ bd, battles s' !! uuid4 (uuid_ctr s) = Some bd ∧
           player1 bd = p1 ∧ player2 bd = p2).
Proof.
  intros Hreach.
  assert (Hsrv := reachable_inv s Hreach).
  assert (Hinv := reachable_marks s Hreach).
  assert (Hlive : ∀ p, p ∈ lobby s →
            ∃ c, clients s !! p = Some c ∧ player_id c = p ∧
                 in_lobby c = true ∧ running c = true).
  { intros p Hp. destruct (mi_lobby s Hinv p Hp) as (c & Hc & Hf & Hr).
    exists c. split; [done|]. split; [by apply (inv_client_key s Hsrv)|done]. }
  split; [apply Hsrv|]. split; [done|].
  intros now p1 p2 rest Hl. cbv zeta.
  destruct (Hlive p1) as (c1 & Hc1 & Hid1 & _ & Hr1).
  { rewrite Hl. by left. }
  destruct (Hlive p2) as (c2 & Hc2 & Hid2 & _ & Hr2).
  { rewrite Hl. right. by left. }
  destruct (match_players_tables now s p1 p2 rest c1 c2 Hl Hc1 Hc2)
    as (A1 & A2 & A3 & A4 & A5 & _).
  assert (Hnd := inv_lobby_nodup s Hsrv). rewrite Hl in Hnd.
  apply NoDup_cons in Hnd as [Hp1 _].
  split; [intros ->; apply Hp1; by left|].
  split.
  { destruct (battles s !! uuid4 (uuid_ctr s)) as [bd|] eqn:Hb; [|done].
    destruct (mi_battle_alloc s Hinv _ bd Hb) as (n & Hn & Heq).
    apply uuid4_inj in Heq. lia. }
  rewrite !match_players_running. unfold is_running. rewrite Hc1, Hc2.
  split; [done|]. split; [done|].
  rewrite A3, lookup_insert_eq. eexists. split; [done|]. by simpl.
Qed.

Lemma queued_sessions_are_connected_witness :
  NoDup (lobby (run [EConnect; EMessage "0" join_lobby_msg 1] init)).
Proof.
  apply (queued_sessions_are_connected (run [EConnect; EMessage "0" join_lobby_msg 1] init)).
  by eexists.
Defined.

(** X8: pairing takes the two sessions out of the queue but leaves their
    [in_lobby] set. A [LEAVE_LOBBY] that a paired session sends afterwards
    is therefore answered with [LOBBY_LEFT], though the session was not
    queued any more; nobody else is told anything, the queue and the room
    stay as they are, and the session stays marked as fighting. *)
Theorem paired_session_still_leaves_lobby s now now' p1 p2 rest p :
  reachable s →
  lobby s = p1 :: p2 :: rest →
  p = p1 ∨ p = p2 →
  let s1 := match_players now s in
  let s2 := handle_leave_lobby p now' s1 in
  lobby s1 = rest ∧ (p ∉ lobby s1) ∧
  (∃ c, clients s1 !! p = Some c ∧ in_lobby c = true ∧ in_battle c = true ∧
        battle_id c = Some (uuid4 (uuid_ctr s))) ∧
  sent_since s1 s2 = [(p, LOBBY_LEFT p)] ∧
  lobby s2 = lobby s1 ∧ battles s2 = battles s1 ∧
  (∃ c, clients s2 !! p = Some c ∧ in_lobby c = false ∧ in_battle c = true).
Proof.
  intros Hreach Hl Hp. cbv zeta.
  assert (Hsrv := reachable_inv s Hreach).
  assert (Hinv := reachable_marks s Hreach).
  destruct (mi_lobby s Hinv p1) as (c1 & Hc1 & Hf1 & _); [rewrite Hl; by left|].
  destruct (mi_lobby s Hinv p2) as (c2 & Hc2 & Hf2 & _);
    [rewrite Hl; right; by left|].
  destruct (match_players_tables now s p1 p2 rest c1 c2 Hl Hc1 Hc2)
    as (A1 & A2 & A3 & A4 & A5 & _).
  assert (Hnd := inv_lobby_nodup s Hsrv). rewrite Hl in Hnd.
  apply NoDup_cons in Hnd as [Hp1 Hnd]. apply NoDup_cons in Hnd as [Hp2 Hnd].
  assert (Hne : p1 ≠ p2) by (intros ->; apply Hp1; by left).
  assert (Hout : p ∉ rest).
  { destruct Hp as [->| ->]; [|done]. intros ?. apply Hp1. by right. }
  assert (Hc : ∃ c0, clients s !! p = Some c0 ∧ in_lobby c0 = true ∧ player_id c0 = p ∧
                     clients (match_players now s) !! p
                     = Some (set_battle true (Some (uuid4 (uuid_ctr s))) c0)).
  { destruct Hp as [->| ->].
    - exists c1. split; [done|]. split; [done|].
      split; [by apply (inv_client_key s Hsrv)|].
      rewrite A1, lookup_alter_ne, lookup_alter_eq, Hc1 by done. done.
    - exists c2. split; [done|]. split; [done|].
      split; [by apply (inv_client_key s Hsrv)|].
      rewrite A1, lookup_alter_eq, lookup_alter_ne, Hc2 by done. done. }
  destruct Hc as (c0 & Hc0 & Hf0 & Hid0 & Hc').
  split; [done|]. split; [by rewrite A2|]. split; [eexists; split; [exact Hc'|done]|].
  rewrite (handle_leave_lobby_state p _ now' _ Hc') by done.
  unfold sent_since. cbn [outbox lobby battles clients].
  rewrite drop_app_length, A2, decide_False, remove_first_notin by done.
  simpl. rewrite Hid0. split; [done|]. split; [done|]. split; [done|].
  eexists. rewrite lookup_insert_eq. done.
Qed.

Lemma paired_session_still_leaves_lobby_witness :
  sent_since battle_scene (handle_leave_lobby "0" 9 battle_scene) = [("0", LOBBY_LEFT "0")].
Proof.
  destruct (paired_session_still_leaves_lobby
              (run [EConnect; EConnect; EMessage "0" join_lobby_msg 1;
                    EMessage "1" join_lobby_msg 2] init)
              3 9 "0" "1" [] "0") as (_ & _ & _ & H & _).
  - by eexists.
  - by vm_compute.
  - by left.
  - exact H.
Defined.

(** ** What the marks give: battles *)

(** X9: in every reachable state a handler that carries a [battle_id] is
    marked [in_battle], the room exists, the handler is one of its two
    players and the other player is another handler of the server. Its
    [BATTLE_ACTION] therefore always reaches [process_battle_action] with an
    existing room: when it is the sender's turn the opponent, and nobody
    else, is sent one [BATTLE_ACTION] with the ability index of the message
    (0 if it has none) and the turn passes to the opponent; when it is not,
    nothing is sent and the turn stays. No handler and no other table
    changes. *)
Theorem battle_action_of_a_player s cid c b data now :
  reachable s →
  clients s !! cid = Some c →
  battle_id c = Some b →
  ∃ bd, battles s !! b = Some bd ∧ in_battle c = true ∧
    (player1 bd = cid ∨ player2 bd = cid) ∧
    opponent_of bd cid ≠ cid ∧ known s (opponent_of bd cid) ∧
    let s' := handle_battle_action cid data now s in
    let me := player_role bd cid in
    clients s' = clients s ∧ lobby s' = lobby s ∧
    adventure_parties s' = adventure_parties s ∧
    (current_turn bd = me →
       sent_since s s' =
         [(opponent_of bd cid,
           BATTLE_ACTION b (dict_get "ability_index" data (JNum 0)) (other_role me))] ∧
       battles s' = <[b := set_turn (other_role me) (set_battle_activity now bd)]> (battles s)) ∧
    (current_turn bd ≠ me →
       sent_since s s' = [] ∧
       battles s' = <[b := set_battle_activity now bd]> (battles s)).
Proof.
  intros Hreach Hc Hb.
  assert (Hsrv := reachable_inv s Hreach).
  assert (Hinv := reachable_marks s Hreach).
  destruct (mi_battle_mark s Hinv cid c b Hc Hb) as (bd & Hbd & Hpl).
  assert (Hin : in_battle c = true) by (apply (mi_battle_flag s Hinv cid c Hc); by eexists).
  destruct (inv_battle_players s Hsrv b bd Hbd) as (Hne & K1 & K2).
  assert (Hid : player_id c = cid) by by apply (inv_client_key s Hsrv).
  exists bd. split; [done|]. split; [done|]. split; [done|].
  assert (Hopp : opponent_of bd cid ≠ cid ∧ known s (opponent_of bd cid)).
  { unfold opponent_of, player_role. destruct (decide (cid = player1 bd)) as [->|N1].
    - split; [by apply not_eq_sym|done].
    - destruct Hpl as [E|E]; [by destruct N1|]. split; [congruence|done]. }
  destruct Hopp as [Hopp1 Hopp2]. split; [done|]. split; [done|]. cbv zeta.
  unfold handle_battle_action. rewrite Hc, Hin, Hb, Hid.
  rewrite (process_battle_action_state b bd cid _ now s Hbd K1 K2).
  unfold sent_since.
  case_decide; cbn [clients lobby adventure_parties outbox battles with_battles];
    rewrite ?drop_app_length, ?drop_all; repeat split; try done.
Qed.

Lemma battle_action_of_a_player_witness :
  sent_since battle_scene
    (handle_battle_action "0" [("ability_index", JNum 2)] 9 battle_scene)
  = [("1", BATTLE_ACTION "2" (JNum 2) Player2)].
Proof.
  destruct (battle_action_of_a_player battle_scene "0"
              (Client "0" (JStr "Player_0") (JObj []) true true (Some "2") false None true)
              "2" [("ability_index", JNum 2)] 9 battle_scene_reachable)
    as (bd & Hbd & _ & _ & _ & _ & _ & _ & _ & Hturn & _); [by vm_compute|done|].
  assert (bd = Battle "2" "0" "1" (JObj []) (JObj []) Player1 3 3) as ->.
  { vm_compute in Hbd. by injection Hbd as <-. }
  destruct Hturn as [H _]; [done|]. exact H.
Defined.

(** X10: turns alternate. In a room of a reachable state an action of the
    player to move passes the turn; a second action of the same player is
    then turned away; and an action of the other player is relayed to the
    first and brings the turn back. *)
Theorem turns_alternate s b bd idx1 idx2 now1 now2 :
  reachable s →
  battles s !! b = Some bd →
  let mover := mover_of bd in
  let other := opponent_of bd mover in
  let s1 := process_battle_action b mover idx1 now1 s in
  mover ≠ other ∧
  sent_since s s1 = [(other, BATTLE_ACTION b idx1 (other_role (current_turn bd)))] ∧
  current_turn <$> (battles s1 !! b) = Some (other_role (current_turn bd)) ∧
  sent_since s1 (process_battle_action b mover idx2 now2 s1) = [] ∧
  current_turn <$> (battles (process_battle_action b mover idx2 now2 s1) !! b)
    = Some (other_role (current_turn bd)) ∧
  sent_since s1 (process_battle_action b other idx2 now2 s1)
    = [(mover, BATTLE_ACTION b idx2 (current_turn bd))] ∧
  current_turn <$> (battles (process_battle_action b other idx2 now2 s1) !! b)
    = Some (current_turn bd).
Proof.
  intros Hreach Hbd. cbv zeta.
  assert (Hsrv := reachable_inv s Hreach).
  destruct (inv_battle_players s Hsrv b bd Hbd) as (Hne & K1 & K2).
  assert (Hrole : player_role bd (mover_of bd) = current_turn bd).
  { unfold mover_of, player_role. destruct (current_turn bd).
    - by rewrite decide_True.
    - by rewrite decide_False by done. }
  assert (Hother : opponent_of bd (mover_of bd) ≠ mover_of bd ∧
                   player_role bd (opponent_of bd (mover_of bd))
                   = other_role (current_turn bd)).
  { unfold opponent_of. rewrite Hrole. unfold mover_of, player_role.
    destruct (current_turn bd); simpl.
    - split; [done|]. by rewrite decide_False by done.
    - split; [done|]. by rewrite decide_True. }
  destruct Hother as [Hne' Hrole'].
  split; [by apply not_eq_sym|].
  rewrite (process_battle_action_state b bd _ idx1 now1 s Hbd K1 K2).
  rewrite Hrole, decide_True by done.
  set (bd1 := set_turn (other_role (current_turn bd)) (set_battle_activity now1 bd)).
  set (s1 := Server _ _ _ _ _ _).
  assert (Hbd1 : battles s1 !! b = Some bd1) by (subst s1; simpl; by rewrite lookup_insert_eq).
  assert (K1' : known s1 (player1 bd1)) by done.
  assert (K2' : known s1 (player2 bd1)) by done.
  rewrite !(process_battle_action_state b bd1 _ idx2 now2 s1 Hbd1 K1' K2').
  change (player_role bd1) with (player_role bd).
  change (opponent_of bd1) with (opponent_of bd).
  change (current_turn bd1) with (other_role (current_turn bd)).
  rewrite Hrole, Hrole'.
  rewrite decide_False by (by destruct (current_turn bd)).
  rewrite decide_True by done.
  assert (Hback : opponent_of bd (opponent_of bd (mover_of bd)) = mover_of bd).
  { unfold opponent_of at 1. rewrite Hrole'. unfold mover_of.
    by destruct (current_turn bd). }
  assert (Hflip : other_role (other_role (current_turn bd)) = current_turn bd)
    by by destruct (current_turn bd).
  unfold sent_since. subst s1. cbn [outbox battles with_battles].
  rewrite !drop_app_length, drop_all, !lookup_insert_eq, Hback, Hflip. simpl.
  repeat split; try done.
Qed.

Lemma turns_alternate_witness :
  sent_since battle_scene (process_battle_action "2" "0" (JNum 1) 8 battle_scene)
  = [("1", BATTLE_ACTION "2" (JNum 1) Player2)].
Proof.
  destruct (turns_alternate battle_scene "2"
              (Battle "2" "0" "1" (JObj []) (JObj []) Player1 3 3)
              (JNum 1) (JNum 1) 8 9 battle_scene_reachable) as (_ & H & _);
    [by vm_compute|exact H].
Defined.

(** ** What the marks give: adventure parties *)

(** X11: in every reachable state a running handler that carries an
    [adventure_id] is marked [in_adventure], the party exists and the
    handler is a member of it. Its [ADVENTURE_UPDATE] is therefore always
    relayed: every other member of the party is sent one [ADVENTURE_UPDATE]
    with the sender's id and the data of the message (an empty object if it
    has none), in roster order; the sender is sent nothing; and only the
    [last_activity] of that party changes. An update in the name of a
    session that is not a member, or for a party that does not exist,
    changes nothing. *)
Theorem adventure_update_of_a_member s cid c a data now :
  reachable s →
  clients s !! cid = Some c →
  running c = true →
  adventure_id c = Some a →
  ∃ p, adventure_parties s !! a = Some p ∧ in_adventure c = true ∧ cid ∈ members p ∧
    let s' := handle_adventure_update cid data now s in
    sent_since s s' =
      map (λ m, (m, ADVENTURE_UPDATE a cid (dict_get "data" data (JObj [])) now))
          (filter (λ m, m ≠ cid) (members p)) ∧
    (∀ e, (cid, e) ∉ sent_since s s') ∧
    adventure_parties s' = <[a := set_party_activity now p]> (adventure_parties s) ∧
    clients s' = clients s ∧ lobby s' = lobby s ∧ battles s' = battles s ∧
    (∀ pid d t, pid ∉ members p → process_adventure_update a pid d t s = s) ∧
    (∀ a' pid d t, adventure_parties s !! a' = None →
                   process_adventure_update a' pid d t s = s).
Proof.
  intros Hreach Hc Hr Ha.
  assert (Hsrv := reachable_inv s Hreach).
  assert (Hinv := reachable_marks s Hreach).
  destruct (mi_adventure_mark s Hinv cid c a Hc Hr Ha) as (p & Hp & Hmem).
  assert (Hin : in_adventure c = true)
    by (apply (mi_adventure_flag s Hinv cid c Hc); by eexists).
  assert (Hid : player_id c = cid) by by apply (inv_client_key s Hsrv).
  exists p. split; [done|]. split; [done|]. split; [done|]. cbv zeta.
  assert (Hsent : sent_since s (handle_adventure_update cid data now s) =
            map (λ m, (m, ADVENTURE_UPDATE a cid (dict_get "data" data (JObj [])) now))
                (filter (λ m, m ≠ cid) (members p))).
  { unfold handle_adventure_update. rewrite Hc, Hin, Ha, Hid.
    unfold process_adventure_update. rewrite Hp, decide_True by done.
    apply sent_since_app. rewrite send_known_outbox; [done|].
    intros m [_ Hm]%list_elem_of_filter. apply (inv_party s Hsrv a p Hp). done. }
  split; [done|]. split.
  { intros e. rewrite Hsent. intros Hin'%list_elem_of_fmap.
    destruct Hin' as (m & [= <- _] & [Hne _]%list_elem_of_filter). done. }
  unfold handle_adventure_update. rewrite Hc, Hin, Ha, Hid.
  destruct (process_adventure_update_tables a cid (dict_get "data" data (JObj [])) now s)
    as (C & L & B & _ & P).
  rewrite Hp, decide_True in P by done.
  split; [done|]. split; [done|]. split; [done|]. split; [done|]. split.
  - intros pid d t Hout. unfold process_adventure_update. by rewrite Hp, decide_False.
  - intros a' pid d t Hnone. unfold process_adventure_update. by rewrite Hnone.
Qed.

Lemma adventure_update_of_a_member_witness :
  sent_since active_room (handle_adventure_update "1" [("data", JNum 7)] 9 active_room)
  = [("0", ADVENTURE_UPDATE "3" "1" (JNum 7) 9)].
Proof.
  destruct (adventure_update_of_a_member active_room "1"
              (Client "1" (JStr "Player_1") (JObj []) false false None true (Some "3") true)
              "3" [("data", JNum 7)] 9 active_room_reachable)
    as (p & Hp & _ & _ & H & _); [by vm_compute|done|done|].
  assert (p = Party "3" "0" ["0"; "1"] [JObj []; JObj []]
                    [JStr "Player_0"; JStr "Player_1"] active 1 2) as ->.
  { vm_compute in Hp. by injection Hp as <-. }
  exact H.
Defined.

(** X12: creating a party. In a reachable state [CREATE_ADVENTURE] opens a
    party under an id that no party had, so no party is overwritten; the
    party is waiting, the creator is its host and only member, with the
    creature of the message and the username it has at that moment; the
    creator is marked with the party and answered with
    [ADVENTURE_CREATED]; nobody else is sent anything. The listing that
    [GET_ADVENTURE_PARTIES] returns afterwards holds the new party with one
    member, next to exactly the entries it held before. *)
Theorem created_party_is_listed s cid c data now :
  reachable s →
  clients s !! cid = Some c →
  let s' := handle_create_adventure cid data now s in
  let aid := uuid4 (uuid_ctr s) in
  let cr := dict_get "creature" data (JObj []) in
  adventure_parties s !! aid = None ∧
  adventure_parties s' =
    <[aid := Party aid cid [cid] [cr] [username c] waiting now now]> (adventure_parties s) ∧
  sent_since s s' = [(cid, ADVENTURE_CREATED aid cid)] ∧
  (∃ c', clients s' !! cid = Some c' ∧ in_adventure c' = true ∧
         adventure_id c' = Some aid ∧ creature c' = cr) ∧
  ∃ l l', get_adventure_parties s = Some l ∧ get_adventure_parties s' = Some l' ∧
          ∀ e, e ∈ l' ↔ e = PartyInfo aid cid (username c) 1 now ∨ e ∈ l.
Proof.
  intros Hreach Hc. cbv zeta.
  assert (Hsrv := reachable_inv s Hreach).
  assert (Hst := reachable_start_inv s Hreach).
  assert (Hid : player_id c = cid) by by apply (inv_client_key s Hsrv).
  assert (Hfresh : adventure_parties s !! uuid4 (uuid_ctr s) = None).
  { destruct (adventure_parties s !! uuid4 (uuid_ctr s)) as [p|] eqn:Hp; [|done].
    destruct (si_alloc s Hst _ p Hp) as (n & Hn & Heq). apply uuid4_inj in Heq. lia. }
  assert (Hsrv' : server_inv (handle_create_adventure cid data now s))
    by by apply server_inv_handle_create_adventure.
  destruct (get_adventure_parties_ok s Hsrv) as (l & Hl & Hiff).
  destruct (get_adventure_parties_ok _ Hsrv') as (l' & Hl' & Hiff').
  revert Hl' Hiff'.
  rewrite (handle_create_adventure_state cid c data now s Hc). cbv zeta. rewrite Hid.
  intros Hl' Hiff'. unfold sent_since. cbn [outbox adventure_parties clients].
  rewrite drop_app_length, lookup_insert_eq.
  split; [done|]. split; [done|]. split; [done|].
  split; [eexists; split; [done|]; done|].
  exists l, l'. split; [done|]. split; [done|].
  intros e. rewrite Hiff', Hiff. cbn [adventure_parties]. split.
  - intros (q & u & Hq & Hw & Hu & He). rewrite lookup_insert in Hq.
    destruct (decide (uuid4 (uuid_ctr s) = pi_id e)) as [Heq|Hne].
    + left. injection Hq as <-. simpl in Hu. injection Hu as <-.
      rewrite He, <- Heq. reflexivity.
    + right. by exists q, u.
  - intros [->|(q & u & Hq & Hw & Hu & He)].
    + eexists _, _. simpl. rewrite lookup_insert_eq. done.
    + exists q, u. rewrite lookup_insert_ne; [done|]. intros Heq.
      rewrite <- Heq, Hfresh in Hq. done.
Qed.

Lemma created_party_is_listed_witness :
  sent_since (accept init) (handle_create_adventure "0" [] 4 (accept init))
  = [("0", ADVENTURE_CREATED "1" "0")].
Proof.
  destruct (created_party_is_listed (accept init) "0" (new_client "0") [] 4)
    as (_ & _ & H & _).
  - by exists [EConnect].
  - by vm_compute.
  - exact H.
Defined.

(** ** The host of a party *)

Lemma hosted_create_adventure_party c now s :
  hosted (adventure_parties s) →
  hosted (adventure_parties (create_adventure_party c now s).2).
Proof.
  intros H a p. simpl. rewrite lookup_insert. case_decide; [|by apply H].
  intros [= <-]. by subst.
Qed.

Lemma hosted_join_adventure_party pid c now s :
  hosted (adventure_parties s) →
  hosted (adventure_parties (join_adventure_party pid c now s).2).
Proof.
  intros H. rewrite join_adventure_party_parties.
  destruct (join_branch_of pid s); try done.
  destruct (adventure_parties s !! pid) as [p0|] eqn:Hp0; [|done].
  intros a p. rewrite lookup_insert. destruct (decide (pid = a)) as [<-|]; [|by apply H].
  intros [= <-]. destruct (H pid p0 Hp0) as [Hid Hhost]. simpl. split; [done|].
  by apply lookup_app_l_Some.
Qed.

Lemma hosted_remove_from_adventure aid pid now s :
  server_inv s →
  hosted (adventure_parties s) →
  hosted (adventure_parties (state_of (remove_from_adventure aid pid now s))).
Proof.
  intros Hsrv H.
  destruct (remove_from_adventure_cases aid pid now s Hsrv)
    as [->|(p0 & i & Hp0 & Hi & Hcs & Hus)]; [done|].
  rewrite (remove_from_adventure_done aid pid now s p0 i) by done. simpl.
  destruct (H aid p0 Hp0) as [Hid Hhost].
  destruct (delete i (members p0)) as [|m0 ms] eqn:Hd; simpl.
  - intros a p. rewrite lookup_delete. case_decide; [done|]. apply H.
  - rewrite broadcast_adventure_update_parties. simpl.
    intros a p. rewrite lookup_insert. destruct (decide (aid = a)) as [<-|]; [|by apply H].
    intros [= <-]. simpl. split; [done|].
    destruct (decide (pid = host p0)) as [->|Hne]; [done|].
    destruct i as [|i].
    + apply index_of_Some in Hi. congruence.
    + destruct (members p0) as [|h t]; [done|]. simpl in *. congruence.
Qed.

Lemma hosted_process_adventure_update aid pid data now s :
  hosted (adventure_parties s) →
  hosted (adventure_parties (process_adventure_update aid pid data now s)).
Proof.
  intros H.
  destruct (process_adventure_update_tables aid pid data now s) as (_ & _ & _ & _ & ->).
  destruct (adventure_parties s !! aid) as [p0|] eqn:Hp0; [|done].
  case_decide; [|done].
  intros a p. rewrite lookup_insert. destruct (decide (aid = a)) as [<-|]; [|by apply H].
  intros [= <-]. exact (H aid p0 Hp0).
Qed.

Lemma hosted_dispatch cid c data now s :
  clients s !! cid = Some c →
  hosted (adventure_parties s) →
  hosted (adventure_parties (state_of (dispatch cid data now s))).
Proof.
  intros Hc H. unfold dispatch. destruct data as [| | | | |fields]; try done.
  repeat case_match; simpl; try done.
  - by rewrite (handle_join_lobby_state cid c _ now s Hc).
  - unfold handle_leave_lobby. rewrite Hc. destruct (in_lobby c); [|done]. simpl.
    by destruct (remove_from_lobby_tables cid now s) as (_ & _ & _ & -> & _).
  - unfold handle_battle_action. rewrite Hc.
    destruct (in_battle c); [|done]. destruct (battle_id c); [|done].
    by destruct (process_battle_action_tables s0 (player_id c)
                   (dict_get "ability_index" fields (JNum 0)) now s)
      as (_ & _ & _ & -> & _).
  - rewrite (handle_create_adventure_state cid c _ now s Hc). simpl.
    apply (hosted_create_adventure_party (set_creature
             (dict_get "creature" fields (JObj [])) c) now s H).
  - unfold handle_join_adventure. unfold upd_client at 2. simpl.
    rewrite lookup_alter, decide_True, Hc by done. simpl.
    destruct (dict_get "party_id" fields (JStr "")) as [| | |pid| |]; simpl; try done.
    assert (Hj := hosted_join_adventure_party pid
                    (set_creature (dict_get "creature" fields (JObj [])) c) now
                    (upd_client cid (set_creature (dict_get "creature" fields (JObj []))) s) H).
    by destruct (join_adventure_party pid _ now _) as [[] sj].
  - unfold handle_adventure_update. rewrite Hc.
    destruct (in_adventure c); [|done]. destruct (adventure_id c); [|done].
    by apply hosted_process_adventure_update.
  - unfold handle_get_adventure_parties. by destruct (get_adventure_parties s).
Qed.

Lemma hosted_step s ev :
  server_inv s → hosted (adventure_parties s) → hosted (adventure_parties (step s ev)).
Proof.
  intros Hsrv H. destruct ev as [|cid data now|now|cid now]; simpl.
  - done.
  - destruct (is_running cid s) eqn:Hr; [|done].
    unfold is_running in Hr. destruct (clients s !! cid) as [c|] eqn:Hc; [|done].
    by eapply hosted_dispatch.
  - destruct (lobby s) as [|p1 [|p2 rest]] eqn:Hl;
      try (rewrite match_players_idle by (rewrite Hl; simpl; lia); done).
    assert (Hk1 : known s p1) by (apply Hsrv; rewrite Hl; by left).
    assert (Hk2 : known s p2) by (apply Hsrv; rewrite Hl; right; by left).
    destruct Hk1 as [c1 Hc1]. destruct Hk2 as [c2 Hc2].
    by destruct (match_players_tables now s p1 p2 rest c1 c2 Hl Hc1 Hc2)
      as (_ & _ & _ & -> & _).
  - destruct (is_running cid s) eqn:Hr; [|done].
    unfold is_running in Hr. destruct (clients s !! cid) as [c|] eqn:Hc; [|done].
    destruct (clean_up_done cid c now s Hsrv Hc) as (S1 & S2 & ->).
    set (s1 := if in_lobby c then _ else s) in *.
    set (s2 := if in_battle c then _ else s1) in *.
    simpl.
    assert (H1 : hosted (adventure_parties s1)).
    { subst s1. destruct (in_lobby c); [|done].
      by destruct (remove_from_lobby_tables cid now s) as (_ & _ & _ & -> & _). }
    assert (H2 : hosted (adventure_parties s2)).
    { subst s2. destruct (in_battle c); [|done]. destruct (battle_id c) as [bid|]; [|done].
      by destruct (end_battle_tables bid (Some (player_id c)) s1) as (_ & _ & _ & -> & _). }
    destruct (in_adventure c); [|done]. destruct (adventure_id c); [|done].
    by apply hosted_remove_from_adventure.
Qed.

Lemma reachable_hosted s : reachable s → hosted (adventure_parties s).
Proof.
  intros [evs ->].
  assert (H : ∀ s0, server_inv s0 → hosted (adventure_parties s0) →
              hosted (adventure_parties (run evs s0))).
  { induction evs as [|ev evs IH]; intros s0 H1 H2; simpl; [done|].
    apply IH; [by apply server_inv_step|by apply hosted_step]. }
  apply H; [apply server_inv_init|done].
Qed.

(** X14: in every reachable state a party is stored under the id it
    carries and its host is the first of its members (also after the host
    left and the next member took over); the three lists of the party have
    the same length. A waiting party therefore consists of its host
    alone, and the listing shows it with that host, the username recorded
    for the host and a member count of 1. *)
Theorem party_host_is_first_member s a p :
  reachable s →
  adventure_parties s !! a = Some p →
  p_id p = a ∧
  members p !! 0 = Some (host p) ∧
  known s (host p) ∧
  length (creatures p) = length (members p) ∧
  length (usernames p) = length (members p) ∧
  (state p = waiting →
     members p = [host p] ∧
     ∃ u l, usernames p = [u] ∧ get_adventure_parties s = Some l ∧
            PartyInfo a (host p) u 1 (creation_time p) ∈ l).
Proof.
  intros Hreach Hp.
  assert (Hsrv := reachable_inv s Hreach).
  destruct (reachable_hosted s Hreach a p Hp) as [Hid Hhost].
  destruct (inv_party s Hsrv a p Hp) as [Hcs Hus Hne Hwait Hsz Hkn].
  split; [done|]. split; [done|]. split.
  { apply Hkn. by eapply list_elem_of_lookup_2. }
  split; [done|]. split; [done|].
  intros Hw. specialize (Hwait Hw).
  assert (Hms : members p = [host p]).
  { destruct (members p) as [|h [|? ?]]; simpl in *; try lia. congruence. }
  split; [done|].
  destruct (usernames p) as [|u [|? ?]] eqn:Hu; simpl in Hus; try lia.
  destruct (get_adventure_parties_ok s Hsrv) as (l & Hl & Hiff).
  exists u, l. split; [done|]. split; [done|].
  apply Hiff. exists p, u. simpl. unfold info_of. rewrite ?Hu, ?Hms. done.
Qed.

Lemma party_host_is_first_member_witness :
  members (Party "3" "0" ["0"; "1"] [JObj []; JObj []]
                 [JStr "Player_0"; JStr "Player_1"] active 1 2) !! 0 = Some "0".
Proof.
  apply (party_host_is_first_member active_room "3"
           (Party "3" "0" ["0"; "1"] [JObj []; JObj []]
                  [JStr "Player_0"; JStr "Player_1"] active 1 2)
           active_room_reachable).
  by vm_compute.
Defined.

(** X13: what a second member and the host are told, and in which order.
    When a session joins a waiting party of a reachable state, the host and
    then the joiner are each sent the new roster in an
    [ADVENTURE_PARTY_UPDATE] that still says [waiting], then each an
    [ADVENTURE_START], and only then the joiner its [ADVENTURE_JOINED]; the
    party is active with the two of them, the host unchanged, and the
    joiner is marked with the party. *)
Theorem second_member_starts_the_adventure s cid c data pid p now :
  reachable s →
  clients s !! cid = Some c →
  dict_get "party_id" data (JStr "") = JStr pid →
  adventure_parties s !! pid = Some p →
  state p = waiting →
  let cr := dict_get "creature" data (JObj []) in
  let ms := [host p; cid] in
  let cs := creatures p ++ [cr] in
  let us := usernames p ++ [username c] in
  members p = [host p] ∧
  ∃ s', handle_join_adventure cid data now s = Done s' ∧
    sent_since s s' =
      [(host p, ADVENTURE_PARTY_UPDATE pid ms cs us (host p) waiting now);
       (cid, ADVENTURE_PARTY_UPDATE pid ms cs us (host p) waiting now);
       (host p, ADVENTURE_START pid ms cs us (host p) now);
       (cid, ADVENTURE_START pid ms cs us (host p) now);
       (cid, ADVENTURE_JOINED (JStr pid) cid)] ∧
    adventure_parties s' =
      <[pid := Party (p_id p) (host p) ms cs us active (creation_time p) now]>
        (adventure_parties s) ∧
    ∃ c', clients s' !! cid = Some c' ∧ in_adventure c' = true ∧
          adventure_id c' = Some pid.
Proof.
  intros Hreach Hc Hpid Hp Hw. cbv zeta.
  assert (Hsrv := reachable_inv s Hreach).
  assert (Hid : player_id c = cid) by by apply (inv_client_key s Hsrv).
  destruct (reachable_hosted s Hreach pid p Hp) as [_ Hhost].
  destruct (inv_party s Hsrv pid p Hp) as [_ _ _ Hwait _ Hkn].
  specialize (Hwait Hw).
  assert (Hms : members p = [host p]).
  { destruct (members p) as [|h [|? ?]]; simpl in *; try lia. congruence. }
  split; [done|].
  set (cr := dict_get "creature" data (JObj [])).
  set (s1 := upd_client cid (set_creature cr) s).
  assert (Hc1 : clients s1 !! cid = Some (set_creature cr c)).
  { subst s1. unfold upd_client. simpl. by rewrite lookup_alter, decide_True, Hc. }
  assert (Hk : ∀ k, known s k → known s1 k) by (intros k; by apply known_upd_client).
  assert (Hjoin := join_adventure_party_second pid (set_creature cr c) now s1 p (host p)
                     Hp Hw Hms).
  cbv zeta in Hjoin. simpl player_id in Hjoin. rewrite Hid in Hjoin.
  unfold handle_join_adventure. fold cr. fold s1. rewrite Hc1, Hpid, Hjoin.
  - eexists. split; [reflexivity|]. unfold sent_since.
    cbn [outbox send upd_client with_outbox with_clients with_parties
         adventure_parties clients].
    rewrite <- !app_assoc, drop_app_length. simpl. rewrite Hid.
    split; [done|]. split; [done|].
    eexists. rewrite !lookup_alter_eq, Hc. simpl. done.
  - apply Hk, Hkn. rewrite Hms. by left.
  - apply Hk. by eexists.
Qed.

Lemma second_member_starts_the_adventure_witness :
  ∃ s', handle_join_adventure "1" [("party_id", JStr "3")] 2
          (run [EConnect; EConnect; EConnect; EMessage "0" create_adventure_msg 1] init)
        = Done s'.
Proof.
  destruct (second_member_starts_the_adventure
              (run [EConnect; EConnect; EConnect; EMessage "0" create_adventure_msg 1] init)
              "1" (new_client "1") [("party_id", JStr "3")] "3"
              (Party "3" "0" ["0"] [JObj []] [JStr "Player_0"] waiting 1 1) 2)
    as (_ & s' & H & _).
  - by eexists.
  - by vm_compute.
  - done.
  - by vm_compute.
  - done.
  - by exists s'.
Defined.

(** ** Messages that get no answer *)

Lemma json_is_str_spec j t : json_is_str j t = true ↔ j = JStr t.
Proof.
  destruct j; simpl; try (split; [done|by intros [=]]).
  rewrite String.eqb_eq. split; [by intros ->|by intros [= ->]].
Qed.

(** X15: the messages that the server passes over in silence. A decoded
    frame that is not an object, or whose type is missing or is none of the
    seven known types, changes nothing and is not answered. The same holds
    for a [BATTLE_ACTION] of a session that is not marked as fighting, an
    [ADVENTURE_UPDATE] of a session that is not marked as adventuring and a
    [LEAVE_LOBBY] of a session whose [in_lobby] is not set. A
    [JOIN_ADVENTURE] whose [party_id] is a list or an object is not answered
    either, but by then the handler has taken the creature of the message:
    the exception leaves the session with the new creature and without a
    reply. *)
Theorem messages_without_reply cid c now s :
  clients s !! cid = Some c →
  (∀ data, (∀ fields, data ≠ JObj fields) → state_of (dispatch cid data now s) = s) ∧
  (∀ fields, (∀ t, dict_get "type" fields (JStr "") = JStr t → t ∉ message_types) →
     dispatch cid (JObj fields) now s = Done s) ∧
  (∀ fields, dict_get "type" fields (JStr "") = JStr "BATTLE_ACTION" →
     in_battle c = false → dispatch cid (JObj fields) now s = Done s) ∧
  (∀ fields, dict_get "type" fields (JStr "") = JStr "ADVENTURE_UPDATE" →
     in_adventure c = false → dispatch cid (JObj fields) now s = Done s) ∧
  (∀ fields, dict_get "type" fields (JStr "") = JStr "LEAVE_LOBBY" →
     in_lobby c = false → dispatch cid (JObj fields) now s = Done s) ∧
  (∀ fields, dict_get "type" fields (JStr "") = JStr "JOIN_ADVENTURE" →
     unhashable (dict_get "party_id" fields (JStr "")) →
     dispatch cid (JObj fields) now s
     = Raised (upd_client cid (set_creature (dict_get "creature" fields (JObj []))) s) ∧
     outbox (state_of (dispatch cid (JObj fields) now s)) = outbox s ∧
     adventure_parties (state_of (dispatch cid (JObj fields) now s)) = adventure_parties s ∧
     clients (state_of (dispatch cid (JObj fields) now s)) !! cid
     = Some (set_creature (dict_get "creature" fields (JObj [])) c)).
Proof.
  intros Hc. split; [|split; [|split; [|split; [|split]]]].
  - intros data Hno. destruct data as [| | | | |fields]; try done. by destruct (Hno fields).
  - intros fields Hty. unfold dispatch.
    destruct (dict_get "type" fields (JStr "")) as [| | |t| |] eqn:E; try reflexivity.
    unfold json_is_str.
    assert (Hout : ∀ u, u ∈ message_types → String.eqb t u = false).
    { intros u Hu. apply String.eqb_neq. intros ->. by apply (Hty u). }
    rewrite !Hout; [done|unfold message_types..].
    all: rewrite !elem_of_cons; tauto.
  - intros fields Hty Hno.
    assert (E : dispatch cid (JObj fields) now s
                = Done (handle_battle_action cid fields now s)).
    { unfold dispatch. rewrite Hty. reflexivity. }
    rewrite E. unfold handle_battle_action. by rewrite Hc, Hno.
  - intros fields Hty Hno.
    assert (E : dispatch cid (JObj fields) now s
                = Done (handle_adventure_update cid fields now s)).
    { unfold dispatch. rewrite Hty. reflexivity. }
    rewrite E. unfold handle_adventure_update. by rewrite Hc, Hno.
  - intros fields Hty Hno.
    assert (E : dispatch cid (JObj fields) now s
                = Done (handle_leave_lobby cid now s)).
    { unfold dispatch. rewrite Hty. reflexivity. }
    rewrite E. unfold handle_leave_lobby. by rewrite Hc, Hno.
  - intros fields Hty Hun.
    assert (E0 : dispatch cid (JObj fields) now s
                 = handle_join_adventure cid fields now s).
    { unfold dispatch. rewrite Hty. reflexivity. }
    assert (E : dispatch cid (JObj fields) now s
                = Raised (upd_client cid (set_creature
                            (dict_get "creature" fields (JObj []))) s)).
    { rewrite E0. unfold handle_join_adventure. cbv zeta.
      assert (Hc1 : clients (upd_client cid (set_creature
                               (dict_get "creature" fields (JObj []))) s) !! cid
                    = Some (set_creature (dict_get "creature" fields (JObj [])) c)).
      { unfold upd_client. cbn [clients with_clients]. by rewrite lookup_alter_eq, Hc. }
      rewrite Hc1. by destruct (dict_get "party_id" fields (JStr "")). }
    rewrite E. cbn [state_of]. unfold upd_client.
    cbn [outbox adventure_parties clients with_clients].
    rewrite lookup_alter_eq, Hc. done.
Qed.

Lemma messages_without_reply_witness :
  dispatch "0" (JObj [("type", JStr "PING")]) 3 (accept init) = Done (accept init).
Proof.
  destruct (messages_without_reply "0" (new_client "0") 3 (accept init)) as (_ & H & _).
  - by vm_compute.
  - apply H. intros t [= <-]. unfold message_types.
    rewrite !elem_of_cons, elem_of_nil. intros H'. repeat destruct H' as [H'|H']; done.
Defined.

(** ** The table of handlers only grows *)

Lemma same_ids_insert (m : gmap string client) k c c' :
  m !! k = Some c → player_id c' = player_id c → same_ids m (<[k := c']> m).
Proof.
  intros Hc Hid k'. rewrite lookup_insert. case_decide; [|done].
  subst. rewrite Hc. simpl. by rewrite Hid.
Qed.

Lemma same_ids_dispatch cid c data now s :
  clients s !! cid = Some c →
  same_ids (clients s) (clients (state_of (dispatch cid data now s))).
Proof.
  intros Hc. unfold dispatch. destruct data as [| | | | |fields]; try done.
  repeat case_match; simpl; try done.
  - rewrite (handle_join_lobby_state cid c _ now s Hc). simpl.
    by apply (same_ids_insert _ _ c).
  - unfold handle_leave_lobby. rewrite Hc. destruct (in_lobby c) eqn:Hf; [|done].
    fold (handle_leave_lobby cid now s).
    assert (E := handle_leave_lobby_state cid c now s Hc Hf).
    unfold handle_leave_lobby in E. rewrite Hc, Hf in E. rewrite E. simpl.
    by apply (same_ids_insert _ _ c).
  - unfold handle_battle_action. rewrite Hc.
    destruct (in_battle c); [|done]. destruct (battle_id c); [|done].
    apply process_battle_action_tables.
  - rewrite (handle_create_adventure_state cid c _ now s Hc). simpl.
    by apply (same_ids_insert _ _ c).
  - unfold handle_join_adventure. unfold upd_client at 2. simpl.
    rewrite lookup_alter_eq, Hc. simpl.
    assert (Hal : same_ids (clients s)
                   (alter (set_creature (dict_get "creature" fields (JObj []))) cid
                          (clients s))) by by apply same_ids_alter.
    destruct (dict_get "party_id" fields (JStr "")) as [| | |pid| |]; simpl; try done.
    destruct (join_adventure_party_frame pid
                (set_creature (dict_get "creature" fields (JObj [])) c) now
                (upd_client cid (set_creature (dict_get "creature" fields (JObj []))) s))
      as (C & _).
    destruct (join_adventure_party pid _ now _) as [[] sj]; simpl in *; rewrite C; [|done].
    eapply same_ids_trans; [exact Hal|]. by apply same_ids_alter.
  - unfold handle_adventure_update. rewrite Hc.
    destruct (in_adventure c); [|done]. destruct (adventure_id c) as [aid|]; [|done].
    by destruct (process_adventure_update_tables aid (player_id c)
                   (dict_get "data" fields (JObj [])) now s) as (-> & _).
  - unfold handle_get_adventure_parties. by destruct (get_adventure_parties s).
Qed.

Lemma same_ids_step s ev :
  is_connect ev = false → server_inv s →
  same_ids (clients s) (clients (step s ev)).
Proof.
  intros Hev Hsrv. destruct ev as [|cid data now|now|cid now]; simpl; [done|..].
  - destruct (is_running cid s) eqn:Hr; [|done].
    unfold is_running in Hr. destruct (clients s !! cid) as [c|] eqn:Hc; [|done].
    by eapply same_ids_dispatch.
  - destruct (lobby s) as [|p1 [|p2 rest]] eqn:Hl;
      try (rewrite match_players_idle by (rewrite Hl; simpl; lia); done).
    assert (Hk1 : known s p1) by (apply Hsrv; rewrite Hl; by left).
    assert (Hk2 : known s p2) by (apply Hsrv; rewrite Hl; right; by left).
    destruct Hk1 as [c1 Hc1]. destruct Hk2 as [c2 Hc2].
    destruct (match_players_tables now s p1 p2 rest c1 c2 Hl Hc1 Hc2) as (-> & _).
    eapply same_ids_trans; by apply same_ids_alter.
  - destruct (is_running cid s) eqn:Hr; [|done].
    unfold is_running in Hr. destruct (clients s !! cid) as [c|] eqn:Hc; [|done].
    destruct (clean_up_done cid c now s Hsrv Hc) as (S1 & S2 & ->).
    set (s1 := if in_lobby c then _ else s) in *.
    set (s2 := if in_battle c then _ else s1) in *.
    set (s3 := if in_adventure c then _ else s2). simpl.
    assert (H1 : clients s1 = clients s).
    { subst s1. destruct (in_lobby c); [|done]. apply remove_from_lobby_tables. }
    assert (H2 : same_ids (clients s1) (clients s2)).
    { subst s2. destruct (in_battle c); [|done]. destruct (battle_id c); [|done].
      apply end_battle_tables. }
    assert (H3 : clients s3 = clients s2).
    { subst s3. destruct (in_adventure c); [|done]. destruct (adventure_id c); [|done].
      apply remove_from_adventure_frame. }
    rewrite H3, <- H1. eapply same_ids_trans; [exact H2|]. by apply same_ids_alter.
Qed.

Lemma same_ids_size (m m' : gmap string client) : same_ids m m' → size m = size m'.
Proof.
  intros H. rewrite <- !size_dom. f_equal. apply set_eq. intros k.
  rewrite !elem_of_dom. specialize (H k).
  destruct (m !! k), (m' !! k); simpl in H; try done; split; by eauto.
Qed.

(** X16: the server never drops a handler. Whatever happens, every
    handler that was registered stays registered under its id, also after
    it disconnected; and starting from a state that satisfies the
    invariant, the number of registered handlers after a run is the number
    before plus the number of connections accepted in the run. *)
Theorem handlers_are_never_forgotten evs s :
  server_inv s →
  size (clients (run evs s)) = size (clients s) + length (filter (λ ev, is_connect ev = true) evs) ∧
  ∀ k c, clients s !! k = Some c →
         ∃ c', clients (run evs s) !! k = Some c' ∧ player_id c' = player_id c.
Proof.
  revert s. induction evs as [|ev evs IH]; intros s Hsrv.
  - simpl. split; [lia|]. eauto.
  - assert (Hsrv' := server_inv_step s ev Hsrv).
    destruct (IH (step s ev) Hsrv') as [IH1 IH2].
    change (run (ev :: evs) s) with (run evs (step s ev)).
    destruct (is_connect ev) eqn:Hev.
    + destruct ev; try done. rewrite filter_cons_True by done. simpl length.
      assert (Hfresh : clients s !! uuid4 (uuid_ctr s) = None).
      { destruct (clients s !! uuid4 (uuid_ctr s)) as [c|] eqn:Hc; [|done].
        destruct (inv_client_alloc s Hsrv (uuid4 (uuid_ctr s))) as (n & Hn & Heq);
          [by eexists|]. apply uuid4_inj in Heq. lia. }
      split.
      * rewrite IH1. simpl. rewrite map_size_insert_None by done. lia.
      * intros k c Hc. apply IH2. simpl. rewrite lookup_insert_ne; [done|].
        intros Heq. rewrite <- Heq, Hfresh in Hc. done.
    + rewrite filter_cons_False by (by rewrite Hev).
      assert (Hids := same_ids_step s ev Hev Hsrv).
      split.
      * rewrite IH1. by rewrite (same_ids_size _ _ Hids).
      * intros k c Hc. specialize (Hids k). rewrite Hc in Hids.
        destruct (clients (step s ev) !! k) as [c1|] eqn:Hc1; [|done].
        destruct (IH2 k c1 Hc1) as (c' & Hc' & Hid). exists c'. split; [done|].
        simpl in Hids. congruence.
Qed.

Lemma handlers_are_never_forgotten_witness :
  size (clients (run [EConnect; EDisconnect "0" 4; EConnect] init)) = 2.
Proof.
  destruct (handlers_are_never_forgotten [EConnect; EDisconnect "0" 4; EConnect] init
              server_inv_init) as [H _].
  exact H.
Defined.

(** ** Every envelope is well addressed *)

Lemma sends_well_refl s : sends_well s s.
Proof. split; [done|]. exists []. by rewrite app_nil_r. Qed.

Lemma sends_well_trans s1 s2 s3 :
  sends_well s1 s2 → sends_well s2 s3 → sends_well s1 s3.
Proof.
  intros [K1 (l1 & O1 & F1)] [K2 (l2 & O2 & F2)]. split; [auto|].
  exists (l1 ++ l2). split; [by rewrite O2, O1, app_assoc|].
  apply Forall_app. split; [|done].
  eapply Forall_impl; [exact F1|]. intros x [? ?]. auto.
Qed.

(** An operation that sends nothing and keeps the handlers. *)
Lemma sends_well_silent s s' :
  (∀ k, known s k → known s' k) → outbox s' = outbox s → sends_well s s'.
Proof. intros K O. split; [done|]. exists []. by rewrite O, app_nil_r. Qed.

Lemma sends_well_upd_client cid f s : sends_well s (upd_client cid f s).
Proof.
  apply sends_well_silent; [|done]. intros k. by apply known_upd_client.
Qed.

Lemma sends_well_send cid m s :
  known s cid → well_addressed cid m → sends_well s (send cid m s).
Proof.
  intros K W. split; [done|]. exists [(cid, m)]. split; [done|].
  by repeat constructor.
Qed.

Lemma sends_well_status (l : list string) n now s :
  (∀ p, p ∈ l → known s p) → (l ≠ [] → 1 ≤ n) →
  Forall (λ x : string * envelope, known s x.1 ∧ well_addressed x.1 x.2)
         (map (λ p, (p, LOBBY_STATUS n now)) l).
Proof.
  intros K N. apply Forall_forall. intros x (p & -> & Hp)%list_elem_of_fmap.
  simpl. split; [auto|]. apply N. intros ->. by apply elem_of_nil in Hp.
Qed.

Lemma sends_well_remove_from_lobby cid now s :
  server_inv s → sends_well s (remove_from_lobby cid now s).
Proof.
  intros Hsrv.
  destruct (remove_from_lobby_tables cid now s) as (C & _).
  assert (O := remove_from_lobby_outbox cid now s).
  assert (K : ∀ k, known s k → known (remove_from_lobby cid now s) k).
  { intros k. unfold known. by rewrite C. }
  split; [done|]. eexists. split; [exact O|].
  case_decide; [|constructor]. apply sends_well_status.
  - intros p Hp%remove_first_subset. apply K. by apply (inv_lobby_known s Hsrv).
  - intros Hne. destruct (remove_first cid (lobby s)); [done|simpl; lia].
Qed.

Lemma sends_well_handle_join_lobby cid c data now s :
  server_inv s → clients s !! cid = Some c →
  sends_well s (handle_join_lobby cid data now s).
Proof.
  intros Hsrv Hc. rewrite (handle_join_lobby_state cid c data now s Hc). cbv zeta.
  assert (Hid : player_id c = cid) by by apply (inv_client_key s Hsrv).
  assert (K : ∀ q l o, ∀ k, known s k →
            known (Server (<[cid := q]> (clients s)) l (battles s) (adventure_parties s)
                          o (uuid_ctr s)) k).
  { intros q l o k [c0 Hc0]. unfold known. simpl. rewrite lookup_insert.
    case_decide; by eexists. }
  destruct (decide (cid ∈ lobby s)) as [Hin|Hin].
  - split; [apply K|]. eexists. split; [reflexivity|].
    repeat constructor; simpl; [apply K; by eexists|done|].
    destruct (lobby s); [by apply elem_of_nil in Hin|simpl; lia].
  - split; [apply K|]. eexists. split; [reflexivity|].
    apply Forall_app. split.
    + apply sends_well_status.
      * intros p [Hp| ->%list_elem_of_singleton]%elem_of_app; apply K;
          [by apply (inv_lobby_known s Hsrv)|by eexists].
      * intros _. rewrite length_app. simpl. lia.
    + repeat constructor; simpl; [apply K; by eexists|done|].
      rewrite length_app. simpl. lia.
Qed.

Lemma sends_well_handle_leave_lobby cid c now s :
  server_inv s → clients s !! cid = Some c →
  sends_well s (handle_leave_lobby cid now s).
Proof.
  intros Hsrv Hc.
  destruct (in_lobby c) eqn:Hf;
    [|unfold handle_leave_lobby; rewrite Hc, Hf; apply sends_well_refl].
  rewrite (handle_leave_lobby_state cid c now s Hc Hf).
  set (s' := Server _ _ _ _ _ _).
  assert (K : ∀ k, known s k → known s' k).
  { intros k [c0 Hc0]. unfold known. subst s'. simpl. rewrite lookup_insert.
    case_decide; by eexists. }
  split; [done|]. eexists. split; [reflexivity|].
  apply Forall_app. split.
  - case_decide; [|constructor]. apply sends_well_status.
    + intros p Hp%remove_first_subset. apply K. by apply (inv_lobby_known s Hsrv).
    + intros Hne. destruct (remove_first cid (lobby s)); [done|simpl; lia].
  - repeat constructor; simpl; [apply K; by eexists|].
    by apply (inv_client_key s Hsrv).
Qed.

Lemma sends_well_handle_battle_action cid c data now s :
  server_inv s → clients s !! cid = Some c →
  sends_well s (handle_battle_action cid data now s).
Proof.
  intros Hsrv Hc. unfold handle_battle_action. rewrite Hc.
  destruct (in_battle c); [|apply sends_well_refl].
  destruct (battle_id c) as [bid|]; [|apply sends_well_refl].
  destruct (battles s !! bid) as [bd|] eqn:Hb;
    [|unfold process_battle_action; rewrite Hb; apply sends_well_refl].
  destruct (inv_battle_players s Hsrv bid bd Hb) as (_ & K1 & K2).
  rewrite (process_battle_action_state bid bd _ _ now s Hb K1 K2).
  case_decide; [|by apply sends_well_silent].
  split; [done|]. eexists. split; [reflexivity|].
  repeat constructor. simpl. unfold opponent_of.
  by destruct (player_role bd (player_id c)).
Qed.

Lemma sends_well_handle_create_adventure cid c data now s :
  server_inv s → clients s !! cid = Some c →
  sends_well s (handle_create_adventure cid data now s).
Proof.
  intros Hsrv Hc. rewrite (handle_create_adventure_state cid c data now s Hc). cbv zeta.
  set (s' := Server _ _ _ _ _ _).
  assert (K : ∀ k, known s k → known s' k).
  { intros k [c0 Hc0]. unfold known. subst s'. simpl. rewrite lookup_insert.
    case_decide; by eexists. }
  split; [done|]. eexists. split; [reflexivity|].
  repeat constructor; simpl; [apply K; by eexists|].
  by apply (inv_client_key s Hsrv).
Qed.

Lemma sends_well_handle_join_adventure cid c data now s :
  server_inv s → hosted (adventure_parties s) → clients s !! cid = Some c →
  sends_well s (state_of (handle_join_adventure cid data now s)).
Proof.
  intros Hsrv Hhost Hc.
  assert (Hid : player_id c = cid) by by apply (inv_client_key s Hsrv).
  unfold handle_join_adventure.
  set (cr := dict_get "creature" data (JObj [])).
  set (s1 := upd_client cid (set_creature cr) s).
  assert (W1 : sends_well s s1) by apply sends_well_upd_client.
  assert (Hc1 : clients s1 !! cid = Some (set_creature cr c)).
  { subst s1. unfold upd_client. simpl. by rewrite lookup_alter_eq, Hc. }
  assert (Kc : known s1 cid) by by eexists.
  rewrite Hc1.
  assert (Wfail : ∀ v, sends_well s
                         (send cid (ADVENTURE_JOIN_FAILED v join_failed_message) s1)).
  { intros v. eapply sends_well_trans; [exact W1|]. by apply sends_well_send. }
  destruct (dict_get "party_id" data (JStr "")) as [| | |pid| |]; simpl;
    try apply Wfail; try exact W1.
  destruct (decide (join_branch_of pid s1 = JoinAccepted)) as [Hacc|Hrej];
    [|rewrite join_adventure_party_refused by done; simpl; apply Wfail].
  apply join_branch_accepted in Hacc as (p & Hp & _ & Hw).
  destruct (inv_party s Hsrv pid p Hp) as [Hcs Hus _ Hwait _ Hkn].
  destruct (Hhost pid p Hp) as [_ Hh]. specialize (Hwait Hw).
  assert (Hms : members p = [host p]).
  { destruct (members p) as [|h [|? ?]]; simpl in *; try lia. congruence. }
  assert (Kh : known s1 (host p)).
  { apply known_upd_client, Hkn. rewrite Hms. by left. }
  rewrite (join_adventure_party_second pid (set_creature cr c) now s1 p (host p)
             Hp Hw Hms Kh) by (simpl; by rewrite Hid).
  cbv zeta. simpl player_id. rewrite Hid.
  set (s2 := with_outbox _ _).
  eapply sends_well_trans; [exact W1|].
  eapply (sends_well_trans _ (upd_client cid (set_adventure true (Some pid)) s2)).
  - split; [intros k; by rewrite known_upd_client|].
    eexists. split; [reflexivity|].
    assert (Kall : ∀ m, m ∈ [host p; cid] →
              known (upd_client cid (set_adventure true (Some pid)) s2) m).
    { intros m Hm. apply known_upd_client. change (known s1 m).
      apply elem_of_cons in Hm as [->|Hm]; [done|].
      by apply list_elem_of_singleton in Hm as ->. }
    rewrite Hms in Hcs, Hus. simpl in Hcs, Hus.
    apply Forall_app. split; apply Forall_forall;
      intros x (m & -> & Hm)%list_elem_of_fmap; simpl;
      (split; [by apply Kall|]); rewrite ?length_app; simpl;
      repeat split; try done; lia.
  - apply sends_well_send; [|done]. by apply known_upd_client.
Qed.

Lemma sends_well_handle_adventure_update cid c data now s :
  clients s !! cid = Some c →
  sends_well s (handle_adventure_update cid data now s).
Proof.
  intros Hc. unfold handle_adventure_update. rewrite Hc.
  destruct (in_adventure c); [|apply sends_well_refl].
  destruct (adventure_id c) as [aid|]; [|apply sends_well_refl].
  unfold process_adventure_update.
  destruct (adventure_parties s !! aid) as [p|]; [|apply sends_well_refl].
  case_decide; [|apply sends_well_refl].
  set (s' := send_known _ _ _).
  assert (C : clients s' = clients s).
  { subst s'. unfold send_known. by rewrite send_all_clients. }
  split; [intros k; unfold known; by rewrite C|].
  eexists. split; [subst s'; unfold send_known; by rewrite send_all_outbox|].
  apply Forall_forall. intros x (m & -> & Hm)%list_elem_of_fmap. simpl.
  apply list_elem_of_filter in Hm as [Hk Hm]. apply list_elem_of_filter in Hm as [Hne _].
  split; [|by apply not_eq_sym].
  unfold known. by rewrite C.
Qed.

Lemma sends_well_handle_get_adventure_parties cid s :
  server_inv s → known s cid →
  sends_well s (state_of (handle_get_adventure_parties cid s)).
Proof.
  intros Hsrv Kc. unfold handle_get_adventure_parties.
  destruct (get_adventure_parties_ok s Hsrv) as (l & -> & Hiff). simpl.
  apply sends_well_send; [done|]. simpl. apply Forall_forall.
  intros e (q & u & Hq & Hw & _ & ->)%Hiff. simpl.
  by apply (inv_party s Hsrv _ q Hq).
Qed.

Lemma sends_well_match_players now s :
  server_inv s → sends_well s (match_players now s).
Proof.
  intros Hsrv.
  destruct (lobby s) as [|p1 [|p2 rest]] eqn:Hl;
    try (rewrite match_players_idle by (rewrite Hl; simpl; lia); apply sends_well_refl).
  assert (Hk1 : known s p1) by (apply Hsrv; rewrite Hl; by left).
  assert (Hk2 : known s p2) by (apply Hsrv; rewrite Hl; right; by left).
  destruct Hk1 as [c1 Hc1]. destruct Hk2 as [c2 Hc2].
  destruct (match_players_tables now s p1 p2 rest c1 c2 Hl Hc1 Hc2)
    as (A1 & _ & _ & _ & _ & O).
  assert (K : ∀ k, known s k → known (match_players now s) k).
  { intros k Hk. unfold known. rewrite A1.
    apply (same_ids_known s (with_clients s _) k); [|done]. simpl.
    eapply same_ids_trans; by apply same_ids_alter. }
  assert (Kl : ∀ p, p ∈ p2 :: rest → known (match_players now s) p).
  { intros p Hp. apply K, (inv_lobby_known s Hsrv). rewrite Hl. by right. }
  split; [done|]. eexists. split; [exact O|].
  repeat (apply Forall_app; split).
  - apply sends_well_status; [done|lia].
  - apply sends_well_status.
    + intros p Hp. apply Kl. by right.
    + intros Hne. destruct rest; [done|simpl; lia].
  - repeat constructor; simpl.
    + apply K. by eexists.
    + apply K. by eexists.
Qed.

Lemma notify_battle_end_sends bid w r pid s :
  is_Some w → r = disconnect →
  sends_well s (notify_battle_end bid w r pid s).
Proof.
  intros Hw ->. unfold notify_battle_end.
  destruct (clients s !! pid) as [c|] eqn:Hc; [|apply sends_well_refl].
  destruct (in_battle c && _); [|apply sends_well_refl].
  eapply sends_well_trans; [apply sends_well_upd_client|].
  apply sends_well_send; [|done]. apply known_upd_client. by eexists.
Qed.

Lemma sends_well_end_battle bid who s :
  who ≠ "" → sends_well s (end_battle bid (Some who) s).
Proof.
  intros Hwho. unfold end_battle.
  destruct (battles s !! bid) as [bd|]; [|apply sends_well_refl].
  rewrite (truthy_nonempty who Hwho). cbv zeta.
  eapply sends_well_trans; [|apply sends_well_silent; [|done]; done].
  eapply sends_well_trans; apply notify_battle_end_sends; try done; by eexists.
Qed.

Lemma sends_well_remove_from_adventure aid pid now s :
  server_inv s → hosted (adventure_parties s) →
  sends_well s (state_of (remove_from_adventure aid pid now s)).
Proof.
  intros Hsrv Hhost.
  assert (Hsrv' := server_inv_remove_from_adventure aid pid now s Hsrv).
  assert (Hhost' := hosted_remove_from_adventure aid pid now s Hsrv Hhost).
  revert Hsrv' Hhost'.
  destruct (remove_from_adventure_cases aid pid now s Hsrv)
    as [->|(p & i & Hp & Hi & Hcs & Hus)]; [intros; apply sends_well_refl|].
  rewrite (remove_from_adventure_done aid pid now s p i) by done. simpl.
  destruct (delete i (members p)) as [|m0 ms] eqn:Hd; [intros; by apply sends_well_silent|].
  set (p' := Party _ _ _ _ _ _ _ _).
  set (s1 := with_parties s _).
  intros Hsrv' Hhost'.
  destruct (broadcast_adventure_update_tables aid now s1) as (C & _ & _ & P & _).
  assert (Hp' : adventure_parties (broadcast_adventure_update aid now s1) !! aid = Some p').
  { rewrite P. subst s1. simpl. by rewrite lookup_insert_eq. }
  destruct (inv_party _ Hsrv' aid p' Hp') as [Hcs' Hus' _ _ _ Hkn'].
  destruct (Hhost' aid p' Hp') as [_ Hh'].
  assert (K : ∀ k, known s k → known (broadcast_adventure_update aid now s1) k).
  { intros k. unfold known. by rewrite C. }
  split; [done|]. eexists. split.
  - apply (broadcast_adventure_update_outbox aid now s1 p').
    + subst s1. simpl. by rewrite lookup_insert_eq.
    + intros m Hm. specialize (Hkn' m Hm). unfold known in *. by rewrite C in Hkn'.
  - apply Forall_forall. intros x (m & -> & Hm)%list_elem_of_fmap. simpl.
    split; [by apply Hkn'|]. done.
Qed.

Lemma sends_well_dispatch cid c data now s :
  server_inv s → hosted (adventure_parties s) → clients s !! cid = Some c →
  sends_well s (state_of (dispatch cid data now s)).
Proof.
  intros Hsrv Hhost Hc. unfold dispatch.
  destruct data as [| | | | |fields]; try apply sends_well_refl.
  repeat case_match; simpl; try apply sends_well_refl.
  - by eapply sends_well_handle_join_lobby.
  - by eapply sends_well_handle_leave_lobby.
  - by eapply sends_well_handle_battle_action.
  - by eapply sends_well_handle_create_adventure.
  - by eapply sends_well_handle_join_adventure.
  - by eapply sends_well_handle_adventure_update.
  - apply sends_well_handle_get_adventure_parties; [done|by eexists].
Qed.

Lemma sends_well_clean_up cid c now s :
  server_inv s → hosted (adventure_parties s) → clients s !! cid = Some c →
  sends_well s (state_of (clean_up cid now s)).
Proof.
  intros Hsrv Hhost Hc.
  destruct (clean_up_done cid c now s Hsrv Hc) as (S1 & S2 & ->).
  set (s1 := if in_lobby c then _ else s) in *.
  set (s2 := if in_battle c then _ else s1) in *.
  set (s3 := if in_adventure c then _ else s2). simpl.
  assert (Hne : player_id c ≠ "").
  { rewrite (inv_client_key s Hsrv cid c Hc).
    destruct (inv_client_alloc s Hsrv cid) as (n & _ & ->); [by eexists|].
    apply uuid4_nonempty. }
  assert (W1 : sends_well s s1 ∧ adventure_parties s1 = adventure_parties s).
  { subst s1. destruct (in_lobby c); [|split; [apply sends_well_refl|done]].
    split; [by apply sends_well_remove_from_lobby|]. apply remove_from_lobby_tables. }
  destruct W1 as [W1 P1].
  assert (W2 : sends_well s1 s2 ∧ adventure_parties s2 = adventure_parties s1).
  { subst s2. destruct (in_battle c); [|split; [apply sends_well_refl|done]].
    destruct (battle_id c) as [bid|]; [|split; [apply sends_well_refl|done]].
    split; [by apply sends_well_end_battle|]. apply end_battle_tables. }
  destruct W2 as [W2 P2].
  assert (W3 : sends_well s2 s3).
  { subst s3. destruct (in_adventure c); [|apply sends_well_refl].
    destruct (adventure_id c) as [aid|]; [|apply sends_well_refl].
    apply sends_well_remove_from_adventure; [done|]. by rewrite P2, P1. }
  eapply sends_well_trans; [exact W1|].
  eapply sends_well_trans; [exact W2|].
  eapply sends_well_trans; [exact W3|].
  apply sends_well_upd_client.
Qed.

Lemma sends_well_step s ev :
  server_inv s → hosted (adventure_parties s) → sends_well s (step s ev).
Proof.
  intros Hsrv Hhost. destruct ev as [|cid data now|now|cid now]; simpl.
  - apply sends_well_silent; [|done]. intros k [c Hc]. unfold known. simpl.
    rewrite lookup_insert. case_decide; by eexists.
  - destruct (is_running cid s) eqn:Hr; [|apply sends_well_refl].
    unfold is_running in Hr. destruct (clients s !! cid) as [c|] eqn:Hc; [|done].
    by eapply sends_well_dispatch.
  - by apply sends_well_match_players.
  - destruct (is_running cid s) eqn:Hr; [|apply sends_well_refl].
    unfold is_running in Hr. destruct (clients s !! cid) as [c|] eqn:Hc; [|done].
    by eapply sends_well_clean_up.
Qed.

(** X17: every envelope the server ever sends goes to a handler it has
    registered and is well addressed. In the outbox of every reachable
    state: [LOBBY_JOINED], [LOBBY_LEFT], [ADVENTURE_CREATED] and
    [ADVENTURE_JOINED] name their addressee as the player; a lobby count is
    never 0; a battle starts with player1 to move; every [BATTLE_END] has
    a winner and the reason [disconnect], never [completion]; an
    [ADVENTURE_UPDATE] never goes back to its sender; a roster goes to
    members of it only, lists its host first and has three lists of one
    length; an [ADVENTURE_START] has a roster of two; and every party of a
    listing has one member. *)
Theorem envelopes_are_well_addressed s :
  reachable s →
  Forall (λ x, known s x.1 ∧ well_addressed x.1 x.2) (outbox s).
Proof.
  intros [evs ->].
  assert (H : ∀ s0, server_inv s0 → hosted (adventure_parties s0) → sends_well s0 (run evs s0)).
  { induction evs as [|ev evs IH]; intros s0 H1 H2; simpl; [apply sends_well_refl|].
    eapply sends_well_trans; [by apply sends_well_step|].
    apply IH; [by apply server_inv_step|by apply hosted_step]. }
  destruct (H init server_inv_init) as [_ (sent & -> & Hall)]; [done|].
  done.
Qed.

Lemma envelopes_are_well_addressed_witness :
  Forall (λ x, known battle_scene x.1 ∧ well_addressed x.1 x.2) (outbox battle_scene).
Proof. exact (envelopes_are_well_addressed battle_scene battle_scene_reachable). Defined.

(** ** No ghosts in the rooms of a polite run *)

Lemma same_stay_refl m : same_stay m m.
Proof. done. Qed.

Lemma same_stay_trans m1 m2 m3 : same_stay m1 m2 → same_stay m2 m3 → same_stay m1 m3.
Proof. intros H1 H2 k. by rewrite H1. Qed.

Lemma same_stay_alter f k m :
  (∀ c, stay (f c) = stay c) → same_stay m (alter f k m).
Proof.
  intros Hf k'. rewrite lookup_alter. case_decide; [|done]. subst.
  destruct (m !! k') as [c|]; simpl; [|done]. by rewrite Hf.
Qed.

Lemma same_stay_insert (m : gmap string client) k c c' :
  m !! k = Some c → stay c' = stay c → same_stay m (<[k := c']> m).
Proof.
  intros Hc Hs k'. rewrite lookup_insert. case_decide; [|done].
  subst. rewrite Hc. simpl. by rewrite Hs.
Qed.

Lemma same_stay_lookup m m' k c :
  same_stay m m' → m !! k = Some c →
  ∃ c', m' !! k = Some c' ∧ running c' = running c ∧ adventure_id c' = adventure_id c.
Proof.
  intros H Hc. specialize (H k). rewrite Hc in H.
  destruct (m' !! k) as [c'|]; simpl in H; [|done]. exists c'.
  unfold stay in H. split; [done|]. split; congruence.
Qed.

Lemma same_stay_running s s' k :
  same_stay (clients s) (clients s') → is_running k s' = is_running k s.
Proof.
  intros H. unfold is_running. specialize (H k).
  destruct (clients s !! k) as [c|], (clients s' !! k) as [c'|]; simpl in H; try done.
  unfold stay in H. congruence.
Qed.

(** The rooms stay tidy when no handler changes its connection or its
    party, every battle is a battle that was there with the same players
    and every party a party that was there with the same members. *)
Lemma tidy_frame s s' :
  tidy s →
  same_stay (clients s) (clients s') →
  battles_within (battles s) (battles s') →
  (∀ a p', adventure_parties s' !! a = Some p' →
     ∃ p, adventure_parties s !! a = Some p ∧ members p' = members p) →
  tidy s'.
Proof.
  intros [T1 T2 T3] Hst Hb Hp. split.
  - intros a p' m Hp' Hm. destruct (Hp a p' Hp') as (p & Hp0 & Hms).
    rewrite Hms in Hm. destruct (T1 a p m Hp0 Hm) as (c & Hc & Ha & Hr).
    destruct (same_stay_lookup _ _ m c Hst Hc) as (c' & Hc' & Hr' & Ha').
    exists c'. split; [done|]. split; congruence.
  - intros a p' Hp'. destruct (Hp a p' Hp') as (p & Hp0 & ->). eauto.
  - intros b bd' p Hbd' Hpl. destruct (Hb b bd' Hbd') as (bd & Hbd & E1 & E2).
    rewrite (same_stay_running s s' p Hst). apply (T3 b bd); [done|].
    rewrite <- E1, <- E2. done.
Qed.

Lemma tidy_same_parties s s' :
  tidy s →
  same_stay (clients s) (clients s') →
  battles_within (battles s) (battles s') →
  adventure_parties s' = adventure_parties s →
  tidy s'.
Proof.
  intros T Hst Hb Hp. apply (tidy_frame s s' T Hst Hb).
  rewrite Hp. eauto.
Qed.

Lemma tidy_dispatch cid c data now s :
  server_inv s → start_inv s →
  clients s !! cid = Some c → running c = true →
  (is_join_request data = true → in_no_room s cid) →
  tidy s → tidy (state_of (dispatch cid data now s)).
Proof.
  intros Hsrv Hst Hc Hr Hpol T. unfold dispatch.
  destruct data as [| | | | |fields]; try done.
  unfold is_join_request in Hpol. cbv zeta in Hpol.
  assert (Hid : player_id c = cid) by by apply (inv_client_key s Hsrv).
  destruct (json_is_str _ "JOIN_LOBBY") eqn:E1.
  { simpl. rewrite (handle_join_lobby_state cid c _ now s Hc). cbv zeta.
    apply (tidy_same_parties s); [done| |apply battles_within_refl|done].
    by apply (same_stay_insert _ _ c). }
  destruct (json_is_str _ "LEAVE_LOBBY") eqn:E2.
  { simpl. destruct (in_lobby c) eqn:Hf;
      [|unfold handle_leave_lobby; by rewrite Hc, Hf].
    rewrite (handle_leave_lobby_state cid c now s Hc Hf).
    apply (tidy_same_parties s); [done| |apply battles_within_refl|done].
    by apply (same_stay_insert _ _ c). }
  destruct (json_is_str _ "BATTLE_ACTION") eqn:E3.
  { simpl. unfold handle_battle_action. rewrite Hc.
    destruct (in_battle c); [|done]. destruct (battle_id c) as [bid|]; [|done].
    destruct (battles s !! bid) as [bd|] eqn:Hb;
      [|unfold process_battle_action; by rewrite Hb].
    destruct (inv_battle_players s Hsrv bid bd Hb) as (_ & K1 & K2).
    destruct (process_battle_action_tables bid (player_id c)
                (dict_get "ability_index" fields (JNum 0)) now s) as (_ & _ & B & P & _).
    apply (tidy_same_parties s); [done| |done|done].
    rewrite (process_battle_action_state bid bd _ _ now s Hb K1 K2).
    by case_decide. }
  destruct (json_is_str _ "CREATE_ADVENTURE") eqn:E4.
  { simpl. destruct (Hpol eq_refl) as (_ & _ & Hnop).
    rewrite (handle_create_adventure_state cid c _ now s Hc). cbv zeta.
    assert (Hfresh : ∀ a p, adventure_parties s !! a = Some p → a ≠ uuid4 (uuid_ctr s)).
    { intros a p Hp ->. destruct (si_alloc s Hst _ p Hp) as (n & Hn & Heq).
      apply uuid4_inj in Heq. lia. }
    destruct T as [T1 T2 T3]. split; simpl.
    - intros a p m. rewrite lookup_insert. destruct (decide (uuid4 (uuid_ctr s) = a)) as [<-|Hne].
      + intros [= <-]. simpl. rewrite Hid. intros ->%list_elem_of_singleton.
        rewrite lookup_insert_eq. eexists. split; [done|]. done.
      + intros Hp Hm. rewrite lookup_insert_ne; [by eapply T1|].
        intros <-. apply Hnop. by exists a, p.
    - intros a p. rewrite lookup_insert. case_decide; [|by apply T2].
      intros [= <-]. simpl. apply NoDup_singleton.
    - intros b bd p Hbd Hpl. specialize (T3 b bd p Hbd Hpl). revert T3.
      unfold is_running. simpl. rewrite lookup_insert. case_decide; [|done].
      subst. by rewrite Hc. }
  destruct (json_is_str _ "JOIN_ADVENTURE") eqn:E5.
  { simpl. destruct (Hpol eq_refl) as (_ & _ & Hnop).
    unfold handle_join_adventure.
    set (cr := dict_get "creature" fields (JObj [])).
    set (s1 := upd_client cid (set_creature cr) s).
    assert (Hc1 : clients s1 !! cid = Some (set_creature cr c)).
    { subst s1. unfold upd_client. simpl. by rewrite lookup_alter_eq, Hc. }
    assert (T1 : tidy s1).
    { apply (tidy_same_parties s); [done| |apply battles_within_refl|done].
      by apply same_stay_alter. }
    rewrite Hc1.
    destruct (dict_get "party_id" fields (JStr "")) as [| | |pid| |]; simpl; try done.
    1-3: apply (tidy_same_parties s1); [done|done|apply battles_within_refl|done].
    destruct (decide (join_branch_of pid s1 = JoinAccepted)) as [Hacc|Hrej].
    2: { rewrite join_adventure_party_refused by done. simpl.
         apply (tidy_same_parties s1); [done|done|apply battles_within_refl|done]. }
    assert (R := join_adventure_party_result pid (set_creature cr c) now s1).
    assert (P := join_adventure_party_parties pid (set_creature cr c) now s1).
    destruct (join_adventure_party_frame pid (set_creature cr c) now s1) as (C & _ & B & _).
    rewrite Hacc in R, P.
    apply join_branch_accepted in Hacc as (p0 & Hp0 & _ & Hw).
    rewrite Hp0 in P.
    destruct (join_adventure_party pid (set_creature cr c) now s1) as [ok s2].
    cbn [fst snd] in R, P, C, B. subst ok. cbn [state_of].
    simpl player_id in P. rewrite Hid in P.
    assert (Hout : cid ∉ members p0).
    { intros Hin. apply Hnop. by exists pid, p0. }
    destruct T1 as [M1 M2 M3]. split; simpl.
    - intros a p m. rewrite P, lookup_insert.
      destruct (decide (pid = a)) as [<-|Hne].
      + intros [= <-]. simpl.
        intros [Hm| ->%list_elem_of_singleton]%elem_of_app.
        * rewrite C, lookup_alter_ne by (intros ->; done). by eapply M1.
        * rewrite C, lookup_alter_eq, Hc1. simpl. eexists. split; [done|]. done.
      + intros Hp Hm. rewrite C, lookup_alter_ne; [by eapply M1|].
        intros <-. apply Hnop. by exists a, p.
    - intros a p. rewrite P, lookup_insert.
      destruct (decide (pid = a)) as [<-|Hne]; [|by apply M2].
      intros [= <-]. simpl. apply NoDup_app. split; [by eapply M2|].
      split; [|apply NoDup_singleton].
      intros x Hx ->%list_elem_of_singleton. done.
    - intros b bd p. rewrite B. intros Hbd Hpl. specialize (M3 b bd p Hbd Hpl).
      revert M3. unfold is_running.
      cbn [clients send upd_client with_outbox with_clients].
      rewrite C. destruct (decide (p = cid)) as [->|Hne].
      + by rewrite lookup_alter_eq, Hc1.
      + by rewrite lookup_alter_ne. }
  destruct (json_is_str _ "ADVENTURE_UPDATE") eqn:E6.
  { simpl. unfold handle_adventure_update. rewrite Hc.
    destruct (in_adventure c); [|done]. destruct (adventure_id c) as [aid|]; [|done].
    destruct (process_adventure_update_tables aid (player_id c)
                (dict_get "data" fields (JObj [])) now s) as (C & _ & B & _ & P).
    apply (tidy_frame s); [done|by rewrite C|rewrite B; apply battles_within_refl|].
    rewrite P. destruct (adventure_parties s !! aid) as [p0|] eqn:Hp0; [|eauto].
    case_decide; [|eauto]. intros a p'. rewrite lookup_insert.
    destruct (decide (aid = a)) as [<-|]; [|eauto]. intros [= <-]. eauto. }
  destruct (json_is_str _ "GET_ADVENTURE_PARTIES") eqn:E7.
  { simpl. unfold handle_get_adventure_parties.
    destruct (get_adventure_parties s); simpl; [|done].
    apply (tidy_same_parties s); [done|done|apply battles_within_refl|done]. }
  done.
Qed.

Lemma tidy_accept s : server_inv s → tidy s → tidy (accept s).
Proof.
  intros Hsrv [T1 T2 T3].
  assert (Hfresh : clients s !! uuid4 (uuid_ctr s) = None).
  { destruct (clients s !! uuid4 (uuid_ctr s)) as [c|] eqn:Hc; [|done].
    destruct (inv_client_alloc s Hsrv (uuid4 (uuid_ctr s))) as (n & Hn & Heq);
      [by eexists|]. apply uuid4_inj in Heq. lia. }
  split; simpl.
  - intros a p m Hp Hm. destruct (T1 a p m Hp Hm) as (c & Hc & ?).
    exists c. rewrite lookup_insert_ne; [done|]. intros <-. congruence.
  - done.
  - intros b bd p Hbd Hpl. specialize (T3 b bd p Hbd Hpl). revert T3.
    unfold is_running. simpl. rewrite lookup_insert. case_decide; [|done].
    subst. by rewrite Hfresh.
Qed.

Lemma tidy_match_players now s :
  server_inv s → marks_inv s → tidy s → tidy (match_players now s).
Proof.
  intros Hsrv Hinv T.
  destruct (lobby s) as [|p1 [|p2 rest]] eqn:Hl;
    try (rewrite match_players_idle by (rewrite Hl; simpl; lia); done).
  destruct (mi_lobby s Hinv p1) as (c1 & Hc1 & _ & Hr1); [rewrite Hl; by left|].
  destruct (mi_lobby s Hinv p2) as (c2 & Hc2 & _ & Hr2); [rewrite Hl; right; by left|].
  destruct (match_players_tables now s p1 p2 rest c1 c2 Hl Hc1 Hc2)
    as (A1 & _ & A3 & A4 & _).
  assert (Hst : same_stay (clients s) (clients (match_players now s))).
  { rewrite A1. eapply same_stay_trans; by apply same_stay_alter. }
  destruct T as [T1 T2 T3]. split.
  - rewrite A4. intros a p m Hp Hm. destruct (T1 a p m Hp Hm) as (c & Hc & Ha & Hr).
    destruct (same_stay_lookup _ _ m c Hst Hc) as (c' & Hc' & Hr' & Ha').
    exists c'. split; [done|]. split; congruence.
  - by rewrite A4.
  - intros b bd p. rewrite A3, (same_stay_running s _ p Hst), lookup_insert.
    case_decide; [|by apply T3]. intros [= <-]. simpl.
    rewrite (inv_client_key s Hsrv p1 c1 Hc1), (inv_client_key s Hsrv p2 c2 Hc2).
    unfold is_running. intros [->| ->]; [by rewrite Hc1|by rewrite Hc2].
Qed.

Lemma NoDup_delete_other {A} (x : A) i (l : list A) :
  NoDup l → l !! i = Some x → x ∉ delete i l.
Proof.
  revert i. induction l as [|y l IH]; intros i Hnd Hi; [by destruct i|].
  apply NoDup_cons in Hnd as [Hy Hnd]. destruct i as [|i]; simpl in *.
  - by injection Hi as ->.
  - intros [->|Hin]%elem_of_cons.
    + apply Hy. by eapply list_elem_of_lookup_2.
    + by apply (IH i).
Qed.

Lemma tidy_clean_up cid c now s :
  server_inv s → marks_inv s → rooms_marked s →
  clients s !! cid = Some c →
  tidy s → tidy (state_of (clean_up cid now s)).
Proof.
  intros Hsrv Hinv Hrooms Hc T.
  destruct (clean_up_done cid c now s Hsrv Hc) as (S1 & S2 & ->).
  set (s1 := if in_lobby c then _ else s) in *.
  set (s2 := if in_battle c then _ else s1) in *.
  set (s3 := if in_adventure c then _ else s2). cbn [state_of].
  assert (Hid : player_id c = cid) by by apply (inv_client_key s Hsrv).
  assert (E1 : clients s1 = clients s ∧ battles s1 = battles s ∧
               adventure_parties s1 = adventure_parties s).
  { subst s1. destruct (in_lobby c); [|done].
    by destruct (remove_from_lobby_tables cid now s) as (-> & _ & -> & -> & _). }
  destruct E1 as (C1 & B1 & P1).
  assert (E2 : same_stay (clients s) (clients s2) ∧
               battles_within (battles s) (battles s2) ∧
               adventure_parties s2 = adventure_parties s ∧
               ∀ b bd, battles s2 !! b = Some bd → battle_id c ≠ Some b).
  { subst s2. destruct (in_battle c) eqn:Hin.
    - destruct (battle_id c) as [bid|] eqn:Hbid.
      + destruct (end_battle_tables bid (Some (player_id c)) s1) as (_ & _ & B & P & _).
        rewrite B, P, B1, P1. split; [|split; [apply battles_within_delete|split; [done|]]].
        * intros k. rewrite <- C1.
          destruct (battles s1 !! bid) as [bd|] eqn:Hb;
            [|by rewrite end_battle_absent].
          rewrite (end_battle_lookup bid bd _ s1 k Hb). case_decide; [|done].
          destruct (clients s1 !! k) as [ck|]; simpl; [|done].
          destruct (marks_unmark bid ck) as (_ & E & _ & E' & _).
          unfold stay. by rewrite E, E'.
        * intros b bd. rewrite lookup_delete. case_decide; [done|].
          intros _ [= ->]. done.
      + rewrite C1, B1, P1. split; [done|]. split; [apply battles_within_refl|]. done.
    - rewrite C1, B1, P1. split; [done|]. split; [apply battles_within_refl|].
      split; [done|]. intros b bd _ Hb.
      assert (is_Some (battle_id c)) as H%(mi_battle_flag s Hinv cid c Hc) by by eexists.
      congruence. }
  destruct E2 as (St2 & B2 & P2 & Hgone).
  assert (E3 : clients s3 = clients s2 ∧ battles s3 = battles s2).
  { subst s3. destruct (in_adventure c); [|done].
    destruct (adventure_id c) as [aid|]; [|done].
    by destruct (remove_from_adventure_frame aid (player_id c) now s2) as (-> & _ & -> & _). }
  destruct E3 as (C3 & B3).
  destruct T as [T1 T2 T3].
  assert (Hmark : ∀ a p, adventure_parties s !! a = Some p → cid ∈ members p →
            adventure_id c = Some a).
  { intros a p Hp Hin. destruct (T1 a p cid Hp Hin) as (c0 & Hc0 & Ha0 & _). congruence. }
  assert (Hsame : s3 = s2 → (∀ a p, adventure_parties s !! a = Some p → cid ∉ members p) →
            ∀ a p' m, adventure_parties s3 !! a = Some p' → m ∈ members p' →
              m ≠ cid ∧ NoDup (members p') ∧
              ∃ p, adventure_parties s !! a = Some p ∧ m ∈ members p).
  { intros -> Hnone a p' m. rewrite P2. intros Hp' Hm.
    split; [intros ->; by apply (Hnone a p')|]. split; [by eapply T2|]. eauto. }
  assert (Hparties : ∀ a p' m, adventure_parties s3 !! a = Some p' → m ∈ members p' →
            m ≠ cid ∧ NoDup (members p') ∧
            ∃ p, adventure_parties s !! a = Some p ∧ m ∈ members p).
  { destruct (in_adventure c) eqn:Hin; [destruct (adventure_id c) as [aid|] eqn:Haid|].
    - destruct (adventure_parties s2 !! aid) as [p|] eqn:Hp.
      + destruct (index_of (player_id c) (members p)) as [i|] eqn:Hi.
        * destruct (inv_party s2 S2 aid p Hp) as [Hcs Hus _ _ _ _].
          assert (Hlt : i < length (members p)).
          { eapply lookup_lt_Some. by apply index_of_Some. }
          assert (E : s3 = state_of (remove_from_adventure aid (player_id c) now s2))
            by (subst s3; by rewrite ?Hin, ?Haid).
          rewrite (remove_from_adventure_done aid (player_id c) now s2 p i) in E
            by (done || lia).
          cbn [state_of] in E. rewrite P2 in Hp.
          assert (Hnd : NoDup (members p)) by by eapply T2.
          assert (Hi' : members p !! i = Some cid)
            by (rewrite <- Hid; by apply index_of_Some).
          assert (Hothers : ∀ a p0, a ≠ aid → adventure_parties s !! a = Some p0 →
                    cid ∉ members p0).
          { intros a p0 Hne Hp0 Hin0. specialize (Hmark a p0 Hp0 Hin0). congruence. }
          intros a p' m. rewrite E. clear E.
          destruct (delete i (members p)) as [|m0 ms] eqn:Hd.
          -- cbn [adventure_parties with_parties]. rewrite P2, lookup_delete.
             case_decide; [done|]. intros Hp' Hm.
             split; [intros ->; by apply (Hothers a p')|].
             split; [by eapply T2|]. eauto.
          -- rewrite broadcast_adventure_update_parties.
             cbn [adventure_parties with_parties]. rewrite P2, lookup_insert.
             destruct (decide (aid = a)) as [<-|Hne].
             ++ intros [= <-]. cbn [members]. rewrite <- Hd. intros Hm.
                split; [intros ->; by apply (NoDup_delete_other cid i (members p))|].
                split; [eapply sublist_NoDup; [done|apply sublist_delete]|].
                exists p. split; [done|]. by eapply elem_of_delete_list.
             ++ intros Hp' Hm. split; [intros ->; by apply (Hothers a p')|].
                split; [by eapply T2|]. eauto.
        * apply Hsame.
          -- subst s3. rewrite ?Hin, ?Haid.
             rewrite (remove_from_adventure_not_member aid _ now s2 p); [done|done|].
             by apply index_of_None.
          -- intros a p0 Hp0 Hin0. specialize (Hmark a p0 Hp0 Hin0).
             assert (a = aid) as -> by congruence. rewrite P2 in Hp.
             assert (p0 = p) as -> by congruence.
             apply index_of_None in Hi. apply Hi. by rewrite Hid.
      + apply Hsame.
        * subst s3. rewrite ?Hin, ?Haid. by rewrite remove_from_adventure_absent.
        * intros a p0 Hp0 Hin0. specialize (Hmark a p0 Hp0 Hin0).
          assert (a = aid) as -> by congruence. rewrite P2 in Hp. congruence.
    - apply Hsame; [subst s3; by rewrite ?Hin, ?Haid|].
      intros a p0 Hp0 Hin0. specialize (Hmark a p0 Hp0 Hin0). congruence.
    - apply Hsame; [subst s3; by rewrite ?Hin|].
      intros a p0 Hp0 Hin0. specialize (Hmark a p0 Hp0 Hin0).
      assert (is_Some (adventure_id c)) as H%(mi_adventure_flag s Hinv cid c Hc)
        by by eexists.
      congruence. }
  split.
  - intros a p' m Hp' Hm. cbn [adventure_parties upd_client with_clients] in Hp'.
    destruct (Hparties a p' m Hp' Hm) as (Hne & _ & p & Hp & Hin).
    destruct (T1 a p m Hp Hin) as (c0 & Hc0 & Ha0 & Hr0).
    destruct (same_stay_lookup _ _ m c0 St2 Hc0) as (c2 & Hc2 & Hr2 & Ha2).
    exists c2. cbn [clients upd_client with_clients].
    rewrite lookup_alter_ne, C3 by done. split; [done|]. split; congruence.
  - intros a p' Hp'. cbn [adventure_parties upd_client with_clients] in Hp'.
    destruct (members p') as [|m ms] eqn:Hms; [constructor|].
    destruct (Hparties a p' m Hp') as (_ & Hnd & _); [rewrite Hms; by left|].
    by rewrite <- Hms.
  - intros b bd p. cbn [battles upd_client with_clients]. rewrite B3. intros Hbd Hpl.
    destruct (B2 b bd Hbd) as (bd0 & Hbd0 & E1 & E2).
    assert (Hp0 : p = player1 bd0 ∨ p = player2 bd0) by (rewrite <- E1, <- E2; done).
    assert (Hne : p ≠ cid).
    { intros ->. apply (Hgone b bd Hbd).
      destruct (Hrooms b bd0 Hbd0) as [(c1 & Hc1 & _ & Hm1) (c2 & Hc2 & _ & Hm2)].
      destruct Hp0 as [Hp0|Hp0]; rewrite <- Hp0 in *; congruence. }
    specialize (T3 b bd0 p Hbd0 Hp0). revert T3.
    rewrite <- (same_stay_running s s2 p St2).
    unfold is_running. cbn [clients upd_client with_clients].
    by rewrite lookup_alter_ne, C3 by done.
Qed.

Lemma tidy_step s ev :
  server_inv s → start_inv s → marks_inv s → rooms_marked s → polite s ev →
  tidy s → tidy (step s ev).
Proof.
  intros Hsrv Hst Hinv Hrooms Hpol T.
  destruct ev as [|cid data now|now|cid now]; cbn [step].
  - by apply tidy_accept.
  - unfold is_running. destruct (clients s !! cid) as [c|] eqn:Hc; [|done].
    destruct (running c) eqn:Hr; [|done]. by apply (tidy_dispatch cid c).
  - by apply tidy_match_players.
  - unfold is_running. destruct (clients s !! cid) as [c|] eqn:Hc; [|done].
    destruct (running c) eqn:Hr; [|done]. by apply (tidy_clean_up cid c).
Qed.

Lemma tidy_init : tidy init.
Proof. split; simpl; intros *; by rewrite lookup_empty. Qed.

Lemma tidy_no_ghosts s : marks_inv s → tidy s → no_ghosts s.
Proof.
  intros Hinv [T1 T2 T3]. split; [|split].
  - intros p Hp. destruct (mi_lobby s Hinv p Hp) as (c & Hc & _ & Hr).
    unfold is_running. by rewrite Hc.
  - intros b bd Hbd. split; apply (T3 b bd); auto.
  - intros a p Hp. split; [by eapply T2|]. intros m Hm.
    destruct (T1 a p m Hp Hm) as (c & Hc & _ & Hr).
    unfold is_running. by rewrite Hc.
Qed.

(** X18: as long as every session asks for a room only while it is in
    none, no room ever holds a session that has disconnected: every queued
    session, both players of every battle and every member of every party
    are running handlers, and no party lists a session twice. *)
Theorem polite_rooms_hold_no_ghosts evs :
  polite_run init evs → no_ghosts (run evs init).
Proof.
  assert (Hgen : ∀ s, server_inv s → start_inv s → marks_inv s → one_room s →
            rooms_marked s → tidy s → polite_run s evs → no_ghosts (run evs s)).
  { induction evs as [|ev evs IH]; intros s Hsrv Hst Hinv H1 Hm T Hpol; simpl.
    - by apply tidy_no_ghosts.
    - destruct Hpol as [Hev Hrest].
      apply IH; [by apply server_inv_step|by apply start_inv_step
                |by apply marks_inv_step|by apply one_room_step
                |by apply rooms_marked_step|by apply tidy_step|done]. }
  apply Hgen; [apply server_inv_init|apply start_inv_init|apply marks_inv_init
              |apply one_room_init| |apply tidy_init].
  intros b bd Hb. simpl in Hb. by rewrite lookup_empty in Hb.
Qed.

Lemma polite_rooms_hold_no_ghosts_witness :
  polite_run init [EConnect; EMessage "0" create_adventure_msg 1; EDisconnect "0" 2] ∧
  no_ghosts (run [EConnect; EMessage "0" create_adventure_msg 1; EDisconnect "0" 2] init).
Proof.
  assert (Hpol : polite_run init
            [EConnect; EMessage "0" create_adventure_msg 1; EDisconnect "0" 2]).
  { simpl. split; [done|]. split; [|done]. intros _. repeat split.
    - simpl. by intros ?%elem_of_nil.
    - by intros (b & bd & Hb & _).
    - by intros (a & q & Hq & _). }
  split; [exact Hpol|].
  exact (polite_rooms_hold_no_ghosts _ Hpol).
Defined.

(** ** From [send] to the handler *)

Section RequestOrder.

Variable dumps : json → string.
Variable loads : string → option json.
Variable encode_utf8 : string → bytes.
Variable decode_utf8 : bytes → option string.

Lemma send_all_connected reqs c q :
  connected c = true →
  queue_all dumps (map MDict reqs) c q = q ++ map (λ r, dumps (JObj r)) reqs.
Proof.
  intros Hc. revert q. induction reqs as [|r reqs IH]; intros q; simpl.
  - by rewrite app_nil_r.
  - unfold queue_all in *. simpl. unfold NetworkClient.send at 2. rewrite Hc. simpl.
    rewrite IH. by rewrite <- app_assoc.
Qed.

Lemma send_loop_frames texts :
  send_loop encode_utf8 (length texts) texts
  = (map (λ t, encode_utf8 (t +:+ String newline EmptyString)) texts, []).
Proof.
  induction texts as [|t texts IH]; [done|]. simpl. by rewrite IH.
Qed.

Lemma run_iteration_request cid now r s :
  request_carried dumps loads encode_utf8 decode_utf8 r →
  run_iteration loads decode_utf8 cid now (encode_bytes dumps encode_utf8 (JObj r))
    EmptyString s
  = Receiving (state_of (dispatch cid (JObj r) now s)) EmptyString.
Proof.
  intros (Hnl & Hload & Hcodec & Hne).
  unfold run_iteration.
  assert (String.eqb (encode_bytes dumps encode_utf8 (JObj r)) EmptyString = false) as ->
    by by apply String.eqb_neq.
  rewrite Hcodec.
  change (EmptyString +:+ encode dumps (JObj r)) with (encode dumps (JObj r)).
  unfold encode. rewrite drain_server_frame by done.
  rewrite drain_server_no_frame by done.
  unfold process_message. by rewrite Hload.
Qed.

(** X19: requests are handled in the order they were made. What a
    connected client passes to [send], one dict after the other, is queued
    in that order; as many turns of its send loop put one frame per
    request on the wire, in that order, and empty the queue; and the
    server's receive loop, reading those frames chunk by chunk from an
    empty buffer, dispatches the requests in that order, each at the clock
    value of its turn, and ends with an empty buffer, still receiving. *)
Theorem requests_are_handled_in_order reqs times c cid s :
  connected c = true →
  Forall (request_carried dumps loads encode_utf8 decode_utf8) reqs →
  length times = length reqs →
  let q := queue_all dumps (map MDict reqs) c [] in
  let chunks := (send_loop encode_utf8 (length reqs) q).1 in
  q = map (λ r, dumps (JObj r)) reqs ∧
  send_loop encode_utf8 (length reqs) q
    = (map (λ r, encode_bytes dumps encode_utf8 (JObj r)) reqs, []) ∧
  feed loads decode_utf8 cid (zip times chunks) EmptyString s
    = Receiving (foldl (λ acc x, state_of (dispatch cid (JObj x.2) x.1 acc)) s
                       (zip times reqs))
                EmptyString.
Proof.
  intros Hc Hall Hlen q chunks.
  assert (Hq : q = map (λ r, dumps (JObj r)) reqs).
  { subst q. by rewrite send_all_connected. }
  assert (Hs : send_loop encode_utf8 (length reqs) q
               = (map (λ r, encode_bytes dumps encode_utf8 (JObj r)) reqs, [])).
  { rewrite Hq. rewrite <- (length_map (λ r, dumps (JObj r)) reqs) at 1.
    rewrite send_loop_frames. by rewrite map_map. }
  split; [done|]. split; [done|].
  subst chunks. rewrite Hs. cbn [fst]. clear q Hq Hs.
  revert times s Hlen. induction Hall as [|r reqs Hr Hall IH]; intros times s Hlen.
  - by destruct times.
  - destruct times as [|t times]; [done|]. simpl in Hlen.
    cbn [map zip zip_with feed foldl].
    rewrite run_iteration_request by done.
    apply IH. lia.
Qed.

End RequestOrder.

Lemma requests_are_handled_in_order_witness :
  feed sample_loads sample_decode "0"
    (zip [4; 5] (send_loop sample_encode 2
                   (queue_all sample_dumps (map MDict [[]; []])
                             (NetClient true true [] [] []) [])).1)
    EmptyString (accept init)
  = Receiving (foldl (λ acc x, state_of (dispatch "0" (JObj x.2) x.1 acc)) (accept init)
                     (zip [4; 5] [[]; []]))
              EmptyString.
Proof.
  apply (requests_are_handled_in_order sample_dumps sample_loads sample_encode
           sample_decode [[]; []] [4; 5] (NetClient true true [] [] []) "0" (accept init)).
  - reflexivity.
  - repeat constructor; discriminate.
  - reflexivity.
Defined.

(** ** A join as the joiner sees it (C4) *)

(** C4, amended: in a reachable state a waiting party consists of its host.
    When a second session joins it, the party becomes active; the host and
    the joiner are each sent an [ADVENTURE_PARTY_UPDATE] that still says
    waiting, then each an [ADVENTURE_START], and then the joiner its
    [ADVENTURE_JOINED]. A [JOIN_ADVENTURE] for an active party is refused:
    the joiner is sent [ADVENTURE_JOIN_FAILED] and nothing else, nobody
    else is sent anything, and the parties, the lobby and the battles are
    what they were. No party is ever sent a second round of
    [ADVENTURE_START], and no event takes an active party back to
    waiting. *)
Theorem party_activates_once s :
  reachable s →
  (∀ pid p c now,
     adventure_parties s !! pid = Some p → state p = waiting →
     known s (player_id c) →
     ∃ h, members p = [h] ∧
       (join_adventure_party pid c now s).1 = true ∧
       (∃ p', adventure_parties (join_adventure_party pid c now s).2 !! pid = Some p' ∧
              state p' = active ∧ members p' = [h; player_id c]) ∧
       starts_for pid (sent_since s (join_adventure_party pid c now s).2)
         = [h; player_id c]) ∧
  (∀ pid p c now,
     adventure_parties s !! pid = Some p → state p = active →
     join_adventure_party pid c now s = (false, s)) ∧
  (∀ pid,
     (starts_for pid (outbox s) = [] ∨ length (starts_for pid (outbox s)) = 2) ∧
     ∀ p, adventure_parties s !! pid = Some p → state p = waiting →
          starts_for pid (outbox s) = []) ∧
  (∀ ev pid p p',
     adventure_parties s !! pid = Some p → state p = active →
     adventure_parties (step s ev) !! pid = Some p' → state p' = active) ∧
  (∀ cid c data pid p now,
     clients s !! cid = Some c →
     dict_get "party_id" data (JStr "") = JStr pid →
     adventure_parties s !! pid = Some p →
     let s' := state_of (handle_join_adventure cid data now s) in
     let cr := dict_get "creature" data (JObj []) in
     let ms := [host p; cid] in
     let cs := creatures p ++ [cr] in
     let us := usernames p ++ [username c] in
     (state p = waiting →
        members p = [host p] ∧
        sent_since s s' =
          [(host p, ADVENTURE_PARTY_UPDATE pid ms cs us (host p) waiting now);
           (cid, ADVENTURE_PARTY_UPDATE pid ms cs us (host p) waiting now);
           (host p, ADVENTURE_START pid ms cs us (host p) now);
           (cid, ADVENTURE_START pid ms cs us (host p) now);
           (cid, ADVENTURE_JOINED (JStr pid) cid)] ∧
        adventure_parties s' =
          <[pid := Party (p_id p) (host p) ms cs us active (creation_time p) now]>
            (adventure_parties s)) ∧
     (state p = active →
        sent_since s s' = [(cid, ADVENTURE_JOIN_FAILED (JStr pid) join_failed_message)] ∧
        adventure_parties s' = adventure_parties s ∧
        lobby s' = lobby s ∧ battles s' = battles s)).
Proof.
  intros Hreach.
  assert (Hinv := reachable_inv s Hreach).
  assert (Hst := reachable_start_inv s Hreach).
  split; [|split; [|split; [|split]]].
  - intros pid p c now Hp Hw Hkc.
    destruct (inv_party s Hinv pid p Hp) as [_ _ _ Hone _ Hkn].
    specialize (Hone Hw).
    destruct (members p) as [|h [|? ?]] eqn:Hm; simpl in Hone; try lia.
    assert (Hkh : known s h) by (apply Hkn; by left).
    exists h. split; [done|].
    rewrite (join_adventure_party_second pid c now s p h) by done.
    cbn [fst snd]. split; [done|]. split.
    + eexists. cbn [adventure_parties with_outbox with_parties].
      rewrite lookup_insert_eq. by split.
    + unfold sent_since. cbn [outbox with_outbox].
      rewrite drop_app_length, starts_for_app, starts_for_updates, starts_for_starts.
      by rewrite decide_True.
  - intros pid p c now Hp Hact. apply join_adventure_party_refused.
    intros (p0 & Hp0 & _ & Hw)%join_branch_accepted. congruence.
  - intros pid. split; [apply Hst|]. apply Hst.
  - intros ev pid p p' Hp Hact Hp'.
    destruct (settles_step s ev) as [Hn Hset].
    destruct (Hset pid p' Hp') as [(p0 & Hp0 & Hw)|(n & Hlt & ->)].
    + assert (p0 = p) as -> by congruence.
      destruct (state p') eqn:E; [|done]. rewrite Hact in Hw. by specialize (Hw eq_refl).
    + destruct (si_alloc s Hst _ p Hp) as (m & Hm & Heq).
      apply uuid4_inj in Heq. lia.
  - intros cid c data pid p now Hc Hpid Hp. cbv zeta.
    assert (Hid := inv_client_key s Hinv cid c Hc).
    set (cr := dict_get "creature" data (JObj [])).
    set (s1 := upd_client cid (set_creature cr) s).
    assert (Hc1 : clients s1 !! cid = Some (set_creature cr c)).
    { subst s1. unfold upd_client. simpl. by rewrite lookup_alter_eq, Hc. }
    assert (Hk : ∀ k, known s k → known s1 k) by (intros k; by apply known_upd_client).
    split.
    + intros Hw.
      destruct (reachable_hosted s Hreach pid p Hp) as [_ Hhost].
      destruct (inv_party s Hinv pid p Hp) as [_ _ _ Hwait _ Hkn].
      specialize (Hwait Hw).
      assert (Hms : members p = [host p]).
      { destruct (members p) as [|h [|? ?]]; simpl in *; try lia. congruence. }
      split; [done|].
      assert (Hjoin := join_adventure_party_second pid (set_creature cr c) now s1 p (host p)
                         Hp Hw Hms).
      cbv zeta in Hjoin. simpl player_id in Hjoin. rewrite Hid in Hjoin.
      unfold handle_join_adventure. fold cr. fold s1. rewrite Hc1, Hpid, Hjoin.
      * unfold sent_since.
        cbn [state_of outbox send upd_client with_outbox with_clients with_parties
             adventure_parties clients].
        rewrite <- !app_assoc, drop_app_length. simpl. rewrite Hid. done.
      * apply Hk, Hkn. rewrite Hms. by left.
      * apply Hk. by eexists.
    + intros Hact.
      assert (Hno : join_adventure_party pid (set_creature cr c) now s1 = (false, s1)).
      { apply join_adventure_party_refused.
        intros (p0 & Hp0 & _ & Hw)%join_branch_accepted.
        subst s1. simpl in Hp0. congruence. }
      unfold handle_join_adventure. fold cr. fold s1. rewrite Hc1, Hpid, Hno.
      unfold sent_since.
      cbn [state_of outbox send upd_client with_outbox with_clients with_parties
           adventure_parties clients lobby battles s1].
      subst s1. cbn [outbox upd_client with_clients]. by rewrite drop_app_length.
Qed.

Lemma party_activates_once_witness :
  reachable active_room ∧
  sent_since active_room
    (state_of (handle_join_adventure "2" [("party_id", JStr "3")] 9 active_room))
  = [("2", ADVENTURE_JOIN_FAILED (JStr "3") join_failed_message)].
Proof.
  split; [exact active_room_reachable|].
  destruct (party_activates_once active_room active_room_reachable)
    as (_ & _ & _ & _ & Hjoin).
  destruct (Hjoin "2" (new_client "2") [("party_id", JStr "3")] "3"
              (Party "3" "0" ["0"; "1"] [JObj []; JObj []]
                     [JStr "Player_0"; JStr "Player_1"] active 1 2) 9)
    as [_ Hrefused]; [by vm_compute|done|by vm_compute|].
  by destruct (Hrefused eq_refl) as [-> _].
Defined.
